(* ===== verification/_CoqProject ===== *)
-Q . S2P
Prelude.v
Order.v
Ram.v
Addr.v
Slice.v
Utf8.v
Buddy.v
BuddyTerm.v
BuddyTree.v
BuddyRefine.v
BuddyLoops.v
BuddyMerge.v
BuddyInv.v
BuddySpec.v
BuddyTrace.v
BuddyRoom.v
BuddyRam.v
MemInit.v
Sync.v
SyncSeq.v
SyncWeak.v
Machine.v
Kernel.v
Heap.v
FixedVec.v
Vm.v
Sv32.v
PageTable.v
VmSpec.v
PageDrop.v
Context.v
Trap.v
Proc.v
ProcSpec.v
ProcCreate.v
Sched.v
ProcNew.v
Switch.v
Console.v
Boot.v
Main.v
Rounds.v
TrapKernel.v
Witnesses.v
WitnessBoot.v
WitnessHeap.v
WitnessProc.v
WitnessVm.v
