(* ===== verification/Prelude.v ===== *)
(** * OS1K: a verification of the Rust kernel

    The program is the kernel under src/rust/src: a single-address-space RISC-V
    (rv32) kernel that boots on one hart, manages its RAM with a buddy allocator,
    builds sv32 page tables, creates three processes and lets two of them give up
    the processor to each other.  The development models that code as executable
    definitions and proves what it does, from the bits of [next_power_of_two] to
    "abab..." on the console.

    ** How the code is modelled

    Code is a computation [M S A] of this file: from a state [S] to [Ret], [Panic],
    [Hang] or [NoFuel].  [Panic msg s] stands for every [panic!], [assert!], failed
    [expect] or [unwrap], index out of range and, when [overflow_checks] holds,
    arithmetic overflow; the real kernel then prints the message and stays in
    [wfi]: a [panic!] of mem.rs, vm.rs or kernel.rs is the macro of macros.rs, every other
    panic is [core]'s and reported by the panic handler ([core_panics_at] of Console.v).
    [Hang] is a loop nobody can end.  [NoFuel] is a bound of the model used up, and no
    theorem has it as a result.  [usize] is [Z] with the range checked or wrapped at 2^32
    by each operation ([uadd], [usub], ...), according to the class [Profile]: [debug] is a build with overflow checks and [release] one without;
    theorems without an explicit profile hold for both.  Raw memory is [Ram]; a slice
    is a pointer and a length ([Slice]) or, where nothing else reaches its memory, the
    list it holds, indexed by [Z] ([index], [zget], [zset]).

    Loops without a structural argument take fuel: [alloc_fuel] is one more than the
    number of tree nodes, [merge_fuel] 33, one more than the width of a [usize],
    [map_fuel] the number of pages and two; [lower_hex] prints eight digits, which a
    [usize] never exceeds.  [buddy_terminates] proves the first two enough on every
    array, [map_kernel_run] the third.

    ** The parts, bottom up

    - Prelude.v: the monad, machine integers, lists; [safer] compares two profiles.
      Ram.v: bytes, little-endian words, [write_bytes].
    - Addr.v: [PhysAddr], [VirtAddr], [Error] (mem.rs).  Slice.v: the slices and
      references [PhysAddr] makes; Utf8.v: [as_str].
    - Order.v: [find_order], [next_power_of_two] (mem.rs).
    - Buddy.v: [InitialAlloc] and [Memory] (mem.rs), method by method;
      [Memory_new], [Memory_buddy_alloc] with [alloc_loop], [Memory_buddy_free] with
      [merge_loop].  The two methods reach their slices through the class [Store]:
      [list_store] has them as lists, which is what the other theorems use, and
      [ram_store] of BuddyRam.v as bytes and words in memory.  BuddyTree.v is the specification: a tree of blocks with [talloc]
      and [tfree].  BuddyRefine.v, BuddyLoops.v, BuddyMerge.v and BuddyInv.v relate
      the array to the tree ([repr], [mem_inv], [alloc_refines], [free_refines]);
      BuddyTerm.v is independent of them and covers arrays that represent no tree.
      BuddySpec.v, BuddyTrace.v, BuddyRoom.v and MemInit.v state the results.
    - Sync.v: [Mutex], [Once], [OnceCell] (sync.rs).  [Module Spin] and [Module Init]
      are their interleavings over any number of harts; the sequential forms
      ([mutex_lock], [get_or_init], ...) are what one hart runs, where waiting for
      oneself is [Hang].  SyncSeq.v shows them to be the runs in which only one hart
      moves.  SyncWeak.v runs the same methods on a memory with release and
      acquire, where a load may be old and an access to the data may race.
    - Machine.v: registers, CSRs and the instructions of the assembly routines;
      [read_csr!] and [write_csr!] (macros.rs).
    - Kernel.v: the state [Kernel] shared by the code above the allocator: hart,
      the statics [MEMORY] and [PROC_TABLE], firmware calls.  [mem_init],
      [buddy_alloc], [buddy_free] (mem.rs), [phalloc], [phree] (stdlib.rs).  The class
      [HeapSpec] is what the rest of the kernel may rely on, the instance
      [buddy_heap] discharges it.  Heap.v accounts for the bytes a computation takes.
    - FixedVec.v: [FixedVec] (stdlib.rs), its representation in memory through the
      class [Layout]; [owns] is the ownership of a block.
    - Vm.v: [PageTable] (vm.rs).  Sv32.v: the hardware's translation [sv32_walk].
      PageTable.v: the invariant [pt_ok].  VmSpec.v: [PageTable::new] and [map_page];
      PageDrop.v: dropping a table.
    - Context.v: [switch_context] (proc.rs).  Trap.v: [trap_entry], [trap_handler]
      (trap.rs).
    - Proc.v: the process table (proc.rs), fields through the class [ProcLayout];
      [proc_giveup] is the function [give_up].  ProcSpec.v and ProcCreate.v:
      [create_process]; ProcNew.v: [proc::new]; Sched.v and Switch.v: [give_up].
    - Console.v: [sbi_call], [putchar] (sbi.rs), the printing macros (macros.rs).
    - Boot.v, Main.v, Rounds.v: [boot], [kernel_init], [kernel_main] and the two
      process loops (kernel.rs).  TrapKernel.v: a trap while they run.
    - Witnesses.v, WitnessBoot.v, WitnessHeap.v, WitnessProc.v, WitnessVm.v: the theorems applied
      at concrete inputs, with the memory map of src/rust/kernel.ld.

    ** What is proved

    - Allocator, per call: [buddy_alloc_safe], [buddy_alloc_first_fit],
      [buddy_alloc_size], [buddy_free_safe]; errors: [buddy_alloc_refused],
      [buddy_free_refused], [buddy_free_root_panics].  Over runs:
      [buddy_blocks_disjoint], [buddy_free_alloc], [buddy_refines_tree] (the array
      implements the tree), [buddy_in_ram] (and so do the bytes of the
      slices in memory, from [Memory::new] on),
      [buddy_alloc_frugal] (no fragmentation without frees),
      [buddy_terminates], [buddy_profiles_agree].
    - Set-up: [Memory_new_ok], [mem_init_ready], [heap_before_init],
      [next_power_of_two_least].  Text: [as_str_exact].
    - Synchronisation: [mutex_exclusive], [mutex_updates_atomic], [mutex_progress],
      [once_runs_once], [once_exclusive], [once_panic_blocks]; [get_or_init_is_run] and
      [locked_section_is_run] join the sequential forms to the interleavings;
      [mutex_orders_suffice] and [once_orders_suffice] show that the [Ordering]s of the
      code exclude data races and leave nothing but the interleavings, and
      [orders_needed] which of them it takes.
    - Vectors: [FixedVec_new_ok], [FixedVec_index_ok], [FixedVec_get_set],
      [deref_index_ok], [FixedVec_drop_ok], [FixedVec_new_overflow].
    - Page tables, against the hardware's walk: [PageTable_new_ok],
      [map_page_translates]; [PageTable_drop_ok], and [PageTable_lifecycle] from [new] to
      the drop.
    - Processes: [create_process_ok], [new_process_starts], [giveup_switches],
      [giveup_alternates].  Assembly: [switch_context_resumes],
      [trap_entry_transparent], [trap_entry_panics].
    - The whole kernel: [kernel_init_ok], [boot_starts_process_a] and
      [processes_alternate], which composes everything above; [trap_is_fatal], what a
      trap at any moment of that does.

    The page-table theorems ask for [clean], free memory that reads as zero: boot makes
    it so ([kernel_init_ok]), and it stays so until something is dropped, which the kernel
    never does.  Without it a new table can start with stale entries
    ([reused_table_stale]); [PageTable_new_ok] says what holds on any heap.

    The theorems of the upper parts are proved against [HeapSpec] and for any
    struct layout, memory map, code addresses and firmware: these are the classes
    [Layout], [ProcLayout], [Linker], [Symbols] and [Firmware], with [LayoutOk],
    [ProcLayoutOk], [boot_ok] and [main_ok] as what is asked of them.

    ** What is not modelled

    - The C version (src/c) is another program.
    - Rust functions other than the assembly routines are not compiled to
      instructions: their own stack frames, their use of registers and the reads and
      writes of locals do not appear, except in [trap_is_fatal], where what the compiled
      handler leaves below the trap frame is a parameter that must fit the stack.  Between two switches a process of the model
      leaves its stack pointer where it was.
    - The hart's translation is not applied to the kernel's own accesses: every page
      table the kernel installs maps all of its memory to itself
      ([create_process_ok]), so that the addresses are the same.
      [sfence.vma] therefore does nothing.
    - The firmware behind [ecall] is a function of the calls made so far; device-tree
      data is passed on and not read by the code.
    - Nothing in the model raises a trap by itself: [trap_is_fatal] has it happen at any
      instruction of a process.  Interrupts stay disabled and the bits of [sstatus] are
      left out.
    - SyncWeak.v has one atomic byte and the data behind it, as each of the two types
      has; locations of other objects are not part of it.  [spin_loop] is a hint.
    - The kernel's state has the contents of the allocator's slices in place of their
      bytes ([borrowed]); that no other code reaches those bytes is what [&'static mut]
      says, not a theorem. *)
From stdpp Require Export base tactics list numbers gmap strings pretty.
From Stdlib Require Export ZArith Lia.

#[global] Open Scope Z_scope.

(** ** Computations that may panic, hang, or exhaust a loop bound *)

(** What running a piece of kernel code can lead to.  [Panic] is the end of
    every [panic!], [assert!], failed [expect], out-of-range index and, in a
    build with overflow checks, arithmetic overflow: the hart prints the message
    and stays in a [wfi] loop, no destructor runs.  [Hang] is a spin loop whose
    condition nobody can change.  [NoFuel] only says that the bound put on a
    modelled loop was too small. *)
Inductive outcome (S A : Type) : Type :=
  | Ret (a : A) (s : S)
  | Panic (msg : string) (s : S)
  | Hang (s : S)
  | NoFuel.
Arguments Ret {S A} a s.
Arguments Panic {S A} msg s.
Arguments Hang {S A} s.
Arguments NoFuel {S A}.

Definition M (S A : Type) : Type := S → outcome S A.

Definition ret {S A} (a : A) : M S A := λ s, Ret a s.
Definition bind {S A B} (m : M S A) (k : A → M S B) : M S B := λ s,
  match m s with
  | Ret a s' => k a s'
  | Panic msg s' => Panic msg s'
  | Hang s' => Hang s'
  | NoFuel => NoFuel
  end.
Definition panic {S A} (msg : string) : M S A := λ s, Panic msg s.
Definition hang {S A} : M S A := λ s, Hang s.
Definition no_fuel {S A} : M S A := λ _, NoFuel.
Definition gets {S A} (f : S → A) : M S A := λ s, Ret (f s) s.
Definition modify {S} (f : S → S) : M S () := λ s, Ret tt (f s).

(** Rust's [Result] and [Option::expect] / [Result::unwrap]. *)
Inductive result (A E : Type) : Type := Ok (a : A) | Err (e : E).
Arguments Ok {A E} a.
Arguments Err {A E} e.

Definition expect {S A} (o : option A) (msg : string) : M S A :=
  match o with Some a => ret a | None => panic msg end.
Definition unwrap {S A E} (r : result A E) (msg : E → string) : M S A :=
  match r with Ok a => ret a | Err e => panic (msg e) end.
(** Formatted numbers: [{}] and [{:x}] of a [usize], which has at most eight
    hexadecimal digits. *)
Definition decimal (n : Z) : string := pretty n.
Definition hex_digit (d : Z) : string :=
  match d with
  | 0 => "0" | 1 => "1" | 2 => "2" | 3 => "3" | 4 => "4" | 5 => "5" | 6 => "6" | 7 => "7"
  | 8 => "8" | 9 => "9" | 10 => "a" | 11 => "b" | 12 => "c" | 13 => "d" | 14 => "e" | _ => "f"
  end.
Fixpoint hex_digits (fuel : nat) (n : Z) (acc : string) : string :=
  match fuel with
  | O => acc
  | S fuel =>
    let acc := (hex_digit (n mod 16) +:+ acc)%string in
    if n / 16 =? 0 then acc else hex_digits fuel (n / 16) acc
  end.
Definition lower_hex (n : Z) : string := hex_digits 8 n "".

Definition assert {S} (b : bool) (msg : string) : M S () :=
  if b then ret tt else panic msg.

Declare Scope rust_scope.
Delimit Scope rust_scope with rust.
Notation "'let!' x ':=' m 'in' k" := (bind m (λ x, k))
  (at level 10, x name, m at level 100, k at level 200) : rust_scope.
Notation "m ';;!' k" := (bind m (λ _, k))
  (at level 100, k at level 200, right associativity) : rust_scope.
#[global] Open Scope rust_scope.

(** Running code on a part of the state: [view]/[put] is a lens. *)
Definition zoom {S T A} (view : S → T) (put : T → S → S) (m : M T A) : M S A := λ s,
  match m (view s) with
  | Ret a t => Ret a (put t s)
  | Panic msg t => Panic msg (put t s)
  | Hang t => Hang (put t s)
  | NoFuel => NoFuel
  end.

(** Running code on a [mut] local variable: its final value is part of the result. *)
Definition local {S T A} (m : M T A) (t : T) : M S (A * T) := λ s,
  match m t with
  | Ret a t' => Ret (a, t') s
  | Panic msg _ => Panic msg s
  | Hang _ => Hang s
  | NoFuel => NoFuel
  end.

(** ** Machine integers: [usize] and [isize] are 32 bits wide on riscv32imac *)

Abbreviation USIZE_MAX := 4294967295.
Abbreviation USIZE_MOD := 4294967296.
Abbreviation ISIZE_MAX := 2147483647.
Abbreviation ISIZE_HALF := 2147483648.

(** The two ways cargo builds the kernel: [debug] compiles overflow checks in,
    [release] (what the runner in .cargo/config.toml starts) wraps. *)
Class Profile := overflow_checks : bool.

Definition usize_ok (x : Z) : bool := (0 <=? x) && (x <=? USIZE_MAX).
Definition isize_ok (x : Z) : bool := (- ISIZE_HALF <=? x) && (x <=? ISIZE_MAX).
Definition wrap (x : Z) : Z := x mod USIZE_MOD.
Definition iwrap (x : Z) : Z := (x + ISIZE_HALF) mod USIZE_MOD - ISIZE_HALF.

Section arith.
Context `{Profile} {S : Type}.

Definition usize (msg : string) (x : Z) : M S Z :=
  if usize_ok x then ret x else if overflow_checks then panic msg else ret (wrap x).
Definition isize (msg : string) (x : Z) : M S Z :=
  if isize_ok x then ret x else if overflow_checks then panic msg else ret (iwrap x).

Definition uadd (a b : Z) : M S Z := usize "attempt to add with overflow" (a + b).
Definition usub (a b : Z) : M S Z := usize "attempt to subtract with overflow" (a - b).
Definition umul (a b : Z) : M S Z := usize "attempt to multiply with overflow" (a * b).
Definition iadd (a b : Z) : M S Z := isize "attempt to add with overflow" (a + b).
Definition isub (a b : Z) : M S Z := isize "attempt to subtract with overflow" (a - b).
Definition udiv (a b : Z) : M S Z :=
  if b =? 0 then panic "attempt to divide by zero" else ret (a / b).
Definition urem (a b : Z) : M S Z :=
  if b =? 0 then panic "attempt to calculate the remainder with a divisor of zero"
  else ret (a mod b).
(** [2_usize.pow(e)]. *)
Definition upow2 (e : Z) : M S Z := usize "attempt to multiply with overflow" (2 ^ e).
(** [1 << e]: an unchecked shift uses the low five bits of the amount. *)
Definition ushl1 (e : Z) : M S Z :=
  if (0 <=? e) && (e <? 32) then ret (2 ^ e)
  else if overflow_checks then panic "attempt to shift left with overflow"
  else ret (2 ^ (e mod 32)).
End arith.

(** Number of trailing zero bits of a [usize] ([usize::trailing_zeros]; 32 at 0). *)
Fixpoint ctz_pos (p : positive) : Z :=
  match p with xO q => 1 + ctz_pos q | _ => 0 end.
Definition trailing_zeros (n : Z) : Z :=
  match n with Zpos p => ctz_pos p | _ => 32 end.

(** ** Slices indexed by [usize] *)

Definition zlen {A} (l : list A) : Z := Z.of_nat (length l).
Definition in_bounds {A} (l : list A) (i : Z) : bool := (0 <=? i) && (i <? zlen l).
Definition zget {A} (l : list A) (i : Z) : option A :=
  if in_bounds l i then l !! Z.to_nat i else None.
Definition zset {A} (i : Z) (x : A) (l : list A) : list A :=
  if in_bounds l i then <[Z.to_nat i := x]> l else l.

(** [v[i]] and [v[i] = x] of a slice: both panic out of range. *)
Definition index {S A} (l : list A) (i : Z) : M S A :=
  expect (zget l i) "index out of bounds".

(** [for i in start..start + n]. *)
Fixpoint for_range {S} (n : nat) (start : Z) (body : Z → M S ()) : M S () :=
  match n with
  | O => ret tt
  | S n => body start;;! for_range n (start + 1) body
  end.

(** ** Facts about the monad and the tactic that runs straight-line code *)

Section monad_facts.
Context {S : Type}.

Lemma bind_Ret {A B} (m : M S A) (k : A → M S B) s a s' :
  m s = Ret a s' → bind m k s = k a s'.
Proof. unfold bind. by intros ->. Qed.
Lemma bind_Panic {A B} (m : M S A) (k : A → M S B) s msg s' :
  m s = Panic msg s' → bind m k s = Panic msg s'.
Proof. unfold bind. by intros ->. Qed.
Lemma bind_Hang {A B} (m : M S A) (k : A → M S B) s s' :
  m s = Hang s' → bind m k s = Hang s'.
Proof. unfold bind. by intros ->. Qed.
Lemma ret_run {A} (a : A) (s : S) : ret a s = Ret a s.
Proof. done. Qed.
Lemma gets_run {A} (f : S → A) s : gets f s = Ret (f s) s.
Proof. done. Qed.
Lemma modify_run (f : S → S) s : modify f s = Ret tt (f s).
Proof. done. Qed.
Lemma assert_run (b : bool) msg (s : S) : b = true → assert b msg s = Ret tt s.
Proof. by intros ->. Qed.
Lemma expect_run {A} (a : A) o msg (s : S) : o = Some a → expect o msg s = Ret a s.
Proof. by intros ->. Qed.
Lemma unwrap_run {A E} (a : A) (r : result A E) msg (s : S) :
  r = Ok a → unwrap r msg s = Ret a s.
Proof. by intros ->. Qed.
End monad_facts.

Section arith_facts.
Context `{Profile} {S : Type}.
Implicit Type s : S.

Lemma usize_run msg x s : 0 ≤ x ≤ USIZE_MAX → usize msg x s = Ret x s.
Proof.
  intros Hx. unfold usize, usize_ok.
  rewrite (proj2 (Z.leb_le 0 x)), (proj2 (Z.leb_le x USIZE_MAX)) by lia. done.
Qed.
Lemma isize_run msg x s : - ISIZE_HALF ≤ x ≤ ISIZE_MAX → isize msg x s = Ret x s.
Proof.
  intros Hx. unfold isize, isize_ok.
  rewrite (proj2 (Z.leb_le _ x)), (proj2 (Z.leb_le x _)) by lia. done.
Qed.
Lemma uadd_run a b s : 0 ≤ a + b ≤ USIZE_MAX → uadd a b s = Ret (a + b) s.
Proof. apply usize_run. Qed.
Lemma usub_run a b s : 0 ≤ a - b ≤ USIZE_MAX → usub a b s = Ret (a - b) s.
Proof. apply usize_run. Qed.
Lemma umul_run a b s : 0 ≤ a * b ≤ USIZE_MAX → umul a b s = Ret (a * b) s.
Proof. apply usize_run. Qed.
Lemma iadd_run a b s : - ISIZE_HALF ≤ a + b ≤ ISIZE_MAX → iadd a b s = Ret (a + b) s.
Proof. apply isize_run. Qed.
Lemma isub_run a b s : - ISIZE_HALF ≤ a - b ≤ ISIZE_MAX → isub a b s = Ret (a - b) s.
Proof. apply isize_run. Qed.
Lemma udiv_run a b s : b ≠ 0 → udiv a b s = Ret (a / b) s.
Proof. intros Hb. unfold udiv. by rewrite (proj2 (Z.eqb_neq b 0) Hb). Qed.
Lemma urem_run a b s : b ≠ 0 → urem a b s = Ret (a mod b) s.
Proof. intros Hb. unfold urem. by rewrite (proj2 (Z.eqb_neq b 0) Hb). Qed.
Lemma upow2_run e s : 0 ≤ e < 32 → upow2 e s = Ret (2 ^ e) s.
Proof.
  intros He. apply usize_run. split; [lia|].
  assert (2 ^ e ≤ 2 ^ 31) by (apply Z.pow_le_mono_r; lia). lia.
Qed.
Lemma ushl1_run e s : 0 ≤ e < 32 → ushl1 e s = Ret (2 ^ e) s.
Proof.
  intros He. unfold ushl1.
  rewrite (proj2 (Z.leb_le 0 e)), (proj2 (Z.ltb_lt e 32)) by lia. done.
Qed.
End arith_facts.

Lemma index_run {S A} (l : list A) i x (s : S) : zget l i = Some x → index l i s = Ret x s.
Proof. apply expect_run. Qed.

(** [exec] holds one lemma per primitive, of the form [m s = Ret a s']; [run]
    executes the head of a [bind] with it, side conditions going to [lia]. *)
Create HintDb exec discriminated.
#[export] Hint Resolve ret_run gets_run modify_run assert_run expect_run unwrap_run
  uadd_run usub_run umul_run iadd_run isub_run udiv_run urem_run upow2_run ushl1_run
  index_run : exec.
#[export] Hint Extern 1 (_ ≤ _ ≤ _) => lia : exec.
#[export] Hint Extern 1 (_ ≤ _ < _) => lia : exec.
#[export] Hint Extern 1 (@eq Z _ _ → False) => lia : exec.
#[export] Hint Extern 1 (¬ (@eq Z _ _)) => lia : exec.

Ltac run1 := erewrite bind_Ret by (solve [eauto with exec]); cbv beta.
Ltac run := repeat run1.

(** ** Build profiles *)

Definition debug : Profile := true.
Definition release : Profile := false.

(** [safer m1 m2]: [m1] panics or does exactly what [m2] does.  Code compiled
    with overflow checks is safer than the same code without. *)
Definition safer {S A} (m1 m2 : M S A) : Prop :=
  ∀ s, (∃ msg s', m1 s = Panic msg s') ∨ m1 s = m2 s.

Section safer_facts.
Context {S : Type}.

Lemma safer_refl {A} (m : M S A) : safer m m.
Proof. intros s. by right. Qed.
Lemma safer_bind {A B} (m1 m2 : M S A) (k1 k2 : A → M S B) :
  safer m1 m2 → (∀ a, safer (k1 a) (k2 a)) → safer (bind m1 k1) (bind m2 k2).
Proof.
  intros Hm Hk s. unfold bind. destruct (Hm s) as [(msg & s' & Hp)|Heq].
  - left. exists msg, s'. by rewrite Hp.
  - rewrite Heq. destruct (m2 s); [apply Hk|by right..].
Qed.
Lemma safer_if {A} (b : bool) (m1 m2 n1 n2 : M S A) :
  safer m1 m2 → safer n1 n2 → safer (if b then m1 else n1) (if b then m2 else n2).
Proof. by destruct b. Qed.
Lemma safer_usize msg x : safer (@usize debug S msg x) (@usize release S msg x).
Proof.
  intros s. unfold usize. destruct (usize_ok x); [by right|]. left. by eexists _, _.
Qed.
Lemma safer_isize msg x : safer (@isize debug S msg x) (@isize release S msg x).
Proof.
  intros s. unfold isize. destruct (isize_ok x); [by right|]. left. by eexists _, _.
Qed.
Lemma safer_ushl1 e : safer (@ushl1 debug S e) (@ushl1 release S e).
Proof.
  intros s. unfold ushl1. destruct ((0 <=? e) && (e <? 32)); [by right|].
  left. by eexists _, _.
Qed.
Lemma safer_zoom {T A} (view : S → T) put (m1 m2 : M T A) :
  safer m1 m2 → safer (zoom view put m1) (zoom view put m2).
Proof.
  intros Hm s. unfold zoom. destruct (Hm (view s)) as [(msg & t & ->)| ->];
    [left; by eexists _, _|by right].
Qed.
Lemma safer_local {T A} (m1 m2 : M T A) t :
  safer m1 m2 → safer (S := S) (local m1 t) (local m2 t).
Proof.
  intros Hm s. unfold local. destruct (Hm t) as [(msg & t' & ->)| ->];
    [left; by eexists _, _|by right].
Qed.
Lemma safer_run {A} (m1 m2 : M S A) s a s' :
  safer m1 m2 → m1 s = Ret a s' → m2 s = Ret a s'.
Proof. intros Hm Ha. destruct (Hm s) as [(msg & s1 & Hp)|Heq]; congruence. Qed.
End safer_facts.

(** [safer] for a whole body, following its syntax; the database holds the facts
    about the functions it calls. *)
Create HintDb safer discriminated.
Ltac safer_step :=
  first
    [ apply safer_bind; [|intros ?]
    | match goal with |- safer (match ?x with _ => _ end) _ => destruct x end
    | apply safer_usize | apply safer_isize | apply safer_ushl1
    | apply safer_zoom | apply safer_local
    | solve [auto 2 with safer nocore]
    | apply safer_refl ].
Ltac safer_body := repeat (cbv zeta; safer_step).

(** ** Facts about slices *)

Section slice_facts.
Context {A : Type}.
Implicit Types (l : list A) (i j : Z).

Lemma in_bounds_spec l i : in_bounds l i = true ↔ 0 ≤ i < zlen l.
Proof. unfold in_bounds. rewrite andb_true_iff, Z.leb_le, Z.ltb_lt. done. Qed.
Lemma zget_in l i : 0 ≤ i < zlen l → zget l i = l !! Z.to_nat i.
Proof. intros Hi%in_bounds_spec. unfold zget. by rewrite Hi. Qed.
Lemma zget_None l i : ¬ (0 ≤ i < zlen l) → zget l i = None.
Proof. rewrite <- in_bounds_spec, not_true_iff_false. unfold zget. by intros ->. Qed.
Lemma zget_Some l i x : zget l i = Some x → 0 ≤ i < zlen l.
Proof.
  intros Hx. apply in_bounds_spec. unfold zget in Hx. by destruct (in_bounds l i).
Qed.
Lemma zget_lt l i : 0 ≤ i < zlen l → is_Some (zget l i).
Proof.
  intros Hi. rewrite zget_in by done. apply lookup_lt_is_Some. unfold zlen in Hi. lia.
Qed.
Lemma zlen_zset l i x : zlen (zset i x l) = zlen l.
Proof. unfold zset, zlen. destruct (in_bounds l i); [|done]. by rewrite length_insert. Qed.
Lemma zget_zset_eq l i x : 0 ≤ i < zlen l → zget (zset i x l) i = Some x.
Proof.
  intros Hi. rewrite zget_in by (by rewrite zlen_zset). unfold zset.
  rewrite (proj2 (in_bounds_spec l i) Hi). unfold zlen in Hi.
  apply list_lookup_insert_eq. lia.
Qed.
Lemma zget_zset_ne l i j x : i ≠ j → zget (zset i x l) j = zget l j.
Proof.
  intros Hne. destruct (decide (0 ≤ j < zlen l)) as [Hj|Hj];
    [|by rewrite !zget_None by (by rewrite ?zlen_zset)].
  rewrite !zget_in by (by rewrite ?zlen_zset). unfold zset.
  destruct (in_bounds l i) eqn:Hi; [|done].
  apply list_lookup_insert_ne. apply in_bounds_spec in Hi. lia.
Qed.
Lemma zset_same l i x : zget l i = Some x → zset i x l = l.
Proof.
  intros Hx. unfold zset. destruct (in_bounds l i) eqn:Hi; [|done].
  apply list_insert_id. unfold zget in Hx. by rewrite Hi in Hx.
Qed.
Lemma zlen_nonneg l : 0 ≤ zlen l.
Proof. unfold zlen. lia. Qed.
Lemma zget_ext l1 l2 : (∀ i, 0 ≤ i → zget l1 i = zget l2 i) → l1 = l2.
Proof.
  intros Heq. assert (∀ l (k : nat), zget l (Z.of_nat k) = l !! k) as Hz.
  { intros l k. destruct (decide (Z.of_nat k < zlen l)) as [Hi|Hi].
    - rewrite zget_in by lia. by rewrite Nat2Z.id.
    - rewrite zget_None by lia. symmetry. apply lookup_ge_None. unfold zlen in Hi. lia. }
  apply list_eq. intros k. rewrite <- !Hz. apply Heq. lia.
Qed.
Lemma zget_replicate n (x : A) i : 0 ≤ i < Z.of_nat n → zget (replicate n x) i = Some x.
Proof.
  intros Hi. rewrite zget_in by (unfold zlen; rewrite length_replicate; lia).
  apply lookup_replicate_2. lia.
Qed.
Lemma zlen_replicate n (x : A) : zlen (replicate n x) = Z.of_nat n.
Proof. unfold zlen. by rewrite length_replicate. Qed.
End slice_facts.
Create Rewrite HintDb zlist.
#[export] Hint Rewrite @zlen_zset @zlen_replicate : zlist.

(** ** Powers of two *)

(** Depths and heights of the buddy tree are naturals; sizes are [Z]. *)
Definition pow2 (n : nat) : Z := 2 ^ Z.of_nat n.

Lemma pow2_0 : pow2 0 = 1.
Proof. done. Qed.
Lemma pow2_S n : pow2 (S n) = 2 * pow2 n.
Proof. unfold pow2. rewrite Nat2Z.inj_succ, Z.pow_succ_r by lia. done. Qed.
Lemma pow2_pos n : 0 < pow2 n.
Proof. unfold pow2. apply Z.pow_pos_nonneg; lia. Qed.
Lemma pow2_add n m : pow2 (n + m) = pow2 n * pow2 m.
Proof. unfold pow2. rewrite Nat2Z.inj_add, Z.pow_add_r by lia. done. Qed.
Lemma pow2_mono n m : (n ≤ m)%nat → pow2 n ≤ pow2 m.
Proof. intros ?. unfold pow2. apply Z.pow_le_mono_r; lia. Qed.
Lemma pow2_gt n : Z.of_nat n < pow2 n.
Proof. induction n as [|n IH]; [done|]. rewrite pow2_S. lia. Qed.

Lemma trailing_zeros_pow2 n : trailing_zeros (pow2 n) = Z.of_nat n.
Proof.
  induction n as [|n IH]; [done|].
  rewrite pow2_S. pose proof (pow2_pos n) as Hp.
  rewrite Nat2Z.inj_succ, <- IH. destruct (pow2 n) as [|p|p]; [lia| |lia].
  change (trailing_zeros (2 * Z.pos p)) with (1 + ctz_pos p). simpl. lia.
Qed.
