(* ===== verification/Order.v ===== *)
(** * Order arithmetic of the buddy allocator: [find_order] and
    [next_power_of_two] of src/rust/src/mem.rs.

    Both are pure functions of a [usize].  [find_order] is the floor of the
    binary logarithm of [n + 1]; [next_power_of_two] is the usual bit-smearing
    loop, unrolled.  The lemmas show that the smearing computes the least power
    of two that is not below its argument. *)
From S2P Require Import Prelude.

(** [size_of::<usize>() * 8] is 32 on the kernel's target. *)
Definition find_order (n : Z) : Z :=
  if n =? USIZE_MAX then 4 * 8 else Z.log2 (n + 1).

(** The 64-bit step is compiled out on this target. *)
Definition next_power_of_two (n : Z) : option Z :=
  if n =? 0 then Some 1
  else if USIZE_MAX / 2 + 1 <? n then None
  else
    let x := n - 1 in
    let x := Z.lor x (Z.shiftr x 1) in
    let x := Z.lor x (Z.shiftr x 2) in
    let x := Z.lor x (Z.shiftr x 4) in
    let x := Z.lor x (Z.shiftr x 8) in
    let x := Z.lor x (Z.shiftr x 16) in
    Some (x + 1).

(** ** [find_order] *)

Lemma find_order_node (l : nat) p :
  (l < 32)%nat → 0 ≤ p < pow2 l → find_order (pow2 l - 1 + p) = Z.of_nat l.
Proof.
  intros Hl Hp. unfold find_order.
  assert (pow2 (S l) ≤ pow2 32) as Hle by (apply pow2_mono; lia).
  rewrite pow2_S in Hle. change (pow2 32) with USIZE_MOD in Hle.
  destruct (Z.eqb_spec (pow2 l - 1 + p) USIZE_MAX) as [Heq|_].
  - (* only the last node of level 31 would be USIZE_MAX *)
    exfalso. lia.
  - apply Z.log2_unique; [lia|]. fold (pow2 l).
    replace (2 ^ Z.succ (Z.of_nat l)) with (pow2 (S l)); [rewrite pow2_S; lia|].
    unfold pow2. f_equal. lia.
Qed.

Lemma find_order_pow2 (k : nat) : (1 ≤ k < 32)%nat → find_order (pow2 k) = Z.of_nat k.
Proof.
  intros Hk. replace (pow2 k) with (pow2 k - 1 + 1) by lia.
  apply find_order_node; [lia|]. split; [lia|].
  apply Z.lt_le_trans with (pow2 1); [done|]. apply pow2_mono; lia.
Qed.

Lemma find_order_log2 n : 1 ≤ n < USIZE_MAX → ¬ (∃ k : nat, n + 1 = pow2 k) → find_order n = Z.log2 n.
Proof.
  intros Hn Hk. unfold find_order. rewrite (proj2 (Z.eqb_neq n USIZE_MAX)) by lia.
  destruct (Z.log2_succ_or n) as [Heq|Heq].
  - exfalso. apply Hk. exists (Z.to_nat (Z.succ (Z.log2 n))).
    unfold pow2. pose proof (Z.log2_nonneg n). rewrite Z2Nat.id by lia.
    apply Z.le_antisymm.
    + pose proof (Z.log2_spec n ltac:(lia)). lia.
    + rewrite <- Heq. pose proof (Z.log2_spec (Z.succ n) ltac:(lia)). lia.
  - exact Heq.
Qed.

(** ** [next_power_of_two] *)

(** [y] has bit [j] exactly when [x] has a bit among [j .. j + w - 1]. *)
Definition smeared (w x y : Z) : Prop :=
  ∀ j, 0 ≤ j → Z.testbit y j = true ↔ ∃ b, 0 ≤ b < w ∧ Z.testbit x (j + b) = true.

Lemma smeared_1 x : smeared 1 x x.
Proof.
  intros j Hj. split.
  - intros Hx. exists 0. split; [lia|]. by rewrite Z.add_0_r.
  - intros (b & Hb & Hx). by replace (j + b) with j in Hx by lia.
Qed.

Lemma smeared_double w x y :
  0 < w → smeared w x y → smeared (2 * w) x (Z.lor y (Z.shiftr y w)).
Proof.
  intros Hw Hs j Hj. rewrite Z.lor_spec, Z.shiftr_spec, orb_true_iff by lia.
  rewrite (Hs j), (Hs (j + w)) by lia. split.
  - intros [(b & Hb & Hx)|(b & Hb & Hx)].
    + exists b. split; [lia|done].
    + exists (w + b). split; [lia|]. by rewrite Z.add_assoc.
  - intros (b & Hb & Hx). destruct (Z.lt_ge_cases b w).
    + left. exists b. split; [lia|done].
    + right. exists (b - w). split; [lia|]. by replace (j + w + (b - w)) with (j + b) by lia.
Qed.

Lemma smeared_full x y :
  0 < x < USIZE_MOD → 0 ≤ y → smeared 32 x y → y = Z.ones (Z.log2 x + 1).
Proof.
  intros Hx Hy Hs. pose proof (Z.log2_nonneg x) as Hl.
  assert (Z.log2 x < 32) as Hl32 by (apply Z.log2_lt_pow2; lia).
  apply Z.bits_inj'. intros j Hj. rewrite Z.testbit_ones_nonneg by lia.
  apply eq_true_iff_eq. rewrite (Hs j Hj), Z.ltb_lt. split.
  - intros (b & Hb & Hbit). destruct (Z.lt_ge_cases (Z.log2 x) (j + b)); [|lia].
    by rewrite Z.bits_above_log2 in Hbit by lia.
  - intros Hjl. exists (Z.log2 x - j). split; [lia|].
    replace (j + (Z.log2 x - j)) with (Z.log2 x) by lia. apply Z.bit_log2. lia.
Qed.

Lemma smear_spec x :
  0 < x < USIZE_MOD →
  let x1 := Z.lor x (Z.shiftr x 1) in
  let x2 := Z.lor x1 (Z.shiftr x1 2) in
  let x3 := Z.lor x2 (Z.shiftr x2 4) in
  let x4 := Z.lor x3 (Z.shiftr x3 8) in
  Z.lor x4 (Z.shiftr x4 16) = 2 ^ (Z.log2 x + 1) - 1.
Proof.
  intros Hx x1 x2 x3 x4. rewrite Z.sub_1_r, <- Z.ones_equiv.
  assert (∀ a w, 0 ≤ a → 0 ≤ Z.lor a (Z.shiftr a w)) as Hnn.
  { intros a w Ha. apply Z.lor_nonneg. split; [done|]. by apply Z.shiftr_nonneg. }
  apply smeared_full; [done|..].
  - repeat apply Hnn. lia.
  - apply (smeared_double 16); [done|]. apply (smeared_double 8); [done|].
    apply (smeared_double 4); [done|]. apply (smeared_double 2); [done|].
    apply (smeared_double 1); [done|]. apply smeared_1.
Qed.

(** The bit smearing is the ceiling of the binary logarithm. *)
Lemma next_power_of_two_log2_up n :
  1 ≤ n ≤ ISIZE_HALF → next_power_of_two n = Some (2 ^ Z.log2_up n).
Proof.
  intros Hn. unfold next_power_of_two.
  rewrite (proj2 (Z.eqb_neq n 0)) by lia.
  rewrite (proj2 (Z.ltb_ge (USIZE_MAX / 2 + 1) n)) by (change (USIZE_MAX / 2 + 1) with ISIZE_HALF; lia).
  destruct (Z.eq_dec n 1) as [->|]; [done|]. cbv zeta.
  rewrite smear_spec by lia. unfold Z.log2_up.
  rewrite (proj2 (Z.compare_lt_iff 1 n)) by lia.
  by rewrite Z.sub_add, Z.sub_1_r, Z.add_1_r.
Qed.

Lemma next_power_of_two_pow2 n :
  1 ≤ n ≤ ISIZE_HALF →
  ∃ k : nat, next_power_of_two n = Some (pow2 k) ∧ n ≤ pow2 k < 2 * n ∧ (k ≤ 31)%nat.
Proof.
  intros Hn. exists (Z.to_nat (Z.log2_up n)). rewrite next_power_of_two_log2_up by done.
  pose proof (Z.log2_up_nonneg n) as Hnn. unfold pow2. rewrite Z2Nat.id by done.
  assert (Z.log2_up n ≤ 31) as Hle by (change 31 with (Z.log2_up ISIZE_HALF); apply Z.log2_up_le_mono; lia).
  split; [done|]. split; [|lia].
  destruct (Z.eq_dec n 1) as [->|]; [done|].
  pose proof (Z.log2_up_spec n ltac:(lia)) as Hsp.
  assert (0 < Z.log2_up n) by (apply Z.log2_up_pos; lia).
  split; [lia|]. rewrite <- (Z.succ_pred (Z.log2_up n)), Z.pow_succ_r by lia. lia.
Qed.
