(* ===== verification/Ram.v ===== *)
(** * Physical memory: bytes at [usize] addresses.

    The kernel reads and writes memory through raw pointers and slices.  Memory
    is a finite map from addresses to bytes; an address without an entry holds
    zero, so that zeroing a region is a deletion and stays executable for the
    64 MB the kernel clears at boot.  Words are little endian. *)
From S2P Require Import Prelude.

Abbreviation Ram := (gmap Z Z).

Definition load8 (r : Ram) (a : Z) : Z := default 0 (r !! a).
Definition store8 (a b : Z) (r : Ram) : Ram := <[a := b]> r.

Definition load32 (r : Ram) (a : Z) : Z :=
  load8 r a + 256 * (load8 r (a + 1) + 256 * (load8 r (a + 2) + 256 * load8 r (a + 3))).
Definition store32 (a w : Z) (r : Ram) : Ram :=
  store8 (a + 3) (w / 16777216 mod 256)
    (store8 (a + 2) (w / 65536 mod 256)
      (store8 (a + 1) (w / 256 mod 256)
        (store8 a (w mod 256) r))).

(** [ptr::write_bytes(a, v, len)] on a [*mut u8]. *)
Definition write_bytes (a v len : Z) (r : Ram) : Ram :=
  if v =? 0 then filter (λ kv, ¬ (a ≤ kv.1 < a + len)) r
  else foldr (λ k, store8 k v) r (seqZ a len).

Definition ram_ok (r : Ram) : Prop := ∀ a, 0 ≤ load8 r a < 256.

Section ram_facts.
Implicit Types (r : Ram) (a b w : Z).

Lemma load8_store8_eq r a b : load8 (store8 a b r) a = b.
Proof. unfold load8, store8. by rewrite lookup_insert_eq. Qed.
Lemma load8_store8_ne r a a' b : a ≠ a' → load8 (store8 a b r) a' = load8 r a'.
Proof. intros. unfold load8, store8. by rewrite lookup_insert_ne. Qed.

Lemma load8_store32_ne r a a' w :
  ¬ (a ≤ a' < a + 4) → load8 (store32 a w r) a' = load8 r a'.
Proof. intros. unfold store32. by rewrite !load8_store8_ne by lia. Qed.

Lemma load32_store32_eq r a w : 0 ≤ w < USIZE_MOD → load32 (store32 a w r) a = w.
Proof.
  intros Hw. unfold load32.
  assert (load8 (store32 a w r) a = w mod 256) as ->
    by (unfold store32; rewrite !load8_store8_ne by lia; apply load8_store8_eq).
  assert (load8 (store32 a w r) (a + 1) = w / 256 mod 256) as ->
    by (unfold store32; rewrite !load8_store8_ne by lia; apply load8_store8_eq).
  assert (load8 (store32 a w r) (a + 2) = w / 65536 mod 256) as ->
    by (unfold store32; rewrite !load8_store8_ne by lia; apply load8_store8_eq).
  assert (load8 (store32 a w r) (a + 3) = w / 16777216 mod 256) as ->
    by apply load8_store8_eq.
  rewrite (Z.mod_small (w / 16777216) 256) by
    (split; [apply Z.div_pos; lia|apply Z.div_lt_upper_bound; lia]).
  replace (w / 65536) with (w / 256 / 256) by (rewrite Z.div_div by lia; done).
  replace (w / 16777216) with (w / 256 / 256 / 256) by (rewrite !Z.div_div by lia; done).
  pose proof (Z.div_mod w 256 ltac:(lia)). pose proof (Z.div_mod (w / 256) 256 ltac:(lia)).
  pose proof (Z.div_mod (w / 256 / 256) 256 ltac:(lia)). lia.
Qed.

Lemma load32_store32_ne r a a' w :
  a' + 4 ≤ a ∨ a + 4 ≤ a' → load32 (store32 a w r) a' = load32 r a'.
Proof. intros. unfold load32. by rewrite !load8_store32_ne by lia. Qed.

Lemma load8_foldr_store8 r v (l : list Z) a :
  load8 (foldr (λ k, store8 k v) r l) a = if decide (a ∈ l) then v else load8 r a.
Proof.
  induction l as [|k l IH]; cbn [foldr]; [by rewrite decide_False by set_solver|].
  destruct (decide (k = a)) as [->|Hne].
  - rewrite load8_store8_eq, decide_True by set_solver. done.
  - rewrite load8_store8_ne, IH by done.
    destruct (decide (a ∈ l)); [rewrite decide_True by set_solver|rewrite decide_False by set_solver]; done.
Qed.

Lemma load8_write_bytes r a v len a' :
  load8 (write_bytes a v len r) a' =
  if decide (a ≤ a' < a + len) then v else load8 r a'.
Proof.
  unfold write_bytes. destruct (Z.eqb_spec v 0) as [->|_].
  - unfold load8. rewrite map_lookup_filter. simpl.
    destruct (r !! a') as [x|]; simpl; [|by case_decide].
    destruct (decide (a ≤ a' < a + len)).
    + by rewrite option_guard_False by tauto.
    + by rewrite option_guard_True by tauto.
  - rewrite load8_foldr_store8. do 2 case_decide; try done.
    + by rewrite elem_of_seqZ in *.
    + by rewrite elem_of_seqZ in *.
Qed.

Lemma load32_ext r r' a :
  (∀ b, a ≤ b < a + 4 → load8 r' b = load8 r b) → load32 r' a = load32 r a.
Proof. intros Hb. unfold load32. by rewrite !Hb by lia. Qed.

Lemma load32_write_bytes_0 r a len a' :
  a ≤ a' → a' + 4 ≤ a + len → load32 (write_bytes a 0 len r) a' = 0.
Proof. intros. unfold load32. rewrite !load8_write_bytes, !decide_True by lia. done. Qed.

Lemma load32_write_bytes_ne r a v len a' :
  a' + 4 ≤ a ∨ a + len ≤ a' → load32 (write_bytes a v len r) a' = load32 r a'.
Proof. intros. unfold load32. rewrite !load8_write_bytes, !decide_False by lia. done. Qed.

Lemma load32_range r a : ram_ok r → 0 ≤ load32 r a < USIZE_MOD.
Proof.
  intros Hr. unfold load32. pose proof (Hr a). pose proof (Hr (a + 1)).
  pose proof (Hr (a + 2)). pose proof (Hr (a + 3)). lia.
Qed.

Lemma ram_ok_store8 r a b : ram_ok r → 0 ≤ b < 256 → ram_ok (store8 a b r).
Proof.
  intros Hr Hb a'. destruct (decide (a = a')) as [->|];
    [by rewrite load8_store8_eq|by rewrite load8_store8_ne].
Qed.
Lemma ram_ok_store32 r a w : ram_ok r → ram_ok (store32 a w r).
Proof.
  intros Hr. unfold store32.
  repeat apply ram_ok_store8; try done; apply Z.mod_pos_bound; lia.
Qed.
Lemma ram_ok_write_bytes r a v len : ram_ok r → 0 ≤ v < 256 → ram_ok (write_bytes a v len r).
Proof. intros Hr Hv a'. rewrite load8_write_bytes. case_decide; auto. Qed.
Lemma ram_ok_empty : ram_ok ∅.
Proof. intros a. unfold load8. by rewrite lookup_empty. Qed.
End ram_facts.
