(* ===== verification/Addr.v ===== *)
(** * Physical and virtual addresses: [PhysAddr], [VirtAddr] and [Error] of
    src/rust/src/mem.rs. *)
From S2P Require Import Prelude.

Definition PAGE_SIZE : Z := 4096.

(** [mem::Error]. *)
Inductive Error : Type := OutOfMemory | ZeroSize.
#[export] Instance Error_eq_dec : EqDecision Error.
Proof. solve_decision. Defined.
(** The derived [Debug]. *)
Definition Error_debug (e : Error) : string :=
  match e with OutOfMemory => "OutOfMemory" | ZeroSize => "ZeroSize" end.

(** A physical address remembers the size of the block it was allocated with. *)
Record PhysAddr : Type := mkPhysAddr { pa_addr : Z; pa_size : option Z }.
#[export] Instance PhysAddr_eq_dec : EqDecision PhysAddr.
Proof. solve_decision. Defined.

Definition PhysAddr_new (addr : Z) (size : option Z) : PhysAddr :=
  {| pa_addr := addr; pa_size := size |}.
Definition PhysAddr_size (self : PhysAddr) : option Z := self.(pa_size).
Definition PhysAddr_as_usize (self : PhysAddr) : Z := self.(pa_addr).
Definition PhysAddr_as_ptr (self : PhysAddr) : Z := self.(pa_addr).
Definition PhysAddr_as_mut_ptr (self : PhysAddr) : Z := self.(pa_addr).

(** [VirtAddr] is a transparent wrapper of a [usize]. *)
Record VirtAddr : Type := mkVirtAddr { va_addr : Z }.

Definition VirtAddr_new (addr : Z) : VirtAddr := {| va_addr := addr |}.
Definition VirtAddr_as_usize (self : VirtAddr) : Z := self.(va_addr).

(** [{:x}] of an address. *)
Definition PhysAddr_fmt (self : PhysAddr) : string := lower_hex self.(pa_addr).
Definition VirtAddr_fmt (self : VirtAddr) : string := lower_hex self.(va_addr).

Section addr_ops.
Context `{Profile} {S : Type}.

Definition PhysAddr_is_aligned (self : PhysAddr) (alignment : Z) : M S bool :=
  let! r := urem self.(pa_addr) alignment in ret (r =? 0).
Definition VirtAddr_is_aligned (self : VirtAddr) (alignment : Z) : M S bool :=
  let! r := urem self.(va_addr) alignment in ret (r =? 0).

(** [impl Add<usize>], [Add], [Sub<usize>] and [Sub] for [VirtAddr]. *)
Definition VirtAddr_add_usize (self : VirtAddr) (rhs : Z) : M S VirtAddr :=
  let! x := uadd self.(va_addr) rhs in ret (VirtAddr_new x).
Definition VirtAddr_add (self rhs : VirtAddr) : M S VirtAddr :=
  let! x := uadd self.(va_addr) rhs.(va_addr) in ret (VirtAddr_new x).
Definition VirtAddr_sub_usize (self : VirtAddr) (rhs : Z) : M S VirtAddr :=
  let! x := usub self.(va_addr) rhs in ret (VirtAddr_new x).
Definition VirtAddr_sub (self rhs : VirtAddr) : M S VirtAddr :=
  let! x := usub self.(va_addr) rhs.(va_addr) in ret (VirtAddr_new x).
End addr_ops.
