(* ===== verification/Slice.v ===== *)
(** * Slices of memory: what the methods of [PhysAddr] in src/rust/src/mem.rs make
    of an address.

    A slice is a pointer and a number of elements; [slice_index] is the bounds check
    of an access, which answers the address of the element.  A reference to a single
    value is its address. *)
From S2P Require Import Prelude Ram Addr.

Record Slice : Type := mkSlice { sl_ptr : Z; sl_len : Z }.

(** [as_slice], [as_mut_slice] and [as_mut_slice_leak]: [slice::from_raw_parts] and
    its kin. *)
Definition PhysAddr_as_slice (self : PhysAddr) (len : Z) : Slice := mkSlice self.(pa_addr) len.
Definition PhysAddr_as_mut_slice (self : PhysAddr) (len : Z) : Slice := mkSlice self.(pa_addr) len.
Definition PhysAddr_as_mut_slice_leak (self : PhysAddr) (len : Z) : Slice := mkSlice self.(pa_addr) len.

(** [as_struct] and [as_mut_struct]. *)
Definition PhysAddr_as_struct (self : PhysAddr) : Z := self.(pa_addr).
Definition PhysAddr_as_mut_struct (self : PhysAddr) : Z := self.(pa_addr).

(** [s[i]] of elements of [size] bytes, up to the access itself. *)
Definition slice_index {S} (size : Z) (s : Slice) (i : Z) : M S Z :=
  if (0 <=? i) && (i <? s.(sl_len)) then ret (s.(sl_ptr) + i * size) else panic "index out of bounds".

(** The addresses of a slice. *)
Definition in_slice (size : Z) (s : Slice) (a : Z) : Prop := s.(sl_ptr) ≤ a < s.(sl_ptr) + s.(sl_len) * size.

(** The bytes and the words of a slice. *)
Definition slice_bytes (r : Ram) (s : Slice) : list Z :=
  map (λ i, load8 r (s.(sl_ptr) + i)) (seqZ 0 s.(sl_len)).
Definition slice_words (r : Ram) (s : Slice) : list Z :=
  map (λ i, load32 r (s.(sl_ptr) + i * 4)) (seqZ 0 s.(sl_len)).
