(* ===== verification/Utf8.v ===== *)
(** * Text in memory: [PhysAddr::as_str] of src/rust/src/mem.rs.

    [from_utf8] is the one of the standard library: it answers the text, as Unicode
    scalar values, or where and how the bytes stop being UTF-8.  It accepts exactly
    the encodings of texts, and answers the text that was encoded. *)
From S2P Require Import Prelude Ram Addr Slice.

Record Utf8Error : Type := mkUtf8Error { valid_up_to : Z; error_len : option Z }.

Definition between (lo hi b : Z) : bool := (lo <=? b) && (b <=? hi).
Definition continuation (b : Z) : bool := between 128 191 b.

(** What the first byte of a sequence asks of the second one. *)
Definition second_ok (b0 b1 : Z) : bool :=
  if b0 =? 224 then between 160 191 b1
  else if b0 =? 237 then between 128 159 b1
  else if b0 =? 240 then between 144 191 b1
  else if b0 =? 244 then between 128 143 b1
  else continuation b1.

(** One scalar value from the front of [l] and the bytes it took, or the length of
    the bad sequence ([None] when the bytes end inside one). *)
Definition utf8_next (l : list Z) : result (Z * list Z) (option Z) :=
  match l with
  | [] => Err None
  | b0 :: l =>
    if b0 <? 128 then Ok (b0, l)
    else if between 194 223 b0 then
      match l with
      | [] => Err None
      | b1 :: l => if continuation b1 then Ok ((b0 - 192) * 64 + (b1 - 128), l) else Err (Some 1)
      end
    else if between 224 239 b0 then
      match l with
      | [] => Err None
      | b1 :: l =>
        if second_ok b0 b1 then
          match l with
          | [] => Err None
          | b2 :: l =>
            if continuation b2
            then Ok (((b0 - 224) * 64 + (b1 - 128)) * 64 + (b2 - 128), l) else Err (Some 2)
          end
        else Err (Some 1)
      end
    else if between 240 244 b0 then
      match l with
      | [] => Err None
      | b1 :: l =>
        if second_ok b0 b1 then
          match l with
          | [] => Err None
          | b2 :: l =>
            if continuation b2 then
              match l with
              | [] => Err None
              | b3 :: l =>
                if continuation b3
                then Ok ((((b0 - 240) * 64 + (b1 - 128)) * 64 + (b2 - 128)) * 64 + (b3 - 128), l)
                else Err (Some 3)
              end
            else Err (Some 2)
          end
        else Err (Some 1)
      end
    else Err (Some 1)
  end.

(** [core::str::from_utf8] of the rest of some bytes, from position [done_] on; a byte
    is consumed each time. *)
Fixpoint from_utf8_loop (fuel : nat) (done_ : Z) (l : list Z) : result (list Z) Utf8Error :=
  match fuel, l with
  | _, [] => Ok []
  | O, _ => Err (mkUtf8Error done_ None)
  | S fuel, l =>
    match utf8_next l with
    | Err e => Err (mkUtf8Error done_ e)
    | Ok (c, l') =>
      match from_utf8_loop fuel (done_ + zlen l - zlen l') l' with
      | Ok s => Ok (c :: s)
      | Err e => Err e
      end
    end
  end.
Definition from_utf8 (l : list Z) : result (list Z) Utf8Error := from_utf8_loop (length l) 0 l.

Definition PhysAddr_as_str (self : PhysAddr) (len : Z) (r : Ram) : result (list Z) Utf8Error :=
  from_utf8 (slice_bytes r (mkSlice self.(pa_addr) len)).

(** ** The encoding *)

(** A [char]. *)
Definition scalar (c : Z) : Prop := 0 ≤ c < 55296 ∨ 57344 ≤ c < 1114112.

(** [char::encode_utf8]. *)
Definition encode (c : Z) : list Z :=
  if c <? 128 then [c]
  else if c <? 2048 then [192 + c / 64; 128 + c mod 64]
  else if c <? 65536 then [224 + c / 4096; 128 + c / 64 mod 64; 128 + c mod 64]
  else [240 + c / 262144; 128 + c / 4096 mod 64; 128 + c / 64 mod 64; 128 + c mod 64].
Definition encode_all (s : list Z) : list Z := concat (map encode s).

Lemma between_spec lo hi b : between lo hi b = true ↔ lo ≤ b ≤ hi.
Proof. unfold between. rewrite andb_true_iff, !Z.leb_le. lia. Qed.
Lemma between_false lo hi b : b < lo ∨ hi < b → between lo hi b = false.
Proof. intros Hb. apply not_true_is_false. rewrite between_spec. lia. Qed.

(** Base-64 digits. *)
Lemma digits64 c : c = (c / 64) * 64 + c mod 64 ∧ 0 ≤ c mod 64 < 64.
Proof. pose proof (Z.div_mod c 64 ltac:(lia)). pose proof (Z.mod_pos_bound c 64 ltac:(lia)). lia. Qed.

Lemma next_encode c l : scalar c → utf8_next (encode c ++ l) = Ok (c, l).
Proof.
  intros Hc. unfold encode. pose proof (digits64 c) as [H1 H1']. pose proof (digits64 (c / 64)) as [H2 H2'].
  pose proof (digits64 (c / 64 / 64)) as [H3 H3'].
  assert (c / 4096 = c / 64 / 64) as E2 by (by rewrite Z.div_div).
  assert (c / 262144 = c / 64 / 64 / 64) as E3 by (by rewrite !Z.div_div).
  rewrite E2, E3. set (d0 := c mod 64) in *. set (c1 := c / 64) in *. set (d1 := c1 mod 64) in *.
  set (c2 := c1 / 64) in *. set (d2 := c2 mod 64) in *. set (c3 := c2 / 64) in *. clearbody d0 c1 d1 c2 d2 c3.
  destruct (Z.ltb_spec c 128) as [Hs1|Hs1]; [|destruct (Z.ltb_spec c 2048) as [Hs2|Hs2]; [|destruct (Z.ltb_spec c 65536) as [Hs3|Hs3]]];
    cbn [app utf8_next].
  - by rewrite (proj2 (Z.ltb_lt _ _)) by lia.
  - rewrite (proj2 (Z.ltb_ge _ _)) by lia. rewrite (proj2 (between_spec 194 223 _)) by lia.
    unfold continuation. rewrite (proj2 (between_spec 128 191 _)) by lia. do 2 f_equal. lia.
  - rewrite (proj2 (Z.ltb_ge _ _)) by lia. rewrite (between_false 194 223) by lia.
    rewrite (proj2 (between_spec 224 239 _)) by lia.
    assert (second_ok (224 + c2) (128 + d1) = true) as ->.
    { unfold second_ok, continuation, scalar in *.
      destruct (Z.eqb_spec (224 + c2) 224); [apply between_spec; lia|].
      destruct (Z.eqb_spec (224 + c2) 237); [apply between_spec; lia|].
      destruct (Z.eqb_spec (224 + c2) 240); [lia|]. destruct (Z.eqb_spec (224 + c2) 244); [lia|].
      apply between_spec. lia. }
    unfold continuation. rewrite (proj2 (between_spec 128 191 _)) by lia. do 2 f_equal. lia.
  - rewrite (proj2 (Z.ltb_ge _ _)) by (unfold scalar in *; lia). rewrite (between_false 194 223) by lia.
    rewrite (between_false 224 239) by lia. rewrite (proj2 (between_spec 240 244 _)) by (unfold scalar in *; lia).
    assert (second_ok (240 + c3) (128 + d2) = true) as ->.
    { unfold second_ok, continuation, scalar in *.
      destruct (Z.eqb_spec (240 + c3) 224); [lia|]. destruct (Z.eqb_spec (240 + c3) 237); [lia|].
      destruct (Z.eqb_spec (240 + c3) 240); [apply between_spec; lia|].
      destruct (Z.eqb_spec (240 + c3) 244); [apply between_spec; lia|]. apply between_spec. lia. }
    unfold continuation. rewrite !(proj2 (between_spec 128 191 _)) by lia. do 2 f_equal. lia.
Qed.

Lemma encode_length c : (1 ≤ length (encode c))%nat.
Proof. unfold encode. repeat case_match; simpl; lia. Qed.

(** What [between] and its kin say, for [lia]. *)
Ltac bytes_known :=
  repeat match goal with
  | H : between _ _ _ = true |- _ => apply between_spec in H
  | H : continuation _ = true |- _ => apply between_spec in H
  | H : (_ <? _) = true |- _ => apply Z.ltb_lt in H
  | H : (_ <? _) = false |- _ => apply Z.ltb_ge in H
  | H : (_ =? _) = true |- _ => apply Z.eqb_eq in H
  | H : (_ =? _) = false |- _ => apply Z.eqb_neq in H
  end.

Lemma second_ok_range b0 b1 :
  second_ok b0 b1 = true →
  128 ≤ b1 ≤ 191 ∧ (b0 = 224 → 160 ≤ b1) ∧ (b0 = 237 → b1 ≤ 159) ∧ (b0 = 240 → 144 ≤ b1) ∧ (b0 = 244 → b1 ≤ 143).
Proof.
  unfold second_ok. intros Hb.
  destruct (b0 =? 224) eqn:?, (b0 =? 237) eqn:?, (b0 =? 240) eqn:?, (b0 =? 244) eqn:?; bytes_known; lia.
Qed.

(** Digits of a number written in base 64. *)
Lemma div64 a d : 0 ≤ d < 64 → (a * 64 + d) / 64 = a ∧ (a * 64 + d) mod 64 = d.
Proof.
  intros Hd. split; [symmetry; apply (Z.div_unique _ _ _ d); lia|symmetry; apply (Z.mod_unique _ _ a); lia].
Qed.

Lemma decode_next l c l' :
  Forall (λ b, 0 ≤ b) l → utf8_next l = Ok (c, l') → scalar c ∧ l = encode c ++ l' ∧ Forall (λ b, 0 ≤ b) l'.
Proof.
  intros Hl. destruct l as [|b0 l]; [done|]. apply Forall_cons in Hl as [Hb0 Hl]. cbn [utf8_next].
  destruct (b0 <? 128) eqn:H0.
  { intros [= <- <-]. bytes_known. unfold scalar, encode. rewrite (proj2 (Z.ltb_lt _ _)) by lia.
    split; [lia|]. by split. }
  destruct (between 194 223 b0) eqn:H2.
  { destruct l as [|b1 l]; [done|]. destruct (continuation b1) eqn:H1; [|done]. intros [= <- <-]. bytes_known.
    apply Forall_cons in Hl as [_ Hl]. unfold scalar, encode.
    rewrite (proj2 (Z.ltb_ge _ _)), (proj2 (Z.ltb_lt _ 2048)) by lia.
    destruct (div64 (b0 - 192) (b1 - 128) ltac:(lia)) as [-> ->].
    split; [lia|]. split; [|done]. cbn [app]. do 2 f_equal; [lia|]. f_equal. lia. }
  destruct (between 224 239 b0) eqn:H3.
  { destruct l as [|b1 l]; [done|]. destruct (second_ok b0 b1) eqn:H1; [|done]. apply second_ok_range in H1.
    destruct l as [|b2 l]; [done|]. destruct (continuation b2) eqn:Hb2; [|done]. intros [= <- <-]. bytes_known.
    do 2 apply Forall_cons in Hl as [_ Hl]. unfold scalar, encode.
    rewrite (proj2 (Z.ltb_ge _ 128)), (proj2 (Z.ltb_ge _ 2048)), (proj2 (Z.ltb_lt _ 65536)) by lia.
    change 4096 with (64 * 64). rewrite <- Z.div_div by lia.
    destruct (div64 ((b0 - 224) * 64 + (b1 - 128)) (b2 - 128) ltac:(lia)) as [-> ->].
    destruct (div64 (b0 - 224) (b1 - 128) ltac:(lia)) as [-> ->].
    split; [lia|]. split; [|done]. cbn [app]. repeat f_equal; lia. }
  destruct (between 240 244 b0) eqn:H4; [|done].
  destruct l as [|b1 l]; [done|]. destruct (second_ok b0 b1) eqn:H1; [|done]. apply second_ok_range in H1.
  destruct l as [|b2 l]; [done|]. destruct (continuation b2) eqn:Hb2; [|done].
  destruct l as [|b3 l]; [done|]. destruct (continuation b3) eqn:Hb3; [|done]. intros [= <- <-]. bytes_known.
  do 3 apply Forall_cons in Hl as [_ Hl]. unfold scalar, encode.
  rewrite (proj2 (Z.ltb_ge _ 128)), (proj2 (Z.ltb_ge _ 2048)), (proj2 (Z.ltb_ge _ 65536)) by lia.
  change 262144 with (64 * 64 * 64). change 4096 with (64 * 64). rewrite <- !Z.div_div by lia.
  destruct (div64 (((b0 - 240) * 64 + (b1 - 128)) * 64 + (b2 - 128)) (b3 - 128) ltac:(lia)) as [-> ->].
  destruct (div64 ((b0 - 240) * 64 + (b1 - 128)) (b2 - 128) ltac:(lia)) as [-> ->].
  destruct (div64 (b0 - 240) (b1 - 128) ltac:(lia)) as [-> ->].
  split; [lia|]. split; [|done]. cbn [app]. repeat f_equal; lia.
Qed.

(** ** Whole texts *)

Lemma loop_encode fuel k s :
  Forall scalar s → (length (encode_all s) ≤ fuel)%nat → from_utf8_loop fuel k (encode_all s) = Ok s.
Proof.
  revert fuel k. induction s as [|c s IH]; intros fuel k Hs Hf; [by destruct fuel|].
  apply Forall_cons in Hs as [Hc Hs]. unfold encode_all in *. cbn [map concat] in *. rewrite length_app in Hf.
  pose proof (encode_length c). destruct fuel as [|fuel]; [lia|].
  assert (∃ b l, encode c ++ concat (map encode s) = b :: l) as (b & l & Heq).
  { destruct (encode c); [simpl in *; lia|]. by eexists _, _. }
  cbn [from_utf8_loop]. rewrite Heq, <- Heq, next_encode by done. by rewrite IH by (done || lia).
Qed.

Lemma loop_decode fuel k l s :
  Forall (λ b, 0 ≤ b) l → from_utf8_loop fuel k l = Ok s → Forall scalar s ∧ l = encode_all s.
Proof.
  revert k l s. induction fuel as [|fuel IH]; intros k l s Hl; cbn [from_utf8_loop];
    (destruct l as [|b l]; [by intros [= <-]|]); [done|].
  destruct (utf8_next (b :: l)) as [[c l']|e] eqn:Hn; [|done].
  destruct (decode_next _ _ _ Hl Hn) as (Hc & Heq & Hl').
  destruct (from_utf8_loop fuel _ l') as [s'|e] eqn:Hr; [|done]. intros [= <-].
  destruct (IH _ _ _ Hl' Hr) as [Hs ->]. split; [by constructor|]. exact Heq.
Qed.

(** [as_str] answers a text exactly when the bytes are its encoding. *)
Theorem as_str_exact pa len r s :
  ram_ok r →
  PhysAddr_as_str pa len r = Ok s ↔
  Forall scalar s ∧ slice_bytes r (mkSlice (pa_addr pa) len) = encode_all s.
Proof.
  intros Hr. unfold PhysAddr_as_str, from_utf8. set (l := slice_bytes r _).
  assert (Forall (λ b, 0 ≤ b) l) as Hl.
  { apply Forall_map, Forall_true. intros i. by apply Hr. }
  split; [by apply loop_decode|]. intros [Hs ->]. by apply loop_encode.
Qed.

(** "a", "é", "€" and a face, a lone continuation byte, a surrogate, a cut sequence. *)
Example utf8_text :
  from_utf8 [97; 195; 169; 226; 130; 172; 240; 159; 152; 128] = Ok [97; 233; 8364; 128512].
Proof. reflexivity. Qed.
Example utf8_bad :
  from_utf8 [97; 128] = Err (mkUtf8Error 1 (Some 1)) ∧
  from_utf8 [237; 160; 128] = Err (mkUtf8Error 0 (Some 1)) ∧
  from_utf8 [97; 226; 130] = Err (mkUtf8Error 1 None).
Proof. by split_and!. Qed.
