(* ===== verification/Buddy.v ===== *)
(** * The two allocators of src/rust/src/mem.rs: the bump allocator
    [InitialAlloc] and the buddy allocator [Memory].

    A [Memory] borrows two slices for the rest of the program, [buddy_stack] and
    [buddy_meta].  The methods reach them through the class [Store]: here as lists, in
    BuddyRam.v in memory.  [Memory_buddy_alloc] and [Memory_buddy_free] are the code of
    the two methods statement by statement, every array access and every arithmetic
    operation checked the way the build checks it. *)
From S2P Require Import Prelude Ram Addr Slice Order.

(** ** [InitialAlloc] *)

Record InitialAlloc : Type := mkInitialAlloc { ia_start : Z; ia_end : Z; ia_next : Z }.

Definition set_ia_next (x : Z) (ia : InitialAlloc) : InitialAlloc :=
  {| ia_start := ia.(ia_start); ia_end := ia.(ia_end); ia_next := x |}.

(** [offset_from] is a signed difference, cast back to [usize]. *)
Definition InitialAlloc_new (start end_ : Z) : M Ram InitialAlloc :=
  modify (write_bytes start 0 (wrap (end_ - start)));;!
  ret {| ia_start := start; ia_end := end_; ia_next := start |}.

Section initial_alloc.
Context `{Profile}.

Definition InitialAlloc_page_alloc (n : Z) : M InitialAlloc PhysAddr :=
  let! size := umul n PAGE_SIZE in
  let! addr := gets ia_next in
  let! top := uadd addr size in
  let! end_ := gets ia_end in
  (if top <=? end_ then
     let! next := gets ia_next in
     let! next := uadd next size in
     modify (set_ia_next next)
   else panic (Error_debug OutOfMemory));;!
  ret (PhysAddr_new addr (Some size)).
End initial_alloc.

(** ** [Memory] *)

Inductive BlockState : Type := Free | Allocated | Split.
#[export] Instance BlockState_eq_dec : EqDecision BlockState.
Proof. solve_decision. Defined.

(** The [#[repr(u8)]] discriminants. *)
Definition BlockState_as_u8 (b : BlockState) : Z :=
  match b with Free => 1 | Allocated => 2 | Split => 3 end.

(** [Memory<'a>], whatever stands for its two borrowed slices. *)
Record MemoryOf (StackSlice MetaSlice : Type) : Type := mkMemory {
  m_start : PhysAddr;
  m_end : PhysAddr;
  mem_size : Z;
  buddy_node_count : Z;
  buddy_high_order : Z;
  buddy_low_order : Z;
  buddy_stack_size : Z;
  buddy_stack : StackSlice;
  buddy_meta : MetaSlice;
}.
Arguments mkMemory {StackSlice MetaSlice} _ _ _ _ _ _ _ _ _.
Arguments m_start {StackSlice MetaSlice} _.
Arguments m_end {StackSlice MetaSlice} _.
Arguments mem_size {StackSlice MetaSlice} _.
Arguments buddy_node_count {StackSlice MetaSlice} _.
Arguments buddy_high_order {StackSlice MetaSlice} _.
Arguments buddy_low_order {StackSlice MetaSlice} _.
Arguments buddy_stack_size {StackSlice MetaSlice} _.
Arguments buddy_stack {StackSlice MetaSlice} _.
Arguments buddy_meta {StackSlice MetaSlice} _.

(** The slices as pointers, and as what they hold. *)
Abbreviation MemoryAt := (MemoryOf Slice Slice).
Abbreviation Memory := (MemoryOf (list Z) (list BlockState)).

Definition set_buddy_stack (l : list Z) (m : Memory) : Memory :=
  {| m_start := m.(m_start); m_end := m.(m_end); mem_size := m.(mem_size);
     buddy_node_count := m.(buddy_node_count); buddy_high_order := m.(buddy_high_order);
     buddy_low_order := m.(buddy_low_order); buddy_stack_size := m.(buddy_stack_size);
     buddy_stack := l; buddy_meta := m.(buddy_meta) |}.
Definition set_buddy_meta (l : list BlockState) (m : Memory) : Memory :=
  {| m_start := m.(m_start); m_end := m.(m_end); mem_size := m.(mem_size);
     buddy_node_count := m.(buddy_node_count); buddy_high_order := m.(buddy_high_order);
     buddy_low_order := m.(buddy_low_order); buddy_stack_size := m.(buddy_stack_size);
     buddy_stack := m.(buddy_stack); buddy_meta := l |}.

(** ** Access to the fields and the two slices *)

(** What the methods use of a [Memory]: three fields, the number of entries of
    [buddy_meta], and [self.buddy_meta[i]], [self.buddy_meta[i] = b] and the same
    for the stack, whose index is the [isize] [sp] cast to [usize]. *)
Class Store (St : Type) : Type := {
  st_start : St → PhysAddr;
  st_size : St → Z;
  st_high : St → Z;
  st_nodes : St → nat;
  meta_get : Z → M St BlockState;
  meta_set : Z → BlockState → M St ();
  stack_get : Z → M St Z;
  stack_set : Z → Z → M St ();
}.

(** The slices as lists. *)
#[export] Instance list_store : Store Memory := {|
  st_start := m_start;
  st_size := mem_size;
  st_high := buddy_high_order;
  st_nodes m := length m.(buddy_meta);
  meta_get i := let! l := gets buddy_meta in index l i;
  meta_set i b := let! l := gets buddy_meta in index l i;;! modify (set_buddy_meta (zset i b l));
  stack_get sp := let! l := gets buddy_stack in index l (wrap sp);
  stack_set sp x :=
    let! l := gets buddy_stack in
    index l (wrap sp);;! modify (set_buddy_stack (zset (wrap sp) x l));
|}.

(** The fields of a [Memory] on the lists. *)
Ltac fields := cbn [st_start st_size st_high st_nodes list_store].

(** [usize::div_ceil]. *)
Definition div_ceil (a b : Z) : Z := if 0 <? a mod b then a / b + 1 else a / b.

Section memory.
Context `{Profile}.

Definition Memory_new (ram_start ram_end alloc_mem_start alloc_mem_end : option Z) :
    M Ram MemoryAt :=
  let! alloc_mem_start := expect alloc_mem_start
    "expected the start address of the reserved allocator memory region, found None." in
  let! alloc_mem_end := expect alloc_mem_end
    "expected the end address of the reserved allocator memory region, found None." in
  let! sc_alloc := InitialAlloc_new alloc_mem_start alloc_mem_end in
  let! start := expect ram_start "expected the start address of RAM, found None." in
  let! end_ := expect ram_end "expected the end address of RAM, found None." in
  let! mem_size := usub end_ start in
  (* metadata *)
  let! nodes := umul 2 (mem_size / PAGE_SIZE) in
  let! buddy_node_count := usub nodes 1 in
  let! buddy_meta_size := umul buddy_node_count 1 in
  let! got := local (InitialAlloc_page_alloc (div_ceil buddy_meta_size PAGE_SIZE)) sc_alloc in
  let buddy_meta := PhysAddr_as_mut_slice_leak got.1 buddy_node_count in
  modify (write_bytes buddy_meta.(sl_ptr) (BlockState_as_u8 Free) buddy_node_count);;!
  (* stack of the depth-first search *)
  let buddy_high_order := find_order mem_size in
  let buddy_low_order := find_order PAGE_SIZE in
  let! buddy_stack_len := usub buddy_high_order buddy_low_order in
  let! buddy_stack_len := uadd buddy_stack_len 1 in
  let! buddy_stack_size := umul buddy_meta_size 4 in
  let! got := local (InitialAlloc_page_alloc (div_ceil buddy_stack_size PAGE_SIZE)) got.2 in
  let buddy_stack := PhysAddr_as_mut_slice_leak got.1 buddy_stack_len in
  modify (write_bytes buddy_stack.(sl_ptr) 0 (buddy_meta_size * 4));;!
  ret {| m_start := PhysAddr_new start None;
         m_end := PhysAddr_new end_ None;
         mem_size := mem_size;
         buddy_node_count := buddy_node_count;
         buddy_high_order := buddy_high_order;
         buddy_low_order := buddy_low_order;
         buddy_stack_size := buddy_stack_size;
         buddy_stack := buddy_stack;
         buddy_meta := buddy_meta |}.

(** The two slices as lists, read from memory. *)
Definition BlockState_of_u8 (b : Z) : option BlockState :=
  match b with 1 => Some Free | 2 => Some Allocated | 3 => Some Split | _ => None end.
Definition borrowed (r : Ram) (m : MemoryAt) : Memory :=
  {| m_start := m.(m_start); m_end := m.(m_end); mem_size := m.(mem_size);
     buddy_node_count := m.(buddy_node_count); buddy_high_order := m.(buddy_high_order);
     buddy_low_order := m.(buddy_low_order); buddy_stack_size := m.(buddy_stack_size);
     buddy_stack := slice_words r m.(buddy_stack);
     buddy_meta := map (λ b, default Free (BlockState_of_u8 b)) (slice_bytes r m.(buddy_meta)) |}.
End memory.

Section methods.
Context `{Profile} {St : Type} `{!Store St}.

(** The address of node [i] of [level]: [ptr::add] wraps. *)
Definition node_addr (i level : Z) : M St Z :=
  let! start := gets st_start in
  let! high := gets st_high in
  let! i1 := uadd 1 i in
  let! first := upow2 level in
  let! i_at_level := usub i1 first in
  let! up := usub high level in
  let! size := upow2 up in
  let! off := umul i_at_level size in
  ret (wrap (PhysAddr_as_usize start + off)).

(** Pushing the children of node [i], the left one on top. *)
Definition push_children (sp i : Z) : M St Z :=
  let! sp := iadd sp 1 in
  let! r := umul 2 i in
  let! r := uadd r 2 in
  stack_set sp r;;!
  let! sp := iadd sp 1 in
  let! l := umul 2 i in
  let! l := uadd l 1 in
  stack_set sp l;;!
  ret sp.

(** The [while sp >= 0] loop of [buddy_alloc]; [sp] is its local variable. *)
Fixpoint alloc_loop (fuel : nat) (req_order n sp : Z) : M St (result PhysAddr Error) :=
  match fuel with
  | O => no_fuel
  | S fuel =>
    if 0 <=? sp then
      let! i := stack_get sp in
      let! sp := isub sp 1 in
      let level := find_order i in
      if req_order =? level then
        let! b := meta_get i in
        if bool_decide (b = Free) then
          meta_set i Allocated;;!
          let! addr := node_addr i level in
          ret (Ok (PhysAddr_new addr (Some n)))
        else alloc_loop fuel req_order n sp
      else
        let! b := meta_get i in
        match b with
        | Free =>
          meta_set i Split;;!
          let! sp := push_children sp i in
          alloc_loop fuel req_order n sp
        | Allocated => alloc_loop fuel req_order n sp
        | Split =>
          let! sp := push_children sp i in
          alloc_loop fuel req_order n sp
        end
    else ret (Err OutOfMemory)
  end.

(** One iteration per entry of [buddy_meta] and one for the empty stack. *)
Definition alloc_fuel (m : St) : nat := S (st_nodes m).

Definition Memory_buddy_alloc (n : Z) : M St (result PhysAddr Error) :=
  let! mem_size := gets st_size in
  if mem_size <? n then ret (Err OutOfMemory)
  else if n =? 0 then ret (Err ZeroSize)
  else
    let n := if n <? PAGE_SIZE then PAGE_SIZE else n in
    let! n := expect (next_power_of_two n) "can you really handle that size??" in
    let! high := gets st_high in
    let! req_order := usub high (find_order n) in
    stack_set 0 0;;!
    let! fuel := gets alloc_fuel in
    alloc_loop fuel req_order n 0.

(** Index of the buddy of the node at position [i_at_level] of [level]. *)
Definition buddy_index (i_at_level level : Z) : M St Z :=
  let! first := upow2 level in
  let! b := uadd (Z.lxor i_at_level 1) first in
  usub b 1.

(** The merging loop of [buddy_free]. *)
Fixpoint merge_loop (fuel : nat) (level i buddy_i : Z) : M St () :=
  match fuel with
  | O => no_fuel
  | S fuel =>
    let! b := meta_get buddy_i in
    if bool_decide (b = Free) then
      let! i := usub i 1 in
      let i := i / 2 in
      let! p := meta_get i in
      (if bool_decide (p = Split) then meta_set i Free
       else panic ("buddy_free(): Memory at index " +:+ decimal i +:+ " was not split, something is wrong."));;!
      if i =? 0 then ret tt
      else
        let! level := usub level 1 in
        let! i1 := uadd 1 i in
        let! first := upow2 level in
        let! i_at_level := usub i1 first in
        let! buddy_i := buddy_index i_at_level level in
        merge_loop fuel level i buddy_i
    else ret tt
  end.

(** One iteration per level at most. *)
Definition merge_fuel : nat := 33.

Definition Memory_buddy_free (addr : PhysAddr) : M St () :=
  match PhysAddr_size addr with
  | None => ret tt
  | Some size =>
    let! start := gets st_start in
    let! offset := usub (PhysAddr_as_usize addr) (PhysAddr_as_usize start) in
    let! high := gets st_high in
    let! level := usub high (trailing_zeros size) in
    let! position := udiv offset size in
    let! first := ushl1 level in
    let! i := usub first 1 in
    let! i := uadd i position in
    let! i1 := uadd 1 i in
    let! first := upow2 level in
    let! i_at_level := usub i1 first in
    let! b := meta_get i in
    (if bool_decide (b = Allocated) then meta_set i Free
     else panic ("buddy_free(): Memory at index " +:+ decimal i +:+ " was not allocated, something is wrong."));;!
    let! buddy_i := buddy_index i_at_level level in
    merge_loop merge_fuel level i buddy_i
  end.
End methods.
