(* ===== verification/BuddyTerm.v ===== *)
(** * The loops of the allocator end whatever the array holds.

    [Memory::buddy_alloc] walks down the tree of indices and [Memory::buddy_free]
    walks up.  Neither walk meets an index twice, so both loops end even on an
    array that is not a well-formed heap, by answering or by panicking.  The
    bounds put on the modelled loops are therefore never the reason they stop. *)
From S2P Require Import Prelude Ram Addr Order Buddy.

(** ** Reasoning about every outcome but running out of fuel *)

Definition lasts {S A} (m : M S A) (P : A → S → Prop) (s : S) : Prop :=
  match m s with Ret a s' => P a s' | NoFuel => False | _ => True end.
Definition any {S A} : A → S → Prop := λ _ _, True.

Section lasts.
Context {S : Type}.
Implicit Types s : S.

Lemma lasts_ret {A} (a : A) (P : A → S → Prop) s : P a s → lasts (ret a) P s.
Proof. done. Qed.
Lemma lasts_bind {A B} (m : M S A) (k : A → M S B) P s :
  lasts m (λ a, lasts (k a) P) s → lasts (bind m k) P s.
Proof. unfold lasts, bind. by destruct (m s). Qed.
Lemma lasts_gets {A} (f : S → A) (P : A → S → Prop) s : P (f s) s → lasts (gets f) P s.
Proof. done. Qed.
Lemma lasts_modify f (P : () → S → Prop) s : P tt (f s) → lasts (modify f) P s.
Proof. done. Qed.
Lemma lasts_panic {A} msg (P : A → S → Prop) s : lasts (panic msg) P s.
Proof. done. Qed.
Lemma lasts_expect {A} (o : option A) msg (P : A → S → Prop) s :
  (∀ a, o = Some a → P a s) → lasts (expect o msg) P s.
Proof. destruct o; unfold lasts; simpl; auto. Qed.
Lemma lasts_index {A} (l : list A) i (P : A → S → Prop) s :
  (∀ a, zget l i = Some a → P a s) → lasts (index l i) P s.
Proof. apply lasts_expect. Qed.
Lemma lasts_impl {A} (m : M S A) (P Q : A → S → Prop) s :
  (∀ a s', P a s' → Q a s') → lasts m P s → lasts m Q s.
Proof. unfold lasts. destruct (m s); auto. Qed.
Lemma lasts_run {A} (m : M S A) (P : A → S → Prop) s a s' : m s = Ret a s' → P a s' → lasts m P s.
Proof. unfold lasts. by intros ->. Qed.
Lemma lasts_not_fuel {A} (m : M S A) P s : lasts m P s → m s ≠ NoFuel.
Proof. unfold lasts. by destruct (m s). Qed.

Context `{Profile}.

(** Wrapping or not, an arithmetic operation ends, in a [usize]. *)
Lemma lasts_usize msg x (P : Z → S → Prop) s :
  (∀ y, 0 ≤ y < USIZE_MOD → P y s) → lasts (usize msg x) P s.
Proof.
  intros Hp. unfold lasts, usize. destruct (usize_ok x) eqn:Hx.
  - apply andb_prop in Hx as [H0%Z.leb_le H1%Z.leb_le]. apply Hp. lia.
  - destruct overflow_checks; [done|]. apply Hp. unfold wrap. apply Z.mod_pos_bound. lia.
Qed.
Lemma lasts_ushl1 e (P : Z → S → Prop) s : (∀ y, P y s) → lasts (ushl1 e) P s.
Proof. intros Hp. unfold lasts, ushl1. destruct (_ && _), overflow_checks; simpl; auto. Qed.
Lemma lasts_udiv a b (P : Z → S → Prop) s : (∀ y, P y s) → lasts (udiv a b) P s.
Proof. intros Hp. unfold lasts, udiv. destruct (b =? 0); simpl; auto. Qed.
End lasts.

Ltac lasts_step :=
  first
    [ apply lasts_bind
    | apply lasts_gets | apply lasts_modify | apply lasts_panic
    | apply lasts_usize; intros ? _ | apply lasts_ushl1; intros ? | apply lasts_udiv; intros ?
    | apply lasts_index; intros ? ? | apply lasts_expect; intros ? ?
    | apply lasts_ret ].

(** ** Walking down *)

Section down.
Context `{Profile}.

(** What the stack holds up to position [sp]. *)
Definition pending (stk : list Z) (sp : Z) : list Z := take (Z.to_nat (sp + 1)) stk.

Lemma pending_pop stk sp x :
  zget stk sp = Some x → pending stk sp = pending stk (sp - 1) ++ [x].
Proof.
  intros Hx. pose proof (zget_Some _ _ _ Hx) as Hb. rewrite zget_in in Hx by done. unfold pending.
  replace (Z.to_nat (sp + 1)) with (S (Z.to_nat sp)) by lia.
  replace (Z.to_nat (sp - 1 + 1)) with (Z.to_nat sp) by lia. by apply take_S_r.
Qed.

Lemma pending_push stk sp x :
  0 ≤ sp + 1 < zlen stk → pending (zset (sp + 1) x stk) (sp + 1) = pending stk sp ++ [x].
Proof.
  intros Hb. rewrite (pending_pop _ _ x) by by apply zget_zset_eq. f_equal.
  replace (sp + 1 - 1) with sp by lia. unfold pending, zset.
  rewrite (proj2 (in_bounds_spec stk (sp + 1)) Hb).
  apply take_insert_ge. lia.
Qed.

(** The parent of a node. *)
Definition parent (i : Z) : Z := (i - 1) / 2.

Lemma parent_child i b : 1 ≤ b ≤ 2 → parent (2 * i + b) = i.
Proof. intros Hb. unfold parent. symmetry. apply (Z.div_unique _ _ _ (b - 1)); lia. Qed.

(** [V] are the nodes visited so far: a node is on the stack when its parent was
    visited and it was not. *)
Record frontier (V : gset Z) (l : list Z) : Prop := {
  fr_nodup : NoDup l;
  fr_nonneg i : i ∈ l → 0 ≤ i;
  fr_new i : i ∈ l → i ∉ V;
  fr_parent i : i ∈ l → i = 0 ∨ parent i ∈ V;
  fr_closed i : i ∈ V → i = 0 ∨ parent i ∈ V;
}.

Lemma frontier_root : frontier ∅ [0].
Proof.
  split.
  - apply NoDup_singleton.
  - intros i ->%list_elem_of_singleton. done.
  - set_solver.
  - intros i ->%list_elem_of_singleton. by left.
  - set_solver.
Qed.

Lemma frontier_pop V l i : frontier V (l ++ [i]) → frontier ({[i]} ∪ V) l.
Proof.
  intros [Hnd Hnn Hnew Hpar Hcl]. apply NoDup_app in Hnd as (Hnd & Hi & _).
  split; [done|set_solver| | |].
  - intros j Hj. specialize (Hi j Hj). specialize (Hnew j). set_solver.
  - intros j Hj. destruct (Hpar j); set_solver.
  - intros j [->%elem_of_singleton|Hj]%elem_of_union.
    + destruct (Hpar i); set_solver.
    + destruct (Hcl j Hj); set_solver.
Qed.

(** The children of the node that was just visited are new. *)
Lemma frontier_push V l i :
  0 ≤ i → i ∉ V → i ∉ l → (∀ j, j ∈ l → j = 0 ∨ parent j ∈ V) → frontier ({[i]} ∪ V) l →
  (∀ j, j ∈ V → j = 0 ∨ parent j ∈ V) → frontier ({[i]} ∪ V) ((l ++ [2 * i + 2]) ++ [2 * i + 1]).
Proof.
  intros Hi HiV Hil Hlpar [Hnd Hnn Hnew Hpar Hcl] HV.
  assert (∀ b c, 1 ≤ b ≤ 2 → c = 2 * i + b → (c ∉ l) ∧ (c ∉ V)) as Hchild.
  { intros b c Hb ->. pose proof (parent_child i b Hb) as Hp. split; intros Hin.
    - destruct (Hlpar _ Hin) as [|Hin']; [lia|]. by rewrite Hp in Hin'.
    - destruct (HV _ Hin) as [|Hin']; [lia|]. by rewrite Hp in Hin'. }
  assert (∀ j, j ∈ (l ++ [2 * i + 2]) ++ [2 * i + 1] → j ∈ l ∨ ∃ b, 1 ≤ b ≤ 2 ∧ j = 2 * i + b) as Hcases.
  { intros j. rewrite !elem_of_app, !list_elem_of_singleton. intros [[|]|]; [by left|right; exists 2; lia|right; exists 1; lia]. }
  split.
  - destruct (Hchild 2 _ ltac:(lia) eq_refl) as [H2 _], (Hchild 1 _ ltac:(lia) eq_refl) as [H1 _].
    rewrite <- app_assoc. apply NoDup_app. split_and!; [done|set_solver by lia|].
    repeat constructor; set_solver by lia.
  - intros j [Hj|(b & Hb & ->)]%Hcases; [by apply Hnn|lia].
  - intros j [Hj|(b & Hb & ->)]%Hcases; [by apply Hnew|]. destruct (Hchild b _ Hb eq_refl). set_solver by lia.
  - intros j [Hj|(b & Hb & ->)]%Hcases; [by apply Hpar|]. right. rewrite parent_child by done. set_solver.
  - done.
Qed.

(** The slices are not larger than Rust allows. *)
Definition slices_ok (m : Memory) : Prop :=
  zlen (buddy_meta m) ≤ ISIZE_MAX ∧ zlen (buddy_stack m) ≤ ISIZE_MAX.

Lemma wrap_index sp : 0 ≤ sp ≤ ISIZE_MAX → wrap sp = sp.
Proof. intros Hsp. unfold wrap. apply Z.mod_small. lia. Qed.

Lemma lasts_meta_get i (P : BlockState → Memory → Prop) m :
  (∀ b, zget (buddy_meta m) i = Some b → P b m) → lasts (meta_get i) P m.
Proof. intros HP. cbn [meta_get list_store]. apply lasts_bind. apply lasts_gets. by apply lasts_index. Qed.
Lemma lasts_meta_set i b (P : () → Memory → Prop) m :
  P tt (set_buddy_meta (zset i b (buddy_meta m)) m) → lasts (meta_set i b) P m.
Proof.
  intros HP. cbn [meta_set list_store]. apply lasts_bind. apply lasts_gets. apply lasts_bind. apply lasts_index.
  intros ? _. by apply lasts_modify.
Qed.
Lemma lasts_stack_get sp (P : Z → Memory → Prop) m :
  0 ≤ sp ≤ ISIZE_MAX → (∀ x, zget (buddy_stack m) sp = Some x → P x m) → lasts (stack_get sp) P m.
Proof.
  intros Hsp HP. cbn [stack_get list_store]. rewrite wrap_index by lia. apply lasts_bind. apply lasts_gets. by apply lasts_index.
Qed.
Lemma lasts_stack_set sp x (P : () → Memory → Prop) m :
  0 ≤ sp ≤ ISIZE_MAX → (sp < zlen (buddy_stack m) → P tt (set_buddy_stack (zset sp x (buddy_stack m)) m)) →
  lasts (stack_set sp x) P m.
Proof.
  intros Hsp HP. cbn [stack_set list_store]. rewrite wrap_index by lia. apply lasts_bind. apply lasts_gets. apply lasts_bind.
  apply lasts_index. intros ? Hx%zget_Some. apply lasts_modify, HP. lia.
Qed.

(** Pushing two children: both fit, or it panics. *)
Lemma lasts_push_children sp i (P : Z → Memory → Prop) m :
  -1 ≤ sp < ISIZE_MAX → 0 ≤ i < ISIZE_MAX → zlen (buddy_stack m) ≤ ISIZE_MAX →
  (∀ stk, pending stk (sp + 2) = (pending (buddy_stack m) sp ++ [2 * i + 2]) ++ [2 * i + 1] →
     zlen stk = zlen (buddy_stack m) → sp + 2 < ISIZE_MAX → P (sp + 2) (set_buddy_stack stk m)) →
  lasts (push_children sp i) P m.
Proof.
  intros Hsp Hi Hlen HP. unfold push_children.
  apply lasts_bind. eapply lasts_run; [apply iadd_run; lia|].
  apply lasts_bind. eapply lasts_run; [apply umul_run; lia|].
  apply lasts_bind. eapply lasts_run; [apply uadd_run; lia|].
  apply lasts_bind. apply lasts_stack_set; [lia|]. intros Hx.
  apply lasts_bind. eapply lasts_run; [apply iadd_run; lia|].
  apply lasts_bind. eapply lasts_run; [apply umul_run; lia|].
  apply lasts_bind. eapply lasts_run; [apply uadd_run; lia|].
  apply lasts_bind. apply lasts_stack_set; [lia|].
  cbn [buddy_stack set_buddy_stack]. intros Hy. rewrite zlen_zset in Hy.
  apply lasts_ret. replace (sp + 1 + 1) with (sp + 2) by lia.
  apply (HP (zset (sp + 2) (2 * i + 1) (zset (sp + 1) (2 * i + 2) (buddy_stack m)))); [|by rewrite !zlen_zset|lia].
  replace (sp + 2) with (sp + 1 + 1) by lia.
  rewrite pending_push by (rewrite zlen_zset; lia). by rewrite pending_push by lia.
Qed.

Lemma lasts_node_addr i level (P : Z → Memory → Prop) m :
  (∀ a, P a m) → lasts (node_addr i level) P m.
Proof. intros HP. unfold node_addr, uadd, usub, umul, upow2. repeat lasts_step. apply HP. Qed.

(** A visited node is one of the array, so a new one leaves fewer. *)
Lemma visited_size n (V : gset Z) : (∀ v, v ∈ V → 0 ≤ v < Z.of_nat n) → (size V ≤ n)%nat.
Proof.
  intros HV. assert (V ⊆ list_to_set (seqZ 0 (Z.of_nat n))) as Hsub.
  { intros v Hv. apply elem_of_list_to_set, elem_of_seqZ. specialize (HV v Hv). lia. }
  apply subseteq_size in Hsub. rewrite size_list_to_set in Hsub by apply NoDup_seqZ.
  rewrite length_seqZ in Hsub. lia.
Qed.

Lemma visit n (V : gset Z) i fuel :
  (∀ v, v ∈ V → 0 ≤ v < Z.of_nat n) → 0 ≤ i < Z.of_nat n → i ∉ V → (n - size V < S fuel)%nat →
  (∀ v, v ∈ ({[i]} ∪ V : gset Z) → 0 ≤ v < Z.of_nat n) ∧ (n - size ({[i]} ∪ V : gset Z) < fuel)%nat.
Proof.
  intros HV Hi Hnew Hfuel. assert (∀ v, v ∈ ({[i]} ∪ V : gset Z) → 0 ≤ v < Z.of_nat n) as HV'.
  { intros v [->%elem_of_singleton|Hv]%elem_of_union; auto. }
  split; [done|]. pose proof (visited_size n _ HV') as Hsize.
  rewrite size_union, size_singleton in * by set_solver. lia.
Qed.

(** One iteration visits the node on top of the stack, which is new. *)
Lemma alloc_loop_lasts fuel req n sp V m :
  slices_ok m → -1 ≤ sp < ISIZE_MAX → frontier V (pending (buddy_stack m) sp) →
  (∀ v, v ∈ V → 0 ≤ v < zlen (buddy_meta m)) →
  (length (buddy_meta m) - size V < fuel)%nat →
  lasts (alloc_loop fuel req n sp) any m.
Proof.
  revert sp V m. induction fuel as [|fuel IH]; intros sp V m [Hmeta Hstk] Hsp Hfr HV Hfuel; [lia|].
  cbn [alloc_loop]. destruct (Z.leb_spec 0 sp) as [Hsp0|]; [|done].
  apply lasts_bind. apply lasts_stack_get; [lia|]. intros i Hi.
  apply lasts_bind. eapply lasts_run; [apply isub_run; lia|]. cbv zeta.
  rewrite (pending_pop _ _ _ Hi) in Hfr. pose proof (frontier_pop _ _ _ Hfr) as Hpop.
  assert (i ∈ pending (buddy_stack m) (sp - 1) ++ [i]) as Hin by set_solver.
  pose proof (fr_nonneg _ _ Hfr i Hin) as Hi0. pose proof (fr_new _ _ Hfr i Hin) as HiV.
  assert (∀ b, zget (buddy_meta m) i = Some b → lasts (alloc_loop fuel req n (sp - 1)) any m) as Hskip.
  { intros b Hb%zget_Some. destruct (visit _ V i fuel HV Hb HiV Hfuel) as [HV' Hfuel'].
    by apply (IH _ ({[i]} ∪ V)); try lia. }
  assert (∀ m' b, zget (buddy_meta m) i = Some b → buddy_stack m' = buddy_stack m → zlen (buddy_meta m') = zlen (buddy_meta m) →
    lasts (let! sp := push_children (sp - 1) i in alloc_loop fuel req n sp) any m') as Hopen.
  { intros m' b Hb%zget_Some Hs Hm. destruct (visit _ V i fuel HV Hb HiV Hfuel) as [HV' Hfuel'].
    apply lasts_bind. apply lasts_push_children; [lia|lia|by rewrite Hs|].
    intros stk Hpend Hlen Hlt. rewrite Hs in Hpend, Hlen. apply (IH _ ({[i]} ∪ V)).
    - split; simpl; lia.
    - lia.
    - cbn [buddy_stack set_buddy_stack]. rewrite Hpend. destruct Hfr as [Hnd _ _ Hpar Hcl].
      apply frontier_push; try done; [|intros j Hj; apply Hpar; set_solver].
      apply NoDup_app in Hnd as (_ & Hnd & _). intros Hj. by apply (Hnd i Hj), list_elem_of_singleton.
    - intros v Hv. simpl. rewrite Hm. by apply HV'.
    - simpl. unfold zlen in Hm. lia. }
  destruct (req =? find_order i).
  - apply lasts_bind. apply lasts_meta_get. intros b Hb.
    destruct (bool_decide (b = Free)); [|by eapply Hskip].
    apply lasts_bind. apply lasts_meta_set. apply lasts_bind. by apply lasts_node_addr.
  - apply lasts_bind. apply lasts_meta_get. intros b Hb.
    destruct b; [|by eapply Hskip|by eapply Hopen].
    apply lasts_bind. apply lasts_meta_set. eapply Hopen; [exact Hb|done|]. apply zlen_zset.
Qed.

Lemma alloc_lasts n m : slices_ok m → lasts (Memory_buddy_alloc n) any m.
Proof.
  intros [Hmeta Hstk]. unfold Memory_buddy_alloc. apply lasts_bind. apply lasts_gets.
  destruct (_ <? n); [done|]. destruct (n =? 0); [done|]. cbv zeta.
  apply lasts_bind. apply lasts_expect. intros n' _.
  apply lasts_bind. apply lasts_gets. apply lasts_bind. apply lasts_usize. intros req _.
  apply lasts_bind. apply lasts_stack_set; [lia|]. intros Hx.
  apply lasts_bind. apply lasts_gets. apply (alloc_loop_lasts _ _ _ _ ∅).
  - split; simpl; rewrite ?zlen_zset; lia.
  - lia.
  - cbn [buddy_stack set_buddy_stack]. rewrite (pending_push _ (-1)) by lia. apply frontier_root.
  - set_solver.
  - unfold alloc_fuel. simpl. lia.
Qed.

(** ** Walking up *)

(** The root has no parent: without overflow checks its index wraps to one outside
    the array. *)
Lemma up_from_root {A} (k : Z → BlockState → M Memory A) m :
  zlen (buddy_meta m) ≤ ISIZE_MAX →
  lasts (let! i := usub 0 1 in let! p := meta_get (i / 2) in k i p) any m.
Proof.
  intros Hlen. assert (zget (buddy_meta m) (wrap (0 - 1) / 2) = None) as Hn.
  { apply zget_None. vm_compute (wrap _ / 2). lia. }
  unfold usub, usize. change (usize_ok (0 - 1)) with false. cbv iota zeta.
  destruct overflow_checks; [done|]. apply lasts_bind. apply lasts_ret. apply lasts_bind.
  apply lasts_meta_get. intros b Hb. congruence.
Qed.

(** The index halves: [k] bits are at most [k] iterations. *)
Lemma merge_loop_lasts (k fuel : nat) level i buddy_i m :
  zlen (buddy_meta m) ≤ ISIZE_MAX → 0 ≤ i < pow2 k → (k ≤ 32)%nat → (k < fuel)%nat →
  lasts (merge_loop fuel level i buddy_i) any m.
Proof.
  revert fuel level i buddy_i m. induction k as [|k IH]; intros fuel level i buddy_i m Hlen Hi Hk Hfuel;
    (destruct fuel as [|fuel]; [lia|]); cbn [merge_loop]; apply lasts_bind; apply lasts_meta_get; intros b _;
    (destruct (bool_decide (b = Free)); [|done]);
    (destruct (decide (i = 0)) as [->|Hi0]; [by apply (up_from_root (λ i p, _))|]).
  - change (pow2 0) with 1 in Hi. lia.
  - pose proof (pow2_mono (S k) 32 Hk) as Hmax. change (pow2 32) with USIZE_MOD in Hmax. rewrite pow2_S in Hi, Hmax.
    apply lasts_bind. eapply lasts_run; [apply usub_run; lia|]. cbv zeta.
    assert (0 ≤ (i - 1) / 2 < pow2 k) as Hhalf.
    { split; [apply Z.div_pos; lia|apply Z.div_lt_upper_bound; lia]. }
    apply lasts_bind. apply lasts_meta_get. intros p _. apply lasts_bind.
    destruct (bool_decide (p = Split)); [|done]. apply lasts_meta_set.
    destruct (_ =? 0); [done|]. unfold usub, uadd, upow2, buddy_index, uadd, usub, upow2.
    repeat (apply lasts_bind; apply lasts_usize; intros ? _). cbv zeta.
    apply lasts_bind. repeat lasts_step. apply IH; [|done|lia|lia]. simpl. by rewrite zlen_zset.
Qed.

Lemma free_lasts pa m :
  zlen (buddy_meta m) ≤ ISIZE_MAX → lasts (Memory_buddy_free pa) any m.
Proof.
  intros Hlen. unfold Memory_buddy_free. destruct (PhysAddr_size pa) as [size|]; [|done].
  unfold usub, uadd, upow2, buddy_index, uadd, usub, upow2.
  apply lasts_bind. apply lasts_gets. apply lasts_bind. apply lasts_usize. intros offset _.
  apply lasts_bind. apply lasts_gets. apply lasts_bind. apply lasts_usize. intros level _.
  apply lasts_bind. apply lasts_udiv. intros position. apply lasts_bind. apply lasts_ushl1. intros first.
  apply lasts_bind. apply lasts_usize. intros i0 _. apply lasts_bind. apply lasts_usize. intros i Hi.
  do 3 (apply lasts_bind; apply lasts_usize; intros ? _).
  apply lasts_bind. apply lasts_meta_get. intros b _. apply lasts_bind.
  destruct (bool_decide (b = Allocated)); [|done]. apply lasts_meta_set. apply lasts_bind.
  do 2 (apply lasts_bind; apply lasts_usize; intros ? _). apply lasts_usize. intros ? _. apply (merge_loop_lasts 32); simpl; rewrite ?zlen_zset; unfold merge_fuel; try lia.
  exact Hi.
Qed.

(** C12. Both methods end on every array: whatever the two slices hold, a call
    answers or panics, and the iteration bounds of the model are never used up. *)
Theorem buddy_terminates n pa m :
  slices_ok m → Memory_buddy_alloc n m ≠ NoFuel ∧ Memory_buddy_free pa m ≠ NoFuel.
Proof.
  intros Hm. split; eapply lasts_not_fuel; [by apply alloc_lasts|apply free_lasts, Hm].
Qed.
End down.
