(* ===== verification/BuddyTree.v ===== *)
(** * What a buddy allocator promises: the abstract tree.

    A heap is a binary tree whose leaves are free or allocated blocks.  Depth [l]
    and position [p] name the [p]-th block of size [2^(h-l)] of a heap of height
    [h].  [talloc] takes the leftmost free block of a depth, splitting as it
    goes; [tfree] gives a block back and joins free buddies on the way up.  The
    array code of [Memory] is shown to refine these two functions in
    [BuddyRefine]. *)
From S2P Require Import Prelude.

Inductive btree : Type :=
  | BFree
  | BAlloc
  | BSplit (l r : btree).
#[export] Instance btree_eq_dec : EqDecision btree.
Proof. solve_decision. Defined.

Definition tjoin (l r : btree) : btree :=
  match l, r with BFree, BFree => BFree | _, _ => BSplit l r end.

Fixpoint talloc (d : nat) (t : btree) : option (Z * btree) :=
  match d, t with
  | O, BFree => Some (0, BAlloc)
  | S d', BFree =>
    match talloc d' BFree with
    | Some (p, l) => Some (p, BSplit l BFree)
    | None => None
    end
  | S d', BSplit l r =>
    match talloc d' l with
    | Some (p, l') => Some (p, BSplit l' r)
    | None =>
      match talloc d' r with
      | Some (p, r') => Some (pow2 d' + p, BSplit l r')
      | None => None
      end
    end
  | _, _ => None
  end.

Fixpoint tfree (t : btree) (l : nat) (p : Z) : option btree :=
  match t, l with
  | BAlloc, O => Some BFree
  | BSplit a b, S l' =>
    if p <? pow2 l' then (λ a', tjoin a' b) <$> tfree a l' p
    else (λ b', tjoin a b') <$> tfree b l' (p - pow2 l')
  | _, _ => None
  end.

(** An allocated block at depth [l], position [p]. *)
Fixpoint tlive (t : btree) (l : nat) (p : Z) : Prop :=
  match t, l with
  | BAlloc, O => p = 0
  | BSplit a b, S l' => 
    0 ≤ p < pow2 l' ∧ tlive a l' p ∨ pow2 l' ≤ p < 2 * pow2 l' ∧ tlive b l' (p - pow2 l')
  | _, _ => False
  end.

(** No split node has two free children. *)
Fixpoint canonical (t : btree) : Prop :=
  match t with
  | BSplit l r => canonical l ∧ canonical r ∧ ¬ (l = BFree ∧ r = BFree)
  | _ => True
  end.

Fixpoint theight (t : btree) : nat :=
  match t with BSplit l r => S (theight l `max` theight r) | _ => 0%nat end.

(** The blocks [(l, p)] and [(l', p')] of a heap of height [h] have no byte in common. *)
Definition apart (h l : nat) (p : Z) (l' : nat) (p' : Z) : Prop :=
  (p + 1) * pow2 (h - l) ≤ p' * pow2 (h - l') ∨ (p' + 1) * pow2 (h - l') ≤ p * pow2 (h - l).

(** ** Live blocks *)

Lemma tlive_bounds t l p : tlive t l p → 0 ≤ p < pow2 l ∧ (l ≤ theight t)%nat.
Proof.
  revert l p. induction t as [| |a IHa b IHb]; intros [|l] p; simpl; try done.
  - intros ->. split; [done|lia].
  - rewrite pow2_S. intros [(Hp & Hl)|(Hp & Hl)].
    + destruct (IHa _ _ Hl). split; lia.
    + destruct (IHb _ _ Hl). split; lia.
Qed.

Lemma tlive_free l p : tlive BFree l p → False.
Proof. by destruct l. Qed.

Lemma canonical_has_live t : canonical t → t ≠ BFree → ∃ l p, tlive t l p.
Proof.
  induction t as [| |a IHa b IHb]; simpl; intros Hc Hne; [done|by exists 0%nat, 0|].
  destruct Hc as (Ha & Hb & Hab).
  destruct (decide (a = BFree)) as [->|Hna].
  - destruct IHb as (l & p & Hl); [done|naive_solver|].
    exists (S l), (pow2 l + p). simpl. right. destruct (tlive_bounds _ _ _ Hl) as [Hp _].
    split; [lia|]. by replace (pow2 l + p - pow2 l) with p by lia.
  - destruct IHa as (l & p & Hl); [done..|].
    exists (S l), p. simpl. left. destruct (tlive_bounds _ _ _ Hl) as [Hp _]. split; [lia|done].
Qed.

Lemma pow2_split h l : (l ≤ h)%nat → pow2 l * pow2 (h - l) = pow2 h.
Proof. intros. rewrite <- pow2_add. f_equal. lia. Qed.

(** Blocks of the left half end where the blocks of the right half start. *)
Lemma apart_halves h l p l' p' :
  (l ≤ h)%nat → (l' ≤ h)%nat → 0 ≤ p < pow2 l → 0 ≤ p' →
  apart (S h) (S l) p (S l') (pow2 l' + p').
Proof.
  intros Hl Hl' Hp Hp'. left. cbn [Nat.sub].
  pose proof (pow2_split h l Hl). pose proof (pow2_split h l' Hl').
  pose proof (pow2_pos (h - l)). pose proof (pow2_pos (h - l')). nia.
Qed.

Lemma apart_sym h l p l' p' : apart h l p l' p' → apart h l' p' l p.
Proof. unfold apart. tauto. Qed.

Lemma apart_left h l p l' p' : apart h l p l' p' → apart (S h) (S l) p (S l') p'.
Proof. done. Qed.

Lemma apart_right h l p l' p' :
  (l ≤ h)%nat → (l' ≤ h)%nat →
  apart h l p l' p' → apart (S h) (S l) (pow2 l + p) (S l') (pow2 l' + p').
Proof.
  intros Hl Hl'. unfold apart. cbn [Nat.sub].
  pose proof (pow2_split h l Hl). pose proof (pow2_split h l' Hl'). lia.
Qed.

(** Two live blocks are the same block or have no byte in common. *)
Lemma tlive_apart h t l p l' p' :
  (theight t ≤ h)%nat → tlive t l p → tlive t l' p' →
  (l, p) = (l', p') ∨ apart h l p l' p'.
Proof.
  revert h l p l' p'. induction t as [| |a IHa b IHb]; intros h [|l] p [|l'] p'; simpl; try done.
  - intros _ -> ->. by left.
  - destruct h as [|h]; [lia|]. intros Hh.
    assert (∀ t l p, (theight t ≤ h)%nat → tlive t l p → 0 ≤ p < pow2 l ∧ (l ≤ h)%nat) as Hb.
    { intros t0 l0 p0 ? Hl%tlive_bounds. lia. }
    intros [(Hp & Hl)|(Hp & Hl)] [(Hp' & Hl')|(Hp' & Hl')].
    + destruct (IHa h _ _ _ _ ltac:(lia) Hl Hl') as [?|?]; [left; congruence|by right].
    + right. destruct (Hb a l p), (Hb b l' (p' - pow2 l')); try done; try lia.
      replace p' with (pow2 l' + (p' - pow2 l')) by lia. apply apart_halves; lia.
    + right. destruct (Hb b l (p - pow2 l)), (Hb a l' p'); try done; try lia. apply apart_sym.
      replace p with (pow2 l + (p - pow2 l)) by lia. apply apart_halves; lia.
    + destruct (Hb b l (p - pow2 l)), (Hb b l' (p' - pow2 l')); try done; try lia.
      destruct (IHb h _ _ _ _ ltac:(lia) Hl Hl') as [Heq|?].
      * left. injection Heq as -> ?. f_equal. lia.
      * right. replace p with (pow2 l + (p - pow2 l)) by lia.
        replace p' with (pow2 l' + (p' - pow2 l')) by lia. apply apart_right; done || lia.
Qed.

(** ** [talloc] *)

Lemma talloc_free d : ∃ t', talloc d BFree = Some (0, t').
Proof. induction d as [|d [t' IH]]; simpl; [by eexists|]. rewrite IH. by eexists. Qed.

Lemma talloc_Split_inv d l r p t' :
  talloc (S d) (BSplit l r) = Some (p, t') →
  (∃ l', talloc d l = Some (p, l') ∧ t' = BSplit l' r) ∨
  (∃ q r', talloc d l = None ∧ talloc d r = Some (q, r') ∧ p = pow2 d + q ∧ t' = BSplit l r').
Proof.
  simpl. destruct (talloc d l) as [[q l']|]; [intros [= <- <-]; left; eauto|].
  destruct (talloc d r) as [[q r']|]; [|done]. intros [= <- <-]. right. eauto 10.
Qed.

Lemma talloc_bounds d t p t' : talloc d t = Some (p, t') → 0 ≤ p < pow2 d.
Proof.
  revert t p t'. induction d as [|d IH]; intros [| |l r] p t'; try done.
  - by intros [= <- <-].
  - simpl. destruct (talloc_free d) as [t0 Ht0]. rewrite Ht0. intros [= <- <-].
    pose proof (pow2_pos (S d)). lia.
  - rewrite pow2_S.
    intros [(l' & Hl & ->)|(q & r' & _ & Hr & -> & ->)]%talloc_Split_inv.
    + specialize (IH _ _ _ Hl). lia.
    + specialize (IH _ _ _ Hr). lia.
Qed.

(** The heap after an allocation has the block taken and all the old ones. *)
Lemma talloc_live d t p t' :
  talloc d t = Some (p, t') →
  ∀ l q, tlive t' l q ↔ tlive t l q ∨ l = d ∧ q = p.
Proof.
  revert t p t'. induction d as [|d IH]; intros [| |a b] p t' Ht l q; try done.
  - injection Ht as <- <-. destruct l; simpl; [split; [by right|by intros [?|[_ ->]]]|].
    split; [done|by intros [?|[[=] _]]].
  - simpl in Ht. destruct (talloc_free d) as [a Ha]. rewrite Ha in Ht. injection Ht as <- <-.
    specialize (IH _ _ _ Ha). pose proof (pow2_pos d).
    destruct l as [|l]; simpl; [split; [done|by intros [?|[[=] _]]]|].
    rewrite (IH l q). split.
    + intros [(_ & [[]%tlive_free|[-> ->]])|(_ & [])]. by right.
    + intros [[]|[[= ->] ->]]. left. split; [lia|by right].
  - apply talloc_Split_inv in Ht as [(a' & Ha & ->)|(k & b' & _ & Hb & -> & ->)].
    + specialize (IH _ _ _ Ha). pose proof (talloc_bounds _ _ _ _ Ha).
      destruct l as [|l]; simpl; [split; [done|by intros [?|[[=] _]]]|].
      rewrite (IH l q). split.
      * intros [[? [?|[-> ->]]]|?]; [by left; left|by right|by left; right].
      * intros [[[? ?]|?]|[[= ->] ->]]; [left; split; [done|by left]|by right|].
        left. split; [done|by right].
    + specialize (IH _ _ _ Hb). pose proof (talloc_bounds _ _ _ _ Hb).
      destruct l as [|l]; simpl; [split; [done|by intros [?|[[=] _]]]|].
      rewrite (IH l (q - pow2 l)). split.
      * intros [?|[? [?|[-> ?]]]]; [by left; left|by left; right|]. right. split; [done|lia].
      * intros [[?|[? ?]]|[[= ->] ->]]; [by left|right; split; [done|by left]|].
        right. split; [lia|]. right. split; [done|lia].
Qed.

Lemma talloc_not_free d t p t' : talloc d t = Some (p, t') → t' ≠ BFree.
Proof.
  intros Ht ->. apply (talloc_live _ _ _ _ Ht d p). by right.
Qed.

Lemma talloc_canonical d t p t' : canonical t → talloc d t = Some (p, t') → canonical t'.
Proof.
  revert t p t'. induction d as [|d IH]; intros [| |a b] p t' Hc; try done.
  - by intros [= <- <-].
  - simpl. destruct (talloc_free d) as [a Ha]. rewrite Ha. intros [= <- <-]. simpl.
    pose proof (talloc_not_free _ _ _ _ Ha). split_and!; [by eapply (IH BFree)|done|naive_solver].
  - destruct Hc as (Hca & Hcb & Hab).
    intros [(a' & Ha & ->)|(q & b' & _ & Hb & -> & ->)]%talloc_Split_inv; simpl.
    + pose proof (talloc_not_free _ _ _ _ Ha). split_and!; [by eapply (IH a)|done|naive_solver].
    + pose proof (talloc_not_free _ _ _ _ Hb). split_and!; [done|by eapply (IH b)|naive_solver].
Qed.

Lemma talloc_height h d t p t' :
  (d ≤ h)%nat → (theight t ≤ h)%nat → talloc d t = Some (p, t') → (theight t' ≤ h)%nat.
Proof.
  revert h t p t'. induction d as [|d IH]; intros h [| |a b] p t' Hd Hh; try done.
  - by intros [= <- <-].
  - simpl. destruct (talloc_free d) as [a Ha]. rewrite Ha. intros [= <- <-]. simpl.
    destruct h as [|h]; [lia|]. pose proof (IH h BFree _ _ ltac:(lia) ltac:(simpl; lia) Ha). lia.
  - destruct h as [|h]; [simpl in Hh; lia|]. simpl in Hh.
    intros [(a' & Ha & ->)|(q & b' & _ & Hb & -> & ->)]%talloc_Split_inv; simpl.
    + pose proof (IH h a _ _ ltac:(lia) ltac:(lia) Ha). lia.
    + pose proof (IH h b _ _ ltac:(lia) ltac:(lia) Hb). lia.
Qed.

(** Some allocated block has a byte in common with block [(d, p)]. *)
Definition tbusy (h : nat) (t : btree) (d : nat) (p : Z) : Prop :=
  ∃ l q, tlive t l q ∧ ¬ apart h d p l q.

Lemma not_apart_root h l q : (l ≤ h)%nat → 0 ≤ q < pow2 l → ¬ apart h 0 0 l q ∧ ¬ apart h l q 0 0.
Proof.
  intros Hl Hq. unfold apart. rewrite Nat.sub_0_r. pose proof (pow2_split h l Hl).
  pose proof (pow2_pos (h - l)). split; intros [?|?]; nia.
Qed.

Lemma apart_left_inv h l p l' p' : apart (S h) (S l) p (S l') p' → apart h l p l' p'.
Proof. done. Qed.

Lemma apart_right_inv h l p l' p' :
  (l ≤ h)%nat → (l' ≤ h)%nat →
  apart (S h) (S l) (pow2 l + p) (S l') (pow2 l' + p') → apart h l p l' p'.
Proof.
  intros Hl Hl'. unfold apart. cbn [Nat.sub].
  pose proof (pow2_split h l Hl). pose proof (pow2_split h l' Hl'). lia.
Qed.

Lemma tbusy_alloc h d p : (d ≤ h)%nat → 0 ≤ p < pow2 d → tbusy h BAlloc d p.
Proof. intros. exists 0%nat, 0. split; [done|]. by apply not_apart_root. Qed.

Lemma tbusy_left h a b d p :
  (d ≤ h)%nat → (theight a ≤ h)%nat → tbusy h a d p → tbusy (S h) (BSplit a b) (S d) p.
Proof.
  intros Hd Hh (l & q & Hl & Hq). exists (S l), q. split; [|done]. simpl. left.
  apply tlive_bounds in Hl as Hb. split; [lia|done].
Qed.

Lemma tbusy_right h a b d p :
  (d ≤ h)%nat → (theight b ≤ h)%nat → tbusy h b d p →
  tbusy (S h) (BSplit a b) (S d) (pow2 d + p).
Proof.
  intros Hd Hh (l & q & Hl & Hq). exists (S l), (pow2 l + q).
  apply tlive_bounds in Hl as Hb. split.
  - simpl. right. split; [lia|]. by replace (pow2 l + q - pow2 l) with q by lia.
  - intros Ha. apply Hq. apply apart_right_inv in Ha; [done|lia..].
Qed.

(** [talloc] fails only when every block of the depth is (partly) taken, and
    otherwise takes the first one that is not. *)
Lemma talloc_first_fit h d t :
  (d ≤ h)%nat → (theight t ≤ h)%nat → canonical t →
  ∀ q, 0 ≤ q < match talloc d t with Some (p, _) => p | None => pow2 d end → tbusy h t d q.
Proof.
  revert h t. induction d as [|d IH]; intros h [| |a b] Hd Hh Hc q Hq.
  - simpl in Hq. lia.
  - by apply tbusy_alloc.
  - (* a split node at the requested depth has a live block below it *)
    destruct (canonical_has_live (BSplit a b)) as (l & r & Hl); [done..|].
    simpl in Hq. change (pow2 0) with 1 in Hq. replace q with 0 by lia.
    exists l, r. split; [done|]. apply tlive_bounds in Hl as Hb. apply not_apart_root; lia.
  - simpl in Hq. destruct (talloc_free d) as [a Ha]. rewrite Ha in Hq. lia.
  - apply tbusy_alloc; [done|]. exact Hq.
  - destruct h as [|h]; [simpl in Hh; lia|]. simpl in Hh. destruct Hc as (Hca & Hcb & _).
    pose proof (λ q, IH h a ltac:(lia) ltac:(lia) Hca q) as IHa.
    pose proof (λ q, IH h b ltac:(lia) ltac:(lia) Hcb q) as IHb.
    simpl in Hq. revert IHa IHb. destruct (talloc d a) as [[p a']|]; intros IHa IHb.
    + apply tbusy_left; [lia..|]. by apply IHa.
    + destruct (Z.lt_ge_cases q (pow2 d)); [apply tbusy_left; [lia..|]; apply IHa; lia|].
      replace q with (pow2 d + (q - pow2 d)) by lia. apply tbusy_right; [lia..|].
      apply IHb. rewrite pow2_S in Hq. destruct (talloc d b) as [[p b']|]; lia.
Qed.

Lemma talloc_new d t p t' : talloc d t = Some (p, t') → ¬ tlive t d p.
Proof.
  revert t p t'. induction d as [|d IH]; intros [| |a b] p t'; try done; try solve [intros _ []].
  intros [(a' & Ha & ->)|(q & b' & _ & Hb & -> & ->)]%talloc_Split_inv; simpl.
  - pose proof (talloc_bounds _ _ _ _ Ha). specialize (IH _ _ _ Ha). by intros [[_ ?]|[? _]]; [|lia].
  - pose proof (talloc_bounds _ _ _ _ Hb). specialize (IH _ _ _ Hb).
    replace (pow2 d + q - pow2 d) with q by lia. by intros [[? _]|[_ ?]]; [lia|].
Qed.

(** The block an allocation takes was not in use. *)
Lemma talloc_fresh h d t p t' :
  (d ≤ h)%nat → (theight t ≤ h)%nat → talloc d t = Some (p, t') →
  ∀ l q, tlive t l q → apart h d p l q.
Proof.
  intros Hd Hh Ht l q Hl. pose proof (talloc_live _ _ _ _ Ht) as Hlive.
  assert (theight t' ≤ h)%nat as Hh' by (by eapply (talloc_height h d t)).
  assert (tlive t' d p) as Hp by (apply Hlive; by right).
  assert (tlive t' l q) as Hq by (apply Hlive; by left).
  destruct (tlive_apart h t' d p l q Hh' Hp Hq) as [[= -> ->]|Ha]; [|exact Ha].
  by destruct (talloc_new _ _ _ _ Ht).
Qed.

(** ** [tfree] *)

Lemma tjoin_live a b l q : tlive (tjoin a b) l q ↔ tlive (BSplit a b) l q.
Proof.
  destruct a, b; try done. simpl. destruct l as [|l]; [done|]. simpl.
  split; [done|]. intros [[_ Hl]|[_ Hl]]; by destruct l.
Qed.

Lemma tjoin_canonical a b : canonical a → canonical b → canonical (tjoin a b).
Proof. destruct a, b; simpl; naive_solver. Qed.

Lemma tjoin_height h a b : (theight (BSplit a b) ≤ h)%nat → (theight (tjoin a b) ≤ h)%nat.
Proof. destruct a, b; simpl; lia. Qed.

Lemma tjoin_Split a b : ¬ (a = BFree ∧ b = BFree) → tjoin a b = BSplit a b.
Proof. destruct a, b; naive_solver. Qed.

Lemma tfree_Split_left a b l p :
  0 ≤ p < pow2 l → tfree (BSplit a b) (S l) p = (λ a', tjoin a' b) <$> tfree a l p.
Proof. intros. simpl. by rewrite (proj2 (Z.ltb_lt _ _)) by lia. Qed.

Lemma tfree_Split_right a b l p :
  0 ≤ p → tfree (BSplit a b) (S l) (pow2 l + p) = (λ b', tjoin a b') <$> tfree b l p.
Proof.
  intros. simpl. rewrite (proj2 (Z.ltb_ge _ _)) by lia.
  by replace (pow2 l + p - pow2 l) with p by lia.
Qed.

(** Freeing a live block succeeds and removes exactly that block. *)
Lemma tfree_live t l p :
  tlive t l p →
  ∃ t', tfree t l p = Some t' ∧
    ∀ k q, tlive t' k q ↔ tlive t k q ∧ ¬ (k = l ∧ q = p).
Proof.
  revert l p. induction t as [| |a IHa b IHb]; intros [|l] p; try done.
  - intros ->. exists BFree. split; [done|]. intros k q. destruct k; simpl; naive_solver.
  - intros [(Hp & Hl)|(Hp & Hl)].
    + destruct (IHa _ _ Hl) as (a' & Ha & Hlive). exists (tjoin a' b).
      rewrite tfree_Split_left, Ha by done. split; [done|]. intros k q.
      rewrite tjoin_live. destruct k as [|k]; simpl; [naive_solver|]. rewrite Hlive.
      split; [|naive_solver].
      intros [(? & ? & ?)|(? & ?)]; (split; [tauto|]); intros [[= ->] ->]; [tauto|lia].
    + destruct (IHb _ _ Hl) as (b' & Hb & Hlive). exists (tjoin a b').
      replace p with (pow2 l + (p - pow2 l)) at 1 by lia.
      rewrite tfree_Split_right, Hb by lia. split; [done|]. intros k q.
      rewrite tjoin_live. destruct k as [|k]; simpl; [naive_solver|]. rewrite Hlive.
      split.
      * intros [(? & ?)|(? & ? & ?)]; (split; [tauto|]); intros [[= ->] ->]; [lia|tauto].
      * intros [[?|(? & ?)] Hne]; [by left|right]. split; [done|split; [done|]].
        intros [-> Heq]. apply Hne. split; [done|lia].
Qed.

Lemma tfree_canonical t l p t' : canonical t → tfree t l p = Some t' → canonical t'.
Proof.
  revert l p t'. induction t as [| |a IHa b IHb]; intros [|l] p t' Hc; try done.
  - by intros [= <-].
  - destruct Hc as (Hca & Hcb & _). simpl. destruct (p <? pow2 l).
    + destruct (tfree a l p) eqn:Ha; [|done]. intros [= <-].
      apply tjoin_canonical; [by eapply IHa|done].
    + destruct (tfree b l (p - pow2 l)) eqn:Hb; [|done]. intros [= <-].
      apply tjoin_canonical; [done|by eapply IHb].
Qed.

Lemma tfree_height h t l p t' :
  (theight t ≤ h)%nat → tfree t l p = Some t' → (theight t' ≤ h)%nat.
Proof.
  revert h l p t'. induction t as [| |a IHa b IHb]; intros h [|l] p t' Hh; try done.
  - by intros [= <-].
  - simpl in Hh. destruct h as [|h]; [lia|]. simpl. destruct (p <? pow2 l).
    + destruct (tfree a l p) as [a'|] eqn:Ha; [|done]. intros [= <-].
      apply tjoin_height. simpl. pose proof (IHa h _ _ _ ltac:(lia) Ha). lia.
    + destruct (tfree b l (p - pow2 l)) as [b'|] eqn:Hb; [|done]. intros [= <-].
      apply tjoin_height. simpl. pose proof (IHb h _ _ _ ltac:(lia) Hb). lia.
Qed.

(** Freeing what was just allocated gives the heap back, joins included. *)
Lemma tfree_talloc d t p t' :
  canonical t → talloc d t = Some (p, t') → tfree t' d p = Some t.
Proof.
  revert t p t'. induction d as [|d IH]; intros [| |a b] p t' Hc; try done.
  - by intros [= <- <-].
  - simpl. destruct (talloc_free d) as [a Ha]. rewrite Ha. intros [= <- <-].
    pose proof (pow2_pos d). by rewrite tfree_Split_left, (IH BFree 0 a I Ha) by lia.
  - destruct Hc as (Hca & Hcb & Hab).
    intros [(a' & Ha & ->)|(q & b' & _ & Hb & -> & ->)]%talloc_Split_inv.
    + pose proof (talloc_bounds _ _ _ _ Ha).
      rewrite tfree_Split_left, (IH a p a' Hca Ha) by lia. simpl. by rewrite tjoin_Split.
    + pose proof (talloc_bounds _ _ _ _ Hb).
      rewrite tfree_Split_right, (IH b q b' Hcb Hb) by lia. simpl. by rewrite tjoin_Split.
Qed.

(** ** Contexts: the path from a node up to the root, innermost step first *)

Inductive frame : Type :=
  | FL (r : btree)   (* the node is the left child; [r] is its buddy *)
  | FR (l : btree).
Definition bit (f : frame) : Z := match f with FL _ => 0 | FR _ => 1 end.
Definition sibling (f : frame) : btree := match f with FL r => r | FR l => l end.
Definition plug1 (f : frame) (t : btree) : btree :=
  match f with FL r => BSplit t r | FR l => BSplit l t end.
Definition join1 (f : frame) (t : btree) : btree :=
  match f with FL r => tjoin t r | FR l => tjoin l t end.
Fixpoint plug (t : btree) (c : list frame) : btree :=
  match c with [] => t | f :: c => plug (plug1 f t) c end.
Fixpoint plugj (t : btree) (c : list frame) : btree :=
  match c with [] => t | f :: c => plugj (join1 f t) c end.
Fixpoint pos (c : list frame) : Z :=
  match c with [] => 0 | f :: c => 2 * pos c + bit f end.

Lemma bit_01 f : 0 ≤ bit f ≤ 1.
Proof. destruct f; simpl; lia. Qed.

Lemma pos_bounds c : 0 ≤ pos c < pow2 (length c).
Proof.
  induction c as [|f c IH]; [done|]. cbn [length pos]. rewrite pow2_S.
  pose proof (bit_01 f). lia.
Qed.

Lemma plug_snoc t c f : plug t (c ++ [f]) = plug1 f (plug t c).
Proof. revert t. induction c as [|g c IH]; intros t; [done|]. apply IH. Qed.
Lemma plugj_snoc t c f : plugj t (c ++ [f]) = join1 f (plugj t c).
Proof. revert t. induction c as [|g c IH]; intros t; [done|]. apply IH. Qed.
Lemma pos_snoc c f : pos (c ++ [f]) = bit f * pow2 (length c) + pos c.
Proof.
  induction c as [|g c IH]; cbn [app length pos]; [change (pow2 0) with 1; lia|].
  rewrite IH, pow2_S. lia.
Qed.

Lemma plugj_nonfree t c : t ≠ BFree → plugj t c = plug t c.
Proof.
  revert t. induction c as [|f c IH]; intros t Ht; [done|].
  assert (join1 f t = plug1 f t) as Hj by (destruct f; simpl; apply tjoin_Split; tauto).
  cbn [plugj plug]. rewrite Hj. apply IH. by destruct f.
Qed.

(** A live block is an allocated leaf in some context, and [tfree] joins along it. *)
Lemma tlive_context t l p :
  tlive t l p →
  ∃ c, t = plug BAlloc c ∧ length c = l ∧ pos c = p ∧ tfree t l p = Some (plugj BFree c).
Proof.
  revert l p. induction t as [| |a IHa b IHb]; intros [|l] p; try done.
  - intros ->. by exists [].
  - intros [(Hp & Hl)|(Hp & Hl)].
    + destruct (IHa _ _ Hl) as (c & -> & Hlen & Hpos & Hf). exists (c ++ [FL b]).
      rewrite plug_snoc, plugj_snoc, pos_snoc, length_app, Hlen, Hpos.
      rewrite tfree_Split_left, Hf by done. split_and!; [done|simpl; lia|simpl; lia|done].
    + destruct (IHb _ _ Hl) as (c & -> & Hlen & Hpos & Hf). exists (c ++ [FR a]).
      rewrite plug_snoc, plugj_snoc, pos_snoc, length_app, Hlen, Hpos.
      pose proof (tfree_Split_right a (plug BAlloc c) l (p - pow2 l) ltac:(lia)) as Hr.
      replace (pow2 l + (p - pow2 l)) with p in Hr by lia.
      rewrite Hr, Hf. split_and!; [done|simpl; lia|simpl; lia|done].
Qed.
