(* ===== verification/BuddyRefine.v ===== *)
(** * The array of block states as a tree, and one iteration of each loop.

    [repr meta d i t] says that the [d] levels of nodes below and including node
    [i] of the array [meta] spell the abstract tree [t].  Nodes under a free or
    allocated block are all free, which is what lets [buddy_alloc] split a block
    by writing its own node only. *)
From S2P Require Import Prelude Ram Addr Order Buddy BuddyTree.

(** ** Nodes below a node *)

(** [j] is [i] or one of its descendants within [d] generations. *)
Definition desc (d : nat) (i j : Z) : Prop :=
  ∃ e : nat, (e ≤ d)%nat ∧ (j + 1) / pow2 e = i + 1.

#[export] Instance desc_dec d i j : Decision (desc d i j).
Proof.
  destruct (decide (Exists (λ e, (j + 1) / pow2 e = i + 1) (seq 0 (S d)))) as [He|He];
    [left|right]; rewrite Exists_exists in He.
  - destruct He as (e & He%elem_of_seq & Hj). exists e. split; [lia|done].
  - intros (e & Hed & Hj). apply He. exists e. split; [apply elem_of_seq; lia|done].
Defined.

Lemma desc_refl d i : desc d i i.
Proof. exists 0%nat. split; [lia|]. apply Z.div_1_r. Qed.

Lemma desc_child d i b j : 0 ≤ b ≤ 1 → desc d (2 * i + 1 + b) j → desc (S d) i j.
Proof.
  intros Hb (e & He & Hj). exists (S e). split; [lia|].
  rewrite pow2_S, (Z.mul_comm 2), <- Z.div_div, Hj by (pose proof (pow2_pos e); lia).
  replace (2 * i + 1 + b + 1) with (b + (i + 1) * 2) by lia.
  rewrite Z.div_add, Z.div_small by lia. lia.
Qed.

Lemma desc_le d i j : 0 ≤ i → desc d i j → i ≤ j.
Proof.
  intros Hi (e & _ & Hj). pose proof (pow2_pos e).
  pose proof (Z.mul_div_le (j + 1) (pow2 e) ltac:(lia)). nia.
Qed.

Lemma desc_child_not_self d i b : 0 ≤ i → 0 ≤ b → ¬ desc d (2 * i + 1 + b) i.
Proof. intros Hi Hb Hd%desc_le; lia. Qed.

(** Shifting an even number further never reaches its odd neighbour. *)
Lemma div_pow2_le x (e : nat) : 0 ≤ x → x / pow2 (S e) ≤ x / 2.
Proof.
  intros Hx. pose proof (pow2_pos e). rewrite pow2_S, <- Z.div_div by lia.
  assert (0 ≤ x / 2) by (apply Z.div_pos; lia).
  apply Z.div_le_upper_bound; nia.
Qed.

Lemma desc_siblings d i j : 0 ≤ i → desc d (2 * i + 1) j → desc d (2 * i + 2) j → False.
Proof.
  intros Hi (e & _ & He) (e' & _ & He').
  destruct (lt_eq_lt_dec e e') as [[Hlt| ->]|Hlt].
  - replace e' with (e + S (e' - e - 1))%nat in He' by lia.
    rewrite pow2_add, <- Z.div_div, He in He' by (pose proof (pow2_pos e); pose proof (pow2_pos e'); apply pow2_pos || lia).
    pose proof (div_pow2_le (2 * i + 1 + 1) (e' - e - 1) ltac:(lia)).
    replace (2 * i + 1 + 1) with ((i + 1) * 2) in * by lia. rewrite Z.div_mul in * by lia. lia.
  - lia.
  - replace e with (e' + S (e - e' - 1))%nat in He by lia.
    rewrite pow2_add, <- Z.div_div, He' in He by (pose proof (pow2_pos e); pose proof (pow2_pos e'); apply pow2_pos || lia).
    pose proof (div_pow2_le (2 * i + 2 + 1) (e - e' - 1) ltac:(lia)).
    replace (2 * i + 2 + 1) with (1 + (i + 1) * 2) in * by lia.
    rewrite Z.div_add in * by lia. change (1 / 2) with 0 in *. lia.
Qed.

(** ** The tree spelled by an array *)

Definition head (t : btree) : BlockState :=
  match t with BFree => Free | BAlloc => Allocated | BSplit _ _ => Split end.

(** Free and allocated blocks have free children. *)
Definition tleft (t : btree) : btree := match t with BSplit l _ => l | _ => BFree end.
Definition tright (t : btree) : btree := match t with BSplit _ r => r | _ => BFree end.

Fixpoint repr (meta : list BlockState) (d : nat) (i : Z) (t : btree) : Prop :=
  zget meta i = Some (head t) ∧
  match d with
  | O => theight t = 0%nat
  | S d' => repr meta d' (2 * i + 1) (tleft t) ∧ repr meta d' (2 * i + 2) (tright t)
  end.

Lemma repr_head meta d i t : repr meta d i t → zget meta i = Some (head t).
Proof. by destruct d; intros [? _]. Qed.

Lemma repr_height meta d i t : repr meta d i t → (theight t ≤ d)%nat.
Proof.
  revert i t. induction d as [|d IH]; intros i t; [intros [_ ->]; lia|].
  destruct t as [| |l r]; simpl; [lia..|]. intros (_ & Hl%IH & Hr%IH). lia.
Qed.

Lemma repr_frame meta meta' d i t :
  (∀ j, desc d i j → zget meta' j = zget meta j) → repr meta d i t → repr meta' d i t.
Proof.
  revert i t. induction d as [|d IH]; intros i t Hm; simpl;
    rewrite (Hm i) by apply desc_refl; [done|].
  intros (H0 & Hl & Hr). split_and!; [done|..].
  - apply IH; [|done]. intros j Hj. apply Hm. apply (desc_child d i 0); [lia|].
    by rewrite Z.add_0_r.
  - apply IH; [|done]. intros j Hj. apply Hm. apply (desc_child d i 1); [lia|].
    by replace (2 * i + 1 + 1) with (2 * i + 2) by lia.
Qed.

(** Writing a node's own entry does not disturb the trees of its children. *)
Lemma repr_zset_parent meta d i t x :
  0 ≤ i →
  (repr meta d (2 * i + 1) t → repr (zset i x meta) d (2 * i + 1) t) ∧
  (repr meta d (2 * i + 2) t → repr (zset i x meta) d (2 * i + 2) t).
Proof.
  intros Hi. split; apply repr_frame; intros j Hj%desc_le; try lia; apply zget_zset_ne; lia.
Qed.

Lemma repr_zset_self meta d i t t' x :
  0 ≤ i → x = head t' → tleft t' = tleft t → tright t' = tright t →
  (theight t = 0%nat → theight t' = 0%nat) →
  repr meta d i t → repr (zset i x meta) d i t'.
Proof.
  intros Hi -> Hl Hr Hh Ht. pose proof (zget_Some _ _ _ (repr_head _ _ _ _ Ht)).
  destruct d as [|d]; simpl in *; rewrite zget_zset_eq by done; [naive_solver|].
  destruct Ht as (_ & Htl & Htr). rewrite Hl, Hr. split_and!; [done|..];
    by apply repr_zset_parent.
Qed.

Lemma tlive_S t k p :
  tlive t (S k) p ↔
  0 ≤ p < pow2 k ∧ tlive (tleft t) k p ∨ pow2 k ≤ p < 2 * pow2 k ∧ tlive (tright t) k (p - pow2 k).
Proof.
  destruct t; simpl; [..|done]; (split; [done|]); intros [[_ Hl]|[_ Hl]]; by destruct k.
Qed.

(** Live blocks can be read off the array. *)
Lemma repr_live_at meta d i t k p :
  repr meta d i t → (k ≤ d)%nat → 0 ≤ p < pow2 k →
  tlive t k p ↔ zget meta (i * pow2 k + (pow2 k - 1) + p) = Some Allocated.
Proof.
  revert i t k p. induction d as [|d IH]; intros i t k p Hr Hk Hp; destruct k as [|k]; try lia.
  1,2: apply repr_head in Hr; change (pow2 0) with 1 in *; assert (p = 0) as -> by lia;
    replace (i * 1 + (1 - 1) + 0) with i by lia; rewrite Hr; by destruct t.
  destruct Hr as (_ & Hl & Hr). rewrite tlive_S, pow2_S. rewrite pow2_S in Hp.
  destruct (Z.lt_ge_cases p (pow2 k)).
  - rewrite (IH _ _ _ _ Hl) by lia.
    replace ((2 * i + 1) * pow2 k + (pow2 k - 1) + p)
      with (i * (2 * pow2 k) + (2 * pow2 k - 1) + p) by lia.
    split; [intros [?|?]; [tauto|lia]|]. intros ?. left. split; [lia|done].
  - rewrite (IH _ _ _ (p - pow2 k) Hr) by lia.
    replace ((2 * i + 2) * pow2 k + (pow2 k - 1) + (p - pow2 k))
      with (i * (2 * pow2 k) + (2 * pow2 k - 1) + p) by lia.
    split; [intros [?|?]; [lia|tauto]|]. intros ?. right. split; [lia|done].
Qed.

(** An array is determined by the tree it spells. *)
Lemma repr_agree meta meta' d i t j :
  repr meta d i t → repr meta' d i t → desc d i j → zget meta j = zget meta' j.
Proof.
  intros Ht Ht' (e & He & Hje). revert i t e Ht Ht' He Hje.
  assert (∀ i t e, repr meta e i t → repr meta' e i t → (j + 1) / pow2 0 = i + 1 →
    zget meta j = zget meta' j) as H0.
  { intros i t e Ht%repr_head Ht'%repr_head Hj. change (pow2 0) with 1 in Hj.
    rewrite Z.div_1_r in Hj. assert (j = i) as -> by lia. congruence. }
  induction d as [|d IH]; intros i t [|e] Ht Ht' He Hje; [by eapply H0|lia|by eapply H0|].
  rewrite pow2_S, (Z.mul_comm 2), <- Z.div_div in Hje by (pose proof (pow2_pos e); lia).
  pose proof (Z.div_mod ((j + 1) / pow2 e) 2 ltac:(lia)) as Hdm.
  pose proof (Z.mod_pos_bound ((j + 1) / pow2 e) 2 ltac:(lia)).
  destruct Ht as (_ & Hl & Hr), Ht' as (_ & Hl' & Hr').
  destruct (Z.eq_dec (((j + 1) / pow2 e) mod 2) 0).
  - apply (IH (2 * i + 1) (tleft t) e); done || lia.
  - apply (IH (2 * i + 2) (tright t) e); done || lia.
Qed.

(** Replacing the tree of one child of a split node. *)
Lemma repr_replace_left meta meta' d i a b a' :
  0 ≤ i → repr meta (S d) i (BSplit a b) → repr meta' d (2 * i + 1) a' →
  (∀ j, ¬ desc d (2 * i + 1) j → zget meta' j = zget meta j) →
  repr meta' (S d) i (BSplit a' b).
Proof.
  intros Hi (H0 & _ & Hr) Ha Hm. split_and!; [|done|].
  - rewrite Hm; [done|]. intros Hd%desc_le; lia.
  - eapply repr_frame; [|exact Hr]. intros j Hj. apply Hm. intros Hj'.
    by eapply desc_siblings.
Qed.

Lemma repr_replace_right meta meta' d i a b b' :
  0 ≤ i → repr meta (S d) i (BSplit a b) → repr meta' d (2 * i + 2) b' →
  (∀ j, ¬ desc d (2 * i + 2) j → zget meta' j = zget meta j) →
  repr meta' (S d) i (BSplit a b').
Proof.
  intros Hi (H0 & Hl & _) Hb Hm. split_and!; [| |done].
  - rewrite Hm; [done|]. intros Hd%desc_le; lia.
  - eapply repr_frame; [|exact Hl]. intros j Hj. apply Hm. intros Hj'.
    by eapply desc_siblings.
Qed.

Lemma not_desc_child d i b j :
  0 ≤ b ≤ 1 → ¬ desc (S d) i j → ¬ desc d (2 * i + 1 + b) j.
Proof. intros Hb Hn Hd. apply Hn. by eapply desc_child. Qed.

(** Splitting a node: free and split nodes above the requested level look alike. *)
Lemma repr_split meta d i t :
  0 ≤ i → t ≠ BAlloc → repr meta (S d) i t →
  repr (zset i Split meta) (S d) i (BSplit (tleft t) (tright t)).
Proof.
  intros Hi Ht Hr. pose proof (zget_Some _ _ _ (repr_head _ _ _ _ Hr)).
  destruct Hr as (_ & Hl & Hr). simpl. rewrite zget_zset_eq by done.
  split_and!; [done|..]; by apply repr_zset_parent.
Qed.

Lemma talloc_S d t :
  t ≠ BAlloc →
  talloc (S d) t =
  match talloc d (tleft t) with
  | Some (p, l') => Some (p, BSplit l' (tright t))
  | None =>
    match talloc d (tright t) with
    | Some (p, r') => Some (pow2 d + p, BSplit (tleft t) r')
    | None => None
    end
  end.
Proof.
  intros Ht. destruct t as [| |a b]; [|done|done]. simpl.
  destruct (talloc_free d) as [t' ->]. done.
Qed.
