(* ===== verification/BuddyLoops.v ===== *)
(** * The search loop of [buddy_alloc] and the merging loop of [buddy_free]
    compute [talloc] and [tfree] on the tree the array spells.

    Both lemmas follow the loops iteration by iteration.  They also bound the
    number of iterations and the height of the search stack, so that neither the
    stack of [D + 1] entries nor the fuel of the model is ever exhausted. *)
From S2P Require Import Prelude Ram Addr Order Buddy BuddyTree BuddyRefine.

(** A [Memory] with other contents of its two slices. *)
Definition upd (m : Memory) (stk : list Z) (meta : list BlockState) : Memory :=
  set_buddy_meta meta (set_buddy_stack stk m).

(** Index of the node at position [p] of level [l]. *)
Definition node (l : nat) (p : Z) : Z := pow2 l - 1 + p.

Lemma node_left l p : 2 * node l p + 1 = node (S l) (2 * p).
Proof. unfold node. rewrite pow2_S. lia. Qed.
Lemma node_right l p : 2 * node l p + 2 = node (S l) (2 * p + 1).
Proof. unfold node. rewrite pow2_S. lia. Qed.
Lemma node_nonneg l p : 0 ≤ p → 0 ≤ node l p.
Proof. unfold node. pose proof (pow2_pos l). lia. Qed.
Lemma node_bound l p : (l ≤ 28)%nat → 0 ≤ p < pow2 l → 0 ≤ node l p < pow2 29.
Proof.
  intros Hl Hp. unfold node. pose proof (pow2_mono (S l) 29 ltac:(lia)) as Hm.
  rewrite pow2_S in Hm. pose proof (pow2_pos l). lia.
Qed.
Lemma find_order_index l p : (l ≤ 28)%nat → 0 ≤ p < pow2 l → find_order (node l p) = Z.of_nat l.
Proof. intros. apply find_order_node; [lia|done]. Qed.

Section slices.
Context `{Profile} (m : Memory).

Lemma stack_get_run sp x stk meta :
  0 ≤ sp < 100 → zget stk sp = Some x → stack_get sp (upd m stk meta) = Ret x (upd m stk meta).
Proof.
  intros Hsp Hx. cbn [stack_get list_store]. unfold wrap. rewrite Z.mod_small by lia. run. by apply index_run.
Qed.
Lemma stack_set_run sp x stk meta :
  0 ≤ sp < 100 → sp < zlen stk →
  stack_set sp x (upd m stk meta) = Ret tt (upd m (zset sp x stk) meta).
Proof.
  intros Hsp Hlen. cbn [stack_set list_store]. unfold wrap. rewrite Z.mod_small by lia. run1.
  destruct (zget_lt stk sp ltac:(lia)) as [y Hy]. by run.
Qed.
Lemma meta_get_run i b stk meta :
  zget meta i = Some b → meta_get i (upd m stk meta) = Ret b (upd m stk meta).
Proof. intros Hb. cbn [meta_get list_store]. run. by apply index_run. Qed.
Lemma meta_set_run i b b' stk meta :
  zget meta i = Some b →
  meta_set i b' (upd m stk meta) = Ret tt (upd m stk (zset i b' meta)).
Proof. intros Hb. cbn [meta_set list_store]. by run. Qed.
#[local] Hint Resolve stack_get_run stack_set_run meta_get_run meta_set_run : exec.
#[local] Hint Extern 1 (_ < _) => lia : exec.

Lemma push_children_run sp i stk meta :
  -1 ≤ sp → sp + 2 < zlen stk → zlen stk < 100 → 0 ≤ i < pow2 29 →
  push_children sp i (upd m stk meta) =
  Ret (sp + 2) (upd m (zset (sp + 2) (2 * i + 1) (zset (sp + 1) (2 * i + 2) stk)) meta).
Proof.
  intros Hsp Hlen Hmax Hi. change (pow2 29) with 536870912 in Hi.
  unfold push_children. run.
  erewrite bind_Ret by (apply stack_set_run; rewrite ?zlen_zset; lia). cbv beta.
  by replace (sp + 1 + 1) with (sp + 2) by lia.
Qed.
End slices.

Section loops.
Context `{Profile}.
(** [D] levels below the root; blocks of the bottom level are pages. *)
Context (D : nat) (m : Memory).
Context (HD : (D ≤ 19)%nat).
Context (Hhigh : buddy_high_order m = Z.of_nat (D + 12)).
Context (Hstart : 0 ≤ PhysAddr_as_usize (m_start m)).
Context (Hend : PhysAddr_as_usize (m_start m) + pow2 (D + 12) ≤ USIZE_MOD).

#[local] Hint Resolve stack_get_run stack_set_run meta_get_run meta_set_run : exec.
#[local] Hint Extern 1 (_ < _) => lia : exec.

(** The address the loop answers is that of the block. *)
Lemma node_addr_run l p stk meta :
  (l ≤ D)%nat → 0 ≤ p < pow2 l →
  node_addr (node l p) (Z.of_nat l) (upd m stk meta) =
  Ret (PhysAddr_as_usize (m_start m) + p * pow2 (D + 12 - l)) (upd m stk meta).
Proof.
  intros Hl Hp. pose proof (node_bound l p ltac:(lia) Hp) as Hb.
  change (pow2 29) with 536870912 in Hb.
  assert (pow2 (D + 12) ≤ pow2 31) as HM by (apply pow2_mono; lia).
  change (pow2 31) with ISIZE_HALF in HM.
  pose proof (pow2_split (D + 12) l ltac:(lia)) as Hsplit.
  pose proof (pow2_pos (D + 12 - l)).
  assert (0 ≤ p * pow2 (D + 12 - l) < pow2 (D + 12)) by nia.
  unfold node_addr. run1. run1. fields. cbn [upd set_buddy_meta set_buddy_stack buddy_high_order].
  rewrite Hhigh. run1. run1.
  replace (1 + node l p - 2 ^ Z.of_nat l) with p by (unfold node, pow2; lia).
  erewrite (bind_Ret (usub _ _)) by (rewrite usub_run by (unfold node, pow2 in *; lia); reflexivity).
  cbv beta. run1. run1.
  replace (1 + node l p - 2 ^ Z.of_nat l) with p by (unfold node, pow2; lia).
  replace (2 ^ (Z.of_nat (D + 12) - Z.of_nat l)) with (pow2 (D + 12 - l)) by (unfold pow2; f_equal; lia).
  run1. unfold ret, wrap. fields. cbn [m_start upd set_buddy_meta set_buddy_stack].
  by rewrite Z.mod_small by lia.
Qed.
(** *** One iteration of the search loop *)

Section search.
Context (req : nat) (n : Z) (Hreq : (req ≤ D)%nat).

Let loop fuel sp stk meta := alloc_loop fuel (Z.of_nat req) n sp (upd m stk meta).

Lemma loop_fetch fuel l p sp stk meta t :
  (l ≤ D)%nat → 0 ≤ p < pow2 l → 0 ≤ sp < 100 → zget stk sp = Some (node l p) →
  zget meta (node l p) = Some (head t) →
  loop (S fuel) sp stk meta =
  if Z.of_nat req =? Z.of_nat l then
    (if bool_decide (head t = Free) then
       meta_set (node l p) Allocated;;!
       let! addr := node_addr (node l p) (Z.of_nat l) in
       ret (Ok (PhysAddr_new addr (Some n)))
     else alloc_loop fuel (Z.of_nat req) n (sp - 1)) (upd m stk meta)
  else
    match head t with
    | Free =>
      meta_set (node l p) Split;;!
      let! sp := push_children (sp - 1) (node l p) in
      alloc_loop fuel (Z.of_nat req) n sp
    | Allocated => alloc_loop fuel (Z.of_nat req) n (sp - 1)
    | Split =>
      let! sp := push_children (sp - 1) (node l p) in
      alloc_loop fuel (Z.of_nat req) n sp
    end (upd m stk meta).
Proof.
  intros Hl Hp Hsp Hstk Hmeta. unfold loop. cbn [alloc_loop].
  rewrite (proj2 (Z.leb_le 0 sp)) by lia. run1. run1.
  rewrite find_order_index by (done || lia).
  destruct (Z.of_nat req =? Z.of_nat l); by run1.
Qed.

(** The requested level: take a free block, otherwise go on. *)
Lemma loop_hit fuel p sp stk meta :
  0 ≤ p < pow2 req → 0 ≤ sp < 100 → zget stk sp = Some (node req p) →
  zget meta (node req p) = Some Free →
  loop (S fuel) sp stk meta =
  Ret (Ok (PhysAddr_new (PhysAddr_as_usize (m_start m) + p * pow2 (D + 12 - req)) (Some n)))
      (upd m stk (zset (node req p) Allocated meta)).
Proof.
  intros Hp Hsp Hstk Hmeta. erewrite (loop_fetch _ req p _ _ _ BFree) by done.
  rewrite Z.eqb_refl. cbn [head]. rewrite bool_decide_true by done. run1.
  erewrite bind_Ret by (by apply node_addr_run). done.
Qed.

Lemma loop_skip fuel l p sp stk meta t :
  (l ≤ req)%nat → 0 ≤ p < pow2 l → 0 ≤ sp < 100 → zget stk sp = Some (node l p) →
  zget meta (node l p) = Some (head t) → t = BAlloc ∨ l = req ∧ t ≠ BFree →
  loop (S fuel) sp stk meta = loop fuel (sp - 1) stk meta.
Proof.
  intros Hl Hp Hsp Hstk Hmeta Ht. rewrite (loop_fetch fuel l p sp stk meta t) by (done || lia).
  destruct Ht as [->|[-> Ht]].
  - destruct (_ =? _); [by rewrite bool_decide_false by done|done].
  - rewrite Z.eqb_refl. by rewrite bool_decide_false by (by destruct t).
Qed.

(** Above the requested level: split what is free, look at both children,
    the left one first. *)
Lemma loop_descend fuel l p sp stk meta t :
  (l < req)%nat → 0 ≤ p < pow2 l → 0 ≤ sp → sp + 1 < zlen stk → zlen stk < 100 →
  zget stk sp = Some (node l p) → zget meta (node l p) = Some (head t) → t ≠ BAlloc →
  loop (S fuel) sp stk meta =
  loop fuel (sp + 1)
    (zset (sp + 1) (node (S l) (2 * p)) (zset sp (node (S l) (2 * p + 1)) stk))
    (zset (node l p) Split meta).
Proof.
  intros Hl Hp Hsp Hlen Hmax Hstk Hmeta Ht.
  pose proof (node_bound l p ltac:(lia) Hp) as Hb.
  rewrite (loop_fetch fuel l p sp stk meta t) by (done || lia).
  rewrite (proj2 (Z.eqb_neq _ _)) by lia. rewrite <- node_left, <- node_right.
  destruct t as [| |a b]; [|done|]; cbn [head] in *.
  - run1. erewrite bind_Ret by (apply push_children_run; lia). cbv beta.
    by replace (sp - 1 + 2) with (sp + 1) by lia; replace (sp - 1 + 1) with sp by lia.
  - rewrite (zset_same meta) by done.
    erewrite bind_Ret by (apply push_children_run; lia). cbv beta.
    by replace (sp - 1 + 2) with (sp + 1) by lia; replace (sp - 1 + 1) with sp by lia.
Qed.

(** The loop, started with a subtree on top of the stack, either allocates in
    it or pops it and leaves everything below the top as it was. *)
Definition searched d l p t sp stk meta : Prop :=
  match talloc d t with
  | Some (q, t') =>
    ∃ c stk' meta',
      Z.of_nat c < 2 * pow2 d ∧ zlen stk' = zlen stk ∧ zlen meta' = zlen meta ∧
      repr meta' (D - l) (node l p) t' ∧
      (∀ j, ¬ desc (D - l) (node l p) j → zget meta' j = zget meta j) ∧
      ∀ f, loop (c + f) sp stk meta =
        Ret (Ok (PhysAddr_new
                  (PhysAddr_as_usize (m_start m) + (p * pow2 d + q) * pow2 (D + 12 - req))
                  (Some n)))
            (upd m stk' meta')
  | None =>
    ∃ c stk',
      Z.of_nat c < 2 * pow2 d ∧ zlen stk' = zlen stk ∧
      (∀ j, j < sp → zget stk' j = zget stk j) ∧
      ∀ f, loop (c + f) sp stk meta = loop f (sp - 1) stk' meta
  end.

Definition searchable d l p t sp stk meta : Prop :=
  (l + d = req)%nat ∧ 0 ≤ p < pow2 l ∧ 0 ≤ sp ∧ sp + Z.of_nat d ≤ Z.of_nat D ∧
  zlen stk = Z.of_nat D + 1 ∧ zget stk sp = Some (node l p) ∧
  repr meta (D - l) (node l p) t.

Lemma search_skip d l p t sp stk meta :
  searchable d l p t sp stk meta → t = BAlloc ∨ d = 0%nat ∧ t ≠ BFree →
  talloc d t = None → searched d l p t sp stk meta.
Proof.
  intros (Hld & Hp & Hsp & Hspd & Hlen & Hstk & Hr) Ht Hn. unfold searched. rewrite Hn.
  exists 1%nat, stk. pose proof (pow2_pos d). split_and!; [lia|done|done|].
  intros f. apply (loop_skip f l p sp stk meta t); try done; try lia.
  - by eapply repr_head.
  - destruct Ht as [?|[-> ?]]; [by left|right; split; [lia|done]].
Qed.

Lemma search_take l p sp stk meta :
  searchable 0 l p BFree sp stk meta → searched 0 l p BFree sp stk meta.
Proof.
  intros (Hld & Hp & Hsp & Hspd & Hlen & Hstk & Hr).
  assert (l = req) as -> by lia. pose proof (repr_head _ _ _ _ Hr) as Hh.
  exists 1%nat, stk, (zset (node req p) Allocated meta).
  rewrite zlen_zset. split_and!; [done..| | |].
  - apply (repr_zset_self _ _ _ BFree); try done. apply node_nonneg; lia.
  - intros j Hj. apply zget_zset_ne. intros <-. apply Hj, desc_refl.
  - intros f. cbn [Nat.add]. rewrite (loop_hit f p) by (done || lia).
    change (pow2 0) with 1. by replace (p * 1 + 0) with p by lia.
Qed.

(** *** One level down *)

Let pushed l p sp stk := zset (sp + 1) (node (S l) (2 * p)) (zset sp (node (S l) (2 * p + 1)) stk).
Let opened l p meta := zset (node l p) Split meta.

Lemma search_open d l p t sp stk meta :
  searchable (S d) l p t sp stk meta → t ≠ BAlloc →
  repr (opened l p meta) (S (D - S l)) (node l p) (BSplit (tleft t) (tright t)) ∧
  ∀ f, loop (S f) sp stk meta = loop f (sp + 1) (pushed l p sp stk) (opened l p meta).
Proof.
  intros (Hld & Hp & Hsp & Hspd & Hlen & Hstk & Hr) Ht. split.
  - replace (D - l)%nat with (S (D - S l)) in Hr by lia.
    apply repr_split; [|done..]. apply node_nonneg; lia.
  - intros f. apply (loop_descend f l p sp stk meta t); try done; try lia.
    by eapply repr_head.
Qed.

Lemma searchable_left d l p t sp stk meta :
  searchable (S d) l p t sp stk meta → t ≠ BAlloc →
  searchable d (S l) (2 * p) (tleft t) (sp + 1) (pushed l p sp stk) (opened l p meta).
Proof.
  intros Hs Ht. destruct (search_open _ _ _ _ _ _ _ Hs Ht) as [(_ & Hl & _) _].
  destruct Hs as (Hld & Hp & Hsp & Hspd & Hlen & Hstk & _). unfold pushed.
  split_and!; rewrite ?zlen_zset, ?pow2_S; try lia.
  - apply zget_zset_eq. rewrite zlen_zset. lia.
  - by rewrite <- node_left.
Qed.

Lemma searchable_right d l p t sp stk stk' meta :
  searchable (S d) l p t sp stk meta → t ≠ BAlloc →
  zlen stk' = zlen stk → zget stk' sp = zget (pushed l p sp stk) sp →
  searchable d (S l) (2 * p + 1) (tright t) sp stk' (opened l p meta).
Proof.
  intros Hs Ht Hlen' Htop. destruct (search_open _ _ _ _ _ _ _ Hs Ht) as [(_ & _ & Hr) _].
  destruct Hs as (Hld & Hp & Hsp & Hspd & Hlen & Hstk & _).
  split_and!; rewrite ?pow2_S; try lia.
  - rewrite Htop. unfold pushed. rewrite zget_zset_ne by lia. apply zget_zset_eq. lia.
  - by rewrite <- node_right.
Qed.

(** What changed below a child changed below the node. *)
Lemma outside_child l p b meta meta' :
  (l < D)%nat → 0 ≤ b ≤ 1 →
  (∀ j, ¬ desc (D - S l) (2 * node l p + 1 + b) j →
    zget meta' j = zget (opened l p meta) j) →
  ∀ j, ¬ desc (D - l) (node l p) j → zget meta' j = zget meta j.
Proof.
  intros Hl Hb Hout j Hj. replace (D - l)%nat with (S (D - S l)) in Hj by lia.
  rewrite Hout by (by apply not_desc_child).
  apply zget_zset_ne. intros <-. by apply Hj, desc_refl.
Qed.

Lemma searched_left d l p t sp stk meta r :
  searchable (S d) l p t sp stk meta → t ≠ BAlloc → talloc d (tleft t) = Some r →
  searched d (S l) (2 * p) (tleft t) (sp + 1) (pushed l p sp stk) (opened l p meta) →
  searched (S d) l p t sp stk meta.
Proof.
  intros Hs Ht Ha. destruct (search_open _ _ _ _ _ _ _ Hs Ht) as [Hr Hstep].
  destruct Hs as (Hld & Hp & Hsp & Hspd & Hlen & Hstk & _).
  unfold searched. rewrite (talloc_S d t Ht), Ha. destruct r as [q l'].
  rewrite <- node_left, pow2_S.
  intros (c & stk' & meta' & Hc & Hlen' & Hmlen & Hrep & Hout & Hrun).
  exists (S c), stk', meta'. unfold pushed in Hlen'. unfold opened in Hmlen.
  rewrite !zlen_zset in Hlen'. rewrite zlen_zset in Hmlen.
  pose proof (node_nonneg l p ltac:(lia)). split_and!; [lia|done|done|..].
  - replace (D - l)%nat with (S (D - S l)) by lia. by eapply repr_replace_left.
  - apply (outside_child l p 0); [lia..|]. intros j. rewrite Z.add_0_r. apply Hout.
  - intros f. cbn [Nat.add]. rewrite Hstep, Hrun. do 3 f_equal. lia.
Qed.

Lemma searched_right d l p t sp stk stk' meta c :
  searchable (S d) l p t sp stk meta → t ≠ BAlloc → talloc d (tleft t) = None →
  Z.of_nat c ≤ 2 * pow2 d → zlen stk' = zlen stk → (∀ j, j < sp → zget stk' j = zget stk j) →
  (∀ f, loop (c + f) sp stk meta = loop f sp stk' (opened l p meta)) →
  searched d (S l) (2 * p + 1) (tright t) sp stk' (opened l p meta) →
  searched (S d) l p t sp stk meta.
Proof.
  intros Hs Ht Ha Hc Hlen' Hlow Hstep. destruct (search_open _ _ _ _ _ _ _ Hs Ht) as [Hr _].
  destruct Hs as (Hld & Hp & Hsp & Hspd & Hlen & Hstk & Hrt).
  pose proof (node_nonneg l p ltac:(lia)).
  unfold searched. rewrite (talloc_S d t Ht), Ha, <- node_right, pow2_S.
  destruct (talloc d (tright t)) as [[q r']|] eqn:Htr.
  - intros (c' & stk'' & meta' & Hc' & Hlen'' & Hmlen & Hrep & Hout & Hrun).
    exists (c + c')%nat, stk'', meta'. unfold opened in Hmlen. rewrite zlen_zset in Hmlen.
    split_and!; [lia|lia|done|..].
    + replace (D - l)%nat with (S (D - S l)) by lia. by eapply repr_replace_right.
    + apply (outside_child l p 1); [lia..|]. intros j.
      replace (2 * node l p + 1 + 1) with (2 * node l p + 2) by lia. apply Hout.
    + intros f. rewrite <- Nat.add_assoc, Hstep, Hrun. do 3 f_equal. lia.
  - (* nothing free below: the node was split already *)
    intros (c' & stk'' & Hc' & Hlen'' & Hsame & Hrun).
    assert (opened l p meta = meta) as Hm.
    { apply zset_same. pose proof (repr_head _ _ _ _ Hrt) as Hh.
      destruct t as [| |a b]; [|done|exact Hh].
      destruct (talloc_free d) as [t0 Ht0]. simpl in Htr. congruence. }
    exists (c + c')%nat, stk''. split_and!; [lia|lia|..].
    + intros j Hj. rewrite Hsame, Hlow by lia. done.
    + intros f. rewrite <- Nat.add_assoc, Hstep, Hrun, Hm. done.
Qed.

Lemma search_subtree d l p t sp stk meta :
  searchable d l p t sp stk meta → searched d l p t sp stk meta.
Proof.
  revert l p t sp stk meta. induction d as [|d IH]; intros l p t sp stk meta Hs.
  { destruct (decide (t = BFree)) as [->|Ht]; [by apply search_take|].
    apply search_skip; [done|tauto|by destruct t]. }
  destruct (decide (t = BAlloc)) as [->|Ht]; [apply search_skip; [done|by left|done]|].
  destruct (search_open _ _ _ _ _ _ _ Hs Ht) as [_ Hstep].
  pose proof (IH _ _ _ _ _ _ (searchable_left _ _ _ _ _ _ _ Hs Ht)) as Hl.
  destruct (talloc d (tleft t)) as [r|] eqn:Ha; [by eapply searched_left|].
  unfold searched in Hl. rewrite Ha in Hl.
  destruct Hl as (c & stk' & Hc & Hlen & Hlow & Hrun).
  unfold pushed in Hlen. rewrite !zlen_zset in Hlen.
  apply (searched_right d l p t sp stk stk' meta (S c)); try done; [lia|..].
  - intros j Hj. rewrite Hlow by lia. unfold pushed. by rewrite !zget_zset_ne by lia.
  - intros f. cbn [Nat.add]. rewrite Hstep, Hrun. f_equal. lia.
  - apply IH. eapply searchable_right; try done. apply Hlow. lia.
Qed.
End search.
End loops.
