(* ===== verification/BuddyMerge.v ===== *)
(** * The merging loop of [buddy_free] computes the joins of [tfree].

    A freed node sits in a context: the siblings on its path to the root.  Each
    iteration looks at one sibling; a free one makes the parent free, anything
    else ends the loop. *)
From S2P Require Import Prelude Ram Addr Order Buddy BuddyTree BuddyRefine BuddyLoops.

(** ** Trees in a context *)

Lemma node_child c f :
  node (length (f :: c)) (pos (f :: c)) = 2 * node (length c) (pos c) + 1 + bit f.
Proof. unfold node. cbn [length pos]. rewrite pow2_S. lia. Qed.

Lemma repr_child meta d i f t :
  repr meta (S d) i (plug1 f t) → repr meta d (2 * i + 1 + bit f) t.
Proof.
  intros (_ & Hl & Hr). destruct f; simpl in *; [by rewrite Z.add_0_r|].
  by replace (2 * i + 1 + 1) with (2 * i + 2) by lia.
Qed.

Lemma repr_sibling meta d i f t :
  repr meta (S d) i (plug1 f t) → repr meta d (2 * i + 1 + (1 - bit f)) (sibling f).
Proof.
  intros (_ & Hl & Hr). destruct f; simpl in *.
  - by replace (2 * i + 1 + (1 - 0)) with (2 * i + 2) by lia.
  - by replace (2 * i + 1 + (1 - 1)) with (2 * i + 1) by lia.
Qed.

Lemma repr_plug meta D t c :
  repr meta D 0 (plug t c) →
  (length c ≤ D)%nat ∧ repr meta (D - length c) (node (length c) (pos c)) t.
Proof.
  revert t. induction c as [|f c IH]; intros t Hr;
    [cbn [length pos]; rewrite Nat.sub_0_r; split; [lia|done]|].
  destruct (IH _ Hr) as [Hlen Hc]. rewrite node_child. cbn [length].
  assert (length c < D)%nat as Hlt.
  { apply repr_height in Hc. destruct f; simpl in Hc; lia. }
  split; [lia|]. apply repr_child.
  by replace (S (D - S (length c))) with (D - length c)%nat by lia.
Qed.

Lemma repr_plug_replace meta meta' D t t' c :
  repr meta D 0 (plug t c) →
  repr meta' (D - length c) (node (length c) (pos c)) t' →
  (∀ j, ¬ desc (D - length c) (node (length c) (pos c)) j → zget meta' j = zget meta j) →
  repr meta' D 0 (plug t' c) ∧ ∀ j, ¬ desc D 0 j → zget meta' j = zget meta j.
Proof.
  revert t t'. induction c as [|f c IH]; intros t t' Hr Ht' Hout.
  { cbn [length pos] in *. rewrite Nat.sub_0_r in *. done. }
  destruct (repr_plug _ _ _ _ Hr) as [Hlen _]. cbn [length] in Hlen.
  destruct (repr_plug _ _ (plug1 f t) c Hr) as [_ Hc].
  pose proof (pos_bounds c) as Hpos.
  pose proof (node_nonneg (length c) (pos c) ltac:(lia)) as Hnn.
  rewrite node_child in Ht', Hout. cbn [length] in Ht', Hout.
  assert (D - length c = S (D - S (length c)))%nat as Hd by lia. rewrite Hd in Hc.
  apply (IH (plug1 f t)); [exact Hr|..]; rewrite Hd.
  - destruct f as [r|l]; simpl bit in *.
    + rewrite Z.add_0_r in *. by eapply repr_replace_left.
    + replace (2 * node (length c) (pos c) + 1 + 1) with (2 * node (length c) (pos c) + 2) in * by lia.
      by eapply repr_replace_right.
  - intros j Hj. apply Hout. apply not_desc_child; [apply bit_01|done].
Qed.

(** A node whose children are both free becomes free by its own entry. *)
Lemma repr_join meta d i :
  0 ≤ i → repr meta (S d) i (BSplit BFree BFree) →
  repr (zset i Free meta) (S d) i BFree.
Proof. intros Hi Hr. by apply (repr_zset_self _ _ _ (BSplit BFree BFree)). Qed.

(** ** The loop *)

Lemma lxor_even p : Z.lxor (2 * p) 1 = 2 * p + 1.
Proof. by destruct p as [|p|p]; [done|done|destruct p]. Qed.
Lemma lxor_odd p : Z.lxor (2 * p + 1) 1 = 2 * p.
Proof.
  rewrite <- lxor_even, Z.lxor_assoc, Z.lxor_nilpotent. apply Z.lxor_0_r.
Qed.

Lemma buddy_index_run `{Profile} l p f (s : Memory) :
  (l ≤ 19)%nat → 0 ≤ p < pow2 l →
  buddy_index (2 * p + bit f) (Z.of_nat (S l)) s = Ret (node (S l) (2 * p + (1 - bit f))) s.
Proof.
  intros Hl Hp.
  assert (Z.lxor (2 * p + bit f) 1 = 2 * p + (1 - bit f)) as Hx.
  { destruct f; simpl bit; [by rewrite Z.add_0_r, lxor_even|].
    rewrite lxor_odd. lia. }
  pose proof (bit_01 f). pose proof (pow2_mono (S l) 20 ltac:(lia)) as Hm.
  rewrite pow2_S in Hm. change (pow2 20) with 1048576 in Hm.
  unfold buddy_index. run1. rewrite Hx. change (2 ^ Z.of_nat (S l)) with (pow2 (S l)).
  rewrite (bind_Ret _ _ _ (2 * p + (1 - bit f) + pow2 (S l)) s)
    by (apply uadd_run; rewrite pow2_S; lia).
  rewrite usub_run by (rewrite pow2_S; lia). unfold node. f_equal. lia.
Qed.

Section merge.
Context `{Profile} (D : nat) (m : Memory).
Context (HD : (D ≤ 19)%nat).
#[local] Hint Resolve meta_get_run meta_set_run : exec.

(** The sibling is not free: the loop ends, and there is nothing to join. *)
Lemma merge_stop fuel f c stk meta level i :
  repr meta D 0 (plug BFree (f :: c)) → sibling f ≠ BFree →
  merge_loop (S fuel) level i (node (S (length c)) (2 * pos c + (1 - bit f))) (upd m stk meta) =
  Ret tt (upd m stk meta) ∧ plugj BFree (f :: c) = plug BFree (f :: c).
Proof.
  intros Hr Hs. split.
  - destruct (repr_plug _ _ (plug1 f BFree) c Hr) as [Hlen Hc].
    apply repr_plug in Hr as [Hlen' _]. cbn [length] in Hlen'.
    replace (D - length c)%nat with (S (D - S (length c))) in Hc by lia.
    apply repr_sibling, repr_head in Hc.
    replace (2 * node (length c) (pos c) + 1 + (1 - bit f))
      with (node (S (length c)) (2 * pos c + (1 - bit f))) in Hc by (unfold node; rewrite pow2_S; lia).
    cbn [merge_loop]. erewrite bind_Ret by (by apply meta_get_run). cbv beta.
    rewrite bool_decide_false by (by destruct (sibling f)). done.
  - cbn [plugj plug].
    assert (join1 f BFree = plug1 f BFree) as -> by (by destruct f as [[]|[]]).
    apply plugj_nonfree. by destruct f.
Qed.

(** The sibling is free: the parent becomes free. *)
Lemma merge_join f c meta :
  repr meta D 0 (plug BFree (f :: c)) → sibling f = BFree →
  let parent := node (length c) (pos c) in
  zget meta (node (S (length c)) (2 * pos c + (1 - bit f))) = Some Free ∧
  zget meta parent = Some Split ∧
  repr (zset parent Free meta) D 0 (plug BFree c) ∧
  ∀ j, ¬ desc D 0 j → zget (zset parent Free meta) j = zget meta j.
Proof.
  intros Hr Hs parent. destruct (repr_plug _ _ (plug1 f BFree) c Hr) as [Hlen Hc].
  destruct (repr_plug _ _ _ _ Hr) as [Hlen' _]. cbn [length] in Hlen'.
  assert (D - length c = S (D - S (length c)))%nat as Hd by lia. rewrite Hd in Hc.
  assert (plug1 f BFree = BSplit BFree BFree) as Hp by (destruct f; simpl in *; by subst).
  pose proof (pos_bounds c). pose proof (node_nonneg (length c) (pos c) ltac:(lia)).
  split_and!.
  - apply repr_sibling, repr_head in Hc. rewrite Hs in Hc. change Free with (head BFree). rewrite <- Hc. f_equal.
    unfold node. rewrite pow2_S. lia.
  - apply repr_head in Hc. by rewrite Hp in Hc.
  - apply (repr_plug_replace meta _ _ (plug1 f BFree)); [done|..]; rewrite Hd.
    + apply repr_join; [done|]. by rewrite <- Hp.
    + intros j Hj. apply zget_zset_ne. intros <-. apply Hj, desc_refl.
  - intros j Hj. apply zget_zset_ne. intros <-. apply Hj.
    exists (length c). split; [lia|]. unfold parent, node.
    replace (pow2 (length c) - 1 + pos c + 1) with (pos c + 1 * pow2 (length c)) by lia.
    rewrite Z.div_add, Z.div_small by lia. lia.
Qed.

(** One joining iteration: the loop ends at the root and goes on with the
    parent otherwise. *)
Lemma merge_iter fuel f c stk meta :
  repr meta D 0 (plug BFree (f :: c)) → sibling f = BFree →
  merge_loop (S fuel) (Z.of_nat (S (length c))) (node (S (length c)) (pos (f :: c)))
    (node (S (length c)) (2 * pos c + (1 - bit f))) (upd m stk meta) =
  match c with
  | [] => ret tt
  | g :: c' =>
    merge_loop fuel (Z.of_nat (length c)) (node (length c) (pos c))
      (node (length c) (2 * pos c' + (1 - bit g)))
  end (upd m stk (zset (node (length c) (pos c)) Free meta)).
Proof.
  intros Hr Hs. destruct (merge_join _ _ _ Hr Hs) as (Hb & Hparent & _ & _).
  apply repr_plug in Hr as [Hlen _]. cbn [length] in Hlen.
  pose proof (pos_bounds c) as Hpos. pose proof (bit_01 f).
  pose proof (node_bound (length c) (pos c) ltac:(lia) Hpos) as Hnb.
  change (pow2 29) with 536870912 in Hnb.
  assert (node (S (length c)) (pos (f :: c)) = 2 * node (length c) (pos c) + 1 + bit f) as Hn
    by apply node_child.
  cbn [merge_loop]. erewrite bind_Ret by (by apply meta_get_run). cbv beta.
  rewrite bool_decide_true by done. rewrite Hn. run1. cbv zeta.
  replace ((2 * node (length c) (pos c) + 1 + bit f - 1) / 2) with (node (length c) (pos c))
    by (apply Z.div_unique with (bit f); lia).
  erewrite bind_Ret by (by apply meta_get_run). cbv beta.
  rewrite bool_decide_true by done.
  erewrite bind_Ret by (by eapply meta_set_run). cbv beta.
  destruct c as [|g c']; [done|]. cbn [length] in *.
  pose proof (pow2_mono 1 (S (length c')) ltac:(lia)) as H2. change (pow2 1) with 2 in H2.
  rewrite (proj2 (Z.eqb_neq _ 0)) by (unfold node; lia).
  run1. replace (Z.of_nat (S (S (length c'))) - 1) with (Z.of_nat (S (length c'))) by lia.
  run1. run1.
  erewrite (bind_Ret (usub _ _)) by (apply usub_run; unfold node, pow2 in *; lia). cbv beta.
  change (2 ^ Z.of_nat (S (length c'))) with (pow2 (S (length c'))).
  replace (1 + node (S (length c')) (pos (g :: c')) - pow2 (S (length c')))
    with (2 * pos c' + bit g) by (unfold node; cbn [pos]; lia).
  erewrite bind_Ret by (apply buddy_index_run; [lia|apply pos_bounds]). done.
Qed.

Lemma merge_loop_run fuel f c stk meta :
  (length c < fuel)%nat → repr meta D 0 (plug BFree (f :: c)) →
  ∃ meta',
    merge_loop fuel (Z.of_nat (S (length c))) (node (S (length c)) (pos (f :: c)))
      (node (S (length c)) (2 * pos c + (1 - bit f))) (upd m stk meta) =
    Ret tt (upd m stk meta') ∧
    repr meta' D 0 (plugj BFree (f :: c)) ∧ zlen meta' = zlen meta ∧
    ∀ j, ¬ desc D 0 j → zget meta' j = zget meta j.
Proof.
  revert fuel f meta. induction c as [|g c IH]; intros [|fuel] f meta Hfuel Hr; try (simpl in *; lia);
    (destruct (decide (sibling f = BFree)) as [Hs|Hs];
      [|by exists meta; edestruct (merge_stop fuel f) as [-> ->]]);
    rewrite merge_iter by done; destruct (merge_join _ _ _ Hr Hs) as (_ & _ & Hr' & Hout).
  - exists (zset 0 Free meta). rewrite zlen_zset. split_and!; try done.
    cbn [plugj]. replace (join1 f BFree) with BFree by (by destruct f; simpl in *; subst). done.
  - destruct (IH fuel g _ ltac:(simpl in *; lia) Hr') as (meta' & Hrun & Hrep & Hlen & Hout').
    exists meta'. rewrite zlen_zset in Hlen. split_and!; [exact Hrun| |done|].
    + cbn [plugj] in *. by replace (join1 f BFree) with BFree by (by destruct f; simpl in *; subst).
    + intros j Hj. rewrite Hout', Hout by done. done.
Qed.
End merge.
