(* ===== verification/BuddyInv.v ===== *)
(** * The invariant of a [Memory] and the refinement of its two operations.

    [mem_inv m D t] ties a [Memory] of [D] levels below the root to the abstract
    heap [t].  [alloc_refines] and [free_refines] say that the two methods, run
    from a state with the invariant, return without a panic, in both build
    profiles and within their fuel, and do to the array what [talloc] and
    [tfree] do to the tree. *)
From S2P Require Import Prelude Ram Addr Order Buddy BuddyTree BuddyRefine BuddyLoops BuddyMerge.

Definition ram_start (m : Memory) : Z := PhysAddr_as_usize m.(m_start).

Record mem_inv (m : Memory) (D : nat) (t : btree) : Prop := {
  inv_depth : (D ≤ 19)%nat;
  inv_high : buddy_high_order m = Z.of_nat (D + 12);
  inv_low : buddy_low_order m = 12;
  inv_start : 0 ≤ ram_start m;
  inv_end : ram_start m + pow2 (D + 12) ≤ USIZE_MOD;
  inv_size : pow2 (D + 12) ≤ mem_size m < pow2 (D + 13);
  inv_count : buddy_node_count m = 2 * (mem_size m / PAGE_SIZE) - 1;
  inv_meta : zlen (buddy_meta m) = buddy_node_count m;
  inv_stack : zlen (buddy_stack m) = Z.of_nat D + 1;
  inv_repr : repr (buddy_meta m) D 0 t;
  inv_canonical : canonical t;
}.

Lemma inv_usize m D t : mem_inv m D t → pow2 (D + 12) ≤ ISIZE_HALF.
Proof. intros Hm. destruct Hm. apply (pow2_mono _ 31). lia. Qed.

(** The array has an entry for every node of the tree. *)
Lemma inv_meta_ge m D t : mem_inv m D t → 2 * pow2 D - 1 ≤ zlen (buddy_meta m).
Proof.
  intros []. rewrite inv_meta0, inv_count0. rewrite pow2_add in inv_size0.
  change (pow2 12) with 4096 in inv_size0. unfold PAGE_SIZE.
  assert (pow2 D ≤ mem_size m / 4096); [|lia].
  apply Z.div_le_lower_bound; [done|]. lia.
Qed.

Lemma mem_inv_upd m D t t' stk meta :
  mem_inv m D t → zlen stk = zlen (buddy_stack m) → zlen meta = zlen (buddy_meta m) →
  repr meta D 0 t' → canonical t' → mem_inv (upd m stk meta) D t'.
Proof. intros [] Hstk Hmeta Hr Hc. split; simpl; congruence || done. Qed.

Lemma upd_self m : upd m (buddy_stack m) (buddy_meta m) = m.
Proof. by destruct m. Qed.

(** ** Block sizes *)

(** The order a request of [n] bytes is rounded up to. *)
Definition order_of (n : Z) : nat := Z.to_nat (Z.log2_up (Z.max n PAGE_SIZE)).

Lemma order_of_spec n :
  1 ≤ n ≤ ISIZE_HALF →
  next_power_of_two (if n <? PAGE_SIZE then PAGE_SIZE else n) = Some (pow2 (order_of n)) ∧
  (12 ≤ order_of n ≤ 31)%nat ∧ Z.max n PAGE_SIZE ≤ pow2 (order_of n) < 2 * Z.max n PAGE_SIZE.
Proof.
  intros Hn. unfold order_of, PAGE_SIZE in *. set (x := Z.max n 4096).
  assert ((if n <? 4096 then 4096 else n) = x) as ->.
  { subst x. destruct (Z.ltb_spec n 4096); lia. }
  destruct (next_power_of_two_pow2 x ltac:(lia)) as (k & Hk & Hx & Hk31).
  rewrite next_power_of_two_log2_up in Hk by lia. injection Hk as Hk.
  assert (12 ≤ Z.log2_up x) by (apply (Z.log2_up_le_mono 4096); lia).
  unfold pow2 at 1 2 3. rewrite Z2Nat.id by lia.
  rewrite next_power_of_two_log2_up by lia. split; [done|].
  assert (Z.log2_up x ≤ 31) by (apply (Z.log2_up_le_mono _ ISIZE_HALF); lia).
  rewrite Hk. split; lia.
Qed.

Lemma order_of_le n (k : nat) : n ≤ pow2 k → (12 ≤ k)%nat → (order_of n ≤ k)%nat.
Proof.
  intros Hn Hk. unfold order_of, PAGE_SIZE.
  assert (Z.log2_up (Z.max n 4096) ≤ Z.of_nat k); [|lia].
  rewrite <- (Z.log2_up_pow2 (Z.of_nat k)) by lia. apply Z.log2_up_le_mono.
  fold (pow2 k). pose proof (pow2_mono 12 k Hk) as Hm. change (pow2 12) with 4096 in Hm. lia.
Qed.

(** ** [buddy_alloc] *)

Section refinement.
Context `{Profile}.

Lemma alloc_enter m D t n :
  mem_inv m D t → 1 ≤ n ≤ pow2 (D + 12) →
  let k := order_of n in
  (12 ≤ k ≤ D + 12)%nat ∧
  Memory_buddy_alloc n m =
  alloc_loop (alloc_fuel m) (Z.of_nat (D + 12 - k)) (pow2 k) 0
    (upd m (zset 0 0 (buddy_stack m)) (buddy_meta m)).
Proof.
  intros Hm Hn k. pose proof (inv_usize _ _ _ Hm).
  destruct (order_of_spec n ltac:(lia)) as (Hnp & Hk & Hle).
  assert (k ≤ D + 12)%nat as HkD by (apply order_of_le; lia).
  split; [unfold k in *; lia|]. destruct Hm.
  unfold Memory_buddy_alloc. run1. fields.
  rewrite (proj2 (Z.ltb_ge _ _)), (proj2 (Z.eqb_neq n 0)) by lia. cbv zeta.
  erewrite bind_Ret by (by apply expect_run). cbv beta. run1. fields.
  rewrite inv_high0, find_order_pow2 by lia.
  rewrite (bind_Ret _ _ _ (Z.of_nat (D + 12 - order_of n)) m)
    by (rewrite usub_run by lia; f_equal; lia). cbv beta.
  erewrite bind_Ret.
  2:{ rewrite <- (upd_self m) at 1. apply stack_set_run; lia. }
  cbv beta. run1. reflexivity.
Qed.

(** The method on the array is [talloc] on the tree. *)
Lemma alloc_refines m D t n :
  mem_inv m D t → 1 ≤ n ≤ pow2 (D + 12) →
  let k := order_of n in
  match talloc (D + 12 - k) t with
  | Some (q, t') =>
    ∃ stk meta,
      Memory_buddy_alloc n m =
        Ret (Ok (PhysAddr_new (ram_start m + q * pow2 k) (Some (pow2 k)))) (upd m stk meta) ∧
      mem_inv (upd m stk meta) D t' ∧
      (∀ j, ¬ desc D 0 j → zget meta j = zget (buddy_meta m) j)
  | None =>
    ∃ stk,
      Memory_buddy_alloc n m = Ret (Err OutOfMemory) (upd m stk (buddy_meta m)) ∧
      mem_inv (upd m stk (buddy_meta m)) D t
  end.
Proof.
  intros Hm Hn k. destruct (alloc_enter m D t n Hm Hn) as [Hk ->]. fold k in Hk |- *.
  pose proof (inv_meta_ge _ _ _ Hm) as Hge.
  pose proof (inv_repr _ _ _ Hm) as Hr. pose proof (inv_stack _ _ _ Hm) as Hlen.
  set (req := (D + 12 - k)%nat). assert (req ≤ D)%nat as Hreq by (unfold req; lia).
  assert (zget (zset 0 0 (buddy_stack m)) 0 = Some 0) as H0 by (apply zget_zset_eq; lia).
  assert (2 * pow2 req ≤ 2 * pow2 D) as Hpow by (pose proof (pow2_mono req D Hreq); lia).
  pose proof (search_subtree D m (inv_depth _ _ _ Hm) (inv_high _ _ _ Hm)
    (inv_start _ _ _ Hm) (inv_end _ _ _ Hm) req (pow2 k) Hreq req 0 0 t 0
    (zset 0 0 (buddy_stack m)) (buddy_meta m)) as Hs.
  unfold searchable, searched in Hs. rewrite zlen_zset, Nat.sub_0_r in Hs.
  replace (node 0 0) with 0 in Hs by done. specialize (Hs ltac:(split_and!; done || lia)).
  unfold alloc_fuel, zlen in *. fields.
  destruct (talloc req t) as [[q t']|] eqn:Ht.
  - destruct Hs as (c & stk & meta & Hc & Hslen & Hmlen & Hrep & Hout & Hrun).
    exists stk, meta. split_and!; [|apply (mem_inv_upd m D t)|exact Hout];
      try (unfold zlen; congruence || lia); try done.
    + replace (S (length (buddy_meta m)))
        with (c + (S (length (buddy_meta m)) - c))%nat by lia.
      rewrite Hrun. replace (D + 12 - req)%nat with k by (unfold req; lia).
      by replace (0 * pow2 req + q) with q by lia.
    + by eapply talloc_canonical, Ht; apply Hm.
  - destruct Hs as (c & stk & Hc & Hslen & _ & Hrun). exists stk. split.
    + replace (S (length (buddy_meta m)))
        with (c + S (length (buddy_meta m) - c))%nat by lia.
      rewrite Hrun. done.
    + apply (mem_inv_upd m D t); try (unfold zlen; congruence || lia); try done. apply Hm.
Qed.

(** *** [buddy_free] *)

(** The address and the size of block [(l, p)], as [buddy_alloc] returned them. *)
Definition block (m : Memory) (D l : nat) (p : Z) : PhysAddr :=
  PhysAddr_new (ram_start m + p * pow2 (D + 12 - l)) (Some (pow2 (D + 12 - l))).

(** [buddy_free] finds the node of the block again. *)
Lemma free_enter m D t l p :
  mem_inv m D t → (l ≤ D)%nat → 0 ≤ p < pow2 l →
  Memory_buddy_free (block m D l p) m =
  (let! b := meta_get (node l p) in
   (if bool_decide (b = Allocated) then meta_set (node l p) Free
    else panic ("buddy_free(): Memory at index " +:+ decimal (node l p) +:+ " was not allocated, something is wrong."));;!
   let! buddy_i := buddy_index p (Z.of_nat l) in
   merge_loop merge_fuel (Z.of_nat l) (node l p) buddy_i) m.
Proof.
  intros Hm Hl Hp. pose proof (inv_usize _ _ _ Hm) as Hmax. destruct Hm.
  pose proof (pow2_split (D + 12) l ltac:(lia)) as Hsplit.
  pose proof (pow2_pos (D + 12 - l)) as Hpos.
  assert (0 ≤ p * pow2 (D + 12 - l) < pow2 (D + 12)) as Hoff by nia.
  pose proof (node_bound l p ltac:(lia) Hp) as Hnb. change (pow2 29) with 536870912 in Hnb.
  unfold Memory_buddy_free, block, ram_start, PhysAddr_as_usize in *.
  cbn [PhysAddr_new PhysAddr_size pa_size pa_addr]. run1. fields.
  rewrite (bind_Ret _ _ _ (p * pow2 (D + 12 - l)) m) by (rewrite usub_run by lia; f_equal; lia).
  cbv beta. run1. fields. rewrite trailing_zeros_pow2, inv_high0.
  rewrite (bind_Ret _ _ _ (Z.of_nat l) m) by (rewrite usub_run by lia; f_equal; lia).
  cbv beta. rewrite (bind_Ret _ _ _ p m) by (rewrite udiv_run, Z.div_mul by lia; done).
  cbv beta. rewrite (bind_Ret _ _ _ (pow2 l) m) by (apply ushl1_run; lia). cbv beta.
  rewrite (bind_Ret _ _ _ (pow2 l - 1) m)
    by (apply usub_run; pose proof (pow2_pos l); unfold node in Hnb; lia).
  cbv beta. rewrite (bind_Ret _ _ _ (node l p) m) by (apply uadd_run; unfold node in Hnb; lia).
  cbv beta. rewrite (bind_Ret _ _ _ (1 + node l p) m) by (apply uadd_run; lia).
  cbv beta. rewrite (bind_Ret _ _ _ (pow2 l) m) by (apply upow2_run; lia).
  cbv beta. rewrite (bind_Ret _ _ _ p m); [done|].
  rewrite usub_run by (unfold node; lia). f_equal. unfold node. lia.
Qed.

Lemma meta_get_inv m i b : zget (buddy_meta m) i = Some b → meta_get i m = Ret b m.
Proof. intros Hb. rewrite <- (upd_self m) at 1. rewrite (meta_get_run m i b) by done. by rewrite upd_self. Qed.
Lemma meta_set_inv m i b b' :
  zget (buddy_meta m) i = Some b →
  meta_set i b' m = Ret tt (upd m (buddy_stack m) (zset i b' (buddy_meta m))).
Proof. intros Hb. rewrite <- (upd_self m) at 1. by rewrite (meta_set_run m i b). Qed.

(** The method on the array is [tfree] on the tree, for every block but the root. *)
Lemma free_refines m D t l p :
  mem_inv m D t → (0 < l)%nat → tlive t l p →
  ∃ t' meta,
    tfree t l p = Some t' ∧
    Memory_buddy_free (block m D l p) m = Ret tt (upd m (buddy_stack m) meta) ∧
    mem_inv (upd m (buddy_stack m) meta) D t' ∧
    (∀ j, ¬ desc D 0 j → zget meta j = zget (buddy_meta m) j).
Proof.
  intros Hm Hl0 Hlive. pose proof (inv_repr _ _ _ Hm) as Hr.
  destruct (tlive_bounds _ _ _ Hlive) as [Hp Hlt]. pose proof (repr_height _ _ _ _ Hr).
  destruct (tlive_context _ _ _ Hlive) as (c & Ht & Hlen & Hpos & Hfree).
  destruct c as [|f c]; [simpl in *; lia|]. subst l p. rewrite Ht in Hr.
  destruct (repr_plug _ _ _ _ Hr) as [HlD Hc]. cbn [length] in Hc.
  set (i := node (length (f :: c)) (pos (f :: c))) in *.
  assert (0 ≤ i) as Hi by (apply node_nonneg; lia).
  pose proof (repr_head _ _ _ _ Hc) as Hh.
  set (meta1 := zset i Free (buddy_meta m)).
  destruct (repr_plug_replace (buddy_meta m) meta1 D BAlloc BFree (f :: c) Hr) as [Hr1 Hout1].
  { by apply (repr_zset_self _ _ _ BAlloc). }
  { intros j Hj. apply zget_zset_ne. intros <-. apply Hj, desc_refl. }
  destruct (merge_loop_run D m (inv_depth _ _ _ Hm) merge_fuel f c (buddy_stack m) meta1)
    as (meta2 & Hrun & Hr2 & Hlen2 & Hout2); [|done|].
  { cbn [length] in HlD. pose proof (inv_depth _ _ _ Hm). unfold merge_fuel. lia. }
  exists (plugj BFree (f :: c)), meta2. split_and!; [done|..].
  - rewrite (free_enter m D t) by done. fold i.
    erewrite bind_Ret by (by apply meta_get_inv). cbv beta.
    rewrite bool_decide_true by done.
    erewrite bind_Ret by (by eapply meta_set_inv). cbv beta.
    erewrite bind_Ret; [exact Hrun|].
    cbn [length pos]. apply buddy_index_run; [|apply pos_bounds].
    cbn [length] in HlD. pose proof (inv_depth _ _ _ Hm). lia.
  - apply (mem_inv_upd m D t); try done.
    + rewrite Hlen2. unfold meta1. by rewrite zlen_zset.
    + eapply tfree_canonical; [|exact Hfree]. apply Hm.
  - intros j Hj. rewrite Hout2, Hout1 by done. done.
Qed.

Lemma meta_index_oob m i :
  ¬ (0 ≤ i < zlen (buddy_meta m)) → meta_get i m = Panic "index out of bounds" m.
Proof. intros Hi. cbn [meta_get list_store]. run1. unfold index. by rewrite zget_None. Qed.

(** Node 1 is free, or the heap is a single page and there is no node 1. *)
Lemma root_buddy m D :
  mem_inv m D BAlloc →
  zget (buddy_meta m) 1 = Some Free ∨ zlen (buddy_meta m) = 1.
Proof.
  intros []. destruct D as [|D].
  - right. rewrite inv_meta0, inv_count0.
    change (pow2 (0 + 12)) with 4096 in *. change (pow2 (0 + 13)) with 8192 in *.
    assert (mem_size m / PAGE_SIZE = 1) as ->; [|done].
    symmetry. apply Z.div_unique with (mem_size m - 4096); unfold PAGE_SIZE; lia.
  - left. destruct inv_repr0 as (_ & Hl%repr_head & _). done.
Qed.

Lemma inv_meta_small m D t : mem_inv m D t → zlen (buddy_meta m) < 2097152.
Proof.
  intros []. rewrite inv_meta0, inv_count0.
  pose proof (pow2_mono (D + 13) 32 ltac:(lia)) as Hp. change (pow2 32) with USIZE_MOD in Hp.
  assert (mem_size m / PAGE_SIZE < 1048576); [|lia].
  apply Z.div_lt_upper_bound; unfold PAGE_SIZE; lia.
Qed.

(** Giving back the whole heap ends in a panic: the root has no buddy, node 1
    is taken for it, and [i - 1] is computed at [i = 0]. *)
Lemma free_root_panics m D t :
  mem_inv m D t → tlive t 0 0 →
  ∃ msg, Memory_buddy_free (block m D 0 0) m =
    Panic msg (upd m (buddy_stack m) (zset 0 Free (buddy_meta m))).
Proof.
  intros Hm Hlive. assert (t = BAlloc) as -> by (by destruct t).
  pose proof (repr_head _ _ _ _ (inv_repr _ _ _ Hm)) as Hh. pose proof (zget_Some _ _ _ Hh).
  rewrite (free_enter m D BAlloc) by (done || lia).
  erewrite bind_Ret by (by apply meta_get_inv). cbv beta.
  rewrite bool_decide_true by done.
  erewrite bind_Ret by (by eapply meta_set_inv). cbv beta.
  change (node 0 0) with 0 in *. set (m1 := upd m _ _).
  rewrite (bind_Ret _ _ _ 1 m1) by done. unfold merge_fuel. cbn [merge_loop].
  assert (zlen (buddy_meta m1) = zlen (buddy_meta m)) as Hlen by apply zlen_zset.
  destruct (root_buddy _ _ Hm) as [H1|H1].
  - erewrite bind_Ret by (apply meta_get_inv; cbn; by rewrite zget_zset_ne). cbv beta.
    rewrite bool_decide_true by done.
    unfold usub, usize. change (usize_ok (0 - 1)) with false. cbv iota.
    destruct overflow_checks; [by eexists|].
    erewrite bind_Ret by done. cbv beta zeta. eexists. apply bind_Panic, meta_index_oob.
    change (wrap (0 - 1) / 2) with ISIZE_MAX. pose proof (inv_meta_small _ _ _ Hm). lia.
  - eexists. apply bind_Panic, meta_index_oob. lia.
Qed.

(** A block that is not allocated is refused, and nothing is written. *)
Lemma free_unallocated_panics m D t l p b :
  mem_inv m D t → (l ≤ D)%nat → 0 ≤ p < pow2 l →
  zget (buddy_meta m) (node l p) = Some b → b ≠ Allocated →
  ∃ msg, Memory_buddy_free (block m D l p) m = Panic msg m.
Proof.
  intros Hm Hl Hp Hb Hne. rewrite (free_enter m D t) by done.
  erewrite bind_Ret by (by apply meta_get_inv). cbv beta.
  rewrite bool_decide_false by done. by eexists.
Qed.
End refinement.
