(* ===== verification/BuddySpec.v ===== *)
(** * What the buddy allocator guarantees to its callers.

    The theorems of this file speak about a [Memory] and its array only: a block
    is live when the array marks its node as allocated ([live_block]).  The
    abstract tree stays inside the proofs. *)
From S2P Require Import Prelude Ram Addr Order Buddy BuddyTree BuddyRefine BuddyLoops BuddyMerge BuddyInv.

(** ** Heaps and their live blocks *)

Definition depth (m : Memory) : nat := Z.to_nat (buddy_high_order m - buddy_low_order m).
(** The largest block: the power of two the tree covers. *)
Definition capacity (m : Memory) : Z := pow2 (depth m + 12).
Definition heap_ok (m : Memory) : Prop := ∃ t, mem_inv m (depth m) t.

(** The block at depth [l] and position [p], as [buddy_alloc] returns it, is live
    when its node is marked [Allocated]. *)
Definition live_block (m : Memory) (pa : PhysAddr) : Prop :=
  ∃ l p, (l ≤ depth m)%nat ∧ 0 ≤ p < pow2 l ∧
    zget (buddy_meta m) (node l p) = Some Allocated ∧ pa = block m (depth m) l p.

Definition pa_len (pa : PhysAddr) : Z := default 0 (pa_size pa).
Definition disjoint_blocks (a b : PhysAddr) : Prop :=
  pa_addr a + pa_len a ≤ pa_addr b ∨ pa_addr b + pa_len b ≤ pa_addr a.
Definition in_heap (m : Memory) (pa : PhysAddr) : Prop :=
  ram_start m ≤ pa_addr pa ∧ pa_addr pa + pa_len pa ≤ ram_start m + capacity m.

(** Only the contents of the two slices differ. *)
Definition same_heap (m m' : Memory) : Prop :=
  ∃ stk meta, m' = upd m stk meta.

Lemma inv_depth_eq m D t : mem_inv m D t → depth m = D.
Proof.
  intros Hm. unfold depth. rewrite (inv_high _ _ _ Hm), (inv_low _ _ _ Hm). lia.
Qed.

Lemma heap_ok_inv m D t : mem_inv m D t → heap_ok m.
Proof. intros Hm. exists t. by rewrite (inv_depth_eq _ _ _ Hm). Qed.

Lemma same_heap_start m m' : same_heap m m' → ram_start m' = ram_start m ∧ depth m' = depth m ∧ capacity m' = capacity m.
Proof. by intros (stk & meta & ->). Qed.

Lemma block_upd m stk meta : block (upd m stk meta) = block m.
Proof. done. Qed.

(** A live block of the array is a live block of the tree. *)
Lemma live_block_tree m D t pa :
  mem_inv m D t → live_block m pa ↔ ∃ l p, tlive t l p ∧ pa = block m D l p.
Proof.
  intros Hm. unfold live_block. rewrite (inv_depth_eq _ _ _ Hm).
  pose proof (inv_repr _ _ _ Hm) as Hr.
  assert (∀ l p, (l ≤ D)%nat → 0 ≤ p < pow2 l →
    tlive t l p ↔ zget (buddy_meta m) (node l p) = Some Allocated) as Hl.
  { intros l p Hl Hp. rewrite (repr_live_at _ _ _ _ _ _ Hr) by done.
    unfold node. by replace (0 * pow2 l + (pow2 l - 1) + p) with (pow2 l - 1 + p) by lia. }
  split.
  - intros (l & p & Hle & Hp & Hz & ->). exists l, p. split; [|done]. by apply Hl.
  - intros (l & p & Hlive & ->). exists l, p. pose proof (tlive_bounds _ _ _ Hlive) as [? ?].
    pose proof (repr_height _ _ _ _ Hr). split_and!; try lia; [|done].
    apply Hl; [lia|done|done].
Qed.

(** Blocks are told apart by their level and position. *)
Lemma block_inj m D l p l' p' :
  (l ≤ D)%nat → (l' ≤ D)%nat → block m D l p = block m D l' p' → l = l' ∧ p = p'.
Proof.
  intros Hl Hl' Heq. injection Heq as Ha Hs.
  assert (l = l') as ->.
  { unfold pow2 in Hs. apply (Z.pow_inj_r 2) in Hs; lia. }
  split; [done|]. pose proof (pow2_pos (D + 12 - l')). nia.
Qed.

Lemma apart_disjoint m D l p l' p' :
  apart (D + 12) l p l' p' ↔ disjoint_blocks (block m D l p) (block m D l' p').
Proof. unfold apart, disjoint_blocks, block, pa_len. simpl. lia. Qed.

Lemma block_in_heap m t l p :
  mem_inv m (depth m) t → (l ≤ depth m)%nat → 0 ≤ p < pow2 l → in_heap m (block m (depth m) l p).
Proof.
  intros Hm Hl Hp. unfold in_heap, capacity, block, pa_len. simpl.
  pose proof (pow2_split (depth m + 12) l ltac:(lia)). pose proof (pow2_pos (depth m + 12 - l)).
  nia.
Qed.

(** ** Allocation *)

Section alloc_spec.
Context `{Profile}.

(** The block an allocation of [n] bytes returns, by its position. *)
Definition granted (m : Memory) (n q : Z) : PhysAddr :=
  PhysAddr_new (ram_start m + q * pow2 (order_of n)) (Some (pow2 (order_of n))).

Lemma granted_block m D n q :
  (order_of n ≤ D + 12)%nat → granted m n q = block m D (D + 12 - order_of n) q.
Proof.
  intros Hk. unfold granted, block. by replace (D + 12 - (D + 12 - order_of n))%nat with (order_of n) by lia.
Qed.

(** [alloc_refines] with its two cases apart. *)
Lemma alloc_cases m t n :
  mem_inv m (depth m) t → 1 ≤ n ≤ capacity m →
  let d := (depth m + 12 - order_of n)%nat in
  (d ≤ depth m)%nat ∧ (order_of n + d = depth m + 12)%nat ∧
  ((∃ q t' m', talloc d t = Some (q, t') ∧
      Memory_buddy_alloc n m = Ret (Ok (granted m n q)) m' ∧
      granted m n q = block m (depth m) d q ∧ 0 ≤ q < pow2 d ∧
      mem_inv m' (depth m) t' ∧ same_heap m m' ∧
      ∀ j, ¬ desc (depth m) 0 j → zget (buddy_meta m') j = zget (buddy_meta m) j) ∨
   (∃ m', talloc d t = None ∧ Memory_buddy_alloc n m = Ret (Err OutOfMemory) m' ∧
      mem_inv m' (depth m) t ∧ same_heap m m' ∧ buddy_meta m' = buddy_meta m)).
Proof.
  intros Hm Hn d. destruct (alloc_enter m _ t n Hm Hn) as [Hk _].
  pose proof (alloc_refines m _ t n Hm Hn) as Hr. cbv zeta in Hr. fold d in Hr.
  split_and!; [subst d; lia..|]. destruct (talloc d t) as [[q t']|] eqn:Ht.
  - destruct Hr as (stk & meta & Hrun & Hm' & Hout). left. eexists q, t', _.
    split_and!; try done; [by apply granted_block; lia|by eapply talloc_bounds..|by eexists _, _].
  - destruct Hr as (stk & Hrun & Hm'). right. eexists _. split_and!; try done. by eexists _, _.
Qed.

Lemma block_len m D n :
  (12 ≤ order_of n ≤ D + 12)%nat → ∀ q, pa_len (block m D (D + 12 - order_of n) q) = pow2 (order_of n).
Proof.
  intros Hk q. unfold pa_len, block. simpl. f_equal. lia.
Qed.

Lemma order_of_heap m t n :
  mem_inv m (depth m) t → 1 ≤ n ≤ capacity m →
  (12 ≤ order_of n ≤ depth m + 12)%nat ∧ Z.max n PAGE_SIZE ≤ pow2 (order_of n) < 2 * Z.max n PAGE_SIZE.
Proof.
  intros Hm Hn. pose proof (inv_usize _ _ _ Hm) as Hu. unfold capacity in Hn.
  destruct (order_of_spec n ltac:(lia)) as (_ & ? & ?). split; [|done].
  by destruct (alloc_enter m _ t n Hm Hn).
Qed.

(** What the two outcomes of an allocation mean for the heap. *)
Definition alloc_post (m : Memory) (n : Z) (r : result PhysAddr Error) (m' : Memory) : Prop :=
  match r with
  | Ok pa =>
    n ≤ pa_len pa < 2 * Z.max n PAGE_SIZE ∧ in_heap m pa ∧
    (∀ b, live_block m b → disjoint_blocks pa b) ∧
    (∀ b, live_block m' b ↔ live_block m b ∨ b = pa)
  | Err e =>
    e = OutOfMemory ∧ buddy_meta m' = buddy_meta m
  end.

Lemma alloc_outcome m n :
  heap_ok m → 1 ≤ n ≤ capacity m →
  ∃ r m', Memory_buddy_alloc n m = Ret r m' ∧
    heap_ok m' ∧ same_heap m m' ∧ alloc_post m n r m'.
Proof.
  intros [t Hm] Hn. destruct (order_of_heap _ _ _ Hm Hn) as [Hk Hsz].
  destruct (alloc_cases m t n Hm Hn) as (Hd & Hkd & [Ha|Ha]).
  - destruct Ha as (q & t' & m' & Ht & Hrun & Hg & Hq & Hm' & Hsame & _).
    eexists _, m'. unfold alloc_post.
    split_and!; [exact Hrun|by eapply heap_ok_inv|done|]. rewrite Hg. split_and!.
    + rewrite block_len by done. lia.
    + rewrite block_len by done. lia.
    + by eapply block_in_heap.
    + intros b (l & p & Hl & ->)%(live_block_tree _ _ _ _ Hm). apply apart_disjoint.
      eapply talloc_fresh; try done; [lia|].
      pose proof (repr_height _ _ _ _ (inv_repr _ _ _ Hm)). lia.
    + intros b. rewrite (live_block_tree _ _ _ _ Hm'), (live_block_tree _ _ _ _ Hm).
      destruct Hsame as (stk & meta & ->). rewrite block_upd. split.
      * intros (l & p & [Hl|[-> ->]]%(talloc_live _ _ _ _ Ht) & ->); [left; eauto|by right].
      * intros [(l & p & Hl & ->)| ->]; (eexists _, _; split; [|done]);
          apply (talloc_live _ _ _ _ Ht); [by left|by right].
  - destruct Ha as (m' & _ & Hrun & Hm' & Hsame & Hmeta).
    eexists _, m'. split_and!; [exact Hrun|by eapply heap_ok_inv|done|done].
Qed.

(** C1. An allocation of 1 to [capacity] bytes returns: it neither panics nor
    runs out of stack entries or of loop iterations.  It answers a block inside
    the heap of at least [n] bytes, and less than twice what holds [n] bytes and
    a page, that shares no byte with any live block and
    is from now on live, all other blocks unchanged; or [OutOfMemory], and the
    array is as it was.  The heap stays well formed. *)
Theorem buddy_alloc_safe m n :
  heap_ok m → 1 ≤ n ≤ capacity m →
  ∃ r m', Memory_buddy_alloc n m = Ret r m' ∧
    heap_ok m' ∧ same_heap m m' ∧ alloc_post m n r m'.
Proof. apply alloc_outcome. Qed.

(** C8. The search is first fit and complete: every block of the requested size
    that starts below the answered one overlaps a live block, and [OutOfMemory]
    is answered only when that holds of all the blocks of this size in the heap. *)
Theorem buddy_alloc_first_fit m n r m' :
  heap_ok m → 1 ≤ n ≤ capacity m → Memory_buddy_alloc n m = Ret r m' →
  ∀ q, 0 ≤ q →
    q * pow2 (order_of n) <
      match r with Ok pa => pa_addr pa - ram_start m | Err _ => capacity m end →
    ∃ b, live_block m b ∧ ¬ disjoint_blocks (granted m n q) b.
Proof.
  intros [t Hm] Hn Hr q Hq0 Hq. pose proof (pow2_pos (order_of n)) as Hpos.
  destruct (order_of_heap _ _ _ Hm Hn) as [Hk _].
  pose proof (repr_height _ _ _ _ (inv_repr _ _ _ Hm)) as Hh.
  destruct (alloc_cases m t n Hm Hn) as (Hd & Hkd & Ha).
  pose proof (talloc_first_fit (depth m + 12) (depth m + 12 - order_of n) t ltac:(lia)
    ltac:(lia) (inv_canonical _ _ _ Hm) q) as Hbusy.
  assert (tbusy (depth m + 12) t (depth m + 12 - order_of n) q) as (l & p & Hl & Hap).
  { apply Hbusy. destruct Ha as [Ha|Ha].
    - destruct Ha as (q' & t' & m1 & Ht & Hrun & _). rewrite Ht.
      rewrite Hr in Hrun. injection Hrun as -> ->. simpl in Hq. split; [done|nia].
    - destruct Ha as (m1 & Ht & Hrun & _). rewrite Ht.
      rewrite Hr in Hrun. injection Hrun as -> ->. unfold capacity in Hq.
      rewrite <- Hkd, pow2_add in Hq. split; [done|nia]. }
  exists (block m (depth m) l p). split; [by apply (live_block_tree _ _ _ _ Hm); eauto|].
  rewrite (granted_block m (depth m)), <- apart_disjoint by lia. done.
Qed.

(** C9. The answered block has the least power-of-two size that holds [n] bytes
    and a page, starts at a multiple of its size from the start of the heap,
    and is page aligned when the heap is. *)
Theorem buddy_alloc_size m n pa m' :
  heap_ok m → 1 ≤ n ≤ capacity m → Memory_buddy_alloc n m = Ret (Ok pa) m' →
  pa_size pa = Some (2 ^ Z.log2_up (Z.max n PAGE_SIZE)) ∧
  (pa_len pa | pa_addr pa - ram_start m) ∧
  ((PAGE_SIZE | ram_start m) → (PAGE_SIZE | pa_addr pa)).
Proof.
  intros [t Hm] Hn Hr. destruct (order_of_heap _ _ _ Hm Hn) as [Hk _].
  destruct (alloc_cases m t n Hm Hn) as (Hd & Hkd & [Ha|Ha]).
  2:{ destruct Ha as (m1 & _ & Hrun & _). congruence. }
  destruct Ha as (q & t' & m1 & Ht & Hrun & _).
  rewrite Hr in Hrun. injection Hrun as -> ->. unfold granted, pa_len. simpl.
  split_and!.
  - unfold pow2, order_of. by rewrite Z2Nat.id by apply Z.log2_up_nonneg.
  - exists q. lia.
  - intros Hs. apply Z.divide_add_r; [done|]. apply Z.divide_mul_r.
    exists (pow2 (order_of n - 12)). change PAGE_SIZE with (pow2 12).
    rewrite <- pow2_add. f_equal. lia.
Qed.

End alloc_spec.

(** A request above the capacity and not above the memory size gets past the size
    check, and its level is negative. *)
Lemma alloc_gap m n :
  heap_ok m → capacity m < n ≤ mem_size m → ∃ msg, @Memory_buddy_alloc debug Memory list_store n m = Panic msg m.
Proof.
  intros [t Hm] Hn. pose proof (pow2_pos (depth m + 12)) as Hpos. unfold capacity in Hn.
  unfold Memory_buddy_alloc. rewrite (bind_Ret _ _ m (mem_size m) m) by done.
  rewrite (proj2 (Z.ltb_ge (mem_size m) n)), (proj2 (Z.eqb_neq n 0)) by lia. cbv zeta.
  destruct (decide (n ≤ ISIZE_HALF)) as [Hhalf|Hbig].
  - destruct (order_of_spec n ltac:(lia)) as (Hnext & Hk & Hge & _).
    erewrite bind_Ret by (by apply expect_run). rewrite (bind_Ret _ _ m (buddy_high_order m) m) by done.
    rewrite find_order_pow2, (inv_high _ _ _ Hm) by lia.
    assert (depth m + 12 < order_of n)%nat as Hlt.
    { destruct (decide (depth m + 12 < order_of n)%nat) as [|Hle]; [done|].
      pose proof (pow2_mono (order_of n) (depth m + 12) ltac:(lia)). lia. }
    eexists. apply bind_Panic. unfold usub, usize, usize_ok.
    by rewrite (proj2 (Z.leb_gt 0 _)) by lia.
  - eexists. apply bind_Panic. unfold expect, next_power_of_two. unfold PAGE_SIZE.
    rewrite (proj2 (Z.ltb_ge n 4096)), (proj2 (Z.eqb_neq n 0)) by lia.
    by rewrite (proj2 (Z.ltb_lt _ n)) by (change (USIZE_MAX / 2 + 1) with ISIZE_HALF; lia).
Qed.

(** C15. Requests the heap cannot serve: more bytes than the memory has are refused
    and none at all is an error of its own, both without a search.  Between the
    largest block and the memory size, which differ when the RAM is not a power of
    two, a build with overflow checks panics on the level of the block. *)
Theorem buddy_alloc_refused m n :
  heap_ok m →
  (mem_size m < n → ∀ `{Profile}, Memory_buddy_alloc n m = Ret (Err OutOfMemory) m) ∧
  (capacity m < n ≤ mem_size m → ∃ msg, @Memory_buddy_alloc debug Memory list_store n m = Panic msg m) ∧
  ∀ `{Profile}, Memory_buddy_alloc 0 m = Ret (Err ZeroSize) m.
Proof.
  intros Hm. split_and!.
  - intros Hn prof. unfold Memory_buddy_alloc. run1. fields. by rewrite (proj2 (Z.ltb_lt _ _)) by lia.
  - by apply alloc_gap.
  - intros prof. destruct Hm as [t Hm]. pose proof (inv_size _ _ _ Hm). pose proof (pow2_pos (depth m + 12)).
    unfold Memory_buddy_alloc. run1. fields. by rewrite (proj2 (Z.ltb_ge _ _)) by lia.
Qed.

(** ** Release *)

(** Live blocks never overlap. *)
Lemma live_disjoint m a b : heap_ok m → live_block m a → live_block m b → a = b ∨ disjoint_blocks a b.
Proof.
  intros [t Hm] (l & p & Hl & ->)%(live_block_tree _ _ _ _ Hm) (l' & p' & Hl' & ->)%(live_block_tree _ _ _ _ Hm).
  pose proof (repr_height _ _ _ _ (inv_repr _ _ _ Hm)).
  destruct (tlive_apart (depth m + 12) t l p l' p') as [[= -> ->]|Ha]; try done; [lia|by left|].
  right. by apply apart_disjoint.
Qed.

(** A live block is smaller than the heap exactly when it is not the root. *)
Lemma live_block_level m t pa :
  mem_inv m (depth m) t → live_block m pa →
  ∃ l p, tlive t l p ∧ pa = block m (depth m) l p ∧ (l ≤ depth m)%nat ∧
    (pa_len pa < capacity m ↔ (0 < l)%nat).
Proof.
  intros Hm (l & p & Hl & ->)%(live_block_tree _ _ _ _ Hm). exists l, p.
  pose proof (repr_height _ _ _ _ (inv_repr _ _ _ Hm)). pose proof (tlive_bounds _ _ _ Hl) as [_ ?].
  split_and!; [done|done|lia|]. unfold pa_len, block, capacity. simpl. split.
  - intros Hlt. destruct l; [|lia]. rewrite Nat.sub_0_r in Hlt. lia.
  - intros Hl0. unfold pow2. apply Z.pow_lt_mono_r; lia.
Qed.

Section free_spec.
Context `{Profile}.

Lemma free_root m pa :
  heap_ok m → live_block m pa → ¬ pa_len pa < capacity m →
  ∃ msg m', Memory_buddy_free pa m = Panic msg m' ∧ zget (buddy_meta m') 0 = Some Free.
Proof.
  intros [t Hm] Hpa Hlen.
  destruct (live_block_level _ _ _ Hm Hpa) as (l & p & Hl & -> & Hld & Hroot).
  assert (l = 0%nat) as -> by (destruct l; [done|destruct Hlen; apply Hroot; lia]).
  pose proof (tlive_bounds _ _ _ Hl) as [Hp _]. change (pow2 0) with 1 in Hp.
  assert (p = 0) as -> by lia.
  destruct (free_root_panics m _ t Hm Hl) as [msg Hrun]. eexists _, _. split; [exact Hrun|].
  apply zget_zset_eq. pose proof (inv_meta_ge _ _ _ Hm). pose proof (pow2_pos (depth m)).
  simpl. lia.
Qed.

Lemma free_outcome m pa :
  heap_ok m → live_block m pa → pa_len pa < capacity m →
  ∃ m', Memory_buddy_free pa m = Ret tt m' ∧ heap_ok m' ∧ same_heap m m' ∧
    ∀ b, live_block m' b ↔ live_block m b ∧ b ≠ pa.
Proof.
  intros [t Hm] Hpa Hlen.
  destruct (live_block_level _ _ _ Hm Hpa) as (l & p & Hl & -> & Hld & Hroot).
  destruct (free_refines m _ t l p Hm ltac:(tauto) Hl) as (t' & meta & Ht & Hrun & Hm' & _).
  destruct (tfree_live _ _ _ Hl) as (t1 & Ht1 & Hlive). rewrite Ht in Ht1. injection Ht1 as <-.
  eexists. split_and!; [exact Hrun|by eapply heap_ok_inv|by eexists _, _|].
  intros b. rewrite (live_block_tree _ _ _ _ Hm'), (live_block_tree _ _ _ _ Hm), block_upd.
  split.
  - intros (k & q & [Hk Hne]%Hlive & ->). split; [eauto|]. intros [-> ->]%block_inj; [tauto| |done].
    pose proof (repr_height _ _ _ _ (inv_repr _ _ _ Hm)).
    pose proof (tlive_bounds _ _ _ Hk) as [_ ?]. lia.
  - intros [(k & q & Hk & ->) Hne]. exists k, q. split; [|done]. apply Hlive.
    split; [done|]. intros [-> ->]. done.
Qed.

(** C4. Freeing a live block other than the whole heap returns, ends exactly
    that block's life and keeps the heap well formed. *)
Theorem buddy_free_safe m pa :
  heap_ok m → live_block m pa → pa_len pa < capacity m →
  ∃ m', Memory_buddy_free pa m = Ret tt m' ∧ heap_ok m' ∧ same_heap m m' ∧
    ∀ b, live_block m' b ↔ live_block m b ∧ b ≠ pa.
Proof. apply free_outcome. Qed.

(** C11. A block that was just allocated goes back without a trace: the array is
    what it was before the allocation, every split undone. *)
Theorem buddy_free_alloc m n pa m' :
  heap_ok m → 1 ≤ n ≤ capacity m → Memory_buddy_alloc n m = Ret (Ok pa) m' →
  pa_len pa < capacity m →
  ∃ m'', Memory_buddy_free pa m' = Ret tt m'' ∧ buddy_meta m'' = buddy_meta m.
Proof.
  intros [t Hm] Hn Hr Hlen. destruct (order_of_heap _ _ _ Hm Hn) as [Hk _].
  destruct (alloc_cases m t n Hm Hn) as (Hd & Hkd & [Ha|Ha]).
  2:{ destruct Ha as (m1 & _ & Hrun & _). congruence. }
  destruct Ha as (q & t' & m1 & Ht & Hrun & Hg & Hq & Hm' & (stk & meta & ->) & Hout).
  rewrite Hr in Hrun. injection Hrun as -> ->. rewrite Hg in Hlen |- *.
  assert (tlive t' (depth m + 12 - order_of n) q) as Hl
    by (apply (talloc_live _ _ _ _ Ht); by right).
  assert (0 < depth m + 12 - order_of n)%nat as Hpos.
  { rewrite block_len in Hlen by done. unfold capacity in Hlen.
    destruct (decide (order_of n = depth m + 12)%nat) as [Heq|]; [|lia].
    rewrite Heq in Hlen. lia. }
  destruct (free_refines _ _ _ _ _ Hm' Hpos Hl) as (t2 & meta2 & Ht2 & Hfree & Hm2 & Hout2).
  rewrite (tfree_talloc _ _ _ _ (inv_canonical _ _ _ Hm) Ht) in Ht2. injection Ht2 as <-.
  eexists. split; [exact Hfree|]. simpl in *. apply zget_ext. intros j _.
  destruct (decide (desc (depth m) 0 j)) as [Hj|Hj].
  - apply (repr_agree _ _ (depth m) 0 t); [exact (inv_repr _ _ _ Hm2)|exact (inv_repr _ _ _ Hm)|done].
  - rewrite Hout2, Hout by done. done.
Qed.

(** C13. Freeing the block that is the whole heap panics in both build profiles.
    The block is marked free first, and the panic leaves it so. *)
Theorem buddy_free_root_panics m pa :
  heap_ok m → live_block m pa → pa_len pa = capacity m →
  ∃ msg m', Memory_buddy_free pa m = Panic msg m' ∧ zget (buddy_meta m') 0 = Some Free.
Proof. intros Hm Hpa Hlen. apply free_root; [done..|lia]. Qed.

(** C14. Whatever is not a live block is refused without a write: an address that
    carries no size is ignored, and a block of the heap that is free or only part
    of a live block (a second [free], for one) panics. *)
Theorem buddy_free_refused m l p :
  heap_ok m → (l ≤ depth m)%nat → 0 ≤ p < pow2 l →
  ¬ live_block m (block m (depth m) l p) →
  (∃ msg, Memory_buddy_free (block m (depth m) l p) m = Panic msg m) ∧
  ∀ a, Memory_buddy_free (PhysAddr_new a None) m = Ret tt m.
Proof.
  intros [t Hm] Hl Hp Hn. split; [|done].
  destruct (zget_lt (buddy_meta m) (node l p)) as [b Hb].
  { pose proof (inv_meta_ge _ _ _ Hm). pose proof (pow2_mono l _ Hl). unfold node. lia. }
  apply (free_unallocated_panics m _ t l p b); try done.
  intros ->. apply Hn. exists l, p. done.
Qed.

Lemma alloc_empty m n :
  heap_ok m → (∀ b, ¬ live_block m b) → 1 ≤ n ≤ capacity m →
  ∃ m', Memory_buddy_alloc n m = Ret (Ok (granted m n 0)) m'.
Proof.
  intros [t Hm] Hno Hn. assert (t = BFree) as ->.
  { destruct (decide (t = BFree)) as [|Hne]; [done|].
    destruct (canonical_has_live t (inv_canonical _ _ _ Hm) Hne) as (l & p & Hl).
    destruct (Hno (block m (depth m) l p)). apply (live_block_tree _ _ _ _ Hm). eauto. }
  destruct (talloc_free (depth m + 12 - order_of n)) as [t' Ht].
  destruct (alloc_cases m BFree n Hm Hn) as (_ & _ & [Ha|Ha]).
  - destruct Ha as (q & t1 & m' & Ht1 & Hrun & _). rewrite Ht in Ht1.
    injection Ht1 as <- <-. by exists m'.
  - destruct Ha as (m' & Ht1 & _). congruence.
Qed.

End free_spec.

(** ** Both build profiles behave the same *)

Section profiles.
Context {St : Type} `{!Store St}.

Lemma safer_push_children sp i : safer (@push_children debug St _ sp i) (@push_children release St _ sp i).
Proof. unfold push_children. safer_body. Qed.
Lemma safer_node_addr i l : safer (@node_addr debug St _ i l) (@node_addr release St _ i l).
Proof. unfold node_addr. safer_body. Qed.
Lemma safer_buddy_index i l : safer (@buddy_index debug St i l) (@buddy_index release St i l).
Proof. unfold buddy_index. safer_body. Qed.
#[local] Hint Resolve safer_push_children safer_node_addr safer_buddy_index : safer.

Lemma safer_alloc_loop fuel req n sp :
  safer (@alloc_loop debug St _ fuel req n sp) (@alloc_loop release St _ fuel req n sp).
Proof.
  revert sp. induction fuel as [|fuel IH]; intros sp; cbn [alloc_loop]; safer_body; apply IH.
Qed.
Lemma safer_merge_loop fuel level i b :
  safer (@merge_loop debug St _ fuel level i b) (@merge_loop release St _ fuel level i b).
Proof.
  revert level i b. induction fuel as [|fuel IH]; intros level i b; cbn [merge_loop];
    safer_body; apply IH.
Qed.
#[local] Hint Resolve safer_alloc_loop safer_merge_loop : safer.

End profiles.


(** ** Any run of the allocator *)

Section runs.
Context `{Profile}.

(** The states a heap goes through when its clients ask for any amount the tree
    or the size check can decide on, and give back blocks they were given. *)
Inductive runs (m0 : Memory) : Memory → Prop :=
  | runs_start : runs m0 m0
  | runs_alloc m n r m' :
      runs m0 m → 0 ≤ n → n ≤ capacity m ∨ mem_size m < n →
      Memory_buddy_alloc n m = Ret r m' → runs m0 m'
  | runs_free m pa m' :
      runs m0 m → live_block m pa → Memory_buddy_free pa m = Ret tt m' → runs m0 m'.

Lemma runs_ok m0 m : heap_ok m0 → runs m0 m → heap_ok m ∧ same_heap m0 m.
Proof.
  intros Hm0 Hruns. induction Hruns as [|m n r m' _ IH Hn Hcap Hrun|m pa m' _ IH Hpa Hrun].
  - split; [done|]. exists (buddy_stack m0), (buddy_meta m0). by rewrite upd_self.
  - destruct IH as [Hm (stk & meta & ->)]. set (m := upd m0 stk meta) in *.
    destruct (decide (1 ≤ n ≤ capacity m)) as [Hn1|Hn1].
    + destruct (alloc_outcome m n Hm Hn1) as (r1 & m1 & Hrun1 & Hm1 & (stk1 & meta1 & ->) & _).
      rewrite Hrun in Hrun1. injection Hrun1 as <- ->. split; [done|by eexists _, _].
    + assert (m' = m) as ->; [|split; [done|by eexists _, _]].
      assert (0 ≤ mem_size m) as Hsz.
      { destruct Hm as [t Hm]. pose proof (inv_size _ _ _ Hm). pose proof (pow2_pos (depth m + 12)). lia. }
      revert Hrun. unfold Memory_buddy_alloc. run1. fields.
      destruct (Z.ltb_spec (mem_size m) n); [by intros [= _ ->]|].
      assert (n = 0) as -> by lia. by intros [= _ ->].
  - destruct IH as [Hm (stk & meta & ->)]. set (m := upd m0 stk meta) in *.
    destruct (decide (pa_len pa < capacity m)) as [Hlen|Hlen].
    + destruct (free_outcome m pa Hm Hpa Hlen) as (m1 & Hrun1 & Hm1 & (stk1 & meta1 & ->) & _).
      rewrite Hrun in Hrun1. injection Hrun1 as ->. split; [done|by eexists _, _].
    + destruct (free_root m pa Hm Hpa Hlen) as (msg & m1 & Hrun1 & _). congruence.
Qed.

(** C7. In every state a well-formed heap can reach, the live blocks lie inside
    the heap and no two of them share a byte. *)
Theorem buddy_blocks_disjoint m0 m a b :
  heap_ok m0 → runs m0 m → live_block m a → live_block m b →
  in_heap m0 a ∧ (a = b ∨ disjoint_blocks a b).
Proof.
  intros Hm0 Hruns Ha Hb. destruct (runs_ok m0 m Hm0 Hruns) as [Hm Hsame].
  split; [|by apply (live_disjoint m)]. destruct Hm as [t Hm].
  destruct Ha as (l & p & Hl & Hp & _ & ->).
  pose proof (block_in_heap _ _ _ _ Hm Hl Hp) as Hin.
  by destruct Hsame as (stk & meta & ->).
Qed.
End runs.
