(* ===== verification/BuddyTrace.v ===== *)
(** * The buddy allocator refines the tree.

    The specification is the tree of BuddyTree.v: [talloc] takes the leftmost free
    block of a size, [tfree] gives one back and joins free buddies.  Whatever a
    client asks for, the array of src/rust/src/mem.rs gives the answers of the
    tree, and goes on representing it. *)
From S2P Require Import Prelude Ram Addr Order Buddy BuddyTree BuddyRefine BuddyLoops BuddyMerge BuddyInv BuddySpec.

(** ** Sequences of requests *)

(** A request names a size, or the level and position of a block. *)
Inductive request : Type :=
  | Ask (n : Z)
  | Give (l : nat) (p : Z).

Section tree.
(** The depth of the heap. *)
Variable D : nat.

Definition level_of (n : Z) : nat := (D + 12 - order_of n)%nat.

(** The specification: what the requests that ask are answered (the position of a
    block, or that there is none) and the tree afterwards.  Requests a client must
    not make (a size above the heap's, a block that is not live, the whole
    heap given back) have no meaning. *)
Fixpoint tree_run (rs : list request) (t : btree) : option (list (option (nat * Z)) * btree) :=
  match rs with
  | [] => Some ([], t)
  | Ask n :: rs =>
    if (1 <=? n) && (n <=? pow2 (D + 12)) then
      match talloc (level_of n) t with
      | Some (q, t') => (λ '(os, t''), (Some (level_of n, q) :: os, t'')) <$> tree_run rs t'
      | None => (λ '(os, t''), (None :: os, t'')) <$> tree_run rs t
      end
    else None
  | Give l p :: rs =>
    if (0 <? l)%nat && (0 <=? p) && (p <? pow2 l) then tfree t l p ≫= tree_run rs else None
  end.
End tree.

(** The same requests made of the allocator, wherever its slices are. *)
Fixpoint heap_run `{Profile, Store St} (base : Memory) (rs : list request) : M St (list (result PhysAddr Error)) :=
  match rs with
  | [] => ret []
  | Ask n :: rs =>
    let! r := Memory_buddy_alloc n in
    let! os := heap_run base rs in
    ret (r :: os)
  | Give l p :: rs =>
    Memory_buddy_free (block base (depth base) l p);;!
    heap_run base rs
  end.

(** The answer that stands for one of the tree's. *)
Definition heap_answer (base : Memory) (o : option (nat * Z)) : result PhysAddr Error :=
  match o with Some (l, q) => Ok (block base (depth base) l q) | None => Err OutOfMemory end.

(** ** The simulation *)

(** Only live blocks can be given back to the tree. *)
Lemma tfree_tlive t l p t' : 0 ≤ p < pow2 l → tfree t l p = Some t' → tlive t l p.
Proof.
  revert l p t'. induction t as [| |a IHa b IHb]; intros [|l] p t' Hp Ht; try discriminate.
  - change (pow2 0) with 1 in Hp. simpl. lia.
  - rewrite pow2_S in Hp. cbn [tfree tlive] in *. destruct (Z.ltb_spec p (pow2 l)) as [Hl|Hl].
    + apply fmap_Some in Ht as (a' & Ha & _). left. split; [lia|]. by eapply IHa; [lia|].
    + apply fmap_Some in Ht as (b' & Hb & _). right. split; [lia|]. by eapply IHb; [lia|].
Qed.

Section simulation.
Context `{Profile}.

Lemma same_heap_trans m m1 m2 : same_heap m m1 → same_heap m1 m2 → same_heap m m2.
Proof. intros (s1 & b1 & ->) (s2 & b2 & ->). by exists s2, b2. Qed.

Lemma same_heap_block m m' : same_heap m m' → block m' = block m ∧ depth m' = depth m.
Proof. by intros (s & b & ->). Qed.

(** One request that asks. *)
Lemma ask_simulates base m t n :
  same_heap base m → mem_inv m (depth base) t → 1 ≤ n ≤ pow2 (depth base + 12) →
  ∃ m', same_heap base m' ∧
    match talloc (level_of (depth base) n) t with
    | Some (q, t') =>
      Memory_buddy_alloc n m = Ret (heap_answer base (Some (level_of (depth base) n, q))) m' ∧ mem_inv m' (depth base) t'
    | None => Memory_buddy_alloc n m = Ret (heap_answer base None) m' ∧ mem_inv m' (depth base) t
    end.
Proof.
  intros Hs Hm Hn. destruct (same_heap_block _ _ Hs) as [Hblk Hd].
  pose proof (alloc_cases m t n) as Hcases. unfold capacity in Hcases. rewrite Hd in Hcases.
  destruct (Hcases Hm Hn) as (_ & _ & [Ha|Ha]); unfold level_of, heap_answer.
  - destruct Ha as (q & t' & m' & -> & Hrun & Hg & _ & Hm' & Hsame & _). exists m'.
    split; [by eapply same_heap_trans|]. rewrite Hrun, Hg, Hblk. by split.
  - destruct Ha as (m' & -> & Hrun & Hm' & Hsame & _). exists m'. split; [by eapply same_heap_trans|by split].
Qed.

(** One request that gives back. *)
Lemma give_simulates base m t l p t' :
  same_heap base m → mem_inv m (depth base) t → (0 < l)%nat → 0 ≤ p < pow2 l → tfree t l p = Some t' →
  ∃ m', same_heap base m' ∧ Memory_buddy_free (block base (depth base) l p) m = Ret tt m' ∧
    mem_inv m' (depth base) t'.
Proof.
  intros Hs Hm Hl Hp Ht. destruct (same_heap_block _ _ Hs) as [<- _].
  destruct (free_refines m _ t l p Hm Hl (tfree_tlive _ _ _ _ Hp Ht)) as (t1 & meta & Ht1 & Hrun & Hm' & _).
  rewrite Ht in Ht1. injection Ht1 as <-. eexists. split; [|by split].
  eapply same_heap_trans; [exact Hs|]. by eexists _, _.
Qed.

Lemma run_simulates base rs : ∀ m t os t',
  same_heap base m → mem_inv m (depth base) t → tree_run (depth base) rs t = Some (os, t') →
  ∃ m', heap_run base rs m = Ret (map (heap_answer base) os) m' ∧ mem_inv m' (depth base) t' ∧ same_heap base m'.
Proof.
  induction rs as [|[n|l p] rs IH]; intros m t os t' Hs Hm Ht; cbn [tree_run heap_run] in *.
  - injection Ht as <- <-. by exists m.
  - destruct ((1 <=? n) && (n <=? pow2 (depth base + 12))) eqn:Hn; [|discriminate].
    apply andb_prop in Hn as [Hn1%Z.leb_le Hn2%Z.leb_le].
    destruct (ask_simulates base m t n Hs Hm (conj Hn1 Hn2)) as (m1 & Hs1 & Hask).
    destruct (talloc (level_of (depth base) n) t) as [[q t1]|]; destruct Hask as [Hrun Hm1];
      apply fmap_Some in Ht as ([os1 t2] & Ht1 & [= -> ->]);
      destruct (IH m1 _ _ _ Hs1 Hm1 Ht1) as (m' & Hrest & Hm' & Hs'); exists m'.
    all: erewrite bind_Ret by exact Hrun; erewrite bind_Ret by exact Hrest; by split_and!.
  - destruct ((0 <? l)%nat && (0 <=? p) && (p <? pow2 l)) eqn:Hn; [|discriminate].
    apply andb_prop in Hn as [[Hl%Nat.ltb_lt Hp1%Z.leb_le]%andb_prop Hp2%Z.ltb_lt].
    apply bind_Some in Ht as (t1 & Ht1 & Ht).
    destruct (give_simulates base m t l p t1 Hs Hm Hl (conj Hp1 Hp2) Ht1) as (m1 & Hs1 & Hrun & Hm1).
    destruct (IH m1 _ _ _ Hs1 Hm1 Ht) as (m' & Hrest & Hm' & Hs'). exists m'.
    erewrite bind_Ret by exact Hrun. by split_and!.
Qed.

(** C5. The array implements the tree: any sequence of requests that has a meaning
    for the tree is served without a panic, its answers are the blocks the
    tree answers, in order, and the array afterwards represents the tree afterwards. *)
Theorem buddy_refines_tree m t rs os t' :
  mem_inv m (depth m) t → tree_run (depth m) rs t = Some (os, t') →
  ∃ m', heap_run m rs m = Ret (map (heap_answer m) os) m' ∧ mem_inv m' (depth m) t' ∧ same_heap m m'.
Proof.
  intros Hm Ht. eapply run_simulates; [|exact Hm|exact Ht]. exists (buddy_stack m), (buddy_meta m).
  symmetry. apply upd_self.
Qed.
End simulation.
