(* ===== verification/BuddyRoom.v ===== *)
(** * Free space: what the allocator can still hand out.

    The free blocks of a heap, from left to right, are a list of orders.  As long
    as nothing is freed, [Memory::buddy_alloc] keeps this list strictly increasing,
    because the leftmost free block that is large enough is then also the smallest
    one.  A request therefore succeeds exactly when its block is not larger than
    the free space: splitting never strands a byte. *)
From S2P Require Import Prelude Addr Order Buddy BuddyTree BuddyRefine BuddyLoops BuddyInv BuddySpec.

(** ** On the tree *)

(** The orders of the maximal free blocks of a tree of order [h]. *)
Fixpoint frees (h : nat) (t : btree) : list nat :=
  match t with
  | BFree => [h]
  | BAlloc => []
  | BSplit a b => frees (h - 1) a ++ frees (h - 1) b
  end.

Fixpoint total (l : list nat) : Z :=
  match l with [] => 0 | x :: l => pow2 x + total l end.

Lemma total_app l l' : total (l ++ l') = total l + total l'.
Proof. induction l as [|x l IH]; simpl; lia. Qed.

Lemma total_nonneg l : 0 ≤ total l.
Proof. induction l as [|x l IH]; simpl; [done|]. pose proof (pow2_pos x). lia. Qed.

Lemma total_seq k n : total (seq k n) = pow2 (k + n) - pow2 k.
Proof.
  revert k. induction n as [|n IH]; intros k; simpl; [rewrite Nat.add_0_r; lia|].
  rewrite IH, pow2_S. replace (S k + n)%nat with (k + S n)%nat by lia. lia.
Qed.

(** Strictly increasing, all at least [lo] and below [hi]. *)
Fixpoint rising (lo : nat) (l : list nat) (hi : nat) : Prop :=
  match l with [] => (lo ≤ hi)%nat | x :: l => (lo ≤ x)%nat ∧ rising (S x) l hi end.

Lemma rising_le lo l hi : rising lo l hi → (lo ≤ hi)%nat.
Proof. revert lo. induction l as [|x l IH]; intros lo; simpl; [done|]. intros [? ?%IH]. lia. Qed.

Lemma rising_app lo l l' hi : rising lo (l ++ l') hi ↔ ∃ mid, rising lo l mid ∧ rising mid l' hi.
Proof.
  revert lo. induction l as [|x l IH]; intros lo; simpl.
  - split; [intros Hr; by exists lo|]. intros (mid & Hlo & Hr).
    destruct l' as [|y l']; simpl in *; [lia|]. split; [lia|tauto].
  - rewrite IH. naive_solver.
Qed.

Lemma rising_seq k n : rising k (seq k n) (k + n).
Proof.
  revert k. induction n as [|n IH]; intros k; simpl; [lia|]. split; [done|].
  replace (k + S n)%nat with (S k + n)%nat by lia. apply IH.
Qed.

Lemma rising_weaken lo l hi lo' hi' :
  (lo' ≤ lo)%nat → (hi ≤ hi')%nat → rising lo l hi → rising lo' l hi'.
Proof.
  revert lo lo'. induction l as [|x l IH]; intros lo lo' Hlo Hhi; simpl; [lia|].
  intros [Hx Hr]. split; [lia|]. by eapply IH; [| |exact Hr].
Qed.

(** Distinct powers of two below [2^k] add up to less than [2^k]. *)
Lemma rising_total lo l hi : rising lo l hi → total l ≤ pow2 hi - pow2 lo.
Proof.
  revert lo. induction l as [|x l IH]; intros lo; simpl.
  - intros Hle. pose proof (pow2_mono lo hi Hle). lia.
  - intros [Hx Hr%IH]. rewrite pow2_S in Hr. pose proof (pow2_mono lo x Hx). lia.
Qed.

Lemma rising_below lo l hi k :
  rising lo l hi → Forall (λ x, (x < k)%nat) l → (lo ≤ k)%nat → rising lo l k.
Proof.
  revert lo. induction l as [|x l IH]; intros lo; simpl; [done|].
  intros [Hx Hr] [Hxk Hl]%Forall_cons Hlo. split; [done|]. apply IH; [done|done|lia].
Qed.

(** Taking a block of order [k] out of the first one that is large enough. *)
Lemma rising_take k L x R hi :
  rising 0 (L ++ x :: R) hi → Forall (λ y, (y < k)%nat) L → (k ≤ x)%nat →
  rising 0 (L ++ seq k (x - k) ++ R) hi.
Proof.
  intros (mid & HL & Hx & HR)%rising_app HLk Hk. apply rising_app. exists k. split.
  - apply (rising_below _ _ mid); [done|done|lia].
  - apply rising_app. exists x. split.
    + pose proof (rising_seq k (x - k)) as Hs. by replace (k + (x - k))%nat with x in Hs by lia.
    + by eapply rising_weaken; [| |exact HR]; lia.
Qed.

Lemma total_take k L x R : (k ≤ x)%nat → total (L ++ seq k (x - k) ++ R) = total (L ++ x :: R) - pow2 k.
Proof.
  intros Hk. rewrite !total_app, total_seq. replace (k + (x - k))%nat with x by lia. simpl. lia.
Qed.

Lemma frees_lt h t : (theight t ≤ h)%nat → Forall (λ x, (x ≤ h)%nat) (frees h t).
Proof.
  revert h. induction t as [| |a IHa b IHb]; intros h Hh; simpl in *; [by repeat constructor|constructor|].
  apply Forall_app. split; (eapply Forall_impl; [|simpl; intros x Hx; exact (Nat.le_trans _ _ _ Hx (Nat.le_sub_l h 1))]);
    [apply IHa|apply IHb]; lia.
Qed.

(** [talloc] takes from the leftmost free block that is large enough, or there is
    none. *)
Definition taken (k : nat) (fs : list nat) (fs' : option (list nat)) : Prop :=
  match fs' with
  | Some fs' => ∃ L x R, fs = L ++ x :: R ∧ Forall (λ y, (y < k)%nat) L ∧ (k ≤ x)%nat ∧
      fs' = L ++ seq k (x - k) ++ R
  | None => Forall (λ y, (y < k)%nat) fs
  end.

Lemma taken_left k l r l' : taken k l (Some l') → taken k (l ++ r) (Some (l' ++ r)).
Proof.
  intros (L & x & R & -> & HL & Hx & ->). exists L, x, (R ++ r).
  split_and!; try done; by rewrite <- ?app_assoc.
Qed.
Lemma taken_right k l r r' : taken k l None → taken k r r' → taken k (l ++ r) (app l <$> r').
Proof.
  intros Hl Hr. destruct r' as [r'|]; simpl in *; [|by apply Forall_app].
  destruct Hr as (L & x & R & -> & HL & Hx & ->). exists (l ++ L), x, R.
  split_and!; try done; [by rewrite <- ?app_assoc|by apply Forall_app|by rewrite <- ?app_assoc].
Qed.

Lemma talloc_free_frees d h t' p :
  (d ≤ h)%nat → talloc d BFree = Some (p, t') → frees h t' = seq (h - d) d.
Proof.
  revert h t' p. induction d as [|d IH]; intros h t' p Hd; simpl.
  - by intros [= <- <-].
  - destruct (talloc_free d) as [t0 Ht0]. rewrite Ht0. intros [= <- <-]. simpl.
    rewrite (IH (h - 1)%nat t0 0) by (lia || done).
    replace (h - 1 - d)%nat with (h - S d)%nat by lia.
    change (h - S d :: seq (S (h - S d)) d)%nat with (seq (h - S d) (S d)).
    rewrite (seq_S d (h - S d)). do 2 f_equal. lia.
Qed.

Lemma talloc_frees h d t :
  (theight t ≤ h)%nat → (d ≤ h)%nat →
  taken (h - d) (frees h t) (frees h ∘ snd <$> talloc d t).
Proof.
  revert h d. induction t as [| |a IHa b IHb]; intros h d Hh Hd.
  - destruct (talloc_free d) as [t' Ht]. rewrite Ht. simpl.
    exists [], h, []. rewrite app_nil_r. split_and!; [done|by constructor|lia|].
    rewrite (talloc_free_frees d h t' 0) by done. simpl. f_equal. lia.
  - destruct d; simpl; constructor.
  - simpl in Hh. destruct d as [|d].
    + cbn [talloc fmap option_fmap option_map taken]. rewrite Nat.sub_0_r. cbn [frees].
      apply Forall_app. split; (eapply Forall_impl; [apply frees_lt|]); try lia; simpl; intros; lia.
    + specialize (IHa (h - 1)%nat d ltac:(lia) ltac:(lia)). specialize (IHb (h - 1)%nat d ltac:(lia) ltac:(lia)).
      replace (h - 1 - d)%nat with (h - S d)%nat in IHa, IHb by lia.
      cbn [talloc frees]. destruct (talloc d a) as [[q a']|].
      * by apply taken_left.
      * destruct (talloc d b) as [[q b']|]; by apply (taken_right _ _ _ _ IHa IHb).
Qed.

(** ** On the heap *)

(** [room m f]: the heap has [f] free bytes in blocks of strictly increasing size. *)
Definition room (m : Memory) (f : Z) : Prop :=
  ∃ t, mem_inv m (depth m) t ∧ rising 0 (frees (depth m + 12) t) (S (depth m + 12)) ∧
    total (frees (depth m + 12) t) = f.

(** The size of the block a request of [n] bytes takes. *)
Definition block_size (n : Z) : Z := pow2 (order_of n).

Section room.
Context `{Profile}.

Lemma room_alloc m f n :
  room m f → 1 ≤ n ≤ capacity m →
  ∃ r m', Memory_buddy_alloc n m = Ret r m' ∧
    match r with
    | Ok pa => pa_len pa = block_size n ∧ block_size n ≤ f ∧ room m' (f - block_size n)
    | Err _ => f < block_size n ∧ room m' f
    end.
Proof.
  intros (t & Hm & Hup & Htot) Hn. destruct (order_of_heap m t n Hm Hn) as [Hk _].
  destruct (alloc_cases m t n Hm Hn) as (Hd & Hkd & Hcases).
  set (h := (depth m + 12)%nat) in *. set (d := (h - order_of n)%nat) in *.
  assert (theight t ≤ h)%nat as Hh.
  { pose proof (repr_height _ _ _ _ (inv_repr _ _ _ Hm)). unfold h. lia. }
  pose proof (talloc_frees h d t Hh ltac:(lia)) as Ht.
  replace (h - d)%nat with (order_of n) in Ht by lia.
  destruct Hcases as [(q & t' & m' & Hta & Hrun & Hg & _ & Hm' & Hsame & _)|(m' & Hta & Hrun & Hm' & Hsame & _)];
    rewrite Hta in Ht; destruct (same_heap_start _ _ Hsame) as (_ & Hdep & _).
  - destruct Ht as (L & x & R & HL & Hlow & Hx & HR).
    exists (Ok (granted m n q)), m'. split; [done|]. split; [done|].
    rewrite HL in Hup, Htot. unfold block_size. split.
    + pose proof (pow2_mono _ _ Hx). rewrite total_app in Htot. simpl in Htot.
      pose proof (total_nonneg L). pose proof (total_nonneg R). lia.
    + exists t'. rewrite Hdep. fold h. split; [done|]. cbn [compose snd] in HR. rewrite HR. split.
      * by apply rising_take.
      * rewrite total_take by done. lia.
  - exists (Err OutOfMemory), m'. split; [done|]. split.
    + apply rising_below with (k := order_of n) in Hup; [|exact Ht|lia].
      apply rising_total in Hup. change (pow2 0) with 1 in Hup. unfold block_size. lia.
    + exists t. by rewrite Hdep.
Qed.

(** A heap without live blocks is one free block. *)
Lemma room_empty m : heap_ok m → (∀ b, ¬ live_block m b) → room m (capacity m).
Proof.
  intros [t Hm] Hno. exists BFree. assert (t = BFree) as ->; [|split_and!; [done|simpl; lia|unfold capacity; simpl; lia]].
  destruct (decide (t = BFree)) as [|Hne]; [done|].
  destruct (canonical_has_live t (inv_canonical _ _ _ Hm) Hne) as (l & p & Hl).
  destruct (Hno (block m (depth m) l p)). apply (live_block_tree _ _ _ _ Hm). eauto.
Qed.

(** C10. Nothing is lost to fragmentation while nothing is freed: a request is
    refused only when its block, the least power of two that holds the request and
    a page, is larger than all the free space together; otherwise it takes
    exactly that much, and the same holds of the heap after it. *)
Theorem buddy_alloc_frugal m f n :
  room m f → 1 ≤ n ≤ capacity m →
  ∃ r m', Memory_buddy_alloc n m = Ret r m' ∧
    match r with
    | Ok pa => pa_len pa = block_size n ∧ block_size n ≤ f ∧ room m' (f - block_size n)
    | Err _ => f < block_size n ∧ room m' f
    end.
Proof. apply room_alloc. Qed.
End room.
