(* ===== verification/BuddyRam.v ===== *)
(** * The buddy allocator on the memory its two slices are in.

    [ram_store] makes every access of the methods of [Memory] a bounds check and a
    load or store at an address; [represents] ties it to the lists the other
    theorems speak of.  [mirrors] is the simulation between the two; every method
    mirrors itself ([alloc_mirrors], [free_mirrors]), whatever it computes: what it
    computes is the other theorems', and MemInit.v puts the two together
    ([buddy_in_ram]). *)
From S2P Require Import Prelude Ram Addr Slice Order Buddy BuddyTrace.

(** A [Memory] whose slices are pointers, and the memory. *)
Record InRam : Type := mkInRam { ir_memory : MemoryAt; ir_ram : Ram }.
Definition set_ir_ram (r : Ram) (s : InRam) : InRam := mkInRam s.(ir_memory) r.

(** A byte that is no [BlockState] is undefined behaviour, which nothing leads to. *)
#[export] Instance ram_store : Store InRam := {|
  st_start s := m_start s.(ir_memory);
  st_size s := mem_size s.(ir_memory);
  st_high s := buddy_high_order s.(ir_memory);
  st_nodes s := Z.to_nat (sl_len (buddy_meta s.(ir_memory)));
  meta_get i :=
    let! sl := gets (λ s, buddy_meta s.(ir_memory)) in
    let! a := slice_index 1 sl i in
    let! b := gets (λ s, load8 s.(ir_ram) a) in
    expect (BlockState_of_u8 b) "not a BlockState";
  meta_set i b :=
    let! sl := gets (λ s, buddy_meta s.(ir_memory)) in
    let! a := slice_index 1 sl i in
    modify (λ s, set_ir_ram (store8 a (BlockState_as_u8 b) s.(ir_ram)) s);
  stack_get sp :=
    let! sl := gets (λ s, buddy_stack s.(ir_memory)) in
    let! a := slice_index 4 sl (wrap sp) in
    gets (λ s, load32 s.(ir_ram) a);
  stack_set sp x :=
    let! sl := gets (λ s, buddy_stack s.(ir_memory)) in
    let! a := slice_index 4 sl (wrap sp) in
    modify (λ s, set_ir_ram (store32 a x s.(ir_ram)) s);
|}.

(** The slices do not overlap and hold values of their types. *)
Record slices_sound (m : MemoryAt) (r : Ram) : Prop := {
  sl_meta_len : 0 ≤ sl_len (buddy_meta m);
  sl_stack_len : 0 ≤ sl_len (buddy_stack m);
  sl_apart a : in_slice 1 (buddy_meta m) a → ¬ in_slice 4 (buddy_stack m) a;
  sl_states i : 0 ≤ i < sl_len (buddy_meta m) →
    ∃ b, BlockState_of_u8 (load8 r (sl_ptr (buddy_meta m) + i)) = Some b;
}.

Definition represents (s : InRam) (m : Memory) : Prop :=
  slices_sound s.(ir_memory) s.(ir_ram) ∧ m = borrowed s.(ir_ram) s.(ir_memory).

(** Nothing but the bytes of the slices was written. *)
Definition kept_outside (s s' : InRam) : Prop :=
  ir_memory s' = ir_memory s ∧
  ∀ a, ¬ in_slice 1 (buddy_meta (ir_memory s)) a → ¬ in_slice 4 (buddy_stack (ir_memory s)) a →
    load8 (ir_ram s') a = load8 (ir_ram s) a.

Lemma kept_refl s : kept_outside s s.
Proof. done. Qed.
Lemma kept_trans s1 s2 s3 : kept_outside s1 s2 → kept_outside s2 s3 → kept_outside s1 s3.
Proof. intros [H1 H1'] [H2 H2']. split; [congruence|]. intros a Hm Hs. rewrite H2' by (by rewrite H1). by apply H1'. Qed.

(** ** Reading the slices *)

Lemma BlockState_round b : BlockState_of_u8 (BlockState_as_u8 b) = Some b.
Proof. by destruct b. Qed.

Lemma zget_map_seqZ {A} (f : Z → A) n i :
  zget (map f (seqZ 0 n)) i = if (0 <=? i) && (i <? n) then Some (f i) else None.
Proof.
  unfold zget, in_bounds, zlen. rewrite length_map, length_seqZ.
  destruct (Z.leb_spec 0 i) as [Hi|Hi]; simpl; [|done].
  destruct (Z.ltb_spec i n) as [Hn|Hn].
  - rewrite (proj2 (Z.ltb_lt _ _)) by lia. rewrite list_lookup_fmap.
    rewrite (lookup_seqZ_lt 0 n (Z.to_nat i)) by lia. simpl. do 2 f_equal. lia.
  - rewrite (proj2 (Z.ltb_ge _ _)) by lia. done.
Qed.

Lemma zset_map_seqZ {A} (f g : Z → A) n i x :
  0 ≤ i < n → g i = x → (∀ j, 0 ≤ j < n → j ≠ i → g j = f j) →
  zset i x (map f (seqZ 0 n)) = map g (seqZ 0 n).
Proof.
  intros Hi Hx Hg. unfold zset, in_bounds, zlen. rewrite length_map, length_seqZ.
  rewrite (proj2 (Z.leb_le 0 i)), (proj2 (Z.ltb_lt i _)) by lia. simpl.
  apply list_eq. intros k. destruct (decide (k < Z.to_nat n)%nat) as [Hk|Hk].
  2:{ rewrite !lookup_ge_None_2; [done|rewrite length_map, length_seqZ; lia|
        rewrite length_insert, length_map, length_seqZ; lia]. }
  rewrite list_lookup_fmap, lookup_seqZ_lt by lia. simpl.
  destruct (decide (k = Z.to_nat i)) as [->|Hne].
  - rewrite list_lookup_insert_eq by (rewrite length_map, length_seqZ; lia).
    rewrite <- Hx. do 2 f_equal. lia.
  - rewrite list_lookup_insert_ne by done. rewrite list_lookup_fmap, lookup_seqZ_lt by lia. simpl.
    f_equal. symmetry. apply Hg; lia.
Qed.

(** ** The simulation *)

(** From states that correspond, both end alike, in states that correspond; [Q]
    holds of the answer. *)
Definition mirrors {A} (Q : A → Prop) (c : M InRam A) (m : M Memory A) : Prop :=
  ∀ s l, represents s l →
  match c s, m l with
  | Ret a s', Ret a' l' => a = a' ∧ Q a ∧ represents s' l' ∧ kept_outside s s'
  | Panic msg s', Panic msg' l' => msg = msg' ∧ represents s' l' ∧ kept_outside s s'
  | Hang s', Hang l' => represents s' l' ∧ kept_outside s s'
  | NoFuel, NoFuel => True
  | _, _ => False
  end.
Definition anything {A} (_ : A) : Prop := True.
Definition usize_val (x : Z) : Prop := 0 ≤ x < USIZE_MOD.

Lemma mirrors_ret {A} (Q : A → Prop) a : Q a → mirrors Q (ret a) (ret a).
Proof. intros HQ s l Hs. by split_and!. Qed.
Lemma mirrors_panic {A} (Q : A → Prop) msg : mirrors Q (panic msg) (panic msg).
Proof. intros s l Hs. by split_and!. Qed.
Lemma mirrors_no_fuel {A} (Q : A → Prop) : mirrors Q no_fuel no_fuel.
Proof. by intros s l Hs. Qed.
Lemma mirrors_gets {A} (Q : A → Prop) (f : InRam → A) (g : Memory → A) :
  (∀ s l, represents s l → f s = g l ∧ Q (f s)) → mirrors Q (gets f) (gets g).
Proof. intros Hf s l Hs. destruct (Hf s l Hs) as [Heq HQ]. by split_and!. Qed.
Lemma mirrors_weaken {A} (Q Q' : A → Prop) c m : (∀ a, Q a → Q' a) → mirrors Q c m → mirrors Q' c m.
Proof.
  intros HQ Hm s l Hs. specialize (Hm s l Hs). destruct (c s), (m l); try done. naive_solver.
Qed.

Lemma mirrors_bind {A B} (P : A → Prop) (Q : B → Prop) c m (f : A → M InRam B) (g : A → M Memory B) :
  mirrors P c m → (∀ a, P a → mirrors Q (f a) (g a)) → mirrors Q (bind c f) (bind m g).
Proof.
  intros Hm Hf s l Hs. specialize (Hm s l Hs). unfold bind.
  destruct (c s) as [a s'|msg s'|s'|], (m l) as [a' l'|msg' l'|l'|]; try done.
  destruct Hm as (<- & HP & Hs' & Hk). specialize (Hf a HP s' l' Hs').
  destruct (f a s') as [b s2|msg s2|s2|], (g a l') as [b' l2|msg' l2|l2|]; try done.
  - destruct Hf as (-> & HQ & Hs2 & Hk2). split_and!; [done..|by eapply kept_trans].
  - destruct Hf as (-> & Hs2 & Hk2). split_and!; [done..|by eapply kept_trans].
  - destruct Hf as (Hs2 & Hk2). split; [done|by eapply kept_trans].
Qed.

Section mirrors_arith.
Context `{Profile}.

Lemma mirrors_usize msg x : mirrors usize_val (usize msg x) (usize msg x).
Proof.
  unfold usize. destruct (usize_ok x) eqn:Hx.
  - apply mirrors_ret. unfold usize_ok in Hx. apply andb_true_iff in Hx as [?%Z.leb_le ?%Z.leb_le].
    unfold usize_val. lia.
  - destruct overflow_checks; [apply mirrors_panic|]. apply mirrors_ret.
    unfold usize_val, wrap. apply Z.mod_pos_bound. lia.
Qed.
Lemma mirrors_isize msg x : mirrors anything (isize msg x) (isize msg x).
Proof.
  unfold isize. destruct (isize_ok x); [by apply mirrors_ret|].
  destruct overflow_checks; [apply mirrors_panic|by apply mirrors_ret].
Qed.
Lemma mirrors_expect {A} (o : option A) msg : mirrors anything (expect o msg) (expect o msg).
Proof. destruct o; [by apply mirrors_ret|apply mirrors_panic]. Qed.
Lemma mirrors_udiv a b : mirrors anything (udiv a b) (udiv a b).
Proof. unfold udiv. destruct (b =? 0); [apply mirrors_panic|by apply mirrors_ret]. Qed.
Lemma mirrors_ushl1 e : mirrors anything (ushl1 e) (ushl1 e).
Proof.
  unfold ushl1. destruct (_ && _); [by apply mirrors_ret|].
  destruct overflow_checks; [apply mirrors_panic|by apply mirrors_ret].
Qed.
End mirrors_arith.

(** ** The accesses *)

Lemma mirrors_start : mirrors anything (gets (st_start (St := InRam))) (gets (st_start (St := Memory))).
Proof. apply mirrors_gets. by intros s l [_ ->]. Qed.
Lemma mirrors_size : mirrors anything (gets (st_size (St := InRam))) (gets (st_size (St := Memory))).
Proof. apply mirrors_gets. by intros s l [_ ->]. Qed.
Lemma mirrors_high : mirrors anything (gets (st_high (St := InRam))) (gets (st_high (St := Memory))).
Proof. apply mirrors_gets. by intros s l [_ ->]. Qed.
Lemma mirrors_fuel : mirrors anything (gets (alloc_fuel (St := InRam))) (gets (alloc_fuel (St := Memory))).
Proof.
  apply mirrors_gets. intros s l [_ ->]. split; [|done]. unfold alloc_fuel. simpl.
  unfold slice_bytes. by rewrite !length_map, length_seqZ.
Qed.

Lemma meta_lookup s l i :
  represents s l →
  zget (buddy_meta l) i =
  if (0 <=? i) && (i <? sl_len (buddy_meta (ir_memory s)))
  then BlockState_of_u8 (load8 (ir_ram s) (sl_ptr (buddy_meta (ir_memory s)) + i)) else None.
Proof.
  intros [Hsl ->]. cbn [borrowed buddy_meta]. unfold slice_bytes. rewrite map_map, zget_map_seqZ.
  destruct (Z.leb_spec 0 i), (Z.ltb_spec i (sl_len (buddy_meta (ir_memory s)))); simpl; try done.
  destruct (sl_states _ _ Hsl i ltac:(lia)) as [b Hb]. by rewrite Hb.
Qed.
Lemma stack_lookup s l i :
  represents s l →
  zget (buddy_stack l) i =
  if (0 <=? i) && (i <? sl_len (buddy_stack (ir_memory s)))
  then Some (load32 (ir_ram s) (sl_ptr (buddy_stack (ir_memory s)) + i * 4)) else None.
Proof. intros [Hsl ->]. cbn [borrowed buddy_stack]. unfold slice_words. by rewrite zget_map_seqZ. Qed.

(** A slice depends on its own bytes. *)
Lemma slice_words_ext r r' sl :
  (∀ a, in_slice 4 sl a → load8 r' a = load8 r a) → slice_words r' sl = slice_words r sl.
Proof.
  intros Hr. unfold slice_words. apply map_ext_in. intros i Hi%list_elem_of_In%elem_of_seqZ.
  apply load32_ext. intros a Ha. apply Hr. unfold in_slice. lia.
Qed.
Lemma slice_bytes_ext r r' sl :
  (∀ a, in_slice 1 sl a → load8 r' a = load8 r a) → slice_bytes r' sl = slice_bytes r sl.
Proof.
  intros Hr. unfold slice_bytes. apply map_ext_in. intros i Hi%list_elem_of_In%elem_of_seqZ.
  apply Hr. unfold in_slice. lia.
Qed.

Lemma mirrors_meta_get i : mirrors anything (meta_get i) (meta_get i).
Proof.
  intros s l Hs. cbn [meta_get ram_store list_store]. unfold bind, gets, index, slice_index.
  rewrite (meta_lookup s l i Hs). destruct Hs as [Hsl ->].
  destruct (Z.leb_spec 0 i), (Z.ltb_spec i (sl_len (buddy_meta (ir_memory s)))); simpl; try by split_and!.
  rewrite Z.mul_1_r. destruct (sl_states _ _ Hsl i ltac:(lia)) as [b Hb]. rewrite Hb. by split_and!.
Qed.

Lemma mirrors_stack_get sp : mirrors anything (stack_get sp) (stack_get sp).
Proof.
  intros s l Hs. cbn [stack_get ram_store list_store]. unfold bind, gets, index, slice_index.
  rewrite (stack_lookup s l _ Hs). destruct Hs as [Hsl ->].
  destruct (Z.leb_spec 0 (wrap sp)), (Z.ltb_spec (wrap sp) (sl_len (buddy_stack (ir_memory s)))); simpl; by split_and!.
Qed.

(** Memory after a write to an entry of [buddy_meta]. *)
Lemma represents_meta s l i b :
  represents s l → 0 ≤ i < sl_len (buddy_meta (ir_memory s)) →
  let s' := set_ir_ram (store8 (sl_ptr (buddy_meta (ir_memory s)) + i) (BlockState_as_u8 b) (ir_ram s)) s in
  represents s' (set_buddy_meta (zset i b (buddy_meta l)) l) ∧ kept_outside s s'.
Proof.
  intros [Hsl ->] Hi s'. set (m := ir_memory s) in *. set (a0 := sl_ptr (buddy_meta m) + i) in *.
  assert (in_slice 1 (buddy_meta m) a0) as Hin by (unfold in_slice, a0; lia).
  assert (∀ a, a ≠ a0 → load8 (ir_ram s') a = load8 (ir_ram s) a) as Hne
    by (intros a Ha; by apply load8_store8_ne).
  assert (load8 (ir_ram s') a0 = BlockState_as_u8 b) as Heq by apply load8_store8_eq.
  split; [split|].
  - destruct Hsl as [? ? Hap Hst]. split; try done. intros j Hj. fold m. change (ir_memory s') with m in *.
    destruct (decide (j = i)) as [->|Hji]; [fold a0; rewrite Heq; eexists; apply BlockState_round|].
    rewrite Hne by (unfold a0; lia). by apply Hst.
  - unfold borrowed, set_buddy_meta. simpl. f_equal.
    + symmetry. apply slice_words_ext. intros a Ha. apply Hne. intros ->. by apply (sl_apart _ _ Hsl a0).
    + fold m. change (store8 a0 _ _) with (ir_ram s'). unfold slice_bytes. rewrite !map_map.
      apply zset_map_seqZ; [done|fold a0; by rewrite Heq, BlockState_round|].
      intros j Hj Hji. rewrite Hne by (unfold a0; lia). done.
  - split; [done|]. intros a Ha _. apply Hne. intros ->. done.
Qed.

Lemma represents_stack s l i x :
  represents s l → 0 ≤ i < sl_len (buddy_stack (ir_memory s)) → usize_val x →
  let s' := set_ir_ram (store32 (sl_ptr (buddy_stack (ir_memory s)) + i * 4) x (ir_ram s)) s in
  represents s' (set_buddy_stack (zset i x (buddy_stack l)) l) ∧ kept_outside s s'.
Proof.
  intros [Hsl ->] Hi Hx s'. set (m := ir_memory s) in *. set (a0 := sl_ptr (buddy_stack m) + i * 4) in *.
  assert (∀ a, a0 ≤ a < a0 + 4 → in_slice 4 (buddy_stack m) a) as Hin by (intros a; unfold in_slice, a0; lia).
  assert (∀ a, ¬ in_slice 4 (buddy_stack m) a → load8 (ir_ram s') a = load8 (ir_ram s) a) as Hout.
  { intros a Ha. apply load8_store32_ne. intros Hx'%Hin. done. }
  assert (∀ a, in_slice 1 (buddy_meta m) a → load8 (ir_ram s') a = load8 (ir_ram s) a) as Hmeta.
  { intros a Ha. apply Hout. by apply (sl_apart _ _ Hsl). }
  split; [split|].
  - destruct Hsl as [? ? Hap Hst]. split; try done. intros j Hj. change (ir_memory s') with m in *.
    rewrite Hmeta by (unfold in_slice; lia). by apply Hst.
  - unfold borrowed, set_buddy_stack. simpl. f_equal.
    + apply zset_map_seqZ; [done|by apply load32_store32_eq|].
      intros j Hj Hji. apply load32_store32_ne. unfold a0. lia.
    + f_equal. symmetry. by apply slice_bytes_ext.
  - split; [done|]. intros a _ Ha. by apply Hout.
Qed.

Lemma mirrors_meta_set i b : mirrors anything (meta_set i b) (meta_set i b).
Proof.
  intros s l Hs. cbn [meta_set ram_store list_store]. unfold bind, gets, modify, index, slice_index.
  rewrite (meta_lookup s l i Hs).
  destruct (Z.leb_spec 0 i), (Z.ltb_spec i (sl_len (buddy_meta (ir_memory s)))); simpl; try by split_and!.
  destruct Hs as [Hsl ->]. destruct (sl_states _ _ Hsl i ltac:(lia)) as [b' Hb]. rewrite Hb. simpl. rewrite Z.mul_1_r.
  destruct (represents_meta s (borrowed (ir_ram s) (ir_memory s)) i b ltac:(done) ltac:(lia)) as [Hs' Hk]. by split_and!.
Qed.

Lemma mirrors_stack_set sp x : usize_val x → mirrors anything (stack_set sp x) (stack_set sp x).
Proof.
  intros Hx s l Hs. cbn [stack_set ram_store list_store]. unfold bind, gets, modify, index, slice_index.
  rewrite (stack_lookup s l _ Hs).
  destruct (Z.leb_spec 0 (wrap sp)), (Z.ltb_spec (wrap sp) (sl_len (buddy_stack (ir_memory s)))); simpl; try by split_and!.
  destruct (represents_stack s l (wrap sp) x Hs ltac:(lia) Hx) as [Hs' Hk]. by split_and!.
Qed.

(** ** The methods *)

Create HintDb mirrors discriminated.
#[export] Hint Resolve mirrors_usize mirrors_isize mirrors_expect mirrors_udiv mirrors_ushl1 mirrors_start
  mirrors_size mirrors_high mirrors_fuel mirrors_meta_get mirrors_meta_set mirrors_stack_get : mirrors.

Ltac mirror_step :=
  match goal with
  | |- mirrors _ (bind _ _) _ => eapply mirrors_bind; [|intros ? ?]
  | |- mirrors _ (ret _) _ => by apply mirrors_ret
  | |- mirrors _ (panic _) _ => apply mirrors_panic
  | |- mirrors _ (stack_set _ _) _ => apply mirrors_stack_set
  | |- mirrors _ (if ?b then _ else _) _ => destruct b
  | |- mirrors _ (match ?b with Free => _ | Allocated => _ | Split => _ end) _ => destruct b
  | |- mirrors _ _ _ => solve [eauto with mirrors]
  end.
Ltac mirror := repeat (cbv beta zeta; mirror_step); try done.

Section methods.
Context `{Profile}.

Lemma mirrors_node_addr i level : mirrors anything (node_addr i level) (node_addr i level).
Proof. unfold node_addr, uadd, usub, umul, upow2. mirror. Qed.

Lemma mirrors_push_children sp i : mirrors anything (push_children sp i) (push_children sp i).
Proof. unfold push_children, uadd, umul, iadd. mirror. Qed.

Lemma mirrors_buddy_index i level : mirrors anything (buddy_index i level) (buddy_index i level).
Proof.
  unfold buddy_index, uadd, usub, upow2. mirror. eapply mirrors_weaken; [|apply mirrors_usize]. done.
Qed.
#[local] Hint Resolve mirrors_node_addr mirrors_push_children mirrors_buddy_index : mirrors.

Lemma mirrors_alloc_loop fuel req n sp :
  mirrors anything (alloc_loop fuel req n sp) (alloc_loop fuel req n sp).
Proof.
  revert sp. induction fuel as [|fuel IH]; intros sp; cbn [alloc_loop]; [apply mirrors_no_fuel|].
  unfold isub. mirror.
Qed.

Lemma mirrors_merge_loop fuel level i b :
  mirrors anything (merge_loop fuel level i b) (merge_loop fuel level i b).
Proof.
  revert level i b. induction fuel as [|fuel IH]; intros level i b; cbn [merge_loop]; [apply mirrors_no_fuel|].
  unfold uadd, usub, upow2. mirror.
Qed.
#[local] Hint Resolve mirrors_alloc_loop mirrors_merge_loop : mirrors.

Lemma alloc_mirrors n : mirrors anything (Memory_buddy_alloc n) (Memory_buddy_alloc n).
Proof. unfold Memory_buddy_alloc, usub. mirror. Qed.

Lemma free_mirrors pa : mirrors anything (Memory_buddy_free pa) (Memory_buddy_free pa).
Proof.
  unfold Memory_buddy_free. destruct (PhysAddr_size pa); [|by apply mirrors_ret].
  unfold uadd, usub, upow2. mirror.
Qed.

(** Whatever is asked of both. *)
Lemma heap_mirrors base rs : mirrors anything (heap_run base rs) (heap_run base rs).
Proof.
  induction rs as [|[n|l p] rs IH]; cbn [heap_run]; [by apply mirrors_ret|..];
    (eapply mirrors_bind; [apply alloc_mirrors || apply free_mirrors|intros r _]); [|exact IH].
  eapply mirrors_bind; [exact IH|]. intros os _. by apply mirrors_ret.
Qed.
End methods.
