(* ===== verification/MemInit.v ===== *)
(** * Setting the allocators up: [find_order], [next_power_of_two], the bump
    allocator and [Memory::new]. *)
From S2P Require Import Prelude Ram Addr Slice Order Buddy BuddyTree BuddyRefine BuddyLoops BuddyInv BuddySpec BuddyTrace BuddyRam.

(** C40. [next_power_of_two] answers the least power of two that is not below its
    argument, for every [usize] up to half the range and one (0 gives 1), and
    nothing above that. *)
Theorem next_power_of_two_least n :
  0 ≤ n ≤ USIZE_MAX →
  match next_power_of_two n with
  | Some x => n ≤ ISIZE_HALF ∧ ∃ k : nat, x = pow2 k ∧ n ≤ x ∧ ∀ j : nat, n ≤ pow2 j → x ≤ pow2 j
  | None => ISIZE_HALF < n
  end.
Proof.
  intros Hn. destruct (Z.eq_dec n 0) as [->|Hn0].
  { simpl. split; [done|]. exists 0%nat. split_and!; [done..|]. intros j _.
    pose proof (pow2_pos j). lia. }
  destruct (Z.lt_ge_cases ISIZE_HALF n) as [Hbig|Hsmall].
  - unfold next_power_of_two. rewrite (proj2 (Z.eqb_neq n 0) Hn0).
    by rewrite (proj2 (Z.ltb_lt _ _) Hbig : (USIZE_MAX / 2 + 1 <? n) = true).
  - destruct (next_power_of_two_pow2 n ltac:(lia)) as (k & -> & Hk & _).
    split; [done|]. exists k. split_and!; [done|lia|]. intros j Hj.
    apply pow2_mono. destruct (decide (k ≤ j)%nat); [done|].
    pose proof (pow2_mono (S j) k ltac:(lia)) as Hm. rewrite pow2_S in Hm. lia.
Qed.

(** [find_order] of a node index is the level of the node: the [2^l] nodes of
    level [l] are [2^l - 1 .. 2^(l+1) - 2], and the last [usize] is on level 32. *)
Theorem find_order_level i :
  0 ≤ i ≤ USIZE_MAX →
  0 ≤ find_order i ≤ 32 ∧ 2 ^ find_order i - 1 ≤ i < 2 ^ (find_order i + 1) - 1.
Proof.
  intros Hi. unfold find_order. destruct (Z.eqb_spec i USIZE_MAX) as [->|Hne].
  - split; [lia|]. by split; vm_compute.
  - pose proof (Z.log2_spec (i + 1) ltac:(lia)) as [Hl Hu].
    pose proof (Z.log2_nonneg (i + 1)).
    assert (Z.log2 (i + 1) ≤ 32) by (apply (Z.log2_le_mono _ USIZE_MOD); lia).
    rewrite <- (Z.add_1_r (Z.log2 (i + 1))) in Hu. lia.
Qed.

(** ** [InitialAlloc] *)

Section init.
Context `{Profile}.

Lemma page_alloc_run n ia :
  0 ≤ n → 0 ≤ ia_next ia → ia_next ia + n * PAGE_SIZE ≤ USIZE_MAX →
  InitialAlloc_page_alloc n ia =
  if ia_next ia + n * PAGE_SIZE <=? ia_end ia then
    Ret (PhysAddr_new (ia_next ia) (Some (n * PAGE_SIZE)))
        (set_ia_next (ia_next ia + n * PAGE_SIZE) ia)
  else Panic "OutOfMemory" ia.
Proof.
  intros Hn Hnext Hmax. unfold InitialAlloc_page_alloc, PAGE_SIZE in *.
  run1. run1. run1. run1. destruct (_ <=? _); [|by apply bind_Panic].
  erewrite bind_Ret by (do 2 (erewrite bind_Ret by eauto with exec; cbv beta); reflexivity). done.
Qed.

(** The bump allocator hands out adjacent runs of pages of its region and
    panics rather than leave it: two successive allocations never overlap, and
    both are page aligned when the region is. *)
Theorem page_alloc_adjacent n1 n2 ia a1 ia1 a2 ia2 :
  0 ≤ n1 → 0 ≤ n2 → ia_start ia ≤ ia_next ia → 0 ≤ ia_start ia →
  ia_next ia + (n1 + n2) * PAGE_SIZE ≤ USIZE_MAX →
  InitialAlloc_page_alloc n1 ia = Ret a1 ia1 → InitialAlloc_page_alloc n2 ia1 = Ret a2 ia2 →
  ia_start ia ≤ pa_addr a1 ∧ pa_len a1 = n1 * PAGE_SIZE ∧ pa_len a2 = n2 * PAGE_SIZE ∧
  pa_addr a1 + pa_len a1 = pa_addr a2 ∧ pa_addr a2 + pa_len a2 ≤ ia_end ia ∧
  ((PAGE_SIZE | ia_next ia) → (PAGE_SIZE | pa_addr a1) ∧ (PAGE_SIZE | pa_addr a2)).
Proof.
  intros Hn1 Hn2 Hs H0 Hmax. unfold PAGE_SIZE in *.
  rewrite page_alloc_run by (unfold PAGE_SIZE; lia). unfold PAGE_SIZE.
  destruct (Z.leb_spec (ia_next ia + n1 * 4096) (ia_end ia)); [|done]. intros [= <- <-].
  rewrite page_alloc_run by (unfold PAGE_SIZE; simpl; lia). unfold PAGE_SIZE. simpl.
  destruct (Z.leb_spec (ia_next ia + n1 * 4096 + n2 * 4096) (ia_end ia)); [|done].
  intros [= <- <-]. unfold pa_len. simpl. split_and!; [lia..|].
  intros Hd. split; [done|]. apply Z.divide_add_r; [done|]. by exists n1.
Qed.

Lemma local_page_alloc {S} n ia (s : S) :
  0 ≤ n → 0 ≤ ia_next ia → ia_next ia + n * PAGE_SIZE ≤ ia_end ia → ia_end ia ≤ USIZE_MAX →
  local (InitialAlloc_page_alloc n) ia s =
  Ret (PhysAddr_new (ia_next ia) (Some (n * PAGE_SIZE)),
       set_ia_next (ia_next ia + n * PAGE_SIZE) ia) s.
Proof.
  intros Hn Hnext Hend Hmax. unfold local. rewrite page_alloc_run by lia.
  by rewrite (proj2 (Z.leb_le _ _)) by lia.
Qed.

(** ** [Memory::new] *)

Lemma list_eq_replicate_map {A} (f : Z → A) n x :
  (∀ i, 0 ≤ i < Z.of_nat n → f i = x) → replicate n x = map f (seqZ 0 (Z.of_nat n)).
Proof.
  intros Hf. apply list_eq. intros k. destruct (decide (k < n)%nat) as [Hk|Hk].
  - rewrite lookup_replicate_2, list_lookup_fmap, lookup_seqZ_lt by lia. simpl. f_equal. rewrite Hf by lia. done.
  - rewrite !lookup_ge_None_2; [done|rewrite length_map, length_seqZ; lia|rewrite length_replicate; lia].
Qed.

Lemma repr_fresh N d i :
  0 ≤ i → (i + 2) * pow2 d - 2 < Z.of_nat N → repr (replicate N Free) d i BFree.
Proof.
  revert i. induction d as [|d IH]; intros i Hi HN; simpl.
  - change (pow2 0) with 1 in HN. split; [apply zget_replicate; lia|done].
  - rewrite pow2_S in HN. pose proof (pow2_pos d).
    split_and!; [apply zget_replicate; nia|apply IH; nia..].
Qed.

Lemma div_ceil_bounds a : 0 ≤ a → a ≤ div_ceil a PAGE_SIZE * PAGE_SIZE < a + PAGE_SIZE.
Proof.
  intros Ha. unfold div_ceil, PAGE_SIZE. pose proof (Z.div_mod a 4096 ltac:(lia)).
  pose proof (Z.mod_pos_bound a 4096 ltac:(lia)).
  destruct (Z.ltb_spec 0 (a mod 4096)); lia.
Qed.

(** Number of entries of the metadata array, and the pages the two slices take. *)
Definition node_count (size : Z) : Z := 2 * (size / PAGE_SIZE) - 1.
Definition init_bytes (size : Z) : Z :=
  (div_ceil (node_count size) PAGE_SIZE + div_ceil (node_count size * 4) PAGE_SIZE) * PAGE_SIZE.

Lemma find_order_size D size :
  (D ≤ 19)%nat → pow2 (D + 12) ≤ size < pow2 (D + 13) - 1 → find_order size = Z.of_nat (D + 12).
Proof.
  intros HD Hs. replace size with (pow2 (D + 12) - 1 + (size + 1 - pow2 (D + 12))) by lia.
  apply find_order_node; [lia|].
  replace (D + 13)%nat with (S (D + 12)) in Hs by lia. rewrite pow2_S in Hs. lia.
Qed.

(** The memory after [Memory::new]: [Free] in every metadata entry, zero in the
    rest of the reserved region, nothing changed elsewhere. *)
Definition init_ram (astart aend nodes : Z) (r r' : Ram) : Prop :=
  ∀ a, load8 r' a =
    if decide (astart ≤ a < astart + nodes) then BlockState_as_u8 Free
    else if decide (astart ≤ a < aend) then 0 else load8 r a.

Lemma init_ram_writes astart aend nodes p r :
  0 ≤ nodes → nodes ≤ p → astart + p + 4 * nodes ≤ aend →
  init_ram astart aend nodes r
    (write_bytes (astart + p) 0 (nodes * 4)
      (write_bytes astart (BlockState_as_u8 Free) nodes
        (write_bytes astart 0 (aend - astart) r))).
Proof.
  intros Hn Hp Hend a. rewrite !load8_write_bytes.
  repeat case_decide; try done; lia.
Qed.

Definition fresh_memory (start end_ : Z) (D : nat) : Memory :=
  {| m_start := PhysAddr_new start None;
     m_end := PhysAddr_new end_ None;
     mem_size := end_ - start;
     buddy_node_count := node_count (end_ - start);
     buddy_high_order := Z.of_nat (D + 12);
     buddy_low_order := 12;
     buddy_stack_size := node_count (end_ - start) * 4;
     buddy_stack := replicate (S D) 0;
     buddy_meta := replicate (Z.to_nat (node_count (end_ - start))) Free |}.

(** The same with its slices as pointers into the reserved region. *)
Definition fresh_at (start end_ astart : Z) (D : nat) : MemoryAt :=
  {| m_start := PhysAddr_new start None;
     m_end := PhysAddr_new end_ None;
     mem_size := end_ - start;
     buddy_node_count := node_count (end_ - start);
     buddy_high_order := Z.of_nat (D + 12);
     buddy_low_order := 12;
     buddy_stack_size := node_count (end_ - start) * 4;
     buddy_stack := mkSlice (astart + div_ceil (node_count (end_ - start)) PAGE_SIZE * PAGE_SIZE) (Z.of_nat (S D));
     buddy_meta := mkSlice astart (node_count (end_ - start)) |}.

(** The conditions [Memory::new] needs of its four addresses. *)
Record regions_ok (start end_ astart aend : Z) (D : nat) : Prop := {
  reg_depth : (D ≤ 19)%nat;
  reg_start : 0 ≤ start;
  reg_end : end_ ≤ USIZE_MAX;
  reg_size : pow2 (D + 12) ≤ end_ - start < pow2 (D + 13) - 1;
  reg_astart : 0 ≤ astart;
  reg_aend : aend ≤ USIZE_MAX;
  reg_fits : init_bytes (end_ - start) ≤ aend - astart;
}.

Lemma node_count_pos size D : pow2 (D + 12) ≤ size → 2 * pow2 D - 1 ≤ node_count size.
Proof.
  intros Hs. unfold node_count, PAGE_SIZE. rewrite pow2_add in Hs. change (pow2 12) with 4096 in Hs.
  assert (pow2 D ≤ size / 4096) by (apply Z.div_le_lower_bound; lia). lia.
Qed.

Lemma fresh_inv start end_ astart aend D :
  regions_ok start end_ astart aend D → mem_inv (fresh_memory start end_ D) D BFree.
Proof.
  intros []. pose proof (node_count_pos _ _ (proj1 reg_size0)). pose proof (pow2_pos D).
  split; try done; unfold fresh_memory, ram_start; simpl; try lia.
  - unfold zlen. rewrite length_replicate. lia.
  - unfold zlen. simpl. rewrite length_replicate. lia.
  - apply repr_fresh; [lia|]. rewrite Z2Nat.id by lia. lia.
Qed.

Lemma pow2_above D : Z.of_nat D + 1 ≤ pow2 D.
Proof. induction D as [|D IH]; [done|]. rewrite pow2_S. lia. Qed.

(** The slices lie in the reserved region, the stack above the metadata. *)
Lemma fresh_layout start end_ astart aend D :
  regions_ok start end_ astart aend D →
  let m := fresh_at start end_ astart D in
  astart = sl_ptr (buddy_meta m) ∧ 0 < sl_len (buddy_meta m) ∧
  sl_ptr (buddy_meta m) + sl_len (buddy_meta m) ≤ sl_ptr (buddy_stack m) ∧
  sl_ptr (buddy_stack m) + sl_len (buddy_stack m) * 4 ≤ aend.
Proof.
  intros [] m. pose proof (node_count_pos _ _ (proj1 reg_size0)) as Hn. pose proof (pow2_above D) as HD.
  unfold init_bytes in reg_fits0. cbn [m fresh_at buddy_meta buddy_stack sl_ptr sl_len].
  set (nodes := node_count (end_ - start)) in *.
  pose proof (div_ceil_bounds nodes ltac:(lia)). pose proof (div_ceil_bounds (nodes * 4) ltac:(lia)). lia.
Qed.

(** What the slices hold: [Free] in every node, zero in the stack. *)
Lemma fresh_represents start end_ astart aend D r r' :
  regions_ok start end_ astart aend D → init_ram astart aend (node_count (end_ - start)) r r' →
  represents (mkInRam (fresh_at start end_ astart D) r') (fresh_memory start end_ D).
Proof.
  intros Hok Hr. destruct (fresh_layout _ _ _ _ _ Hok) as (_ & Hn & Hap & Hend).
  cbn [fresh_at buddy_meta buddy_stack sl_ptr sl_len] in Hn, Hap, Hend.
  set (nodes := node_count (end_ - start)) in *. set (p := astart + div_ceil nodes PAGE_SIZE * PAGE_SIZE) in *.
  assert (∀ i, 0 ≤ i < nodes → load8 r' (astart + i) = 1) as Hmeta.
  { intros i Hi. rewrite Hr, decide_True by lia. done. }
  assert (∀ a, p ≤ a < p + Z.of_nat (S D) * 4 → load8 r' a = 0) as Hstk.
  { intros a Ha. rewrite Hr, decide_False, decide_True by lia. done. }
  split; [split; cbn [fresh_at ir_memory ir_ram buddy_meta buddy_stack sl_ptr sl_len]; fold nodes p|].
  - lia.
  - lia.
  - unfold in_slice. simpl. lia.
  - intros i Hi. exists Free. by rewrite Hmeta.
  - unfold fresh_memory, borrowed. cbn [fresh_at ir_memory ir_ram m_start m_end mem_size buddy_node_count
      buddy_high_order buddy_low_order buddy_stack_size buddy_meta buddy_stack]. fold nodes p. f_equal.
    + unfold slice_words. cbn [sl_ptr sl_len]. apply list_eq_replicate_map. intros i Hi.
      unfold load32. rewrite !Hstk by lia. done.
    + unfold slice_bytes. rewrite map_map. cbn [sl_ptr sl_len].
      rewrite <- (Z2Nat.id nodes) at 2 by lia. apply list_eq_replicate_map. intros i Hi. by rewrite Hmeta by lia.
Qed.

Lemma Memory_new_run start end_ astart aend D r :
  regions_ok start end_ astart aend D →
  ∃ r', Memory_new (Some start) (Some end_) (Some astart) (Some aend) r =
    Ret (fresh_at start end_ astart D) r' ∧ init_ram astart aend (node_count (end_ - start)) r r'.
Proof.
  intros []. set (size := end_ - start) in *. set (nodes := node_count size).
  pose proof (node_count_pos _ _ (proj1 reg_size0)) as Hnodes. fold nodes in Hnodes.
  pose proof (pow2_pos D) as HD. assert (0 ≤ nodes) as Hn0 by lia.
  pose proof (div_ceil_bounds nodes Hn0) as Hc1. pose proof (div_ceil_bounds (nodes * 4) ltac:(lia)) as Hc2.
  unfold init_bytes in reg_fits0. fold nodes in reg_fits0.
  set (p1 := div_ceil nodes PAGE_SIZE) in *. set (p2 := div_ceil (nodes * 4) PAGE_SIZE) in *.
  assert (size / PAGE_SIZE * 4096 ≤ size) as Hdiv.
  { unfold PAGE_SIZE. pose proof (Z.mul_div_le size 4096 ltac:(lia)). lia. }
  assert (nodes = 2 * (size / PAGE_SIZE) - 1) as Hnd by done.
  unfold PAGE_SIZE in Hc1, Hc2, reg_fits0.
  eexists. split; [|apply (init_ram_writes astart aend nodes (p1 * 4096)); lia].
  unfold Memory_new, InitialAlloc_new. run1. run1.
  rewrite (bind_Ret _ _ _ {| ia_start := astart; ia_end := aend; ia_next := astart |}
    (write_bytes astart 0 (aend - astart) r)) by (unfold wrap; rewrite Z.mod_small by lia; done).
  run1. run1. run1. fold size. run1. run1. rewrite <- Hnd. run1. rewrite Z.mul_1_r. fold p1.
  erewrite bind_Ret by (apply local_page_alloc; simpl; unfold PAGE_SIZE; lia).
  cbv beta. cbn [fst snd PhysAddr_as_usize PhysAddr_new pa_addr set_ia_next ia_next ia_end ia_start].
  rewrite (find_order_size D) by done. change (find_order PAGE_SIZE) with 12.
  run1. run1. run1. run1. fold p2.
  erewrite bind_Ret by (apply local_page_alloc; simpl; unfold PAGE_SIZE; lia).
  cbv beta. cbn [fst snd PhysAddr_as_usize PhysAddr_new pa_addr set_ia_next ia_next ia_end ia_start].
  run1. unfold ret. f_equal. unfold fresh_at, PhysAddr_as_mut_slice_leak. fold size nodes. f_equal.
  f_equal. lia.
Qed.

(** C39. [Memory::new] on regions that fit: the two slices lie in the reserved region
    without overlapping and hold a well-formed heap of the largest power of two pages
    below the size of the RAM, with no live block; no byte outside the reserved region
    was written. *)
Theorem Memory_new_ok start end_ astart aend D r :
  regions_ok start end_ astart aend D →
  ∃ at_ r', Memory_new (Some start) (Some end_) (Some astart) (Some aend) r = Ret at_ r' ∧
    let m := borrowed r' at_ in
    represents (mkInRam at_ r') m ∧ heap_ok m ∧ (∀ b, ¬ live_block m b) ∧
    ram_start m = start ∧ capacity m = pow2 (D + 12) ∧ mem_size m = end_ - start ∧
    (∀ a, in_slice 1 (buddy_meta at_) a ∨ in_slice 4 (buddy_stack at_) a → astart ≤ a < aend) ∧
    init_ram astart aend (buddy_node_count m) r r'.
Proof.
  intros Hok. pose proof (fresh_inv _ _ _ _ _ Hok) as Hm.
  destruct (Memory_new_run _ _ _ _ _ r Hok) as (r' & Hrun & Hr').
  pose proof (fresh_represents _ _ _ _ _ _ _ Hok Hr') as Hrep. pose proof Hrep as [_ Heq].
  destruct (fresh_layout _ _ _ _ _ Hok) as (? & ? & ? & ?).
  exists (fresh_at start end_ astart D), r'. cbv zeta. cbn [ir_ram ir_memory] in Heq. rewrite <- Heq.
  split_and!; try done.
  - by eapply heap_ok_inv.
  - intros b (l & p & Hl & _)%(live_block_tree _ _ _ _ Hm). by destruct l.
  - unfold capacity. by rewrite (inv_depth_eq _ _ _ Hm).
  - unfold in_slice. cbn [fresh_at buddy_meta buddy_stack sl_ptr sl_len] in *. lia.
Qed.

(** C6. The allocator in memory, from [Memory::new] on.  On regions that fit, the code
    lays its two slices out in the reserved region, and then serves any sequence of
    requests that has a meaning for the tree, every access to a slice bounds-checked and
    made at its address: each request is answered with the very block, by address and
    length, that the tree of a wholly free heap answers.  Afterwards the bytes of the slices
    represent the tree afterwards, and no byte outside the reserved region was
    written. *)
Theorem buddy_in_ram start end_ astart aend D r rs os t :
  regions_ok start end_ astart aend D → tree_run D rs BFree = Some (os, t) →
  ∃ at_ r1 s, Memory_new (Some start) (Some end_) (Some astart) (Some aend) r = Ret at_ r1 ∧
    heap_run (fresh_memory start end_ D) rs (mkInRam at_ r1) =
      Ret (map (λ o, match o with
                     | Some (l, q) =>
                       Ok (PhysAddr_new (start + q * pow2 (D + 12 - l)) (Some (pow2 (D + 12 - l))))
                     | None => Err OutOfMemory
                     end) os) s ∧
    ir_memory s = at_ ∧ slices_sound at_ (ir_ram s) ∧ mem_inv (borrowed (ir_ram s) at_) D t ∧
    ∀ a, ¬ (astart ≤ a < aend) → load8 (ir_ram s) a = load8 r a.
Proof.
  intros Hok Ht. pose proof (fresh_inv _ _ _ _ _ Hok) as Hm. set (l := fresh_memory start end_ D) in *.
  destruct (Memory_new_run _ _ _ _ _ r Hok) as (r1 & Hrun & Hr1).
  pose proof (fresh_represents _ _ _ _ _ _ _ Hok Hr1) as Hrep. fold l in Hrep.
  pose proof (inv_depth_eq _ _ _ Hm) as Hd.
  destruct (run_simulates l rs l BFree os t) as (l' & Hl & Hm' & _); [|by rewrite Hd..|].
  { exists (buddy_stack l), (buddy_meta l). symmetry. apply upd_self. }
  pose proof (heap_mirrors l rs _ _ Hrep) as Hs. rewrite Hl in Hs.
  destruct (heap_run l rs (mkInRam (fresh_at start end_ astart D) r1)) as [os' s| | |] eqn:Hrun'; try done.
  destruct Hs as (-> & _ & [Hsl Heq] & Hmem & Hout). cbn [ir_memory ir_ram] in Hmem, Hout.
  exists (fresh_at start end_ astart D), r1, s. rewrite Hmem in Hsl, Heq. split_and!; try done.
  - rewrite Hrun'. f_equal. apply map_ext. intros [[k q]|]; [|done]. unfold heap_answer. by rewrite Hd.
  - rewrite <- Heq. by rewrite <- Hd.
  - intros a Ha. destruct (fresh_layout _ _ _ _ _ Hok) as (Ha0 & ? & ? & ?).
    cbn [fresh_at buddy_meta buddy_stack sl_ptr sl_len] in *. rewrite Hout.
    + rewrite Hr1. rewrite !decide_False; [done|lia|]. intros Hx. apply Ha. lia.
    + unfold in_slice. cbn [fresh_at buddy_meta buddy_stack sl_ptr sl_len]. lia.
    + unfold in_slice. cbn [fresh_at buddy_meta buddy_stack sl_ptr sl_len]. lia.
Qed.

(** [Memory::new] panics when an address is missing, before it writes
    anything when it is one of the reserved region's. *)
Theorem Memory_new_panics start end_ astart aend r :
  (∃ msg, Memory_new start end_ None aend r = Panic msg r) ∧
  (∃ msg, Memory_new start end_ astart None r = Panic msg r) ∧
  (∃ msg r', Memory_new None end_ astart aend r = Panic msg r') ∧
  (∃ msg r', Memory_new start None astart aend r = Panic msg r').
Proof.
  unfold Memory_new, bind, expect, ret, panic. split_and!.
  - by eexists.
  - destruct astart; by eexists.
  - destruct astart, aend; by eexists _, _.
  - destruct astart, aend, start; by eexists _, _.
Qed.
End init.
