(* ===== verification/Sync.v ===== *)
(** * The synchronisation primitives of src/rust/src/sync.rs.

    [Module Spin] and [Module Init] are the interleaving semantics of [Mutex] and
    of [Once]/[OnceCell]: any number of harts, each at a program point of the
    method it runs, one shared access per step, accesses in one total order
    (SyncWeak.v shows that the orderings of the code give nothing else).  The
    transition functions are executable and every state is reached by a trace.

    [Section hart] is the same code for the single hart the kernel keeps running,
    where a loop that waits for another hart is a [hang]. *)
From S2P Require Import Prelude.

Inductive OnceState : Type := Incomplete | InProgress | Completed.
#[export] Instance OnceState_eq_dec : EqDecision OnceState.
Proof. solve_decision. Defined.

Inductive MutexState : Type := MFree | MLocked.
#[export] Instance MutexState_eq_dec : EqDecision MutexState.
Proof. solve_decision. Defined.

(** [AtomicU8::compare_exchange]: the new contents and whether it succeeded. *)
Definition compare_exchange {A} `{EqDecision A} (x current new : A) : A * bool :=
  if decide (x = current) then (new, true) else (x, false).

(** [Once] is its state. *)
Definition Once : Type := OnceState.
Definition Once_new : Once := Incomplete.

(** The data of [Mutex] and [OnceCell]. *)
Record Mutex (T : Type) : Type := mkMutex { mx_lock : MutexState; mx_data : T }.
Arguments mkMutex {T} _ _.
Arguments mx_lock {T} _.
Arguments mx_data {T} _.
Record OnceCell (T : Type) : Type := mkOnceCell { oc_once : Once; oc_value : option T }.
Arguments mkOnceCell {T} _ _.
Arguments oc_once {T} _.
Arguments oc_value {T} _.

Definition Mutex_new {T} (data : T) : Mutex T := mkMutex MFree data.
Definition OnceCell_new {T} : OnceCell T := mkOnceCell Once_new None.

(** Runs of a transition function from a state. *)
Section traces.
Context {S L : Type} (step : L → S → option S).

Fixpoint run_trace (tr : list L) (s : S) : option S :=
  match tr with
  | [] => Some s
  | l :: tr => match step l s with Some s' => run_trace tr s' | None => None end
  end.

Lemma run_trace_app tr tr' s :
  run_trace (tr ++ tr') s =
  match run_trace tr s with Some s' => run_trace tr' s' | None => None end.
Proof. revert s. induction tr as [|x tr IH]; intros s; simpl; [done|]. destruct (step x s); [apply IH|done]. Qed.
Lemma run_trace_snoc tr l s :
  run_trace (tr ++ [l]) s =
  match run_trace tr s with Some s' => step l s' | None => None end.
Proof. rewrite run_trace_app. destruct (run_trace tr s) as [s'|]; [simpl; by destruct (step l s')|done]. Qed.

(** Rule induction over runs: what holds at the start and is kept by every step
    holds of every reachable state, the trace included. *)
Lemma run_trace_ind (P : list L → S → Prop) s0 :
  P [] s0 →
  (∀ tr l s s', P tr s → run_trace tr s0 = Some s → step l s = Some s' → P (tr ++ [l]) s') →
  ∀ tr s, run_trace tr s0 = Some s → P tr s.
Proof.
  intros H0 Hstep tr. induction tr as [|l tr IH] using rev_ind; intros s Hrun.
  - by injection Hrun as <-.
  - rewrite run_trace_snoc in Hrun. destruct (run_trace tr s0) as [s1|] eqn:Hr; [|done].
    by eapply Hstep; [apply IH| |].
Qed.
End traces.

Module Spin.
Section spin.
Context {T : Type}.

(** Where a hart is: not in the mutex, in the loop of [lock], holding a guard,
    or holding it after having read the data through [deref]. *)
Inductive point : Type := Idle | Spinning | Holding | Reading (v : T).

Record state : Type := mkState { shared : Mutex T; harts : gmap nat point }.

Definition at_ (s : state) (i : nat) : point := default Idle (harts s !! i).
Definition move (i : nat) (p : point) (mx : Mutex T) (s : state) : state :=
  {| shared := mx; harts := <[i := p]> (harts s) |}.

(** A hart enters [lock], tries the compare-exchange once, reads or overwrites
    the data through its guard, or drops the guard. *)
Inductive action : Type :=
  | Lock | Cas | Deref | DerefMut (f : T → T) | DropGuard.

Definition step (l : nat * action) (s : state) : option state :=
  let '(i, a) := l in
  let mx := shared s in
  match a, at_ s i with
  | Lock, Idle => Some (move i Spinning mx s)
  | Cas, Spinning =>
    let '(x, ok) := compare_exchange (mx_lock mx) MFree MLocked in
    Some (move i (if ok then Holding else Spinning) (mkMutex x (mx_data mx)) s)
  | Deref, Holding => Some (move i (Reading (mx_data mx)) mx s)
  | DerefMut f, Reading v => Some (move i Holding (mkMutex (mx_lock mx) (f v)) s)
  | DropGuard, (Holding | Reading _) => Some (move i Idle (mkMutex MFree (mx_data mx)) s)
  | _, _ => None
  end.

Definition holds (p : point) : Prop := match p with Holding | Reading _ => True | _ => False end.

Definition init (d : T) : state := {| shared := Mutex_new d; harts := ∅ |}.

(** The updates of a trace, in order. *)
Definition updates (tr : list (nat * action)) : list (T → T) :=
  omap (λ l, match l.2 with DerefMut f => Some f | _ => None end) tr.
Definition apply_all (fs : list (T → T)) (d : T) : T := foldl (λ d f, f d) d fs.

(** The invariant names the hart that owns the lock, if any. *)
Record inv (d : T) (tr : list (nat * action)) (s : state) (o : option nat) : Prop := {
  inv_lock : mx_lock (shared s) = if o is Some _ then MLocked else MFree;
  inv_owner : ∀ i, holds (at_ s i) ↔ o = Some i;
  inv_read : ∀ i v, at_ s i = Reading v → v = mx_data (shared s);
  inv_data : mx_data (shared s) = apply_all (updates tr) d;
}.

Lemma spin_at_move i p mx s j : at_ (move i p mx s) j = if decide (i = j) then p else at_ s j.
Proof.
  unfold at_, move. simpl. case_decide as Hij; [subst; by rewrite lookup_insert_eq|].
  by rewrite lookup_insert_ne.
Qed.

Lemma updates_snoc tr l :
  updates (tr ++ [l]) = updates tr ++ match l.2 with DerefMut f => [f] | _ => [] end.
Proof. unfold updates. rewrite omap_app. f_equal. simpl. by destruct l.2. Qed.
Lemma apply_snoc fs f d : apply_all (fs ++ [f]) d = f (apply_all fs d).
Proof. unfold apply_all. by rewrite foldl_app. Qed.

(** One hart moves: the owner becomes [o'], the data become those of [mx]. *)
Lemma inv_move d tr s o i p mx l o' :
  inv d tr s o →
  mx_lock mx = (if o' is Some _ then MLocked else MFree) →
  (holds p ↔ o' = Some i) → (∀ j, j ≠ i → o' = Some j ↔ o = Some j) →
  (∀ v, p = Reading v → v = mx_data mx) →
  (mx_data mx = mx_data (shared s) ∨ o = Some i) →
  mx_data mx = apply_all (updates (tr ++ [l])) d →
  inv d (tr ++ [l]) (move i p mx s) o'.
Proof.
  intros [Hlock Hown Hread Hdata] Hmx Hp Ho Hv Hd Hdata'. split; [done|..|done].
  - intros j. rewrite spin_at_move. case_decide as Hij; [by subst|].
    rewrite Ho by done. apply Hown.
  - intros j v. rewrite spin_at_move. case_decide as Hij; [apply Hv|].
    intros Hj. simpl. destruct Hd as [->|Hd]; [by apply (Hread j)|].
    assert (o = Some j) by (apply Hown; by rewrite Hj). congruence.
Qed.

Ltac owner Hsame := eapply inv_move; try done; simpl;
  try (by left); try (right; tauto); try naive_solver; try (by rewrite Hsame).

Lemma spin_inv_step d tr l s s' o :
  inv d tr s o → step l s = Some s' → ∃ o', inv d (tr ++ [l]) s' o'.
Proof.
  intros Hinv Hstep. pose proof Hinv as [Hlock Hown Hread Hdata].
  destruct l as [i a]. unfold step in Hstep. specialize (Hown i).
  assert (∀ a' : action, match a' with DerefMut _ => False | _ => True end →
    apply_all (updates (tr ++ [(i, a')])) d = mx_data (shared s)) as Hsame.
  { intros a' Ha. rewrite updates_snoc. destruct a'; try done; by rewrite app_nil_r. }
  destruct a, (at_ s i) as [| | |v] eqn:Hi; try done; simpl in Hown.
  - injection Hstep as <-. exists o. owner Hsame.
  - unfold compare_exchange in Hstep.
    destruct (decide (mx_lock (shared s) = MFree)) as [Hf|Hf]; injection Hstep as <-.
    + destruct o as [k|]; [congruence|]. exists (Some i). owner Hsame.
    + exists o. owner Hsame.
  - injection Hstep as <-. exists o. owner Hsame.
  - injection Hstep as <-. exists o. owner Hsame.
    rewrite updates_snoc. simpl. rewrite apply_snoc, <- Hdata. f_equal. by apply (Hread i).
  - injection Hstep as <-. exists None. owner Hsame.
  - injection Hstep as <-. exists None. owner Hsame.
Qed.

Lemma spin_inv_run d tr s : run_trace step tr (init d) = Some s → ∃ o, inv d tr s o.
Proof.
  apply (run_trace_ind step (λ tr s, ∃ o, inv d tr s o)).
  - exists None. split; try done.
  - intros tr' l s1 s2 [o Hinv] _ Hstep. by eapply spin_inv_step.
Qed.
End spin.
End Spin.

(** C17. Mutual exclusion: in no interleaving do two harts hold a guard of the same
    mutex, and the lock byte is [Locked] exactly while one does. *)
Theorem mutex_exclusive {T} (d : T) tr s :
  run_trace Spin.step tr (Spin.init d) = Some s →
  (∀ i j, Spin.holds (Spin.at_ s i) → Spin.holds (Spin.at_ s j) → i = j) ∧
  (mx_lock (Spin.shared s) = MLocked ↔ ∃ i, Spin.holds (Spin.at_ s i)).
Proof.
  intros [o [Hlock Hown _ _]]%Spin.spin_inv_run. split.
  - intros i j Hi%Hown Hj%Hown. congruence.
  - rewrite Hlock. setoid_rewrite Hown. destruct o as [i|]; [|naive_solver]. split; eauto.
Qed.

(** C18. No update is lost: the protected data are the initial data with the
    read-modify-write sections of all harts applied one after the other, in the
    order of their writes. *)
Theorem mutex_updates_atomic {T} (d : T) tr s :
  run_trace Spin.step tr (Spin.init d) = Some s →
  mx_data (Spin.shared s) = Spin.apply_all (Spin.updates tr) d.
Proof. by intros [o []]%Spin.spin_inv_run. Qed.

(** C19. No deadlock on one mutex: a hart in the loop of [lock] gets the lock with
    its next compare-exchange, or another hart holds the guard and can drop it,
    after which the lock is free. *)
Theorem mutex_progress {T} (d : T) tr s i :
  run_trace Spin.step tr (Spin.init d) = Some s → Spin.at_ s i = Spin.Spinning →
  (∃ s', Spin.step (i, Spin.Cas) s = Some s' ∧ Spin.holds (Spin.at_ s' i)) ∨
  (∃ j s', j ≠ i ∧ Spin.holds (Spin.at_ s j) ∧
     Spin.step (j, Spin.DropGuard) s = Some s' ∧ mx_lock (Spin.shared s') = MFree).
Proof.
  intros [o [Hlock Hown _ _]]%Spin.spin_inv_run Hi. destruct o as [j|].
  - right. exists j. pose proof (proj2 (Hown j) eq_refl) as Hj. unfold Spin.step.
    destruct (Spin.at_ s j) eqn:Hp; try done;
      (eexists; split_and!; [by intros ->; congruence|done..]).
  - left. unfold Spin.step. rewrite Hi. unfold compare_exchange.
    rewrite decide_True by done. eexists. split; [done|].
    by rewrite Spin.spin_at_move, decide_True.
Qed.

Module Init.
Section init.
Context {T : Type}.

(** Where a hart is in [get_or_init]: the first [is_complete], the
    compare-exchange, the closure, the final store, the waiting loop, the
    [unwrap] of the value; [Panicked] is a hart stopped by its closure, and
    [Crashed] one whose [unwrap] met [None]. *)
Inductive point : Type :=
  | Idle | Check | Exchange | Running | Storing | Waiting | Unwrapping
  | Returned (v : T) | Panicked | Crashed.

Record state : Type := mkState { shared : OnceCell T; harts : gmap nat point }.

Definition at_ (s : state) (i : nat) : point := default Idle (harts s !! i).
Definition move (i : nat) (p : point) (oc : OnceCell T) (s : state) : state :=
  {| shared := oc; harts := <[i := p]> (harts s) |}.

(** A call, one shared access of a call, or the closure of the call: it
    answers a value or panics. *)
Inductive action : Type := Call | Go | Closure (v : T) | ClosurePanic.

Definition step (l : nat * action) (s : state) : option state :=
  let '(i, a) := l in
  let oc := shared s in
  match a, at_ s i with
  | Call, (Idle | Returned _) => Some (move i Check oc s)
  | Go, Check =>
    Some (move i (if decide (oc_once oc = Completed) then Unwrapping else Exchange) oc s)
  | Go, Exchange =>
    let '(x, ok) := compare_exchange (oc_once oc) Incomplete InProgress in
    Some (move i (if ok then Running else Waiting) (mkOnceCell x (oc_value oc)) s)
  | Closure v, Running => Some (move i Storing (mkOnceCell (oc_once oc) (Some v)) s)
  | ClosurePanic, Running => Some (move i Panicked oc s)
  | Go, Storing => Some (move i Unwrapping (mkOnceCell Completed (oc_value oc)) s)
  | Go, Waiting =>
    Some (move i (if decide (oc_once oc = Completed) then Unwrapping else Waiting) oc s)
  | Go, Unwrapping =>
    Some (move i (match oc_value oc with Some v => Returned v | None => Crashed end) oc s)
  | _, _ => None
  end.

Definition init : state := {| shared := OnceCell_new; harts := ∅ |}.

(** The closures that ran to an end in a trace. *)
Definition closures (tr : list (nat * action)) : list (option T) :=
  omap (λ l, match l.2 with Closure v => Some (Some v) | ClosurePanic => Some None | _ => None end) tr.

(** What each state of the cell allows: [w] is the hart that won the exchange. *)
Definition allowed (st : OnceState) (val : option T) (w : option nat) (i : nat) (p : point) : Prop :=
  match p with
  | Idle | Check | Exchange => True
  | Waiting => st ≠ Incomplete
  | Running => st = InProgress ∧ w = Some i ∧ val = None
  | Storing => st = InProgress ∧ w = Some i ∧ val ≠ None
  | Panicked => st = InProgress ∧ w = Some i ∧ val = None
  | Unwrapping => st = Completed
  | Returned v => st = Completed ∧ val = Some v
  | Crashed => False
  end.

Record inv (tr : list (nat * action)) (s : state) (w : option nat) : Prop := {
  inv_point : ∀ i, allowed (oc_once (shared s)) (oc_value (shared s)) w i (at_ s i);
  inv_start : oc_once (shared s) = Incomplete → oc_value (shared s) = None ∧ closures tr = [];
  inv_done : oc_once (shared s) = Completed →
    ∃ v, oc_value (shared s) = Some v ∧ closures tr = [Some v];
  inv_busy : oc_once (shared s) = InProgress →
    ∃ i, w = Some i ∧
      match at_ s i with
      | Running => closures tr = []
      | Storing => ∃ v, oc_value (shared s) = Some v ∧ closures tr = [Some v]
      | Panicked => closures tr = [None]
      | _ => False
      end;
}.

Lemma once_at_move i p oc s j : at_ (move i p oc s) j = if decide (i = j) then p else at_ s j.
Proof.
  unfold at_, move. simpl. case_decide as Hij; [subst; by rewrite lookup_insert_eq|].
  by rewrite lookup_insert_ne.
Qed.

Lemma closures_snoc tr l :
  closures (tr ++ [l]) =
  closures tr ++ match l.2 with Closure v => [Some v] | ClosurePanic => [None] | _ => [] end.
Proof. unfold closures. rewrite omap_app. f_equal. simpl. by destruct l.2. Qed.

(** A step that leaves the cell alone and is not the winner's. *)
Lemma inv_quiet tr s w i p a :
  inv tr s w → allowed (oc_once (shared s)) (oc_value (shared s)) w i p →
  closures (tr ++ [(i, a)]) = closures tr →
  match at_ s i with Running | Storing | Panicked => False | _ => True end →
  inv (tr ++ [(i, a)]) (move i p (shared s) s) w.
Proof.
  intros [Hp Hs Hd Hr] Hpi Hc Hi. split; rewrite ?Hc; simpl; try done.
  - intros j. rewrite once_at_move. case_decide; [by subst|apply Hp].
  - intros Hin. destruct (Hr Hin) as (k & -> & Hk). exists k. split; [done|].
    rewrite once_at_move. case_decide; [subst; by destruct (at_ s k)|done].
Qed.

(** The exchange that wins. *)
Lemma inv_win tr s w i :
  inv tr s w → oc_once (shared s) = Incomplete →
  inv (tr ++ [(i, Go)]) (move i Running (mkOnceCell InProgress (oc_value (shared s))) s) (Some i).
Proof.
  intros [Hp Hs _ _] Hinc. destruct (Hs Hinc) as [Hv Hc].
  split; simpl; rewrite ?closures_snoc, ?app_nil_r; try done.
  - intros j. rewrite once_at_move. case_decide; [by subst|].
    pose proof (Hp j) as Hj. rewrite Hinc in Hj. destruct (at_ s j); simpl in *; intuition congruence.
  - intros _. exists i. split; [done|]. by rewrite once_at_move, decide_True.
Qed.

Lemma once_inv_step tr l s s' w : inv tr s w → step l s = Some s' → ∃ w', inv (tr ++ [l]) s' w'.
Proof.
  intros Hinv Hstep. pose proof Hinv as [Hp Hs Hd Hr].
  destruct l as [i a]. unfold step in Hstep. pose proof (Hp i) as Hpi.
  destruct a, (at_ s i) as [| | | | | | |v0| |] eqn:Hi; try done; simpl in Hpi.
  - injection Hstep as <-. exists w. apply inv_quiet; try done; [|by rewrite Hi].
    by rewrite closures_snoc, app_nil_r.
  - injection Hstep as <-. exists w. apply inv_quiet; try done; [|by rewrite Hi].
    by rewrite closures_snoc, app_nil_r.
  - injection Hstep as <-. exists w. apply inv_quiet; try done; [|..|by rewrite Hi].
    + by case_decide.
    + by rewrite closures_snoc, app_nil_r.
  - unfold compare_exchange in Hstep. destruct (decide (oc_once (shared s) = Incomplete)) as [Hinc|Hinc];
      injection Hstep as <-.
    + exists (Some i). by apply (inv_win tr s w).
    + exists w. replace (mkOnceCell _ _) with (shared s) by (by destruct (shared s)).
      apply inv_quiet; try done; [|by rewrite Hi]. by rewrite closures_snoc, app_nil_r.
  - (* the final store *)
    injection Hstep as <-. destruct Hpi as (Hst & -> & Hv).
    destruct (Hr Hst) as (k & [= <-] & Hk). rewrite Hi in Hk. destruct Hk as (v & Hval & Hc).
    exists (Some i). split; simpl; rewrite ?closures_snoc, ?app_nil_r; try done; [|eauto].
    intros j. rewrite once_at_move. case_decide; [done|].
    pose proof (Hp j) as Hj. rewrite Hst in Hj. destruct (at_ s j); simpl in *; intuition congruence.
  - injection Hstep as <-. exists w. apply inv_quiet; try done; [|..|by rewrite Hi].
    + by case_decide.
    + by rewrite closures_snoc, app_nil_r.
  - injection Hstep as <-. exists w. apply inv_quiet; try done; [|..|by rewrite Hi].
    + destruct (Hd Hpi) as (v & -> & _). done.
    + by rewrite closures_snoc, app_nil_r.
  - (* the closure answers *)
    injection Hstep as <-. destruct Hpi as (Hst & -> & Hv).
    destruct (Hr Hst) as (k & [= <-] & Hk). rewrite Hi in Hk.
    exists (Some i). split; simpl; rewrite ?closures_snoc, ?Hk; try congruence.
    + intros j. rewrite once_at_move. case_decide; [by subst|].
      pose proof (Hp j) as Hj. rewrite Hst in Hj |- *. destruct (at_ s j); simpl in *; intuition congruence.
    + intros _. exists i. split; [done|]. rewrite once_at_move, decide_True by done. eauto.
  - (* the closure panics *)
    injection Hstep as <-. destruct Hpi as (Hst & -> & Hv).
    destruct (Hr Hst) as (k & [= <-] & Hk). rewrite Hi in Hk.
    exists (Some i). split; simpl; rewrite ?closures_snoc, ?Hk; try congruence.
    + intros j. rewrite once_at_move. case_decide; [by subst|]. apply Hp.
    + intros _. exists i. split; [done|]. by rewrite once_at_move, decide_True.
Qed.

Lemma once_inv_run tr s : run_trace step tr init = Some s → ∃ w, inv tr s w.
Proof.
  apply (run_trace_ind step (λ tr s, ∃ w, inv tr s w)).
  - exists None. by split.
  - intros tr' l s1 s2 [w Hinv] _ Hstep. by eapply once_inv_step.
Qed.
End init.
End Init.

(** C21. The closure of a [OnceCell] runs at most once, whoever calls, and
    [get_or_init] never meets an empty cell: every call that returns answers the
    value of that one run. *)
Theorem once_runs_once {T} tr (s : Init.state (T := T)) :
  run_trace Init.step tr Init.init = Some s →
  (length (Init.closures tr) ≤ 1)%nat ∧
  (∀ i, Init.at_ s i ≠ Init.Crashed) ∧
  (∀ i v, Init.at_ s i = Init.Returned v →
     Init.closures tr = [Some v] ∧ oc_value (Init.shared s) = Some v).
Proof.
  intros [w [Hp Hs Hd Hr]]%Init.once_inv_run. split_and!.
  - destruct (oc_once (Init.shared s)).
    + destruct (Hs eq_refl) as [_ ->]. simpl. lia.
    + destruct (Hr eq_refl) as (i & _ & Hi).
      destruct (Init.at_ s i); try done; [by rewrite Hi; simpl; lia|..|by rewrite Hi].
      destruct Hi as (v & _ & ->). done.
    + destruct (Hd eq_refl) as (v & _ & ->). done.
  - intros i Hi. specialize (Hp i). by rewrite Hi in Hp.
  - intros i v Hi. specialize (Hp i). rewrite Hi in Hp. destruct Hp as [Hc Hv].
    destruct (Hd Hc) as (v' & Hv' & Hcl). rewrite Hv in Hv'. injection Hv' as <-. done.
Qed.

(** Initialisation is exclusive: while one hart runs the closure or has not
    yet published its value, no other hart does, and none reads the cell. *)
Theorem once_exclusive {T} tr (s : Init.state (T := T)) i j :
  run_trace Init.step tr Init.init = Some s →
  Init.at_ s i = Init.Running ∨ Init.at_ s i = Init.Storing →
  match Init.at_ s j with
  | Init.Running | Init.Storing => i = j
  | Init.Unwrapping | Init.Returned _ => False
  | _ => True
  end.
Proof.
  intros [w [Hp _ _ _]]%Init.once_inv_run Hi. pose proof (Hp i) as Hpi. pose proof (Hp j) as Hpj.
  destruct Hi as [Hi|Hi]; rewrite Hi in Hpi; destruct Hpi as (Hst & -> & _);
    destruct (Init.at_ s j); try done; simpl in Hpj; destruct_and?; congruence.
Qed.

(** C22. A closure that panics leaves the cell in progress for ever: no call has
    returned, and a waiting hart only ever waits. *)
Theorem once_panic_blocks {T} tr (s : Init.state (T := T)) i :
  run_trace Init.step tr Init.init = Some s → Init.at_ s i = Init.Panicked →
  oc_once (Init.shared s) = InProgress ∧
  (∀ j v, Init.at_ s j ≠ Init.Returned v ∧ Init.at_ s j ≠ Init.Unwrapping) ∧
  (∀ j a s', Init.at_ s j = Init.Waiting → Init.step (j, a) s = Some s' →
     Init.at_ s' j = Init.Waiting ∧ Init.shared s' = Init.shared s).
Proof.
  intros [w [Hp _ _ _]]%Init.once_inv_run Hi. pose proof (Hp i) as Hpi. rewrite Hi in Hpi.
  destruct Hpi as (Hst & _ & _). split_and!; [done|..].
  - intros j v. pose proof (Hp j) as Hpj. split; intros Hj; rewrite Hj in Hpj; simpl in Hpj;
      destruct_and?; congruence.
  - intros j a s' Hj. unfold Init.step. rewrite Hj. destruct a; try done.
    rewrite decide_False by congruence. intros [= <-].
    by rewrite Init.once_at_move, decide_True.
Qed.

(** ** On one hart *)

Section hart.
Context {K T : Type} (view : K → OnceCell T) (put : OnceCell T → K → K).

Definition set_once (st : OnceState) : M K () :=
  modify (λ k, put (mkOnceCell st (oc_value (view k))) k).
Definition set_value (v : T) : M K () :=
  modify (λ k, put (mkOnceCell (oc_once (view k)) (Some v)) k).
Definition is_complete : M K bool :=
  gets (λ k, bool_decide (oc_once (view k) = Completed)).

(** [Once::call_once]: the waiting loop of the losing side has nobody to wait for. *)
Definition call_once (f : M K ()) : M K () :=
  let! done_ := is_complete in
  if done_ then ret tt
  else
    let! x := gets (λ k, compare_exchange (oc_once (view k)) Incomplete InProgress) in
    set_once x.1;;!
    if x.2 then
      f;;! set_once Completed
    else
      let! done_ := is_complete in
      if done_ then ret tt else hang.

(** [OnceCell::get_or_init] up to the shared reference it returns: the value
    stays in the cell, [unwrap] checks that it is there. *)
Definition get_or_init (f : M K T) : M K () :=
  call_once (let! v := f in set_value v);;!
  let! v := gets (λ k, oc_value (view k)) in
  expect v "called `Option::unwrap()` on a `None` value";;!
  ret tt.
End hart.

Section hart_mutex.
Context {K T : Type} (view : K → OnceCell (Mutex T)) (put : OnceCell (Mutex T) → K → K).

Definition set_mutex (mx : Mutex T) : M K () :=
  modify (λ k, put (mkOnceCell (oc_once (view k)) (Some mx)) k).
Definition get_mutex : M K (Mutex T) :=
  let! o := gets (λ k, oc_value (view k)) in
  expect o "called `Option::unwrap()` on a `None` value".

(** [Mutex::lock] on the mutex in the cell. *)
Definition mutex_lock : M K () :=
  let! mx := get_mutex in
  let '(x, ok) := compare_exchange (mx_lock mx) MFree MLocked in
  set_mutex (mkMutex x (mx_data mx));;!
  if ok then ret tt else hang.

(** Dropping the guard. *)
Definition mutex_unlock : M K () :=
  let! mx := get_mutex in set_mutex (mkMutex MFree (mx_data mx)).

(** Code that runs on the data behind a guard. *)
Definition guard_data {A} (m : M T A) : M K A := λ k,
  match oc_value (view k) with
  | None => Panic "called `Option::unwrap()` on a `None` value" k
  | Some mx =>
    zoom (λ _, mx_data mx)
      (λ d k, put (mkOnceCell (oc_once (view k)) (Some (mkMutex (mx_lock mx) d))) k) m k
  end.

(** [CELL.get_or_init(f).lock().m()]: the guard is dropped at the end of the
    statement; a panic in [m] leaves the mutex locked. *)
Definition with_static {A} (f : M K (Mutex T)) (m : M T A) : M K A :=
  get_or_init view put f;;!
  mutex_lock;;!
  let! a := guard_data m in
  mutex_unlock;;!
  ret a.
End hart_mutex.

(** ** A static [OnceCell<Mutex<T>>] that is set up *)

Definition ready {T} (d : T) : OnceCell (Mutex T) := mkOnceCell Completed (Some (mkMutex MFree d)).
Definition held {T} (d : T) : OnceCell (Mutex T) := mkOnceCell Completed (Some (mkMutex MLocked d)).
(** The cell while its closure runs. *)
Definition initialising {T} : OnceCell T := mkOnceCell InProgress None.

(** [view]/[put] is the place of the static in the state of the kernel. *)
Class Lens {K V : Type} (view : K → V) (put : V → K → K) : Prop := {
  view_put x k : view (put x k) = x;
  put_view k : put (view k) k = k;
  put_put x y k : put x (put y k) = put x k;
}.

Section static_facts.
Context {K T : Type} (view : K → OnceCell (Mutex T)) (put : OnceCell (Mutex T) → K → K).
Context `{Hlens : !Lens view put}.

Lemma static_view x k : view (put x k) = x.
Proof. apply Hlens. Qed.
Lemma static_put x y k : put x (put y k) = put x k.
Proof. apply Hlens. Qed.
Lemma static_same k : put (view k) k = k.
Proof. apply Hlens. Qed.

Lemma get_or_init_ready (f : M K (Mutex T)) k v :
  view k = mkOnceCell Completed (Some v) → get_or_init view put f k = Ret tt k.
Proof.
  intros Hk. unfold get_or_init, call_once, is_complete, bind, gets. rewrite Hk. simpl.
  by rewrite Hk.
Qed.

(** The first call: the closure runs with the cell marked in progress. *)
Lemma call_once_fresh (f : M K ()) k :
  view k = OnceCell_new →
  call_once view put f k = (f;;! set_once view put Completed) (put initialising k).
Proof.
  intros Hk. unfold call_once, is_complete. erewrite bind_Ret by apply gets_run.
  rewrite bool_decide_false by (by rewrite Hk). erewrite bind_Ret by apply gets_run.
  unfold set_once at 1. erewrite bind_Ret by apply modify_run. rewrite Hk.
  unfold compare_exchange. by rewrite decide_True.
Qed.

Lemma get_or_init_fresh (f : M K (Mutex T)) k k1 v :
  view k = OnceCell_new → f (put initialising k) = Ret v k1 →
  get_or_init view put f k = Ret tt (put (mkOnceCell Completed (Some v)) k1).
Proof.
  intros Hk Hf. unfold get_or_init. unfold bind at 1. rewrite call_once_fresh by done.
  unfold set_value, set_once, bind, modify, gets, expect, ret. rewrite Hf.
  by rewrite !static_view, static_put.
Qed.

Lemma get_or_init_fresh_panic (f : M K (Mutex T)) k k1 msg :
  view k = OnceCell_new → f (put initialising k) = Panic msg k1 →
  get_or_init view put f k = Panic msg k1.
Proof.
  intros Hk Hf. unfold get_or_init. unfold bind at 1. rewrite call_once_fresh by done.
  unfold bind. by rewrite Hf.
Qed.

(** A locked section: the data are those the code left, and the lock is free again
    unless the code did not come back. *)
Lemma with_static_ready {A} (f : M K (Mutex T)) (m : M T A) k d :
  view k = ready d →
  with_static view put f m k =
  match m d with
  | Ret a d' => Ret a (put (ready d') k)
  | Panic msg d' => Panic msg (put (held d') k)
  | Hang d' => Hang (put (held d') k)
  | NoFuel => NoFuel
  end.
Proof.
  intros Hk. unfold with_static. erewrite bind_Ret by by eapply get_or_init_ready.
  unfold mutex_lock, get_mutex, set_mutex, guard_data, mutex_unlock, zoom, bind, gets, modify.
  rewrite Hk. simpl. rewrite ?Hk, ?static_view. simpl.
  destruct (m d); unfold get_mutex, set_mutex, bind, gets, modify; rewrite ?static_view; simpl;
    by rewrite ?static_view, ?static_put.
Qed.

(** On the hart that stopped inside a locked section, the next one never starts. *)
Lemma with_static_held {A} (f : M K (Mutex T)) (m : M T A) k d :
  view k = held d → with_static view put f m k = Hang k.
Proof.
  intros Hk. unfold with_static. erewrite bind_Ret by by eapply get_or_init_ready.
  unfold mutex_lock, get_mutex, set_mutex, bind, gets, modify, hang. rewrite Hk. simpl.
  rewrite ?Hk. simpl. fold (held d). by rewrite <- Hk, static_same.
Qed.
(** After a closure that did not come back the cell is waited for, for ever. *)
Lemma get_or_init_initialising (f : M K (Mutex T)) k :
  view k = initialising → get_or_init view put f k = Hang k.
Proof.
  intros Hk. unfold get_or_init, call_once, is_complete.
  do 2 unfold bind at 1. unfold gets at 1. rewrite bool_decide_false by (by rewrite Hk).
  unfold bind, gets, set_once, modify. rewrite Hk. unfold compare_exchange.
  rewrite decide_False by done. cbn [fst snd initialising oc_once oc_value].
  rewrite static_view. rewrite bool_decide_false by done. unfold hang.
  fold (initialising (T := Mutex T)). by rewrite <- Hk, static_same.
Qed.
Lemma with_static_initialising {A} (f : M K (Mutex T)) (m : M T A) k :
  view k = initialising → with_static view put f m k = Hang k.
Proof. intros Hk. by apply bind_Hang, get_or_init_initialising. Qed.
End static_facts.
