(* ===== verification/SyncSeq.v ===== *)
(** * One hart alone: the sequential forms are runs of the interleaving machines.

    Sync.v has [get_or_init] and the locked sections twice: as machines whose steps
    are the shared accesses of any number of harts, and as the computations a single
    hart runs.  Here a computation is shown to be the run of its machine in which
    no other hart moves: it returns, panics or waits for ever where the machine's hart
    does, and leaves the shared state the machine leaves. *)
From S2P Require Import Prelude Sync.

(** ** Runs in which one hart moves *)

Section single.
Context {State Point Act Shared : Type}.
Context (step : nat * Act → State → option State) (at_ : State → nat → Point) (shared : State → Shared) (i : nat).

(** What a step does to the hart's point and the shared state. *)
Variable own : Act → Point → Shared → option (Point * Shared).
Hypothesis own_step : ∀ a s p x,
  own a (at_ s i) (shared s) = Some (p, x) → ∃ s', step (i, a) s = Some s' ∧ at_ s' i = p ∧ shared s' = x.

Fixpoint own_run (acts : list Act) (p : Point) (x : Shared) : option (Point * Shared) :=
  match acts with
  | [] => Some (p, x)
  | a :: acts => match own a p x with Some (p, x) => own_run acts p x | None => None end
  end.

Lemma own_run_trace acts s p x :
  own_run acts (at_ s i) (shared s) = Some (p, x) →
  ∃ s', run_trace step (map (pair i) acts) s = Some s' ∧ at_ s' i = p ∧ shared s' = x.
Proof.
  revert s. induction acts as [|a acts IH]; intros s Hrun; cbn [own_run map run_trace] in *.
  - injection Hrun as <- <-. by exists s.
  - destruct (own a (at_ s i) (shared s)) as [[p1 x1]|] eqn:Hown; [|discriminate].
    destruct (own_step a s p1 x1 Hown) as (s1 & -> & <- & <-). by apply IH.
Qed.
End single.

(** ** [OnceCell::get_or_init] *)

Section once.
Context {K T : Type} (view : K → OnceCell T) (put : OnceCell T → K → K).
Context `{Hlens : !Lens view put}.

Definition once_own (a : Init.action (T := T)) (p : Init.point (T := T)) (oc : OnceCell T) :
    option (Init.point * OnceCell T) :=
  match a, p with
  | Init.Call, (Init.Idle | Init.Returned _) => Some (Init.Check, oc)
  | Init.Go, Init.Check => Some (if decide (oc_once oc = Completed) then Init.Unwrapping else Init.Exchange, oc)
  | Init.Go, Init.Exchange =>
    let '(x, ok) := compare_exchange (oc_once oc) Incomplete InProgress in
    Some (if ok then Init.Running else Init.Waiting, mkOnceCell x (oc_value oc))
  | Init.Closure v, Init.Running => Some (Init.Storing, mkOnceCell (oc_once oc) (Some v))
  | Init.ClosurePanic, Init.Running => Some (Init.Panicked, oc)
  | Init.Go, Init.Storing => Some (Init.Unwrapping, mkOnceCell Completed (oc_value oc))
  | Init.Go, Init.Waiting => Some (if decide (oc_once oc = Completed) then Init.Unwrapping else Init.Waiting, oc)
  | Init.Go, Init.Unwrapping =>
    Some (match oc_value oc with Some v => Init.Returned v | None => Init.Crashed end, oc)
  | _, _ => None
  end.

Lemma once_own_step i a (s : Init.state (T := T)) p x :
  once_own a (Init.at_ s i) (Init.shared s) = Some (p, x) →
  ∃ s', Init.step (i, a) s = Some s' ∧ Init.at_ s' i = p ∧ Init.shared s' = x.
Proof.
  unfold once_own, Init.step. destruct a, (Init.at_ s i); try discriminate;
    try destruct (compare_exchange _ _ _) as [y ok]; intros [= <- <-];
    (eexists; split; [reflexivity|]); (split; [|reflexivity]); by rewrite Init.once_at_move, decide_True.
Qed.

(** The closure does not reach into the cell it initialises. *)
Definition untouched (f : M K T) : Prop :=
  ∀ k, match f k with Ret _ k' | Panic _ k' | Hang k' => view k' = view k | NoFuel => True end.

(** What the outcome of the computation means for the machine. *)
Definition once_point (o : outcome K ()) (p : Init.point (T := T)) : Prop :=
  match o with
  | Ret _ _ => ∃ v, p = Init.Returned v
  | Panic _ _ => p = Init.Panicked ∨ p = Init.Crashed
  | Hang _ => p = Init.Running ∨ p = Init.Waiting
  | NoFuel => False
  end.
Definition final {A} (o : outcome K A) : option K :=
  match o with Ret _ k | Panic _ k | Hang k => Some k | NoFuel => None end.

(** The computation by the state of the cell. *)
Lemma get_or_init_cases f k :
  get_or_init view put f k =
  match oc_once (view k) with
  | Completed => match oc_value (view k) with Some _ => Ret tt k | None => Panic "called `Option::unwrap()` on a `None` value" k end
  | InProgress => Hang k
  | Incomplete =>
    match f (put (mkOnceCell InProgress (oc_value (view k))) k) with
    | Ret v k' => Ret tt (put (mkOnceCell Completed (Some v)) k')
    | Panic msg k' => Panic msg k'
    | Hang k' => Hang k'
    | NoFuel => NoFuel
    end
  end.
Proof.
  unfold get_or_init, call_once, is_complete, set_once, set_value, bind, gets, modify, expect, ret, hang, compare_exchange.
  destruct (view k) as [[| |] val] eqn:Hk; cbv beta; rewrite ?Hk; cbn [oc_once oc_value].
  - rewrite bool_decide_false by done. cbv beta. rewrite Hk. cbn [oc_once oc_value]. rewrite decide_True by done. cbn [fst snd].
    destruct (f _) as [v k1|msg k1|k1|]; [|done..]. cbv beta iota. cbn [oc_value].
    rewrite !(view_put (view := view) (put := put)), (put_put (view := view) (put := put)). done.
  - rewrite bool_decide_false by done. cbv beta. rewrite Hk. cbn [oc_once oc_value]. rewrite decide_False by done. cbn [fst snd].
    rewrite (view_put (view := view) (put := put)). cbn [oc_once].
    rewrite bool_decide_false by done. by rewrite <- Hk, (put_view (view := view) (put := put)).
  - rewrite bool_decide_true by done. cbv beta iota. rewrite Hk. cbn [oc_value]. by destruct val.
Qed.

Lemma get_or_init_own f k :
  untouched f → get_or_init view put f k ≠ NoFuel →
  ∃ acts p k', final (get_or_init view put f k) = Some k' ∧
    own_run once_own acts Init.Idle (view k) = Some (p, view k') ∧ once_point (get_or_init view put f k) p ∧
    (p = Init.Waiting → once_own Init.Go p (view k') = Some (p, view k')).
Proof.
  intros Hf. rewrite get_or_init_cases. destruct (view k) as [[| |] val] eqn:Hk; cbn [oc_once oc_value].
  - specialize (Hf (put (mkOnceCell InProgress val) k)). rewrite (view_put (view := view) (put := put)) in Hf.
    destruct (f _) as [v k'|msg k'|k'|]; intros Hfuel; [| | |done]; cbn [final once_point].
    + exists [Init.Call; Init.Go; Init.Go; Init.Closure v; Init.Go; Init.Go], (Init.Returned v), (put (mkOnceCell Completed (Some v)) k').
      rewrite (view_put (view := view) (put := put)). split_and!; [done|done|by exists v|done].
    + exists [Init.Call; Init.Go; Init.Go; Init.ClosurePanic], Init.Panicked, k'. rewrite Hf. by split_and!; [..|left|].
    + exists [Init.Call; Init.Go; Init.Go], Init.Running, k'. rewrite Hf. by split_and!; [..|left|].
  - intros _. exists [Init.Call; Init.Go; Init.Go], Init.Waiting, k. rewrite Hk. by split_and!; [..|right|].
  - intros _. destruct val as [v|]; cbn [final once_point]; [exists [Init.Call; Init.Go; Init.Go], (Init.Returned v), k|
      exists [Init.Call; Init.Go; Init.Go], Init.Crashed, k]; rewrite Hk; split_and!; try done; [by exists v|by right].
Qed.

(** C25. What one hart computes with [get_or_init] is what the machine of [OnceCell]
    does when only that hart moves: there are steps of the hart that end where the
    computation ends, with the cell it leaves.  It waits for ever exactly where the
    hart is in the waiting loop and a further step changes nothing, or in a
    closure that does. *)
Theorem get_or_init_is_run f k i s :
  untouched f → get_or_init view put f k ≠ NoFuel → Init.shared s = view k → Init.at_ s i = Init.Idle →
  ∃ acts s' k', final (get_or_init view put f k) = Some k' ∧
    run_trace Init.step (map (pair i) acts) s = Some s' ∧ Init.shared s' = view k' ∧
    once_point (get_or_init view put f k) (Init.at_ s' i) ∧
    (Init.at_ s' i = Init.Waiting →
       ∃ s'', Init.step (i, Init.Go) s' = Some s'' ∧ Init.at_ s'' i = Init.Waiting ∧ Init.shared s'' = Init.shared s').
Proof.
  intros Hf Hfuel Hs Hi. destruct (get_or_init_own f k Hf Hfuel) as (acts & p & k' & Hfin & Hrun & Hp & Hwait).
  rewrite <- Hs, <- Hi in Hrun.
  destruct (own_run_trace Init.step Init.at_ Init.shared i once_own (once_own_step i) acts s _ _ Hrun) as (s' & Htr & <- & Hx).
  exists acts, s', k'. split_and!; [done|done|done|done|]. intros Hw. specialize (Hwait Hw). rewrite <- Hx in Hwait.
  destruct (once_own_step i _ _ _ _ Hwait) as (s2 & Hstep & Hp2 & Hx2). exists s2. by rewrite Hp2, Hw.
Qed.
End once.

(** ** A locked section *)

Section mutex.
Context {K T : Type} (view : K → OnceCell (Mutex T)) (put : OnceCell (Mutex T) → K → K).
Context `{Hlens : !Lens view put}.

(** [lock], the code behind the guard, and the drop of the guard: what [with_static]
    does after [get_or_init]. *)
Definition locked_section {A} (m : M T A) : M K A :=
  mutex_lock view put;;!
  let! a := guard_data view put m in
  mutex_unlock view put;;!
  ret a.

Definition mutex_own (a : Spin.action (T := T)) (p : Spin.point (T := T)) (mx : Mutex T) : option (Spin.point * Mutex T) :=
  match a, p with
  | Spin.Lock, Spin.Idle => Some (Spin.Spinning, mx)
  | Spin.Cas, Spin.Spinning =>
    let '(x, ok) := compare_exchange (mx_lock mx) MFree MLocked in
    Some (if ok then Spin.Holding else Spin.Spinning, mkMutex x (mx_data mx))
  | Spin.Deref, Spin.Holding => Some (Spin.Reading (mx_data mx), mx)
  | Spin.DerefMut f, Spin.Reading v => Some (Spin.Holding, mkMutex (mx_lock mx) (f v))
  | Spin.DropGuard, (Spin.Holding | Spin.Reading _) => Some (Spin.Idle, mkMutex MFree (mx_data mx))
  | _, _ => None
  end.

Lemma mutex_own_step i a (s : Spin.state (T := T)) p x :
  mutex_own a (Spin.at_ s i) (Spin.shared s) = Some (p, x) →
  ∃ s', Spin.step (i, a) s = Some s' ∧ Spin.at_ s' i = p ∧ Spin.shared s' = x.
Proof.
  unfold mutex_own, Spin.step. destruct a, (Spin.at_ s i); try discriminate;
    try destruct (compare_exchange _ _ _) as [y ok]; intros [= <- <-];
    (eexists; split; [reflexivity|]); (split; [|reflexivity]); by rewrite Spin.spin_at_move, decide_True.
Qed.

(** Where the hart is afterwards. *)
Definition mutex_point {A} (o : outcome K A) (p : Spin.point (T := T)) : Prop :=
  match o with
  | Ret _ _ => p = Spin.Idle
  | Panic _ _ => p = Spin.Holding
  | Hang _ => p = Spin.Holding ∨ p = Spin.Spinning
  | NoFuel => False
  end.

Lemma locked_section_cases {A} (m : M T A) k mx :
  oc_value (view k) = Some mx →
  locked_section m k =
  let cell l d := put (mkOnceCell (oc_once (view k)) (Some (mkMutex l d))) k in
  match mx_lock mx with
  | MLocked => Hang k
  | MFree =>
    match m (mx_data mx) with
    | Ret a d => Ret a (cell MFree d)
    | Panic msg d => Panic msg (cell MLocked d)
    | Hang d => Hang (cell MLocked d)
    | NoFuel => NoFuel
    end
  end.
Proof.
  intros Hk. unfold locked_section, mutex_lock, mutex_unlock, guard_data, get_mutex, set_mutex, zoom, compare_exchange,
    bind, gets, modify, expect, ret, hang. rewrite Hk.
  destruct mx as [[|] d]; cbn [mx_lock mx_data]; [rewrite decide_True by done|rewrite decide_False by done].
  - rewrite view_put. cbn [oc_value oc_once mx_data mx_lock]. destruct (m d) as [a d'|msg d'|d'|]; rewrite ?view_put, ?put_put; try done.
    cbn [oc_value oc_once mx_data mx_lock]. by rewrite ?view_put, ?put_put.
  - f_equal. rewrite <- Hk. destruct (view k) as [o v] eqn:Hv. cbn [oc_once oc_value]. by rewrite <- Hv, put_view.
Qed.

(** C26. A locked section of one hart is the run of the machine of [Mutex] in which only that
    hart moves; when the lock is taken it spins for ever. *)
Theorem locked_section_is_run {A} (m : M T A) k mx i s :
  oc_value (view k) = Some mx → Spin.shared s = mx → Spin.at_ s i = Spin.Idle → locked_section m k ≠ NoFuel →
  ∃ acts s' k', final (locked_section m k) = Some k' ∧
    run_trace Spin.step (map (pair i) acts) s = Some s' ∧ oc_value (view k') = Some (Spin.shared s') ∧
    mutex_point (locked_section m k) (Spin.at_ s' i) ∧
    (Spin.at_ s' i = Spin.Spinning →
       ∃ s'', Spin.step (i, Spin.Cas) s' = Some s'' ∧ Spin.at_ s'' i = Spin.Spinning ∧ Spin.shared s'' = Spin.shared s').
Proof.
  intros Hk Hs Hi. rewrite (locked_section_cases m k mx Hk). cbv zeta.
  assert (∀ acts p k' x, own_run mutex_own acts Spin.Idle mx = Some (p, x) → oc_value (view k') = Some x →
    (p = Spin.Spinning → mutex_own Spin.Cas p x = Some (p, x)) →
    ∃ s', run_trace Spin.step (map (pair i) acts) s = Some s' ∧ oc_value (view k') = Some (Spin.shared s') ∧
      Spin.at_ s' i = p ∧ (Spin.at_ s' i = Spin.Spinning →
        ∃ s'', Spin.step (i, Spin.Cas) s' = Some s'' ∧ Spin.at_ s'' i = Spin.Spinning ∧ Spin.shared s'' = Spin.shared s')) as Hrun.
  { intros acts p k' x Hrun Hx Hspin. rewrite <- Hs, <- Hi in Hrun.
    destruct (own_run_trace Spin.step Spin.at_ Spin.shared i mutex_own (mutex_own_step i) acts s _ _ Hrun) as (s' & Htr & Hp & Hx').
    exists s'. split_and!; [done|by rewrite Hx'|done|]. intros Hw. rewrite Hp in Hw. specialize (Hspin Hw).
    rewrite <- Hx', <- Hp in Hspin. destruct (mutex_own_step i _ _ _ _ Hspin) as (s2 & Hstep & Hp2 & Hx2).
    exists s2. by rewrite Hp2, Hp. }
  destruct mx as [[|] d]; cbn [mx_lock mx_data].
  - destruct (m d) as [a d'|msg d'|d'|]; intros Hfuel; [| | |done]; cbn [final mutex_point].
    + destruct (Hrun [Spin.Lock; Spin.Cas; Spin.Deref; Spin.DerefMut (λ _, d'); Spin.DropGuard] Spin.Idle
        (put (mkOnceCell (oc_once (view k)) (Some (mkMutex MFree d'))) k) (mkMutex MFree d')) as (s' & ? & ? & ? & ?);
        [done|by rewrite view_put|done|]. by eexists _, s', _.
    + destruct (Hrun [Spin.Lock; Spin.Cas; Spin.Deref; Spin.DerefMut (λ _, d')] Spin.Holding
        (put (mkOnceCell (oc_once (view k)) (Some (mkMutex MLocked d'))) k) (mkMutex MLocked d')) as (s' & ? & ? & ? & ?);
        [done|by rewrite view_put|done|]. by eexists _, s', _.
    + destruct (Hrun [Spin.Lock; Spin.Cas; Spin.Deref; Spin.DerefMut (λ _, d')] Spin.Holding
        (put (mkOnceCell (oc_once (view k)) (Some (mkMutex MLocked d'))) k) (mkMutex MLocked d')) as (s' & ? & ? & ? & ?);
        [done|by rewrite view_put|done|]. eexists _, s', _. split_and!; [done..|by left|done].
  - intros _. destruct (Hrun [Spin.Lock; Spin.Cas] Spin.Spinning k (mkMutex MLocked d)) as (s' & ? & ? & ? & ?); [done|done|done|].
    eexists _, s', _. split_and!; [done..|by right|done].
Qed.
End mutex.
