(* ===== verification/SyncWeak.v ===== *)
(** * The memory orderings of src/rust/src/sync.rs.

    Sync.v lets the harts of a mutex or of a cell access it one after the other.
    Here the same methods run on a memory that only promises what their
    [Ordering]s ask for.  An atomic byte is a history of messages at timestamps;
    a load may answer any message not older than the ones its hart has seen, a
    read-modify-write puts its message right after the one it reads.  A message
    carries the data accesses that happen before it when it was written with
    [Release], and a hart that reads it with [Acquire] comes after them.  An access
    to the data that is not ordered with a conflicting one is a data race.

    [Section mutex] and [Section cell] take the orderings as a parameter: the ones
    of the source exclude every race, weaker ones do not, and without races the
    runs are runs of Sync.v. *)
From S2P Require Import Prelude Sync.

Inductive Ordering : Type := Relaxed | Release | Acquire | AcqRel.
Definition acquires (o : Ordering) : bool := match o with Acquire | AcqRel => true | _ => false end.
Definition releases (o : Ordering) : bool := match o with Release | AcqRel => true | _ => false end.

(** What a hart has seen of the byte, and the data accesses before its next step. *)
Record view : Type := mkView { v_time : nat; v_seen : gset nat }.
Definition view_start : view := mkView 0 ∅.

Section memory.
Context {V T : Type} `{EqDecision V}.

Record message : Type := mkMessage { msg_val : V; msg_seen : gset nat }.

(** The byte, the data behind it, and the accesses to the data so far, numbered
    from 0: whether each was a write. *)
Record memory : Type := mkMemory {
  history : gmap nat message; accesses : list bool; value : T; raced : bool }.

Definition memory_new (x : V) (d : T) : memory :=
  mkMemory {[0%nat := mkMessage x ∅]} [] d false.

Definition acquire_view (o : Ordering) (t : nat) (msg : message) (w : view) : view :=
  mkView t (if acquires o then v_seen w ∪ msg_seen msg else v_seen w).
Definition released (o : Ordering) (w : view) : gset nat := if releases o then v_seen w else ∅.
Definition add_message (t : nat) (msg : message) (m : memory) : memory :=
  mkMemory (<[t := msg]> (history m)) (accesses m) (value m) (raced m).

(** [AtomicU8::load] of the message at [t]. *)
Definition atomic_load (o : Ordering) (t : nat) (w : view) (m : memory) : option (V * view) :=
  match history m !! t with
  | Some msg => if decide (v_time w ≤ t)%nat then Some (msg_val msg, acquire_view o t msg w) else None
  | None => None
  end.

(** [AtomicU8::store] at [t], after every message the hart has seen. *)
Definition atomic_store (o : Ordering) (t : nat) (x : V) (w : view) (m : memory) : option (view * memory) :=
  match history m !! t with
  | Some _ => None
  | None =>
    if decide (v_time w < t)%nat
    then Some (mkView t (v_seen w), add_message t (mkMessage x (released o w)) m) else None
  end.

(** [AtomicU8::compare_exchange] of the message at [t]; the new message also
    carries what the one it replaces carried. *)
Definition atomic_exchange (success failure : Ordering) (t : nat) (current new : V)
    (w : view) (m : memory) : option (bool * view * memory) :=
  match history m !! t with
  | Some msg =>
    if decide (v_time w ≤ t)%nat then
      if decide (msg_val msg = current) then
        match history m !! S t with
        | Some _ => None
        | None =>
          let w' := acquire_view success t msg w in
          Some (true, mkView (S t) (v_seen w'),
                add_message (S t) (mkMessage new (msg_seen msg ∪ released success w')) m)
        end
      else Some (false, acquire_view failure t msg w, m)
    else None
  | None => None
  end.

(** The earlier accesses a new one conflicts with: all of them if it writes, the
    writes if it reads. *)
Definition conflicts (write : bool) (m : memory) : list nat :=
  filter (λ id, write || default false (accesses m !! id)) (seq 0 (length (accesses m))).
Definition ordered (write : bool) (w : view) (m : memory) : bool :=
  forallb (λ id, bool_decide (id ∈ v_seen w)) (conflicts write m).

(** One access to the data. *)
Definition data_access (write : bool) (d : T) (w : view) (m : memory) : view * memory :=
  (mkView (v_time w) ({[length (accesses m)]} ∪ v_seen w),
   mkMemory (history m) (accesses m ++ [write]) d (raced m || negb (ordered write w m))).
Definition data_read (w : view) (m : memory) : view * memory := data_access false (value m) w m.
Definition data_write (d : T) (w : view) (m : memory) : view * memory := data_access true d w m.

(** A hart has seen every access. *)
Definition knows (s : gset nat) (m : memory) : Prop := ∀ id, (id < length (accesses m))%nat → id ∈ s.

Lemma conflicts_elem write id m :
  id ∈ conflicts write m ↔
  (id < length (accesses m))%nat ∧ (write = true ∨ accesses m !! id = Some true).
Proof.
  unfold conflicts. rewrite list_elem_of_filter, elem_of_seq. destruct write; simpl; [naive_solver lia|].
  destruct (accesses m !! id) as [[|]|] eqn:Hid; simpl; try naive_solver lia.
Qed.

Lemma ordered_spec write w m :
  ordered write w m = true ↔ ∀ id, id ∈ conflicts write m → id ∈ v_seen w.
Proof.
  unfold ordered. rewrite forallb_forall. split; intros H id Hid.
  - apply list_elem_of_In, H in Hid. by apply bool_decide_eq_true in Hid.
  - by apply bool_decide_eq_true, H, list_elem_of_In.
Qed.

Lemma knows_ordered write w m : knows (v_seen w) m → ordered write w m = true.
Proof. intros Hk. apply ordered_spec. intros id [Hid _]%conflicts_elem. by apply Hk. Qed.

(** The accesses of a hart that knows all the others race with nothing, and it
    knows its own. *)
Lemma data_access_known write d w m w' m' :
  knows (v_seen w) m → raced m = false → data_access write d w m = (w', m') →
  knows (v_seen w') m' ∧ raced m' = false.
Proof.
  intros Hk Hr [= <- <-]. split; simpl.
  - intros id. simpl. rewrite length_app. simpl. intros Hid.
    destruct (decide (id = length (accesses m))); [set_solver|].
    apply elem_of_union_r, Hk. lia.
  - by rewrite Hr, knows_ordered.
Qed.
End memory.
Arguments message : clear implicits.
Arguments memory : clear implicits.

(** ** Mutex *)
Module WeakMutex.
(** The [Ordering] arguments of [lock] and of the guard's [drop]. *)
Record orders : Type := mkOrders { o_lock : Ordering; o_fail : Ordering; o_unlock : Ordering }.
Definition source_orders : orders := mkOrders Acquire Relaxed Release.

Section mutex.
Context {T : Type} (ord : orders).

Record state : Type := mkState { mem : memory MutexState T; harts : gmap nat (Spin.point (T := T) * view) }.

Definition at_ (s : state) (i : nat) : Spin.point * view := default (Spin.Idle, view_start) (harts s !! i).
Definition move (i : nat) (p : Spin.point) (r : view * memory MutexState T) (s : state) : state :=
  {| mem := r.2; harts := <[i := (p, r.1)]> (harts s) |}.

(** The actions of [Spin], with the timestamp of the atomic access. *)
Definition step (l : nat * (Spin.action (T := T) * nat)) (s : state) : option state :=
  let '(i, (a, t)) := l in
  let '(p, w) := at_ s i in
  let m := mem s in
  match a, p with
  | Spin.Lock, Spin.Idle => Some (move i Spin.Spinning (w, m) s)
  | Spin.Cas, Spin.Spinning =>
    match atomic_exchange (o_lock ord) (o_fail ord) t MFree MLocked w m with
    | Some (ok, w', m') => Some (move i (if ok then Spin.Holding else Spin.Spinning) (w', m') s)
    | None => None
    end
  | Spin.Deref, Spin.Holding => Some (move i (Spin.Reading (value m)) (data_read w m) s)
  | Spin.DerefMut f, Spin.Reading v => Some (move i Spin.Holding (data_write (f v) w m) s)
  | Spin.DropGuard, (Spin.Holding | Spin.Reading _) =>
    match atomic_store (o_unlock ord) t MFree w m with
    | Some r => Some (move i Spin.Idle r s)
    | None => None
    end
  | _, _ => None
  end.

Definition init (d : T) : state := {| mem := memory_new MFree d; harts := ∅ |}.

(** [top] is the latest message of the byte and [o] the hart that holds a guard.
    An older [Free] message has been replaced by a successful exchange. *)
Record inv (s : state) (o : option nat) (top : nat) (msg : message MutexState) : Prop := {
  inv_top : history (mem s) !! top = Some msg;
  inv_lock : msg_val msg = if o is Some _ then MLocked else MFree;
  inv_max : ∀ t, is_Some (history (mem s) !! t) → (t ≤ top)%nat;
  inv_taken : ∀ t msg', history (mem s) !! t = Some msg' → msg_val msg' = MFree →
    t ≠ top → is_Some (history (mem s) !! S t);
  inv_owner : ∀ i, Spin.holds (at_ s i).1 ↔ o = Some i;
  inv_latest : ∀ i, o = Some i → v_time (at_ s i).2 = top ∧ knows (v_seen (at_ s i).2) (mem s);
  inv_free : o = None → knows (msg_seen msg) (mem s);
  inv_read : ∀ i v, (at_ s i).1 = Spin.Reading v → v = value (mem s);
  inv_race : raced (mem s) = false;
}.

Lemma weak_at_move i p r s j : at_ (move i p r s) j = if decide (i = j) then (p, r.1) else at_ s j.
Proof.
  unfold at_, move. simpl. case_decide as Hij; [subst; by rewrite lookup_insert_eq|].
  by rewrite lookup_insert_ne.
Qed.

(** What the interleaving of Sync.v sees of a state. *)
Record shows (s : state) (x : Spin.state (T := T)) (o : option nat) : Prop := {
  shows_shared : Spin.shared x = mkMutex (if o is Some _ then MLocked else MFree) (value (mem s));
  shows_harts : ∀ i, Spin.at_ x i = (at_ s i).1;
}.

(** A hart without a guard moves and leaves the memory alone. *)
Lemma view_inv_quiet s o top msg i p w :
  inv s o top msg → ¬ Spin.holds (at_ s i).1 → ¬ Spin.holds p →
  inv (move i p (w, mem s) s) o top msg.
Proof.
  intros [Ht Hl Hm Hk Ho Hv Hf Hr Hn] Hi Hp.
  assert (o ≠ Some i) as Hoi by (by rewrite <- Ho).
  split; try done; intros j.
  - rewrite weak_at_move. case_decide; [subst; naive_solver|apply Ho].
  - intros Hj. rewrite weak_at_move. case_decide; [congruence|by apply Hv].
  - intros v. rewrite weak_at_move. case_decide; [|apply Hr].
    simpl. intros ->. by destruct Hp.
Qed.

(** The owner accesses the data. *)
Lemma inv_access s o top msg i p write d :
  inv s o top msg → o = Some i → Spin.holds p → (∀ v, p = Spin.Reading v → v = d) →
  inv (move i p (data_access write d (at_ s i).2 (mem s)) s) o top msg.
Proof.
  intros [Ht Hl Hm Hk Ho Hv Hf Hr Hn] -> Hp Hpd. destruct (Hv i eq_refl) as [Htime Hknow].
  destruct (data_access write d (at_ s i).2 (mem s)) as [w' m'] eqn:Hacc.
  destruct (data_access_known _ _ _ _ _ _ Hknow Hn Hacc) as [Hknow' Hn'].
  assert (history m' = history (mem s) ∧ v_time w' = v_time (at_ s i).2 ∧ value m' = d)
    as (Hh & Hw & Hd) by (unfold data_access in Hacc; by simplify_eq).
  split; simpl; rewrite ?Hh; try done; intros j.
  - rewrite weak_at_move. case_decide; [subst; simpl; naive_solver|apply Ho].
  - intros [= <-]. rewrite weak_at_move, decide_True by done. simpl. by rewrite Hw.
  - intros v. rewrite weak_at_move, Hd. case_decide; [apply Hpd|].
    intros Hj. exfalso. assert (Some i = Some j) by (apply Ho; by rewrite Hj). congruence.
Qed.

(** A hart puts a new latest message: it takes the free lock or frees its own. *)
Lemma inv_publish s o top msg i p w t msg' o' :
  inv s o top msg → o = None ∨ o = Some i → o' = None ∨ o' = Some i →
  (top < t)%nat → (msg_val msg = MFree → t = S top) →
  msg_val msg' = (if o' is Some _ then MLocked else MFree) →
  (Spin.holds p ↔ o' = Some i) → (∀ v, p ≠ Spin.Reading v) →
  (o' = Some i → v_time w = t ∧ knows (v_seen w) (mem s)) →
  (o' = None → knows (msg_seen msg') (mem s)) →
  inv (move i p (w, add_message t msg' (mem s)) s) o' t msg'.
Proof.
  intros [Ht Hl Hm Hk Ho Hv Hf Hr Hn] Hoi Ho'i Htop Hnext Hval Hp Hpr Hw Hseen.
  assert (∀ t0, is_Some (history (mem s) !! t0) → t0 ≠ t) as Hfresh by (intros t0 Ht0%Hm; lia).
  split; simpl; try done.
  - by rewrite lookup_insert_eq.
  - intros t0. destruct (decide (t = t0)) as [->|Hne]; [lia|].
    rewrite lookup_insert_ne by done. intros ?%Hm. lia.
  - intros t0 m0. destruct (decide (t = t0)) as [->|Hne]; [done|].
    rewrite lookup_insert_ne by done. intros Hm0 Hfree _.
    destruct (decide (t0 = top)) as [->|Htop0].
    + rewrite Hnext, lookup_insert_eq by naive_solver. by eexists.
    + apply lookup_insert_is_Some'. right. by eapply Hk.
  - intros j. rewrite weak_at_move. case_decide; [by subst|]. rewrite Ho. naive_solver.
  - intros j Hj. rewrite weak_at_move, decide_True by naive_solver. apply Hw. naive_solver.
  - intros j v. rewrite weak_at_move. case_decide; [intros Hpv; by destruct (Hpr v)|apply Hr].
Qed.

(** The initial state. *)
Lemma inv_init d : inv (init d) None 0 (mkMessage MFree ∅).
Proof.
  assert (∀ i, at_ (init d) i = (Spin.Idle, view_start)) as Hat by done.
  split; simpl; try done; intros.
  - by apply lookup_singleton_is_Some in H as ->.
  - by apply lookup_singleton_Some in H as [<- _].
  - intros id Hid. simpl in Hid. lia.
Qed.

Lemma shows_move s x o i p r mx o' :
  shows s x o → mx = mkMutex (if o' is Some _ then MLocked else MFree) (value r.2) →
  shows (move i p r s) (Spin.move i p mx x) o'.
Proof.
  intros [_ Hh] ->. split; [done|]. intros j. rewrite weak_at_move, Spin.spin_at_move.
  by case_decide.
Qed.

(** What a step does to the invariant and shows. *)
Definition simulates (i : nat) (a : Spin.action) (s' : state) (x : Spin.state (T := T)) : Prop :=
  ∃ o' top' msg' acts x', inv s' o' top' msg' ∧ shows s' x' o' ∧
    run_trace Spin.step acts x = Some x' ∧ (acts = [(i, a)] ∨ acts = [] ∧ a = Spin.Cas).

Lemma simulates_one i a s' x x' o' top' msg' :
  inv s' o' top' msg' → Spin.step (i, a) x = Some x' → shows s' x' o' → simulates i a s' x.
Proof.
  intros Hinv Hx Hs. exists o', top', msg', [(i, a)], x'. split_and!; [done..| |by left].
  cbn [run_trace]. by rewrite Hx.
Qed.

Lemma exchange_shows i t s s' x o top msg :
  acquires (o_lock ord) = true → inv s o top msg → shows s x o →
  step (i, (Spin.Cas, t)) s = Some s' → simulates i Spin.Cas s' x.
Proof.
  intros Hacq Hinv Hs Hstep. pose proof Hinv as [Ht Hl Hm Hk Ho _ Hf _ _].
  pose proof Hs as [Hmx Hat]. specialize (Hat i). specialize (Ho i).
  unfold step, atomic_exchange in Hstep. destruct (at_ s i) as [p w] eqn:Hi. destruct p; try done.
  destruct (history (mem s) !! t) as [m0|] eqn:Hm0; [|done]. case_decide; [|done].
  case_decide as Hfree.
  - destruct (history (mem s) !! S t) eqn:Hnext; [done|]. injection Hstep as <-.
    destruct (decide (t = top)) as [->|Hne].
    2: { destruct (Hk _ _ Hm0 Hfree Hne). congruence. }
    assert (m0 = msg) as -> by congruence.
    assert (o = None) as -> by (destruct o; congruence). specialize (Hf eq_refl).
    unfold acquire_view. rewrite Hacq.
    eapply (simulates_one _ _ _ _ _ (Some i)).
    + eapply inv_publish; [exact Hinv|by left|by right|lia|done|done|done|done| |done].
      intros _. split; [done|]. intros id Hid%Hf. set_solver.
    + unfold Spin.step. rewrite Hat, Hmx. unfold compare_exchange. by rewrite decide_True.
    + by apply (shows_move _ _ None).
  - injection Hstep as <-. exists o, top, msg, [], x. split_and!; [|..|done|by right].
    + apply view_inv_quiet; [done|by rewrite Hi; intros []|by intros []].
    + split; [done|]. intros j. rewrite weak_at_move. case_decide; [by subst|apply Hs].
Qed.

Lemma access_shows i a s x o top msg p write d :
  inv s o top msg → shows s x o → Spin.holds (at_ s i).1 → Spin.holds p →
  (∀ v, p = Spin.Reading v → v = d) →
  Spin.step (i, a) x = Some (Spin.move i p (mkMutex MLocked d) x) →
  simulates i a (move i p (data_access write d (at_ s i).2 (mem s)) s) x.
Proof.
  intros Hinv Hs Hi Hp Hd Hx. pose proof Hinv as [_ _ _ _ Ho _ _ _ _]. apply Ho in Hi as ->.
  eapply simulates_one; [by apply inv_access|exact Hx|by apply (shows_move _ _ (Some i))].
Qed.

Lemma unlock_shows i t s x o top msg r :
  releases (o_unlock ord) = true → inv s o top msg → shows s x o → Spin.holds (at_ s i).1 →
  atomic_store (o_unlock ord) t MFree (at_ s i).2 (mem s) = Some r →
  simulates i Spin.DropGuard (move i Spin.Idle r s) x.
Proof.
  intros Hrel Hinv Hs Hi Hstore. pose proof Hinv as [_ Hl Hm _ Ho Hv _ _ _].
  pose proof Hi as Hi'. apply Ho in Hi as ->. destruct (Hv i eq_refl) as [Htime Hknow].
  pose proof Hs as [Hmx Hat]. specialize (Hat i). unfold atomic_store in Hstore.
  destruct (history (mem s) !! t); [done|]. case_decide; [|done]. injection Hstore as <-.
  unfold released. rewrite Hrel. eapply (simulates_one _ _ _ _ _ None).
  - eapply inv_publish; [exact Hinv|by right|by left|by rewrite <- Htime|by rewrite Hl|done|done|done|done|done].
  - unfold Spin.step. rewrite Hat. by destruct (at_ s i).1.
  - apply (shows_move _ _ (Some i)); [done|]. by rewrite Hmx.
Qed.

(** Every step is one of Sync.v, or an exchange that failed. *)
Lemma weak_step_shows i a t s s' x o top msg :
  acquires (o_lock ord) = true → releases (o_unlock ord) = true →
  inv s o top msg → shows s x o → step (i, (a, t)) s = Some s' → simulates i a s' x.
Proof.
  intros Hacq Hrel Hinv Hs Hstep. destruct a; [|by eapply exchange_shows|..];
  pose proof Hs as [Hmx Hat]; specialize (Hat i); pose proof (inv_owner _ _ _ _ Hinv i) as Ho;
  unfold step in Hstep; destruct (at_ s i) as [p w] eqn:Hi; simpl in Hat, Ho;
  replace w with (at_ s i).2 in Hstep by (by rewrite Hi);
  destruct p as [| | |v]; try done.
  - injection Hstep as <-. eapply (simulates_one _ _ _ _ _ o).
    + apply view_inv_quiet; [done|by rewrite Hi; intros []|by intros []].
    + unfold Spin.step. by rewrite Hat.
    + by apply (shows_move _ _ o).
  - injection Hstep as <-. eapply access_shows; [done..|by rewrite Hi|done|naive_solver|].
    unfold Spin.step. rewrite Hat, Hmx. simpl. destruct o; [done|naive_solver].
  - injection Hstep as <-. eapply access_shows; [done..|by rewrite Hi|done|naive_solver|].
    unfold Spin.step. rewrite Hat, Hmx. simpl. destruct o; [done|naive_solver].
  - destruct (atomic_store _ _ _ _ _) as [r|] eqn:Hst; [|done]. injection Hstep as <-.
    eapply unlock_shows; [done..|by rewrite Hi|exact Hst].
  - destruct (atomic_store _ _ _ _ _) as [r|] eqn:Hst; [|done]. injection Hstep as <-.
    eapply unlock_shows; [done..|by rewrite Hi|exact Hst].
Qed.

(** The actions of a run without their timestamps. *)
Definition erase (tr : list (nat * (Spin.action (T := T) * nat))) : list (nat * Spin.action) :=
  map (λ l, (l.1, l.2.1)) tr.

Lemma weak_run_shows d tr s :
  acquires (o_lock ord) = true → releases (o_unlock ord) = true →
  run_trace step tr (init d) = Some s →
  ∃ o top msg tr' x, inv s o top msg ∧ run_trace Spin.step tr' (Spin.init d) = Some x ∧ shows s x o ∧
    tr' `sublist_of` erase tr ∧ Spin.updates tr' = Spin.updates (erase tr).
Proof.
  intros Hacq Hrel. apply (run_trace_ind step (λ tr s, ∃ o top msg tr' x,
    inv s o top msg ∧ run_trace Spin.step tr' (Spin.init d) = Some x ∧ shows s x o ∧
    tr' `sublist_of` erase tr ∧ Spin.updates tr' = Spin.updates (erase tr))).
  - eexists _, _, _, [], _. split_and!; [apply inv_init|done|done|done|done].
  - intros tr1 [i [a t]] s1 s2 (o & top & msg & tr' & x & Hinv & Hx & Hs & Hsub & Hup) _ Hstep.
    destruct (weak_step_shows _ _ _ _ _ _ _ _ _ Hacq Hrel Hinv Hs Hstep)
      as (o' & top' & msg' & acts & x' & Hinv' & Hs' & Hacts & Hcase).
    exists o', top', msg', (tr' ++ acts), x'. unfold erase. rewrite map_app. simpl.
    split_and!; [done| |done| |].
    + rewrite run_trace_app, Hx. done.
    + apply sublist_app; [done|]. destruct Hcase as [->|[-> _]]; [done|]. apply sublist_nil_l.
    + fold (erase tr1). rewrite Spin.updates_snoc, <- Hup. destruct Hcase as [->|[-> ->]]; simpl.
      * by rewrite Spin.updates_snoc.
      * by rewrite !app_nil_r.
Qed.
End mutex.
End WeakMutex.

(** ** Once and OnceCell *)
Module WeakInit.
(** The [Ordering] arguments of [is_complete] and [call_once]. *)
Record orders : Type := mkOrders {
  o_check : Ordering; o_success : Ordering; o_failure : Ordering; o_done : Ordering }.
Definition source_orders : orders := mkOrders Acquire AcqRel Acquire Release.

Section cell.
Context {T : Type} (ord : orders).

Record state : Type := mkState {
  mem : memory OnceState (option T); harts : gmap nat (Init.point (T := T) * view) }.

Definition at_ (s : state) (i : nat) : Init.point * view := default (Init.Idle, view_start) (harts s !! i).
Definition move (i : nat) (p : Init.point) (r : view * memory OnceState (option T)) (s : state) : state :=
  {| mem := r.2; harts := <[i := (p, r.1)]> (harts s) |}.

(** [is_complete] with the message at [t]: the next point if it answers yes or no. *)
Definition check (i t : nat) (yes no : Init.point) (w : view) (s : state) : option state :=
  match atomic_load (o_check ord) t w (mem s) with
  | Some (st, w') => Some (move i (if decide (st = Completed) then yes else no) (w', mem s) s)
  | None => None
  end.

(** The actions of [Init], with the timestamp of the atomic access. *)
Definition step (l : nat * (Init.action (T := T) * nat)) (s : state) : option state :=
  let '(i, (a, t)) := l in
  let '(p, w) := at_ s i in
  let m := mem s in
  match a, p with
  | Init.Call, (Init.Idle | Init.Returned _) => Some (move i Init.Check (w, m) s)
  | Init.Go, Init.Check => check i t Init.Unwrapping Init.Exchange w s
  | Init.Go, Init.Exchange =>
    match atomic_exchange (o_success ord) (o_failure ord) t Incomplete InProgress w m with
    | Some (ok, w', m') => Some (move i (if ok then Init.Running else Init.Waiting) (w', m') s)
    | None => None
    end
  | Init.Closure v, Init.Running => Some (move i Init.Storing (data_write (Some v) w m) s)
  | Init.ClosurePanic, Init.Running => Some (move i Init.Panicked (w, m) s)
  | Init.Go, Init.Storing =>
    match atomic_store (o_done ord) t Completed w m with
    | Some r => Some (move i Init.Unwrapping r s)
    | None => None
    end
  | Init.Go, Init.Waiting => check i t Init.Unwrapping Init.Waiting w s
  | Init.Go, Init.Unwrapping =>
    Some (move i (match value m with Some v => Init.Returned v | None => Init.Crashed end)
            (data_read w m) s)
  | _, _ => None
  end.

Definition init : state := {| mem := memory_new Incomplete None; harts := ∅ |}.

Lemma cell_at_move i p r s j : at_ (move i p r s) j = if decide (i = j) then (p, r.1) else at_ s j.
Proof.
  unfold at_, move. simpl. case_decide as Hij; [subst; by rewrite lookup_insert_eq|].
  by rewrite lookup_insert_ne.
Qed.

(** A hart that has not read [Completed] yet is, for Sync.v, about to look. *)
Definition settled (p : Init.point (T := T)) : Init.point :=
  match p with Init.Exchange | Init.Waiting => Init.Check | p => p end.

Record shows (s : state) (x : Init.state (T := T)) : Prop := {
  shows_value : oc_value (Init.shared x) = value (mem s);
  shows_harts : ∀ i, Init.at_ x i = settled (at_ s i).1;
}.

Definition known_point (p : Init.point (T := T)) : bool :=
  match p with Init.Storing | Init.Unwrapping => true | _ => false end.
Definition winner_point (p : Init.point (T := T)) : bool :=
  match p with Init.Running | Init.Storing => true | _ => false end.

(** The messages of the byte when its last one is [st], and the accesses: the
    write of the closure, which a hart past the check knows, then reads. *)
Definition message_ok (st : OnceState) (t : nat) (msg : message OnceState) : Prop :=
  match msg_val msg with
  | Incomplete => t = 0%nat
  | InProgress => t = 1%nat ∧ st ≠ Incomplete
  | Completed => (2 ≤ t)%nat ∧ st = Completed ∧ 0%nat ∈ msg_seen msg
  end.
Definition accesses_ok (val : option T) (acc : list bool) : Prop :=
  match val with None => acc = [] | Some _ => ∃ l, acc = true :: l ∧ Forall (λ b, b = false) l end.

Record inv (s : state) (st : OnceState) : Prop := {
  inv_msg : ∀ t msg, history (mem s) !! t = Some msg → message_ok st t msg;
  inv_first : st ≠ Incomplete → is_Some (history (mem s) !! 1%nat);
  inv_acc : accesses_ok (value (mem s)) (accesses (mem s));
  inv_known : ∀ i, known_point (at_ s i).1 = true → 0%nat ∈ v_seen (at_ s i).2;
  inv_time : ∀ i, winner_point (at_ s i).1 = true → (1 ≤ v_time (at_ s i).2)%nat;
  inv_race : raced (mem s) = false;
}.

Definition erase (tr : list (nat * (Init.action (T := T) * nat))) : list (nat * Init.action) :=
  map (λ l, (l.1, l.2.1)) tr.

(** The invariant after a hart moved. *)
Lemma cell_inv_move s st i p w m st' :
  inv s st →
  (∀ t msg, history m !! t = Some msg → message_ok st' t msg) →
  (st' ≠ Incomplete → is_Some (history m !! 1%nat)) →
  accesses_ok (value m) (accesses m) → raced m = false →
  (known_point p = true → 0%nat ∈ v_seen w) → (winner_point p = true → (1 ≤ v_time w)%nat) →
  inv (move i p (w, m) s) st'.
Proof.
  intros [_ _ _ Hk Ht _] Hm Hf Ha Hr Hp Hw.
  split; try done; intros j; rewrite cell_at_move; case_decide; auto.
Qed.

(** A hart moves and leaves the memory alone. *)
Lemma cell_inv_quiet s st i p w :
  inv s st → (known_point p = true → 0%nat ∈ v_seen w) → winner_point p = false →
  inv (move i p (w, mem s) s) st.
Proof. intros Hinv Hp Hw. apply (cell_inv_move _ st); try done; try apply Hinv. by rewrite Hw. Qed.

Lemma cell_shows_move s x i p r oc q :
  shows s x → oc_value oc = value r.2 → q = settled p →
  shows (move i p r s) (Init.move i q oc x).
Proof.
  intros [_ Hh] Hv ->. split; [done|]. intros j. rewrite cell_at_move, Init.once_at_move. by case_decide.
Qed.

(** A step, and the steps of Sync.v it stands for. *)
Definition simulates (i : nat) (a : Init.action) (s' : state) (x : Init.state (T := T)) : Prop :=
  ∃ acts x', run_trace Init.step acts x = Some x' ∧ inv s' (oc_once (Init.shared x')) ∧ shows s' x' ∧
    Init.closures acts = Init.closures [(i, a)].

Lemma simulates_none i s' x st :
  inv s' st → st = oc_once (Init.shared x) → shows s' x → simulates i Init.Go s' x.
Proof. intros Hinv -> Hs. by exists [], x. Qed.

Lemma simulates_step i a s' x x' st :
  Init.step (i, a) x = Some x' → inv s' st → st = oc_once (Init.shared x') → shows s' x' →
  simulates i a s' x.
Proof.
  intros Hx Hinv -> Hs. exists [(i, a)], x'. split_and!; [|done..]. cbn [run_trace]. by rewrite Hx.
Qed.

Lemma cell_shows_stay s x i p r :
  shows s x → r.2 = mem s → settled p = Init.at_ x i → shows (move i p r s) x.
Proof.
  intros [Hv Hh] Hr Hp. split; [simpl; by rewrite Hr|].
  intros j. rewrite cell_at_move. case_decide; [by subst|apply Hh].
Qed.

(** [is_complete], from the first check or from the waiting loop. *)
Lemma check_shows i t no w s s' x :
  acquires (o_check ord) = true → inv s (oc_once (Init.shared x)) → shows s x →
  Init.at_ x i = Init.Check → settled no = Init.Check → winner_point no = false → known_point no = false →
  check i t Init.Unwrapping no w s = Some s' → simulates i Init.Go s' x.
Proof.
  intros Hacq Hinv Hs Hi Hset Hno Hkn Hck. pose proof Hinv as [Hm _ _ _ _ _].
  unfold check, atomic_load in Hck. destruct (history (mem s) !! t) as [msg|] eqn:Ht; [|done].
  destruct (decide (v_time w ≤ t)%nat); [|done]. injection Hck as <-.
  specialize (Hm _ _ Ht). unfold message_ok, acquire_view in *. rewrite Hacq.
  destruct (decide (msg_val msg = Completed)) as [Hc|Hc].
  - rewrite Hc in Hm. destruct Hm as (_ & Hst & Hseen).
    eapply (simulates_step _ _ _ _ _ (oc_once (Init.shared x))).
    + unfold Init.step. by rewrite Hi, decide_True by done.
    + apply cell_inv_quiet; [done|set_solver|done].
    + done.
    + apply cell_shows_move; [done|apply Hs|done].
  - eapply simulates_none; [|done|].
    + apply cell_inv_quiet; [done|by rewrite Hkn|done].
    + apply cell_shows_stay; [done|done|by rewrite Hi].
Qed.

Lemma exchange_cell_shows i t w s s' x ok w' m' :
  inv s (oc_once (Init.shared x)) → shows s x → Init.at_ x i = Init.Check →
  atomic_exchange (o_success ord) (o_failure ord) t Incomplete InProgress w (mem s) = Some (ok, w', m') →
  s' = move i (if ok then Init.Running else Init.Waiting) (w', m') s → simulates i Init.Go s' x.
Proof.
  intros Hinv Hs Hi Hx ->. pose proof Hinv as [Hm Hf Ha _ _ Hr].
  unfold atomic_exchange in Hx. destruct (history (mem s) !! t) as [msg|] eqn:Ht; [|done].
  destruct (decide (v_time w ≤ t)%nat); [|done].
  destruct (decide (msg_val msg = Incomplete)) as [Hc|Hc].
  - destruct (history (mem s) !! S t) eqn:Hnext; [done|]. injection Hx as <- <- <-.
    pose proof (Hm _ _ Ht) as Ht0. unfold message_ok in Ht0. rewrite Hc in Ht0. subst t.
    assert (oc_once (Init.shared x) = Incomplete) as Hst.
    { destruct (decide (oc_once (Init.shared x) = Incomplete)) as [|Hn]; [done|].
      destruct (Hf Hn). congruence. }
    exists [(i, Init.Go); (i, Init.Go)]. eexists. split_and!; [| | |done].
    + cbn [run_trace]. unfold Init.step at 1. rewrite Hi, decide_False by (by rewrite Hst). cbn [run_trace].
      unfold Init.step. rewrite Init.once_at_move, decide_True by done. simpl. rewrite Hst. simpl. done.
    + eapply cell_inv_move; [done|..]; try done; simpl.
      * intros t msg'. destruct (decide (t = 1%nat)) as [->|Hne].
        -- rewrite lookup_insert_eq. by intros [= <-].
        -- rewrite lookup_insert_ne by done. intros Hmsg. specialize (Hm _ _ Hmsg).
           unfold message_ok in *. rewrite Hst in Hm. destruct (msg_val msg'); naive_solver.
      * intros _. rewrite lookup_insert_eq. by eexists.
    + split; [apply Hs|]. intros j. rewrite cell_at_move, !Init.once_at_move.
      case_decide; [done|apply Hs].
  - injection Hx as <- <- <-. eapply simulates_none; [|done|].
    + by apply cell_inv_quiet.
    + apply cell_shows_stay; [done|done|by rewrite Hi].
Qed.

(** A step of Sync.v that accesses nothing. *)
Lemma quiet_shows i a p w s x :
  inv s (oc_once (Init.shared x)) → shows s x →
  known_point p = false → winner_point p = false → settled p = p →
  Init.step (i, a) x = Some (Init.move i p (Init.shared x) x) →
  simulates i a (move i p (w, mem s) s) x.
Proof.
  intros Hinv Hs Hk Hw Hp Hx. eapply simulates_step; [exact Hx| |done|].
  - apply cell_inv_quiet; [done|by rewrite Hk|done].
  - apply cell_shows_move; [done|apply Hs|done].
Qed.

(** The closure writes the value. *)
Lemma closure_shows i v s x :
  inv s (oc_once (Init.shared x)) → shows s x → Init.at_ x i = Init.Running → (at_ s i).1 = Init.Running →
  value (mem s) = None →
  simulates i (Init.Closure v) (move i Init.Storing (data_write (Some v) (at_ s i).2 (mem s)) s) x.
Proof.
  intros Hinv Hs Hi Hp Hv. pose proof Hinv as [Hm Hf Ha _ Ht Hr]. rewrite Hv in Ha. simpl in Ha.
  eapply (simulates_step _ _ _ _ _ (oc_once (Init.shared x))).
  - unfold Init.step. by rewrite Hi.
  - unfold data_write, data_access, ordered, conflicts. rewrite Ha. simpl.
    eapply cell_inv_move; [done|done|done|..].
    + by exists [].
    + simpl. by rewrite Hr.
    + set_solver.
    + intros _. simpl. apply Ht. by rewrite Hp.
  - done.
  - by apply cell_shows_move.
Qed.

(** The final store. *)
Lemma storing_shows i t s x r :
  releases (o_done ord) = true →
  inv s (oc_once (Init.shared x)) → shows s x → Init.at_ x i = Init.Storing → (at_ s i).1 = Init.Storing →
  oc_once (Init.shared x) = InProgress →
  atomic_store (o_done ord) t Completed (at_ s i).2 (mem s) = Some r →
  simulates i Init.Go (move i Init.Unwrapping r s) x.
Proof.
  intros Hrel Hinv Hs Hi Hp Hst Hr. pose proof Hinv as [Hm Hf Ha Hk Ht Hrc].
  specialize (Hk i). specialize (Ht i). rewrite Hp in Hk, Ht. specialize (Hk eq_refl). specialize (Ht eq_refl).
  unfold atomic_store in Hr. destruct (history (mem s) !! t) eqn:Hfresh; [done|].
  case_decide; [|done]. injection Hr as <-. unfold released. rewrite Hrel.
  eapply (simulates_step _ _ _ _ _ Completed).
  - unfold Init.step. by rewrite Hi.
  - eapply cell_inv_move; [done|..]; simpl; try done.
    + intros t' msg'. destruct (decide (t = t')) as [<-|Hne].
      * rewrite lookup_insert_eq. intros [= <-]. split; [lia|]. by split.
      * rewrite lookup_insert_ne by done. intros Hmsg. specialize (Hm _ _ Hmsg).
        unfold message_ok in *. rewrite Hst in Hm. destruct (msg_val msg'); naive_solver.
    + intros _. apply lookup_insert_is_Some'. right. apply Hf. by rewrite Hst.
  - done.
  - apply cell_shows_move; [done|apply Hs|done].
Qed.

(** The [unwrap] reads a value it is ordered after. *)
Lemma unwrapping_shows i v s x :
  inv s (oc_once (Init.shared x)) → shows s x → Init.at_ x i = Init.Unwrapping → (at_ s i).1 = Init.Unwrapping →
  value (mem s) = Some v →
  simulates i Init.Go (move i (Init.Returned v) (data_read (at_ s i).2 (mem s)) s) x.
Proof.
  intros Hinv Hs Hi Hp Hv. pose proof Hinv as [Hm Hf Ha Hk Ht Hr].
  specialize (Hk i). rewrite Hp in Hk. specialize (Hk eq_refl).
  rewrite Hv in Ha. destruct Ha as (l & Hacc & Hl).
  eapply (simulates_step _ _ _ _ _ (oc_once (Init.shared x))).
  - unfold Init.step. rewrite Hi. destruct Hs as [Hval _]. by rewrite Hval, Hv.
  - eapply cell_inv_move; [done|..]; simpl; try done.
    + rewrite Hv. exists (l ++ [false]). rewrite Hacc. split; [done|]. by apply Forall_app_2, Forall_singleton.
    + rewrite Hr. simpl. apply negb_false_iff, ordered_spec. intros id [Hid [?|Hid']]%conflicts_elem; [done|].
      rewrite Hacc in Hid'. destruct id as [|id]; [done|]. simpl in Hid'.
      by specialize (Forall_lookup_1 _ _ _ _ Hl Hid').
  - done.
  - apply cell_shows_move; [done|apply Hs|done].
Qed.

(** Every step is one of Sync.v, two of them, or none. *)
Lemma cell_step_shows i a t s s' x tr w :
  acquires (o_check ord) = true → releases (o_done ord) = true →
  Init.inv tr x w → inv s (oc_once (Init.shared x)) → shows s x →
  step (i, (a, t)) s = Some s' → simulates i a s' x.
Proof.
  intros Hacq Hrel Hx Hinv Hs Hstep. pose proof (Init.inv_point _ _ _ Hx i) as Hal.
  pose proof (Init.inv_done _ _ _ Hx) as Hdone.
  pose proof (shows_harts _ _ Hs i) as Hat. pose proof (shows_value _ _ Hs) as Hval.
  unfold step in Hstep. destruct (at_ s i) as [p w0] eqn:Hi. simpl in Hat.
  assert (w0 = (at_ s i).2) as Hw0 by (by rewrite Hi).
  assert (p = (at_ s i).1) as Hp0 by (by rewrite Hi).
  destruct a, p as [| | | | | | |u| |]; try done; simpl in Hat; rewrite Hat in Hal; simpl in Hal.
  - injection Hstep as <-. apply quiet_shows; [done..|]. unfold Init.step. by rewrite Hat.
  - injection Hstep as <-. apply quiet_shows; [done..|]. unfold Init.step. by rewrite Hat.
  - by eapply (check_shows _ _ Init.Exchange).
  - destruct (atomic_exchange _ _ _ _ _ _ _) as [[[ok w'] m']|] eqn:Hex; [|done].
    injection Hstep as <-. by eapply exchange_cell_shows.
  - destruct (atomic_store _ _ _ _ _) as [r|] eqn:Hst; [|done]. injection Hstep as <-. subst w0.
    destruct Hal as (? & _ & _). by eapply storing_shows.
  - by eapply (check_shows _ _ Init.Waiting).
  - destruct (Hdone Hal) as (v & Hv & _). rewrite Hval in Hv.
    injection Hstep as <-. subst w0. rewrite Hv. by apply unwrapping_shows.
  - injection Hstep as <-. subst w0. apply closure_shows; try done. rewrite <- Hval. tauto.
  - injection Hstep as <-. apply quiet_shows; [done..|]. unfold Init.step. by rewrite Hat.
Qed.

Lemma cell_init : inv init Incomplete ∧ shows init (Init.init (T := T)).
Proof.
  split; split; try done; simpl.
  intros t msg [<- <-]%lookup_singleton_Some. done.
Qed.

Lemma cell_run_shows tr s :
  acquires (o_check ord) = true → releases (o_done ord) = true →
  run_trace step tr init = Some s →
  ∃ tr' x, run_trace Init.step tr' Init.init = Some x ∧ inv s (oc_once (Init.shared x)) ∧ shows s x ∧
    Init.closures tr' = Init.closures (erase tr).
Proof.
  intros Hacq Hrel. apply (run_trace_ind step (λ tr s, ∃ tr' x,
    run_trace Init.step tr' Init.init = Some x ∧ inv s (oc_once (Init.shared x)) ∧ shows s x ∧
    Init.closures tr' = Init.closures (erase tr))).
  - by exists [], Init.init; destruct cell_init.
  - intros tr1 [i [a t]] s1 s2 (tr' & x & Hx & Hinv & Hs & Hcl) _ Hstep.
    destruct (Init.once_inv_run _ _ Hx) as [w Hw].
    destruct (cell_step_shows _ _ _ _ _ _ _ _ Hacq Hrel Hw Hinv Hs Hstep) as (acts & x' & Hacts & Hinv' & Hs' & Hc).
    exists (tr' ++ acts), x'. split_and!; [by rewrite run_trace_app, Hx|done|done|].
    unfold erase. rewrite map_app. fold (erase tr1). simpl.
    unfold Init.closures in *. by rewrite !omap_app, Hcl, Hc.
Qed.
End cell.
End WeakInit.

(** ** The orderings of the source *)

(** C20. With the orderings of the source no two harts race on the data of a [Mutex],
    and every run on the weak memory is one of the interleavings of Sync.v: the
    harts are at the same points, the data and the updates are the same, and only
    exchanges that failed are left out. *)
Theorem mutex_orders_suffice {T} (d : T) tr s :
  run_trace (WeakMutex.step WeakMutex.source_orders) tr (WeakMutex.init d) = Some s →
  raced (WeakMutex.mem s) = false ∧
  ∃ tr' x, run_trace Spin.step tr' (Spin.init d) = Some x ∧
    mx_data (Spin.shared x) = value (WeakMutex.mem s) ∧
    (∀ i, Spin.at_ x i = (WeakMutex.at_ s i).1) ∧
    tr' `sublist_of` WeakMutex.erase tr ∧
    Spin.updates tr' = Spin.updates (WeakMutex.erase tr).
Proof.
  intros (o & top & msg & tr' & x & Hinv & Hx & [Hsh Hh] & Hsub & Hup)%WeakMutex.weak_run_shows; [|done..].
  split; [apply Hinv|]. exists tr', x. by rewrite Hsh.
Qed.

(** C23. With the orderings of the source the value of a [OnceCell] is written before
    every read of it, without a race, and every run on the weak memory is one of
    the interleavings of Sync.v, with the same value and the same closures. *)
Theorem once_orders_suffice {T} tr (s : WeakInit.state (T := T)) :
  run_trace (WeakInit.step WeakInit.source_orders) tr WeakInit.init = Some s →
  raced (WeakInit.mem s) = false ∧
  ∃ tr' x, run_trace Init.step tr' Init.init = Some x ∧
    oc_value (Init.shared x) = value (WeakInit.mem s) ∧
    (∀ i, Init.at_ x i = WeakInit.settled (WeakInit.at_ s i).1) ∧
    Init.closures tr' = Init.closures (WeakInit.erase tr).
Proof.
  intros (tr' & x & Hx & Hinv & [Hv Hh] & Hcl)%WeakInit.cell_run_shows; [|done..].
  split; [apply Hinv|]. by exists tr', x.
Qed.

(** The runs that race when a hart does not come after the one before it: hart 0
    works on the data, then hart 1 does. *)
Definition mutex_handover {T} : list (nat * (Spin.action (T := T) * nat)) :=
  [(0, (Spin.Lock, 0)); (0, (Spin.Cas, 0)); (0, (Spin.Deref, 0)); (0, (Spin.DerefMut id, 0));
   (0, (Spin.DropGuard, 2)); (1, (Spin.Lock, 0)); (1, (Spin.Cas, 2)); (1, (Spin.Deref, 0))]%nat.
Definition once_handover {T} (v : T) : list (nat * (Init.action (T := T) * nat)) :=
  [(0, (Init.Call, 0)); (0, (Init.Go, 0)); (0, (Init.Go, 0)); (0, (Init.Closure v, 0));
   (0, (Init.Go, 2)); (1, (Init.Call, 0)); (1, (Init.Go, 2)); (1, (Init.Go, 0))]%nat.

Lemma mutex_handover_races {T} (d : T) ord :
  acquires (WeakMutex.o_lock ord) && releases (WeakMutex.o_unlock ord) = false →
  ∃ s, run_trace (WeakMutex.step ord) mutex_handover (WeakMutex.init d) = Some s ∧
    raced (WeakMutex.mem s) = true.
Proof. destruct ord as [[] ? []]; intros [=]; (eexists; split; [vm_compute; reflexivity|reflexivity]). Qed.
Lemma once_handover_races {T} (v : T) ord :
  acquires (WeakInit.o_check ord) && releases (WeakInit.o_done ord) = false →
  ∃ s, run_trace (WeakInit.step ord) (once_handover v) WeakInit.init = Some s ∧
    raced (WeakInit.mem s) = true.
Proof. destruct ord as [[] ? ? []]; intros [=]; (eexists; split; [vm_compute; reflexivity|reflexivity]). Qed.

(** C24. Which orderings matter: a [Mutex] is free of data races exactly when the
    exchange of [lock] acquires and the store of the guard's [drop] releases, and a
    [OnceCell] exactly when the load of [is_complete] acquires and the last store of
    [call_once] releases; the orderings of its exchange do not matter. *)
Theorem orders_needed {T} (d : T) :
  (∀ ord, (∀ tr s, run_trace (WeakMutex.step ord) tr (WeakMutex.init d) = Some s →
                   raced (WeakMutex.mem s) = false) ↔
          acquires (WeakMutex.o_lock ord) && releases (WeakMutex.o_unlock ord) = true) ∧
  (∀ ord, (∀ tr s, run_trace (WeakInit.step (T := T) ord) tr WeakInit.init = Some s →
                   raced (WeakInit.mem s) = false) ↔
          acquires (WeakInit.o_check ord) && releases (WeakInit.o_done ord) = true).
Proof.
  split; intros ord; split.
  - intros Hfree. destruct (_ && _) eqn:Hord; [done|].
    destruct (mutex_handover_races d ord Hord) as (s & Hrun%Hfree & Hr). congruence.
  - intros [Ha Hr]%andb_true_iff tr s (o & top & msg & tr' & x & Hinv & _)%WeakMutex.weak_run_shows; [|done..].
    apply Hinv.
  - intros Hfree. destruct (_ && _) eqn:Hord; [done|].
    destruct (once_handover_races d ord Hord) as (s & Hrun%Hfree & Hr). congruence.
  - intros [Ha Hr]%andb_true_iff tr s (tr' & x & _ & Hinv & _)%WeakInit.cell_run_shows; [|done..].
    apply Hinv.
Qed.
