(* ===== verification/Machine.v ===== *)
(** * The hart: registers, CSRs, memory, and the instructions of the assembly
    blocks of the kernel.

    The kernel has two routines written in assembly, [switch_context] and
    [trap_entry].  Their instructions are data here and [exec] runs them.  Integer registers hold 32
    bits; [zero] is not used by the routines.  Addresses are physical: the kernel
    only ever installs page tables that map its own memory to itself. *)
From S2P Require Import Prelude Ram.

Inductive reg : Type :=
  | RA | SP | GP | TP | T0 | T1 | T2 | T3 | T4 | T5 | T6
  | A0 | A1 | A2 | A3 | A4 | A5 | A6 | A7
  | S0 | S1 | S2 | S3 | S4 | S5 | S6 | S7 | S8 | S9 | S10 | S11.
#[export] Instance reg_eq_dec : EqDecision reg.
Proof. solve_decision. Defined.

Inductive csr : Type := SATP | SSCRATCH | STVEC | SCAUSE | STVAL | SEPC.
#[export] Instance csr_eq_dec : EqDecision csr.
Proof. solve_decision. Defined.

Record Machine : Type := mkMachine {
  regs : reg → Z;
  csrs : csr → Z;
  pc : Z;
  m_ram : Ram;
}.

Definition fn_set {A} `{EqDecision A} (x : A) (v : Z) (f : A → Z) : A → Z :=
  λ y, if decide (x = y) then v else f y.

Definition set_reg (r : reg) (v : Z) (m : Machine) : Machine :=
  mkMachine (fn_set r v m.(regs)) m.(csrs) m.(pc) m.(m_ram).
Definition set_csr (c : csr) (v : Z) (m : Machine) : Machine :=
  mkMachine m.(regs) (fn_set c v m.(csrs)) m.(pc) m.(m_ram).
Definition set_pc (v : Z) (m : Machine) : Machine :=
  mkMachine m.(regs) m.(csrs) v m.(m_ram).
Definition set_m_ram (r : Ram) (m : Machine) : Machine :=
  mkMachine m.(regs) m.(csrs) m.(pc) r.

(** The macros [read_csr!] and [write_csr!]. *)
Definition read_csr (c : csr) : M Machine Z := gets (λ m, m.(csrs) c).
Definition write_csr (c : csr) (v : Z) : M Machine () := modify (set_csr c v).

(** [off(base)] is [base + off] modulo 2^32. *)
Inductive instr : Type :=
  | Addi (rd rs : reg) (imm : Z)
  | Mv (rd rs : reg)
  | Sw (rs : reg) (off : Z) (base : reg)
  | Lw (rd : reg) (off : Z) (base : reg)
  | Csrr (rd : reg) (c : csr)
  | Csrw (c : csr) (rs : reg)
  | Csrrw (rd : reg) (c : csr) (rs : reg)
  | Call (link : Z) (f : M Machine ())
  | Return
  | Sret.

Definition effective (off : Z) (base : reg) (m : Machine) : Z := wrap (m.(regs) base + off).

(** One instruction.  [Call] puts the address of the instruction after it, [link],
    in [ra] and runs the callee to its return; [Return] and [Sret]
    leave for the address in [ra] and in [sepc]. *)
Definition exec1 (i : instr) : M Machine () := λ m,
  match i with
  | Addi rd rs imm => Ret tt (set_reg rd (wrap (m.(regs) rs + imm)) m)
  | Mv rd rs => Ret tt (set_reg rd (m.(regs) rs) m)
  | Sw rs off base => Ret tt (set_m_ram (store32 (effective off base m) (m.(regs) rs) m.(m_ram)) m)
  | Lw rd off base => Ret tt (set_reg rd (load32 m.(m_ram) (effective off base m)) m)
  | Csrr rd c => Ret tt (set_reg rd (m.(csrs) c) m)
  | Csrw c rs => Ret tt (set_csr c (m.(regs) rs) m)
  | Csrrw rd c rs => Ret tt (set_reg rd (m.(csrs) c) (set_csr c (m.(regs) rs) m))
  | Call link f => f (set_reg RA link m)
  | Return => Ret tt (set_pc (m.(regs) RA) m)
  | Sret => Ret tt (set_pc (m.(csrs) SEPC) m)
  end.

Fixpoint exec (code : list instr) : M Machine () :=
  match code with
  | [] => ret tt
  | i :: code => exec1 i;;! exec code
  end.

Lemma exec_step i code m m' : exec1 i m = Ret tt m' → exec (i :: code) m = exec code m'.
Proof. intros Hi. cbn [exec]. unfold bind. by rewrite Hi. Qed.

Lemma exec_call link f code m : exec (Call link f :: code) m = (f;;! exec code) (set_reg RA link m).
Proof. reflexivity. Qed.

Lemma exec_app c1 c2 m : exec (c1 ++ c2) m = (exec c1;;! exec c2) m.
Proof.
  revert m. induction c1 as [|i c1 IH]; intros m; [done|]. simpl. unfold bind in *.
  destruct (exec1 i m); [apply IH|done..].
Qed.

(** Code that calls nothing always runs to its end. *)
Definition calls_nothing (i : instr) : bool := match i with Call _ _ => false | _ => true end.

Lemma exec_total code m : forallb calls_nothing code = true → ∃ m', exec code m = Ret tt m'.
Proof.
  revert m. induction code as [|i code IH]; intros m Hc; [by eexists|].
  simpl in Hc. apply andb_prop in Hc as [Hi Hc].
  destruct i; try discriminate Hi; (erewrite exec_step by reflexivity); by apply IH.
Qed.

(** ** Saving and restoring runs of registers *)

(** [sw r_i, 4*(n+i)(sp)] and [lw r_i, 4*(n+i)(sp)] for the registers of a list. *)
Fixpoint save (rs : list reg) (n : Z) : list instr :=
  match rs with [] => [] | r :: rs => Sw r (n * 4) SP :: save rs (n + 1) end.
Fixpoint restore (rs : list reg) (n : Z) : list instr :=
  match rs with [] => [] | r :: rs => Lw r (n * 4) SP :: restore rs (n + 1) end.

(** The words a list of values leaves in memory from [a] on. *)
Fixpoint store_words (a : Z) (ws : list Z) (r : Ram) : Ram :=
  match ws with [] => r | w :: ws => store_words (a + 4) ws (store32 a w r) end.

Definition word (x : Z) : Prop := 0 ≤ x < USIZE_MOD.

(** [words_at r a ws]: memory holds the words [ws] from [a] on. *)
Definition words_at (r : Ram) (a : Z) (ws : list Z) : Prop :=
  ∀ (i : nat) w, ws !! i = Some w → load32 r (a + 4 * Z.of_nat i) = w.

Lemma load8_store_words_ne r a ws b :
  ¬ (a ≤ b < a + 4 * zlen ws) → load8 (store_words a ws r) b = load8 r b.
Proof.
  revert a r. induction ws as [|w ws IH]; intros a r Hb; [done|]. simpl.
  unfold zlen in *. simpl length in Hb. rewrite IH, load8_store32_ne by lia. done.
Qed.

Lemma load32_store_words_ne r a ws b :
  b + 4 ≤ a ∨ a + 4 * zlen ws ≤ b → load32 (store_words a ws r) b = load32 r b.
Proof. intros Hb. apply load32_ext. intros c Hc. apply load8_store_words_ne. lia. Qed.

Lemma words_at_store r a ws : Forall word ws → words_at (store_words a ws r) a ws.
Proof.
  intros Hws. revert a r. induction Hws as [|w ws Hw Hws IH]; intros a r i x Hi; [done|]. simpl.
  destruct i as [|i]; simpl in Hi.
  - injection Hi as <-. rewrite Z.add_0_r, load32_store_words_ne by lia.
    by apply load32_store32_eq.
  - specialize (IH (a + 4) (store32 a w r) i x Hi). rewrite <- IH. f_equal. lia.
Qed.

Lemma words_at_ext r r' a ws :
  (∀ b, a ≤ b < a + 4 * zlen ws → load8 r' b = load8 r b) → words_at r a ws → words_at r' a ws.
Proof.
  intros Hb Hw i w Hi. rewrite <- (Hw i w Hi). apply load32_ext. intros c Hc.
  apply Hb. apply lookup_lt_Some in Hi. unfold zlen. lia.
Qed.

(** Running [save] and [restore] when the frame does not wrap around. *)
Definition frame_ok (a n : Z) : Prop := 0 ≤ a ∧ a + 4 * n ≤ USIZE_MOD.

Lemma exec_save rs n m :
  0 ≤ n → frame_ok (regs m SP) (n + zlen rs) →
  exec (save rs n) m =
  Ret tt (set_m_ram (store_words (regs m SP + 4 * n) (map (regs m) rs) (m_ram m)) m).
Proof.
  unfold frame_ok. revert n m. induction rs as [|r rs IH]; intros n m Hn Hf.
  - simpl. by destruct m.
  - unfold zlen in *. simpl length in Hf. cbn [save exec]. unfold bind. cbn [exec1].
    rewrite IH by (simpl; lia). destruct m as [rg cs p rm]. simpl. unfold set_m_ram, effective, wrap. simpl.
    cbn [regs] in Hf. rewrite Z.mod_small by lia.
    replace (rg SP + n * 4) with (rg SP + 4 * n) by lia.
    by replace (rg SP + 4 * (n + 1)) with (rg SP + 4 * n + 4) by lia.
Qed.

(** The registers after [restore]: the words of the frame. *)
Fixpoint load_regs (rs : list reg) (ws : list Z) (m : Machine) : Machine :=
  match rs, ws with
  | r :: rs, w :: ws => load_regs rs ws (set_reg r w m)
  | _, _ => m
  end.

Lemma exec_restore rs ws n m :
  0 ≤ n → SP ∉ rs → length ws = length rs → frame_ok (regs m SP) (n + zlen rs) →
  words_at (m_ram m) (regs m SP + 4 * n) ws →
  exec (restore rs n) m = Ret tt (load_regs rs ws m).
Proof.
  unfold frame_ok. revert ws n m. induction rs as [|r rs IH]; intros ws n m Hn Hsp Hlen Hf Hw.
  - done.
  - destruct ws as [|w ws]; [done|]. apply not_elem_of_cons in Hsp as [Hr Hsp].
    unfold zlen in *. simpl length in *. cbn [restore exec]. unfold bind. cbn [exec1].
    assert (load32 (m_ram m) (effective (n * 4) SP m) = w) as ->.
    { unfold effective, wrap. rewrite Z.mod_small by lia.
      rewrite <- (Hw 0%nat w eq_refl). f_equal. lia. }
    assert (regs (set_reg r w m) SP = regs m SP) as Hsp'.
    { simpl. unfold fn_set. by rewrite decide_False by congruence. }
    cbn [load_regs]. apply IH; rewrite ?Hsp'; try lia; try done.
    intros i x Hi. rewrite <- (Hw (S i) x Hi). f_equal. lia.
Qed.

Lemma load_regs_other rs ws m :
  csrs (load_regs rs ws m) = csrs m ∧ pc (load_regs rs ws m) = pc m ∧
  m_ram (load_regs rs ws m) = m_ram m ∧ ∀ r, r ∉ rs → regs (load_regs rs ws m) r = regs m r.
Proof.
  revert ws m. induction rs as [|x rs IH]; intros [|w ws] m; try done. cbn [load_regs].
  destruct (IH ws (set_reg x w m)) as (-> & -> & -> & Hr). split_and!; [done..|].
  intros r [Hx Hin]%not_elem_of_cons. rewrite Hr by done. simpl. unfold fn_set.
  by rewrite decide_False by congruence.
Qed.

Lemma load_regs_in rs ws m i r w :
  NoDup rs → rs !! i = Some r → ws !! i = Some w → regs (load_regs rs ws m) r = w.
Proof.
  intros Hnd. revert ws m i. induction Hnd as [|x rs Hx Hnd IH]; intros ws m i Hi Hw; [done|].
  destruct ws as [|y ws]; [done|]. cbn [load_regs]. destruct i as [|i]; simpl in *.
  - injection Hi as ->. injection Hw as ->.
    rewrite (proj2 (proj2 (proj2 (load_regs_other rs ws _)))) by done. simpl. unfold fn_set.
    by rewrite decide_True.
  - by eapply IH.
Qed.
