(* ===== verification/Kernel.v ===== *)
(** * The state of the kernel and the interface to the memory subsystem.

    [Kernel] is everything the Rust code shares: the hart, the two statics and
    the firmware calls made so far.  The functions of mem.rs that reach [MEMORY]
    and their names in stdlib.rs, [phalloc] and [phree], are here; [HeapSpec] is
    what they promise to the rest of the kernel, and the buddy allocator is its
    instance. *)
From S2P Require Import Prelude Ram Addr Slice Order Buddy BuddyTree BuddyRefine BuddyLoops BuddyInv BuddySpec BuddyRoom BuddyRam MemInit Sync Machine.

(** [FixedVec<T>]: the element type only matters for sizes. *)
Record FixedVec : Type := mkFixedVec { fv_ptr : Z; fv_cap : Z; fv_phys_addr : PhysAddr }.

(** [PageTable]. *)
Record PageTable : Type := mkPageTable { root_pt : FixedVec; second_pts : FixedVec }.

(** [ProcTable]: the processes themselves are behind the pointer of [table]. *)
Record ProcTable : Type := mkProcTable { table : FixedVec; curr_proc_idx : Z }.

(** A firmware call: [a0] to [a5], the function in [a6] and the extension in [a7]. *)
Record Ecall : Type := mkEcall { ec_args : list Z; ec_fid : Z; ec_eid : Z }.

Record Kernel : Type := mkKernel {
  cpu : Machine;
  MEMORY : OnceCell (Mutex Memory);
  PROC_TABLE : OnceCell (Mutex ProcTable);
  ecalls : list Ecall;
}.

Definition set_cpu (c : Machine) (k : Kernel) : Kernel :=
  mkKernel c k.(MEMORY) k.(PROC_TABLE) k.(ecalls).
Definition set_MEMORY (m : OnceCell (Mutex Memory)) (k : Kernel) : Kernel :=
  mkKernel k.(cpu) m k.(PROC_TABLE) k.(ecalls).
Definition set_PROC_TABLE (p : OnceCell (Mutex ProcTable)) (k : Kernel) : Kernel :=
  mkKernel k.(cpu) k.(MEMORY) p k.(ecalls).
Definition set_ecalls (l : list Ecall) (k : Kernel) : Kernel :=
  mkKernel k.(cpu) k.(MEMORY) k.(PROC_TABLE) l.

Definition ram (k : Kernel) : Ram := k.(cpu).(m_ram).
Definition set_ram (r : Ram) (k : Kernel) : Kernel := set_cpu (set_m_ram r k.(cpu)) k.

#[export] Instance MEMORY_lens : Lens MEMORY set_MEMORY.
Proof. by split; [..|intros []|]. Qed.
#[export] Instance PROC_TABLE_lens : Lens PROC_TABLE set_PROC_TABLE.
Proof. by split; [..|intros []|]. Qed.

(** Reads and writes through a raw pointer or a reference. *)
Definition read32 (a : Z) : M Kernel Z := gets (λ k, load32 (ram k) a).
Definition write32 (a w : Z) : M Kernel () := modify (λ k, set_ram (store32 a w (ram k)) k).
Definition read8 (a : Z) : M Kernel Z := gets (λ k, load8 (ram k) a).
Definition write8 (a b : Z) : M Kernel () := modify (λ k, set_ram (store8 a b (ram k)) k).

Section statics.
Context `{Profile}.

(** The [Memory] moves into the cell; from then on its slices are only reached
    through it, and the kernel's state has what they hold ([MemInit.buddy_in_ram]). *)
Definition new_MEMORY (ram_start ram_end alloc_start alloc_end : option Z) : M Kernel (Mutex Memory) :=
  let! m := zoom ram set_ram (Memory_new ram_start ram_end alloc_start alloc_end) in
  let! r := gets ram in
  ret (Mutex_new (borrowed r m)).

(** [mem::init]. *)
Definition mem_init (ram_start ram_end alloc_mem_start alloc_mem_end : Z) : M Kernel () :=
  get_or_init MEMORY set_MEMORY
    (new_MEMORY (Some ram_start) (Some ram_end) (Some alloc_mem_start) (Some alloc_mem_end)).

(** [mem::buddy_alloc] and [mem::buddy_free]. *)
Definition buddy_alloc (n : Z) : M Kernel (result PhysAddr Error) :=
  with_static MEMORY set_MEMORY (new_MEMORY None None None None) (Memory_buddy_alloc n).
Definition buddy_free (addr : PhysAddr) : M Kernel () :=
  with_static MEMORY set_MEMORY (new_MEMORY None None None None) (Memory_buddy_free addr).

(** [stdlib::phalloc] and [stdlib::phree]. *)
Definition phalloc (n : Z) : M Kernel (result PhysAddr Error) := buddy_alloc n.
Definition phree (addr : PhysAddr) : M Kernel () := buddy_free addr.
End statics.

(** ** The promise of the memory subsystem *)

(** Only [MEMORY] differs. *)
Definition only_memory (k k' : Kernel) : Prop := ∃ m, k' = set_MEMORY m k.

(** The addresses of a block. *)
Definition inside (b : PhysAddr) (a : Z) : Prop := pa_addr b ≤ a < pa_addr b + pa_len b.

(** A block as its owner may rely on it. *)
Definition good_block (pa : PhysAddr) : Prop :=
  0 < pa_addr pa ∧ (PAGE_SIZE | pa_addr pa) ∧ PAGE_SIZE ≤ pa_len pa ∧
  pa_addr pa + pa_len pa ≤ USIZE_MOD ∧ pa_size pa = Some (pa_len pa).

Class HeapSpec `{Profile} : Type := {
  heap_ready : Kernel → Prop;
  heap_capacity : Kernel → Z;
  heap_live : Kernel → PhysAddr → Prop;
  heap_region : Kernel → Z → Prop;
  heap_frame k k' : MEMORY k' = MEMORY k →
    heap_capacity k' = heap_capacity k ∧ (heap_ready k' ↔ heap_ready k) ∧
    (∀ b, heap_live k' b ↔ heap_live k b) ∧ ∀ a, heap_region k' a ↔ heap_region k a;
  heap_live_region k b a : heap_ready k → heap_live k b → inside b a → heap_region k a;
  heap_live_good k b : heap_ready k → heap_live k b → good_block b;
  heap_live_small k b : heap_ready k → heap_live k b → pa_len b ≤ heap_capacity k;
  heap_live_two k b b' : heap_ready k → heap_live k b → heap_live k b' → b ≠ b' → pa_len b < heap_capacity k;
  heap_live_disjoint k b b' : heap_ready k → heap_live k b → heap_live k b' → b = b' ∨ disjoint_blocks b b';
  phalloc_spec k n : heap_ready k → 1 ≤ n ≤ heap_capacity k →
    ∃ r k', phalloc n k = Ret r k' ∧ only_memory k k' ∧ heap_ready k' ∧
      heap_capacity k' = heap_capacity k ∧ (∀ a, heap_region k' a ↔ heap_region k a) ∧
      match r with
      | Ok pa => n ≤ pa_len pa < 2 * Z.max n PAGE_SIZE ∧ ¬ heap_live k pa ∧
          (∀ b, heap_live k b → disjoint_blocks pa b) ∧
          (∀ b, heap_live k' b ↔ heap_live k b ∨ b = pa)
      | Err e => e = OutOfMemory ∧ ∀ b, heap_live k' b ↔ heap_live k b
      end;
  phree_spec k pa : heap_ready k → heap_live k pa → pa_len pa < heap_capacity k →
    ∃ k', phree pa k = Ret tt k' ∧ only_memory k k' ∧ heap_ready k' ∧
      heap_capacity k' = heap_capacity k ∧ (∀ a, heap_region k' a ↔ heap_region k a) ∧
      ∀ b, heap_live k' b ↔ heap_live k b ∧ b ≠ pa;
  phree_no_size k a : heap_ready k → phree (PhysAddr_new a None) k = Ret tt k;
  heap_room : Kernel → Z → Prop;
  heap_room_frame k k' f : MEMORY k' = MEMORY k → heap_room k f → heap_room k' f;
  heap_room_empty k : heap_ready k → (∀ b, ¬ heap_live k b) → heap_room k (heap_capacity k);
  phalloc_room k f n r k' : heap_ready k → heap_room k f → 1 ≤ n ≤ heap_capacity k →
    phalloc n k = Ret r k' →
    match r with Ok _ => heap_room k' (f - block_size n) | Err _ => f < block_size n end;
}.

(** ** The buddy allocator keeps it *)

Section buddy_heap.
Context `{Profile}.

(** [MEMORY] is set up and free, and the heap starts on a page above address 0. *)
Definition memory_of (k : Kernel) (m : Memory) : Prop :=
  MEMORY k = ready m ∧ heap_ok m ∧ 0 < ram_start m ∧ (PAGE_SIZE | ram_start m).
Definition current (k : Kernel) : option Memory :=
  match oc_value (MEMORY k) with Some mx => Some (mx_data mx) | None => None end.

Lemma memory_of_current k m : memory_of k m → current k = Some m.
Proof. intros (Hk & _). unfold current. by rewrite Hk. Qed.

Definition buddy_live (k : Kernel) (b : PhysAddr) : Prop :=
  match current k with Some m => live_block m b | None => False end.
Definition buddy_capacity (k : Kernel) : Z :=
  match current k with Some m => capacity m | None => 0 end.

Definition buddy_region (k : Kernel) (a : Z) : Prop :=
  match current k with Some m => ram_start m ≤ a < ram_start m + capacity m | None => False end.

Definition buddy_room (k : Kernel) (f : Z) : Prop :=
  match current k with Some m => room m f | None => False end.

Lemma buddy_at k m : memory_of k m →
  buddy_capacity k = capacity m ∧ (∀ b, buddy_live k b ↔ live_block m b) ∧
  ∀ a, buddy_region k a ↔ ram_start m ≤ a < ram_start m + capacity m.
Proof.
  intros Hm. unfold buddy_capacity, buddy_live, buddy_region. by rewrite (memory_of_current _ _ Hm).
Qed.

Lemma memory_of_set k m m' :
  memory_of k m → heap_ok m' → same_heap m m' → memory_of (set_MEMORY (ready m') k) m'.
Proof.
  intros (_ & _ & Hpos & Hpage) Hok Hsame.
  pose proof (same_heap_start _ _ Hsame) as (Hs & _). unfold memory_of. by rewrite Hs.
Qed.

Lemma good_live k m b : memory_of k m → live_block m b → good_block b.
Proof.
  intros (_ & [t Hm] & Hpos & Hpage) (l & p & Hl & Hp & _ & ->).
  pose proof (block_in_heap _ _ _ _ Hm Hl Hp) as [Hlo Hhi].
  pose proof (inv_end _ _ _ Hm). unfold good_block. split_and!.
  - lia.
  - unfold block. simpl. apply Z.divide_add_r; [done|]. apply Z.divide_mul_r.
    exists (pow2 (depth m - l)). change PAGE_SIZE with (pow2 12). rewrite <- pow2_add. f_equal. lia.
  - unfold block, pa_len. simpl. change PAGE_SIZE with (pow2 12). apply pow2_mono. lia.
  - unfold capacity in Hhi. lia.
  - done.
Qed.

Lemma not_disjoint_self b : 0 < pa_len b → ¬ disjoint_blocks b b.
Proof. unfold disjoint_blocks. lia. Qed.

Lemma buddy_phalloc k m n :
  memory_of k m → 1 ≤ n ≤ capacity m →
  ∃ r m', phalloc n k = Ret r (set_MEMORY (ready m') k) ∧
    memory_of (set_MEMORY (ready m') k) m' ∧ capacity m' = capacity m ∧ ram_start m' = ram_start m ∧
    match r with
    | Ok pa => n ≤ pa_len pa < 2 * Z.max n PAGE_SIZE ∧ ¬ live_block m pa ∧
        (∀ b, live_block m b → disjoint_blocks pa b) ∧
        (∀ b, live_block m' b ↔ live_block m b ∨ b = pa)
    | Err e => e = OutOfMemory ∧ ∀ b, live_block m' b ↔ live_block m b
    end.
Proof.
  intros Hmem Hn. pose proof Hmem as (Hk & Hok & _).
  destruct (alloc_outcome m n Hok Hn) as (r & m' & Hrun & Hok' & Hsame & Hpost).
  exists r, m'. split_and!.
  - unfold phalloc, buddy_alloc. rewrite (with_static_ready _ _ _ _ _ _ Hk). by rewrite Hrun.
  - by eapply memory_of_set.
  - by apply same_heap_start.
  - by apply same_heap_start.
  - destruct r as [pa|e].
    + destruct Hpost as (Hlen & _ & Hdis & Hlive).
      split_and!; [lia|lia| |done|done]. intros Hpa%Hdis.
      apply (not_disjoint_self pa) in Hpa; [done|lia].
    + destruct Hpost as [-> Hmeta]. split; [done|]. intros b.
      destruct Hsame as (stk & meta & ->). simpl in Hmeta. subst meta. done.
Qed.

Lemma buddy_phree k m pa :
  memory_of k m → live_block m pa → pa_len pa < capacity m →
  ∃ m', phree pa k = Ret tt (set_MEMORY (ready m') k) ∧
    memory_of (set_MEMORY (ready m') k) m' ∧ capacity m' = capacity m ∧ ram_start m' = ram_start m ∧
    ∀ b, live_block m' b ↔ live_block m b ∧ b ≠ pa.
Proof.
  intros Hmem Hpa Hlen. pose proof Hmem as (Hk & Hok & _).
  destruct (free_outcome m pa Hok Hpa Hlen) as (m' & Hrun & Hok' & Hsame & Hlive).
  exists m'. split_and!; [|by eapply memory_of_set|by apply same_heap_start..|done].
  unfold phree, buddy_free. rewrite (with_static_ready _ _ _ _ _ _ Hk). by rewrite Hrun.
Qed.

Lemma buddy_ready_frame k k' : MEMORY k' = MEMORY k → current k' = current k.
Proof. unfold current. by intros ->. Qed.

#[export] Program Instance buddy_heap : HeapSpec := {|
  heap_ready k := ∃ m, memory_of k m;
  heap_capacity := buddy_capacity;
  heap_live := buddy_live;
  heap_region := buddy_region;
  heap_room := buddy_room;
|}.
Next Obligation.
  intros k k' Heq. unfold buddy_capacity, buddy_live, buddy_region, memory_of.
  by rewrite (buddy_ready_frame _ _ Heq), Heq.
Qed.
Next Obligation.
  intros k b a [m Hm] Hb Ha. destruct (buddy_at _ _ Hm) as (_ & Hlive & ->). apply Hlive in Hb.
  destruct Hm as (_ & [t Hm] & _), Hb as (l & p & Hl & Hp & _ & ->).
  pose proof (block_in_heap _ _ _ _ Hm Hl Hp) as [Hlo Hhi]. unfold inside in Ha. lia.
Qed.
Next Obligation.
  intros k b [m Hm] Hb%(buddy_at _ _ Hm). by eapply good_live.
Qed.
Next Obligation.
  intros k b [m Hm] Hb. destruct (buddy_at _ _ Hm) as (-> & Hlive & _). apply Hlive in Hb.
  destruct Hm as (_ & [t Hm] & _), Hb as (l & p & Hl & Hp & _ & ->).
  pose proof (block_in_heap _ _ _ _ Hm Hl Hp) as [Hlo Hhi]. lia.
Qed.
Next Obligation.
  intros k b b' [m Hm] Hb Hb' Hne. destruct (buddy_at _ _ Hm) as (-> & Hlive & _).
  apply Hlive in Hb, Hb'. destruct Hm as (_ & Hok & _).
  destruct (live_disjoint _ _ _ Hok Hb Hb') as [|Hdis]; [done|]. destruct Hok as [t Hm].
  destruct Hb as (l & p & Hl & Hp & _ & ->), Hb' as (l' & p' & Hl' & Hp' & _ & ->).
  pose proof (block_in_heap _ _ _ _ Hm Hl Hp) as [Hlo Hhi].
  pose proof (block_in_heap _ _ _ _ Hm Hl' Hp') as [Hlo' Hhi'].
  unfold disjoint_blocks in Hdis.
  assert (0 < pa_len (block m (depth m) l' p')) by (unfold block, pa_len; simpl; apply pow2_pos). lia.
Qed.
Next Obligation.
  intros k b b' [m Hm] Hb%(buddy_at _ _ Hm) Hb'%(buddy_at _ _ Hm).
  eapply live_disjoint; [apply Hm|done..].
Qed.
Next Obligation.
  intros k n [m Hm]. destruct (buddy_at _ _ Hm) as (-> & Hlive & Hreg). intros Hn.
  destruct (buddy_phalloc k m n Hm Hn) as (r & m' & Hrun & Hm' & Hcap & Hst & Hr).
  destruct (buddy_at _ _ Hm') as (Hcap' & Hlive' & Hreg').
  exists r. eexists. split_and!; [exact Hrun|by eexists|by eexists|congruence|..].
  - intros a. by rewrite Hreg', Hreg, Hcap, Hst.
  - destruct r; setoid_rewrite Hlive'; setoid_rewrite Hlive; done.
Qed.
Next Obligation.
  intros k pa [m Hm] Hpa%(buddy_at _ _ Hm). destruct (buddy_at _ _ Hm) as (-> & Hlive & Hreg).
  intros Hlen. destruct (buddy_phree k m pa Hm Hpa Hlen) as (m' & Hrun & Hm' & Hcap & Hst & Hr).
  destruct (buddy_at _ _ Hm') as (Hcap' & Hlive' & Hreg').
  eexists. split_and!; [exact Hrun|by eexists|by eexists|congruence|..].
  - intros a. by rewrite Hreg', Hreg, Hcap, Hst.
  - setoid_rewrite Hlive'. setoid_rewrite Hlive. done.
Qed.
Next Obligation.
  intros k a [m Hm]. pose proof Hm as (Hk & _).
  unfold phree, buddy_free. rewrite (with_static_ready _ _ _ _ _ _ Hk). simpl.
  rewrite <- Hk. by destruct k.
Qed.
Next Obligation.
  intros k k' f Heq. unfold buddy_room. by rewrite (buddy_ready_frame _ _ Heq).
Qed.
Next Obligation.
  intros k [m Hm] Hno. destruct (buddy_at _ _ Hm) as (-> & Hlive & _).
  unfold buddy_room. rewrite (memory_of_current _ _ Hm). apply room_empty; [apply Hm|].
  intros b Hb%Hlive. by apply (Hno b).
Qed.
Next Obligation.
  intros k f n r k' [m Hm]. destruct (buddy_at _ _ Hm) as (-> & _).
  unfold buddy_room. rewrite (memory_of_current _ _ Hm). intros Hf Hn Hrun.
  destruct (room_alloc m f n Hf Hn) as (r' & m' & Hrun' & Hr). pose proof Hm as (Hk & _).
  unfold phalloc, buddy_alloc in Hrun. rewrite (with_static_ready _ _ _ _ _ _ Hk), Hrun' in Hrun.
  injection Hrun as <- <-. destruct r'; [apply Hr|apply Hr].
Qed.
End buddy_heap.

(** ** Setting the memory subsystem up *)

Section setup.
Context `{Profile}.

Lemma mem_init_run start end_ astart aend D k :
  regions_ok start end_ astart aend D → MEMORY k = OnceCell_new →
  ∃ r, mem_init start end_ astart aend k =
      Ret tt (set_MEMORY (ready (fresh_memory start end_ D)) (set_ram r k)) ∧
    init_ram astart aend (node_count (end_ - start)) (ram k) r.
Proof.
  intros Hok Hk. destruct (Memory_new_run _ _ _ _ _ (ram k) Hok) as (r & Hrun & Hr).
  exists r. split; [|done]. unfold mem_init.
  erewrite (get_or_init_fresh MEMORY _ _ _ (set_ram r (set_MEMORY initialising k)) (Mutex_new (fresh_memory start end_ D)) Hk).
  - done.
  - unfold new_MEMORY, bind, zoom, gets, ret. change (ram (set_MEMORY initialising k)) with (ram k). rewrite Hrun.
    destruct (fresh_represents _ _ _ _ _ _ _ Hok Hr) as [_ Heq]. cbn [ir_ram ir_memory] in Heq. rewrite Heq. done.
Qed.

Lemma fresh_memory_of start end_ astart aend D k :
  regions_ok start end_ astart aend D → 0 < start → (PAGE_SIZE | start) →
  MEMORY k = ready (fresh_memory start end_ D) →
  memory_of k (fresh_memory start end_ D) ∧ capacity (fresh_memory start end_ D) = pow2 (D + 12) ∧
  ∀ b, ¬ live_block (fresh_memory start end_ D) b.
Proof.
  intros Hok Hpos Hpage Hk. pose proof (fresh_inv _ _ _ _ _ Hok) as Hm. split_and!.
  - split_and!; [done|by eapply heap_ok_inv|done..].
  - unfold capacity. by rewrite (inv_depth_eq _ _ _ Hm).
  - intros b (l & p & Hl & _)%(live_block_tree _ _ _ _ Hm). by destruct l.
Qed.

(** A heap without live blocks has a block for every request up to its capacity. *)
Lemma phalloc_empty k m n :
  memory_of k m → (∀ b, ¬ live_block m b) → 1 ≤ n ≤ capacity m →
  ∃ pa k', phalloc n k = Ret (Ok pa) k'.
Proof.
  intros (Hk & Hok & _) Hno Hn. destruct (alloc_empty m n Hok Hno Hn) as [m' Hrun].
  eexists _, _. unfold phalloc, buddy_alloc. rewrite (with_static_ready _ _ _ _ _ _ Hk). by rewrite Hrun.
Qed.

(** [mem::init], on regions that fit, makes the heap ready: the page-aligned
    RAM is its region, nothing is live, and only the reserved region was written.
    A second call changes nothing, whatever its arguments. *)
Theorem mem_init_ready start end_ astart aend D k :
  regions_ok start end_ astart aend D → 0 < start → (PAGE_SIZE | start) →
  MEMORY k = OnceCell_new →
  ∃ k', mem_init start end_ astart aend k = Ret tt k' ∧
    heap_ready k' ∧ (∀ b, ¬ heap_live k' b) ∧ heap_capacity k' = pow2 (D + 12) ∧
    (∀ a, heap_region k' a ↔ start ≤ a < start + pow2 (D + 12)) ∧
    init_ram astart aend (node_count (end_ - start)) (ram k) (ram k') ∧
    ∀ a b c d, mem_init a b c d k' = Ret tt k'.
Proof.
  intros Hok Hpos Hpage Hk. destruct (mem_init_run _ _ _ _ _ k Hok Hk) as (r & Hrun & Hr).
  set (m := fresh_memory start end_ D) in *. set (k' := set_MEMORY (ready m) (set_ram r k)) in *.
  destruct (fresh_memory_of _ _ _ _ _ k' Hok Hpos Hpage eq_refl) as (Hmem & Hc & Hno).
  destruct (buddy_at _ _ Hmem) as (Hcap & Hlive & Hreg).
  exists k'. split_and!; [exact Hrun|by exists m|..].
  - intros b Hb%Hlive. by apply (Hno b).
  - simpl. congruence.
  - intros a. simpl. by rewrite Hreg, Hc.
  - exact Hr.
  - intros a b c d. by eapply get_or_init_ready.
Qed.

(** Before [mem::init] every request panics, and the static is left in
    progress: from then on every request, and [mem::init] itself, waits for ever. *)
Theorem heap_before_init n addr k :
  MEMORY k = OnceCell_new →
  ∃ k', (∃ msg, phalloc n k = Panic msg k') ∧ (∃ msg, phree addr k = Panic msg k') ∧
    (∀ n', phalloc n' k' = Hang k') ∧ (∀ addr', phree addr' k' = Hang k') ∧
    ∀ a b c d, mem_init a b c d k' = Hang k'.
Proof.
  intros Hk. set (fail := new_MEMORY None None None None).
  assert (∃ msg, get_or_init MEMORY set_MEMORY fail k = Panic msg (set_MEMORY initialising k)) as [msg Hmsg].
  { eexists. eapply get_or_init_fresh_panic; [done|]. by destruct k as [[] ? ? ?]. }
  exists (set_MEMORY initialising k). split_and!.
  - exists msg. by apply bind_Panic.
  - exists msg. by apply bind_Panic.
  - intros n'. unfold phalloc, buddy_alloc. by apply with_static_initialising; [apply _|].
  - intros addr'. unfold phree, buddy_free. by apply with_static_initialising; [apply _|].
  - intros a b c d. unfold mem_init. by apply get_or_init_initialising; [apply _|].
Qed.
End setup.
