(* ===== verification/Heap.v ===== *)
(** * Memory consumption, against the heap interface.

    [spends k s k'] says that what happened to the heap between [k] and [k'] is
    allocations that took [s] bytes; [starved k s k'] that an allocation was
    refused although the blocks asked for are [s] bytes together.  A heap with
    room for [s] bytes is never starved by them ([starved_room]). *)
From S2P Require Import Prelude Ram Addr BuddyInv BuddySpec BuddyRoom Sync Machine Kernel.

Section spending.
Context `{HeapSpec}.

Inductive spends : Kernel → Z → Kernel → Prop :=
  | spends_nothing k k' : MEMORY k' = MEMORY k → spends k 0 k'
  | spends_block k k1 k2 k' n pa s :
      MEMORY k1 = MEMORY k → heap_ready k1 → 1 ≤ n ≤ heap_capacity k1 →
      phalloc n k1 = Ret (Ok pa) k2 → spends k2 s k' → spends k (block_size n + s) k'.

Definition starved (k : Kernel) (s : Z) (k' : Kernel) : Prop :=
  ∃ k1 k2 s1 n, spends k s1 k1 ∧ heap_ready k1 ∧ 1 ≤ n ≤ heap_capacity k1 ∧
    phalloc n k1 = Ret (Err OutOfMemory) k2 ∧ s1 + block_size n ≤ s.

Lemma spends_alloc k n pa k' :
  heap_ready k → 1 ≤ n ≤ heap_capacity k → phalloc n k = Ret (Ok pa) k' → spends k (block_size n) k'.
Proof.
  intros Hk Hn Hrun. rewrite <- (Z.add_0_r (block_size n)).
  by eapply spends_block; [|exact Hk|exact Hn|exact Hrun|constructor].
Qed.

Lemma starved_alloc k n k' :
  heap_ready k → 1 ≤ n ≤ heap_capacity k → phalloc n k = Ret (Err OutOfMemory) k' →
  starved k (block_size n) k'.
Proof.
  intros Hk Hn Hrun. exists k, k', 0, n. split_and!; [by constructor|done|lia|lia|done|lia].
Qed.

Lemma spends_nonneg k s k' : spends k s k' → 0 ≤ s.
Proof.
  induction 1 as [|k k1 k2 k' n pa s _ _ _ _ _ IH]; [done|]. pose proof (pow2_pos (order_of n)). unfold block_size. lia.
Qed.

(** Changes outside [MEMORY] do not matter. *)
Lemma spends_before k k1 s k' : MEMORY k1 = MEMORY k → spends k1 s k' → spends k s k'.
Proof.
  intros Hk Hs. revert Hk. destruct Hs as [k1 k' Hk'|k1 k2 k3 k' n pa s Hk1 Hr Hn Hrun Hs]; intros Hk.
  - constructor. congruence.
  - by eapply (spends_block k k2); [congruence|exact Hr|exact Hn|exact Hrun|].
Qed.

Lemma spends_trans k s k1 s' k' : spends k s k1 → spends k1 s' k' → spends k (s + s') k'.
Proof.
  intros H1 H2. induction H1 as [k k1 Hk|k k1 k2 k3 n pa s Hk Hr Hn Hrun _ IH].
  - by apply (spends_before k k1).
  - rewrite <- Z.add_assoc. by eapply spends_block; [exact Hk|exact Hr|exact Hn|exact Hrun|apply IH].
Qed.

Lemma spends_after k s k1 k' : MEMORY k' = MEMORY k1 → spends k s k1 → spends k s k'.
Proof.
  intros Hk Hs. rewrite <- (Z.add_0_r s). eapply spends_trans; [exact Hs|by constructor].
Qed.

Lemma starved_after k s k1 s' k' : spends k s k1 → starved k1 s' k' → starved k (s + s') k'.
Proof.
  intros Hs (k2 & k3 & s2 & n & Hs2 & Hk2 & Hn & Hrun & Hle). exists k2, k3, (s + s2), n.
  split_and!; [by eapply spends_trans|done|lia|lia|done|lia].
Qed.

Lemma starved_before k k1 s k' : MEMORY k1 = MEMORY k → starved k1 s k' → starved k s k'.
Proof.
  intros Hk Hs. rewrite <- (Z.add_0_l s). eapply starved_after; [|exact Hs]. by constructor.
Qed.

Lemma starved_le k s s' k' : s ≤ s' → starved k s k' → starved k s' k'.
Proof.
  intros Hle (k1 & k2 & s1 & n & Hs & Hk & Hn & Hrun & Hb). exists k1, k2, s1, n.
  split_and!; try done; lia.
Qed.

(** ** Room *)

Lemma spends_room k s k' f : heap_room k f → spends k s k' → heap_room k' (f - s).
Proof.
  intros Hf Hs. revert f Hf. induction Hs as [k k' Hk|k k1 k2 k' n pa s Hk Hr Hn Hrun _ IH]; intros f Hf.
  - rewrite Z.sub_0_r. by apply (heap_room_frame k).
  - replace (f - (block_size n + s)) with (f - block_size n - s) by lia. apply IH.
    apply (phalloc_room k1 f n (Ok pa) k2 Hr); [by apply (heap_room_frame k)|done|done].
Qed.

Lemma starved_room k s k' f : heap_room k f → starved k s k' → f < s.
Proof.
  intros Hf (k1 & k2 & s1 & n & Hs & Hk & Hn & Hrun & Hle).
  pose proof (phalloc_room k1 (f - s1) n _ _ Hk (spends_room _ _ _ _ Hf Hs) Hn Hrun) as Hlt.
  simpl in Hlt. lia.
Qed.

(** At most [s] bytes. *)
Definition spends_upto (k : Kernel) (s : Z) (k' : Kernel) : Prop := ∃ s', spends k s' k' ∧ s' ≤ s.

Lemma spends_upto_exact k s k' : spends k s k' → spends_upto k s k'.
Proof. intros Hs. by exists s. Qed.
Lemma spends_upto_trans k s k1 s' k' : spends_upto k s k1 → spends_upto k1 s' k' → spends_upto k (s + s') k'.
Proof. intros (a & Ha & ?) (b & Hb & ?). exists (a + b). split; [by eapply spends_trans|lia]. Qed.
Lemma spends_upto_le k s s' k' : s ≤ s' → spends_upto k s k' → spends_upto k s' k'.
Proof. intros Hle (a & Ha & ?). exists a. split; [done|lia]. Qed.
Lemma spends_upto_before k k1 s k' : MEMORY k1 = MEMORY k → spends_upto k1 s k' → spends_upto k s k'.
Proof. intros Hk (a & Ha & ?). exists a. split; [by apply (spends_before k k1)|done]. Qed.
Lemma spends_upto_after k s k1 k' : MEMORY k' = MEMORY k1 → spends_upto k s k1 → spends_upto k s k'.
Proof. intros Hk (a & Ha & ?). exists a. split; [by apply (spends_after k a k1)|done]. Qed.
Lemma starved_upto k s k1 s' k' : spends_upto k s k1 → starved k1 s' k' → starved k (s + s') k'.
Proof.
  intros (a & Ha & Hle) Hs. apply (starved_le _ (a + s')); [lia|]. by apply (starved_after k a k1).
Qed.
Lemma spends_upto_room k s k' f : heap_room k f → spends_upto k s k' → ∃ f', f - s ≤ f' ∧ heap_room k' f'.
Proof. intros Hf (a & Ha & Hle). exists (f - a). split; [lia|by apply (spends_room k)]. Qed.

(** A page takes a page. *)
Lemma block_size_page : block_size 4096 = 4096.
Proof. reflexivity. Qed.
End spending.
