(* ===== verification/FixedVec.v ===== *)
(** * [FixedVec<T>] of src/rust/src/stdlib.rs.

    A [FixedVec] is three words and a tag in a variable or in memory; its elements
    are behind [fv_ptr].  [index] answers the address of the element, which is
    what a Rust reference is.  The layout of a struct without [repr(C)] is the
    compiler's choice: [Layout] states what any choice has in common, and the
    theorems hold of all of them.  They are proved against [HeapSpec] only. *)
From S2P Require Import Prelude Ram Addr Slice BuddySpec Sync Machine Kernel.

(** ** The layout of a [FixedVec] and of an [Option<usize>] in memory *)

(** Offsets of the words of a [FixedVec]: pointer, capacity, and of its
    [PhysAddr] the address, the tag of [size] (0 is [None]) and the payload. *)
Class Layout : Type := {
  fv_size : Z;
  off_ptr : Z;
  off_cap : Z;
  off_addr : Z;
  off_tag : Z;
  off_val : Z;
}.

Definition off_all `{Layout} : list Z := [off_ptr; off_cap; off_addr; off_tag; off_val].

(** Two words do not overlap. *)
Definition apart4 (a b : Z) : Prop := a + 4 ≤ b ∨ b + 4 ≤ a.

Class LayoutOk `{Layout} : Prop := {
  layout_size : 0 < fv_size ≤ 1048576;
  layout_in : Forall (λ o, 0 ≤ o ∧ o + 4 ≤ fv_size) off_all;
  layout_apart : apart4 off_ptr off_cap ∧ apart4 off_ptr off_addr ∧ apart4 off_ptr off_tag ∧
    apart4 off_ptr off_val ∧ apart4 off_cap off_addr ∧ apart4 off_cap off_tag ∧
    apart4 off_cap off_val ∧ apart4 off_addr off_tag ∧ apart4 off_addr off_val ∧
    apart4 off_tag off_val;
}.

Section layout.
Context `{Layout}.

Definition opt_load (r : Ram) (tag val : Z) : option Z :=
  if load32 r tag =? 0 then None else Some (load32 r val).
Definition opt_store (tag val : Z) (o : option Z) (r : Ram) : Ram :=
  match o with None => store32 tag 0 r | Some x => store32 val x (store32 tag 1 r) end.

Definition fv_load (r : Ram) (a : Z) : FixedVec :=
  mkFixedVec (load32 r (a + off_ptr)) (load32 r (a + off_cap))
    (PhysAddr_new (load32 r (a + off_addr)) (opt_load r (a + off_tag) (a + off_val))).
Definition fv_store (a : Z) (v : FixedVec) (r : Ram) : Ram :=
  store32 (a + off_ptr) (fv_ptr v) (store32 (a + off_cap) (fv_cap v)
    (store32 (a + off_addr) (pa_addr (fv_phys_addr v))
      (opt_store (a + off_tag) (a + off_val) (pa_size (fv_phys_addr v)) r))).

(** Reading and overwriting a [FixedVec] in place (no destructor). *)
Definition read_fv (a : Z) : M Kernel FixedVec := gets (λ k, fv_load (ram k) a).
Definition write_fv (a : Z) (v : FixedVec) : M Kernel () := modify (λ k, set_ram (fv_store a v (ram k)) k).
End layout.

(** ** The methods, for elements of [tsize] bytes *)

Section fixedvec.
Context `{Profile}.

Definition NonNull_new (p : Z) : option Z := if p =? 0 then None else Some p.

Definition FixedVec_new (tsize cap : Z) : M Kernel FixedVec :=
  assert (negb (tsize =? 0)) "Zero-sized types are not allowed.";;!
  let! size := umul cap tsize in
  assert (size <=? ISIZE_MAX) "Allocation is too large.";;!
  let! r := phalloc size in
  let! phys_addr := unwrap r (λ e, "called `Result::unwrap()` on an `Err` value: " +:+ Error_debug e) in
  let! ptr := expect (NonNull_new (PhysAddr_as_mut_ptr phys_addr))
    "called `Option::unwrap()` on a `None` value" in
  ret (mkFixedVec ptr cap phys_addr).

Definition FixedVec_cap (self : FixedVec) : Z := self.(fv_cap).
Definition FixedVec_as_ptr (self : FixedVec) : Z := self.(fv_ptr).

(** The address of element [i] ([NonNull::as_ptr().add(i)]). *)
Definition element (tsize : Z) (self : FixedVec) (i : Z) : Z := wrap (self.(fv_ptr) + i * tsize).

(** [Index::index] and [IndexMut::index_mut]. *)
Definition FixedVec_index (tsize : Z) (self : FixedVec) (i : Z) : M Kernel Z :=
  assert (i <? self.(fv_cap)) "Index out of bounds.";;!
  ret (element tsize self i).

(** [Deref::deref] and [DerefMut::deref_mut]: the elements as a slice. *)
Definition FixedVec_deref (self : FixedVec) : Slice := mkSlice self.(fv_ptr) self.(fv_cap).
Definition FixedVec_deref_mut (self : FixedVec) : Slice := mkSlice self.(fv_ptr) self.(fv_cap).

(** [Drop::drop]; [drop_elem] is the destructor of the element at an address. *)
Definition FixedVec_drop (tsize : Z) (drop_elem : Z → M Kernel ()) (self : FixedVec) : M Kernel () :=
  for_range (Z.to_nat self.(fv_cap)) 0 (λ i, drop_elem (element tsize self i));;!
  phree self.(fv_phys_addr).

(** The two element types of the kernel's page tables. *)
Definition drop_usize (a : Z) : M Kernel () := ret tt.

Context `{Layout}.

Definition drop_fv_usize (a : Z) : M Kernel () :=
  let! v := read_fv a in FixedVec_drop 4 drop_usize v.
(** [*a = v] for a [FixedVec<usize>] in memory: the old value is dropped first. *)
Definition assign_fv_usize (a : Z) (v : FixedVec) : M Kernel () :=
  drop_fv_usize a;;! write_fv a v.
End fixedvec.

(** ** Memory facts *)

Section layout_facts.
Context `{Layout, !LayoutOk}.

Lemma off_in o : o ∈ off_all → 0 ≤ o ∧ o + 4 ≤ fv_size.
Proof. intros Ho. by apply (proj1 (Forall_forall _ _) layout_in). Qed.

Lemma apart4_sym a b : apart4 a b → apart4 b a.
Proof. unfold apart4. tauto. Qed.

Lemma load32_off r a o o' w :
  apart4 o o' → load32 (store32 (a + o) w r) (a + o') = load32 r (a + o').
Proof. intros Ho. unfold apart4 in Ho. apply load32_store32_ne. lia. Qed.

(** The word at an offset depends on the bytes of the vector only. *)
Lemma load32_in r r' a o :
  o ∈ off_all → (∀ b, a ≤ b < a + fv_size → load8 r' b = load8 r b) →
  load32 r' (a + o) = load32 r (a + o).
Proof.
  intros Ho%off_in Hb. apply load32_ext. intros b Hb'. apply Hb. lia.
Qed.

Lemma load8_in r a o w b :
  o ∈ off_all → ¬ (a ≤ b < a + fv_size) → load8 (store32 (a + o) w r) b = load8 r b.
Proof. intros Ho%off_in Hb. apply load8_store32_ne. lia. Qed.

Ltac offset := unfold off_all; set_solver.

Lemma fv_load_ext r r' a :
  (∀ b, a ≤ b < a + fv_size → load8 r' b = load8 r b) → fv_load r' a = fv_load r a.
Proof.
  intros Hb. unfold fv_load, opt_load.
  by rewrite !(load32_in r r') by first [done|offset].
Qed.

Lemma load8_fv_store_ne r a v b :
  ¬ (a ≤ b < a + fv_size) → load8 (fv_store a v r) b = load8 r b.
Proof.
  intros Hb. unfold fv_store, opt_store. rewrite !load8_in by first [done|offset].
  destruct (pa_size _); by rewrite !load8_in by first [done|offset].
Qed.

Definition fv_words (v : FixedVec) : Prop :=
  word (fv_ptr v) ∧ word (fv_cap v) ∧ word (pa_addr (fv_phys_addr v)) ∧
  match pa_size (fv_phys_addr v) with Some s => word s | None => True end.

Ltac off_ne := rewrite ?load32_off by first [assumption|by apply apart4_sym].

Lemma opt_load_store r a o :
  apart4 off_tag off_val → match o with Some s => word s | None => True end →
  opt_load (opt_store (a + off_tag) (a + off_val) o r) (a + off_tag) (a + off_val) = o.
Proof.
  intros Ha Ho. unfold opt_load, opt_store. destruct o as [s|].
  - off_ne. rewrite load32_store32_eq by done. simpl. by rewrite load32_store32_eq.
  - by rewrite load32_store32_eq.
Qed.

Lemma opt_load_ext r r' a :
  load32 r' (a + off_tag) = load32 r (a + off_tag) → load32 r' (a + off_val) = load32 r (a + off_val) →
  opt_load r' (a + off_tag) (a + off_val) = opt_load r (a + off_tag) (a + off_val).
Proof. unfold opt_load. by intros -> ->. Qed.

Lemma fv_load_store r a v : fv_words v → fv_load (fv_store a v r) a = v.
Proof.
  destruct v as [p c [ad sz]]. intros (Hp & Hc & Ha & Hs). simpl in *.
  destruct layout_apart as (? & ? & ? & ? & ? & ? & ? & ? & ? & ?).
  unfold fv_load, fv_store. simpl. f_equal; [..|unfold PhysAddr_new; f_equal].
  - by apply load32_store32_eq.
  - off_ne. by apply load32_store32_eq.
  - off_ne. by apply load32_store32_eq.
  - rewrite (opt_load_ext (opt_store (a + off_tag) (a + off_val) sz r)); [|by off_ne..].
    by apply opt_load_store.
Qed.

(** Zeroed memory reads as the empty vector that owns nothing. *)
Definition fv_empty : FixedVec := mkFixedVec 0 0 (PhysAddr_new 0 None).

Lemma load32_zero r a : (∀ b, a ≤ b < a + 4 → load8 r b = 0) → load32 r a = 0.
Proof. intros Hb. unfold load32. by rewrite !Hb by lia. Qed.

Lemma load32_zero_in r a o :
  o ∈ off_all → (∀ b, a ≤ b < a + fv_size → load8 r b = 0) → load32 r (a + o) = 0.
Proof. intros Ho%off_in Hb. apply load32_zero. intros b Hb'. apply Hb. lia. Qed.

Lemma fv_load_zero r a :
  (∀ b, a ≤ b < a + fv_size → load8 r b = 0) → fv_load r a = fv_empty.
Proof.
  intros Hb. unfold fv_load, opt_load.
  by rewrite !(load32_zero_in r) by first [done|offset].
Qed.
End layout_facts.

Lemma for_range_id {S} n start (body : Z → M S ()) s :
  (∀ i, body i s = Ret tt s) → for_range n start body s = Ret tt s.
Proof.
  intros Hb. revert start. induction n as [|n IH]; intros start; [done|]. simpl.
  by erewrite bind_Ret by apply Hb.
Qed.

(** ** What the methods promise *)

Section spec.
Context `{HeapSpec}.

(** [v] owns a live block that holds [cap] elements of [tsize] bytes. *)
Definition owns (k : Kernel) (tsize cap : Z) (v : FixedVec) : Prop :=
  heap_live k (fv_phys_addr v) ∧ fv_ptr v = pa_addr (fv_phys_addr v) ∧ fv_cap v = cap ∧
  cap * tsize ≤ pa_len (fv_phys_addr v).

Lemma owns_frame k k' tsize cap v :
  (∀ b, heap_live k b → heap_live k' b) → owns k tsize cap v → owns k' tsize cap v.
Proof. intros Hb (? & ? & ? & ?). split_and!; auto. Qed.

Lemma element_owned k tsize cap v i :
  heap_ready k → owns k tsize cap v → 0 < tsize → 0 ≤ i < cap →
  element tsize v i = fv_ptr v + i * tsize ∧
  pa_addr (fv_phys_addr v) ≤ element tsize v i ∧
  element tsize v i + tsize ≤ pa_addr (fv_phys_addr v) + pa_len (fv_phys_addr v).
Proof.
  intros Hk (Hlive & Hptr & Hcap & Hlen) Ht Hi.
  destruct (heap_live_good _ _ Hk Hlive) as (Hpos & _ & _ & Hend & _).
  assert (element tsize v i = fv_ptr v + i * tsize) as Heq; [|rewrite Heq; split_and!; [done|nia..]].
  unfold element, wrap. apply Z.mod_small. nia.
Qed.

Lemma index_owned k tsize cap v i :
  owns k tsize cap v → 0 ≤ i < cap → FixedVec_index tsize v i k = Ret (element tsize v i) k.
Proof.
  intros (_ & _ & Hcap & _) Hi. unfold FixedVec_index.
  erewrite bind_Ret by (apply assert_run, Z.ltb_lt; lia). done.
Qed.

(** Blocks of different owners share no byte. *)
Lemma live_apart k b b' a :
  heap_ready k → heap_live k b → heap_live k b' → b ≠ b' → inside b a → ¬ inside b' a.
Proof.
  intros Hk Hb Hb' Hne Ha. unfold inside in *.
  destruct (heap_live_disjoint _ _ _ Hk Hb Hb') as [|[]]; [done|lia..].
Qed.

Lemma FixedVec_new_run k tsize cap :
  heap_ready k → 0 < tsize → 1 ≤ cap → cap * tsize ≤ heap_capacity k → cap * tsize ≤ ISIZE_MAX →
  ∃ r k', phalloc (cap * tsize) k = Ret r k' ∧ only_memory k k' ∧ heap_ready k' ∧
    heap_capacity k' = heap_capacity k ∧ (∀ a, heap_region k' a ↔ heap_region k a) ∧
    match r with
    | Ok pa =>
      let v := mkFixedVec (pa_addr pa) cap pa in
      FixedVec_new tsize cap k = Ret v k' ∧ owns k' tsize cap v ∧ ¬ heap_live k pa ∧
      (∀ b, heap_live k b → disjoint_blocks pa b) ∧ ∀ b, heap_live k' b ↔ heap_live k b ∨ b = pa
    | Err e => e = OutOfMemory ∧ (∃ msg, FixedVec_new tsize cap k = Panic msg k') ∧ ∀ b, heap_live k' b ↔ heap_live k b
    end.
Proof.
  intros Hk Ht Hc Hcap Hmax.
  destruct (phalloc_spec k (cap * tsize) Hk ltac:(nia)) as (r & k' & Hrun & Hmem & Hk' & Hcap' & Hreg & Hr).
  assert (FixedVec_new tsize cap k =
    (let! phys_addr := unwrap r (λ e, "called `Result::unwrap()` on an `Err` value: " +:+ Error_debug e) in
     let! ptr := expect (NonNull_new (PhysAddr_as_mut_ptr phys_addr))
       "called `Option::unwrap()` on a `None` value" in
     ret (mkFixedVec ptr cap phys_addr)) k') as Heq.
  { unfold FixedVec_new. erewrite bind_Ret by (apply assert_run, negb_true_iff, Z.eqb_neq; lia).
    rewrite (bind_Ret _ _ k (cap * tsize) k) by (apply umul_run; nia).
    erewrite bind_Ret by (apply assert_run, Z.leb_le; lia). by erewrite bind_Ret by exact Hrun. }
  exists r, k'. split_and!; try done. destruct r as [pa|e].
  - destruct Hr as (Hlen & Hnew & Hdis & Hlive). assert (heap_live k' pa) as Hpa by (apply Hlive; by right).
    destruct (heap_live_good _ _ Hk' Hpa) as (Hpos & _). split_and!; try done; [|unfold owns; simpl; split_and!; (done || lia)].
    rewrite Heq. erewrite bind_Ret by done. unfold NonNull_new, PhysAddr_as_mut_ptr.
    by rewrite (proj2 (Z.eqb_neq _ _)) by lia.
  - destruct Hr as [-> Hlive]. split_and!; [done| |done]. eexists. by rewrite Heq.
Qed.

(** C36. [FixedVec::new] allocates: it returns exactly when the allocator has a
    block, and the vector then owns a block that is new, holds [cap] elements and
    overlaps no live block; else the [unwrap] panics with the heap as it was. *)
Theorem FixedVec_new_ok k tsize cap :
  heap_ready k → 0 < tsize → 1 ≤ cap → cap * tsize ≤ heap_capacity k → cap * tsize ≤ ISIZE_MAX →
  ∃ k', only_memory k k' ∧ heap_ready k' ∧
    ((∃ v, FixedVec_new tsize cap k = Ret v k' ∧ owns k' tsize cap v ∧
        ¬ heap_live k (fv_phys_addr v) ∧
        (∀ b, heap_live k b → disjoint_blocks (fv_phys_addr v) b) ∧
        ∀ b, heap_live k' b ↔ heap_live k b ∨ b = fv_phys_addr v) ∨
     (phalloc (cap * tsize) k = Ret (Err OutOfMemory) k' ∧
        (∃ msg, FixedVec_new tsize cap k = Panic msg k') ∧
        ∀ b, heap_live k' b ↔ heap_live k b)).
Proof.
  intros Hk Ht Hc Hcap Hmax.
  destruct (FixedVec_new_run k tsize cap Hk Ht Hc Hcap Hmax) as (r & k' & Hrun & Hmem & Hk' & _ & _ & Hr).
  exists k'. split_and!; [done..|]. destruct r as [pa|e].
  - left. by exists (mkFixedVec (pa_addr pa) cap pa).
  - right. destruct Hr as [-> Hr]. by rewrite Hrun.
Qed.

(** Elements are where they should be: an index below the capacity answers
    an address whose element lies in the block, elements of different indices do
    not overlap, and any other index panics. *)
Theorem FixedVec_index_ok k tsize cap v i :
  heap_ready k → owns k tsize cap v → 0 < tsize → 0 ≤ i →
  if i <? cap then
    FixedVec_index tsize v i k = Ret (element tsize v i) k ∧
    (∀ a, element tsize v i ≤ a < element tsize v i + tsize → inside (fv_phys_addr v) a) ∧
    ∀ j, 0 ≤ j < cap → i ≠ j →
      element tsize v i + tsize ≤ element tsize v j ∨ element tsize v j + tsize ≤ element tsize v i
  else ∃ msg, FixedVec_index tsize v i k = Panic msg k.
Proof.
  intros Hk Hv Ht Hi. destruct (Z.ltb_spec i cap) as [Hlt|Hge].
  - destruct (element_owned k tsize cap v i Hk Hv Ht ltac:(lia)) as (Hi1 & Hi2 & Hi3).
    split; [eapply index_owned; [exact Hv|lia]|]. split; [intros a Ha; unfold inside; lia|].
    intros j Hj Hne. destruct (element_owned k tsize cap v j Hk Hv Ht Hj) as (-> & _). rewrite Hi1.
    destruct (Z.lt_trichotomy i j) as [Hij|[|Hij]]; [left|done|right].
    + pose proof (Z.mul_le_mono_nonneg_r (i + 1) j tsize). lia.
    + pose proof (Z.mul_le_mono_nonneg_r (j + 1) i tsize). lia.
  - eexists. unfold FixedVec_index. destruct Hv as (_ & _ & -> & _).
    by rewrite (proj2 (Z.ltb_ge i cap)) by lia.
Qed.

(** The slice of a vector has the same elements at the same addresses; out of range
    it panics too, with the message of slices. *)
Theorem deref_index_ok k tsize cap v i :
  heap_ready k → owns k tsize cap v → 0 < tsize → 0 ≤ i →
  slice_index tsize (FixedVec_deref v) i k =
  if i <? cap then FixedVec_index tsize v i k else Panic "index out of bounds" k.
Proof.
  intros Hk Hv Ht Hi. pose proof Hv as (_ & _ & Hcap & _). unfold slice_index, FixedVec_deref. cbn [sl_len sl_ptr].
  rewrite Hcap, (proj2 (Z.leb_le 0 i)) by lia. cbn [andb]. destruct (Z.ltb_spec i cap) as [Hlt|]; [|done].
  destruct (element_owned k tsize cap v i Hk Hv Ht ltac:(lia)) as (Heq & _).
  rewrite (index_owned k tsize cap v i Hv ltac:(lia)), Heq. done.
Qed.

(** C37. A vector of words is an array: a write through an index is read back
    through the same index and through no other. *)
Theorem FixedVec_get_set k cap v i j w :
  heap_ready k → owns k 4 cap v → 0 ≤ i < cap → 0 ≤ j < cap → 0 ≤ w < USIZE_MOD →
  (let! a := FixedVec_index 4 v i in write32 a w;;! let! b := FixedVec_index 4 v j in read32 b) k =
  (let! b := FixedVec_index 4 v j in
   let! old := read32 b in
   let! a := FixedVec_index 4 v i in
   write32 a w;;! ret (if i =? j then w else old)) k.
Proof.
  intros Hk Hv Hi Hj Hw.
  destruct (element_owned k 4 cap v i Hk Hv ltac:(lia) Hi) as (Hei & _).
  destruct (element_owned k 4 cap v j Hk Hv ltac:(lia) Hj) as (Hej & _).
  erewrite bind_Ret by by eapply index_owned. unfold bind at 1. cbn [write32 modify].
  set (k1 := set_ram _ k).
  assert (owns k1 4 cap v) as Hv1 by (eapply owns_frame; [|done]; intros b; by apply heap_frame).
  erewrite bind_Ret by by eapply index_owned. erewrite (bind_Ret _ _ k) by by eapply index_owned.
  erewrite (bind_Ret _ _ k) by apply gets_run. erewrite (bind_Ret _ _ k) by by eapply index_owned.
  unfold bind, write32, modify, ret, read32, gets. fold k1. f_equal. unfold k1, ram. simpl.
  rewrite Hei, Hej. destruct (Z.eqb_spec i j) as [->|Hne].
  - by apply load32_store32_eq.
  - apply load32_store32_ne. lia.
Qed.

(** Dropping a vector of words gives its block back: the block is no longer
    live, every other one is, and memory is not written. *)
Theorem FixedVec_drop_ok k cap v :
  heap_ready k → owns k 4 cap v → pa_len (fv_phys_addr v) < heap_capacity k →
  ∃ k', FixedVec_drop 4 drop_usize v k = Ret tt k' ∧ only_memory k k' ∧ heap_ready k' ∧
    ∀ b, heap_live k' b ↔ heap_live k b ∧ b ≠ fv_phys_addr v.
Proof.
  intros Hk (Hlive & _) Hlen.
  destruct (phree_spec k _ Hk Hlive Hlen) as (k' & Hrun & Hmem & Hk' & _ & _ & Hb).
  exists k'. split_and!; try done. unfold FixedVec_drop.
  by rewrite (bind_Ret _ _ k tt k) by by apply for_range_id.
Qed.
End spec.

(** C38. The element count is multiplied without a check: with overflow checks a
    request of 2^32 bytes or more panics, without them the product wraps and a
    small request returns a vector that claims more elements than its block holds. *)
Theorem FixedVec_new_overflow {HS : @HeapSpec release} k tsize cap :
  0 < tsize → 0 ≤ cap → USIZE_MOD ≤ cap * tsize →
  (∃ msg, @FixedVec_new debug tsize cap k = Panic msg k) ∧
  (@heap_ready release HS k → 1 ≤ wrap (cap * tsize) ≤ @heap_capacity release HS k → wrap (cap * tsize) ≤ ISIZE_MAX →
   ∀ v k', @FixedVec_new release tsize cap k = Ret v k' →
     fv_cap v = cap ∧ pa_len (fv_phys_addr v) < cap * tsize).
Proof.
  intros Ht Hc Hbig. split.
  - eexists. unfold FixedVec_new. erewrite bind_Ret by (apply assert_run, negb_true_iff, Z.eqb_neq; lia).
    unfold umul, usize, usize_ok. apply bind_Panic. rewrite andb_comm, (proj2 (Z.leb_gt _ _)) by lia. done.
  - intros Hk Hn Hmax v k'. unfold FixedVec_new.
    erewrite bind_Ret by (apply assert_run, negb_true_iff, Z.eqb_neq; lia).
    rewrite (bind_Ret _ _ k (wrap (cap * tsize)) k)
      by (unfold umul, usize, usize_ok; rewrite andb_comm, (proj2 (Z.leb_gt _ _)) by lia; done).
    erewrite bind_Ret by (apply assert_run, Z.leb_le; lia).
    destruct (@phalloc_spec release HS k _ Hk Hn) as (r & k1 & Hrun & _ & _ & _ & _ & Hr).
    erewrite bind_Ret by exact Hrun. destruct r as [pa|e]; [|done].
    erewrite bind_Ret by done. unfold NonNull_new. destruct (_ =? 0); [done|].
    erewrite bind_Ret by done. intros [= <- <-]. simpl. split; [done|].
    unfold PAGE_SIZE in Hr. lia.
Qed.
