(* ===== verification/Vm.v ===== *)
(** * Page tables: [PageTable] of src/rust/src/vm.rs.

    A [PageTable] is two vectors: the root table of 1024 entries, and 1024
    vectors that own the second-level tables.  Every access goes through
    [FixedVec]. *)
From S2P Require Import Prelude Ram Addr Sync Machine Kernel FixedVec.

Definition SATP_SV32 : Z := 2147483648.
Definition PAGE_V : Z := 1.
Definition PAGE_R : Z := 2.
Definition PAGE_W : Z := 4.
Definition PAGE_X : Z := 8.
Definition PAGE_U : Z := 16.

Section vm.
Context `{Profile, Layout}.

Definition PageTable_new : M Kernel PageTable :=
  let! root_pt := FixedVec_new 4 1024 in
  let! second_pts := FixedVec_new fv_size 1024 in
  ret (mkPageTable root_pt second_pts).

Definition PageTable_root_pt_addr (self : PageTable) : Z := FixedVec_as_ptr self.(root_pt).

(** [x << 10] of a [usize]: the bits shifted out are lost. *)
Definition ushl10 (x : Z) : Z := wrap (Z.shiftl x 10).

(** The middle of [map_page]: the second-level table of [vpn1], created on demand. *)
Definition ensure_second (self : PageTable) (vpn1 : Z) : M Kernel () :=
  let! a := FixedVec_index 4 self.(root_pt) vpn1 in
  let! pte := read32 a in
  if Z.land pte PAGE_V =? 0 then
    let! second_pt := FixedVec_new 4 1024 in
    let second_pt_phys_addr := FixedVec_as_ptr second_pt in
    let! b := FixedVec_index fv_size self.(second_pts) vpn1 in
    assign_fv_usize b second_pt;;!
    let! a := FixedVec_index 4 self.(root_pt) vpn1 in
    write32 a (Z.lor (ushl10 (second_pt_phys_addr / PAGE_SIZE)) PAGE_V)
  else ret tt.

Definition PageTable_map_page (self : PageTable) (vaddr paddr flags : Z) : M Kernel () :=
  let! r := urem vaddr PAGE_SIZE in
  (if negb (r =? 0) then panic ("unaligned vaddr " +:+ lower_hex vaddr) else ret tt);;!
  let! r := urem paddr PAGE_SIZE in
  (if negb (r =? 0) then panic ("unaligned paddr " +:+ lower_hex paddr) else ret tt);;!
  let vpn1 := Z.land (Z.shiftr vaddr 22) 1023 in
  ensure_second self vpn1;;!
  let vpn0 := Z.land (Z.shiftr vaddr 12) 1023 in
  let! b := FixedVec_index fv_size self.(second_pts) vpn1 in
  let! second_pt := read_fv b in
  let! c := FixedVec_index 4 second_pt vpn0 in
  write32 c (Z.lor (Z.lor (ushl10 (paddr / PAGE_SIZE)) flags) PAGE_V).

(** Dropping a [PageTable] drops its fields in order. *)
Definition PageTable_drop (self : PageTable) : M Kernel () :=
  FixedVec_drop 4 drop_usize self.(root_pt);;!
  FixedVec_drop fv_size drop_fv_usize self.(second_pts).
End vm.
