(* ===== verification/Sv32.v ===== *)
(** * The Sv32 translation, page-table entries and page numbers.

    [sv32_walk] is the two-level translation of the privileged architecture, with
    its reserved encodings as faults.  The lemmas say what the shifts and masks of
    [map_page] compute. *)
From S2P Require Import Prelude Ram Addr Machine Vm.

(** ** The translation *)

(** A leaf entry: readable or executable, and not writable only. *)
Definition leaf_flags (f : Z) : bool :=
  (Z.testbit f 1 || Z.testbit f 3) && (negb (Z.testbit f 2) || Z.testbit f 1).
Definition no_rwx (f : Z) : bool := negb (Z.testbit f 1) && negb (Z.testbit f 2) && negb (Z.testbit f 3).

(** The physical address and the ten low bits of the entry that maps [va]. *)
Definition sv32_walk (r : Ram) (root va : Z) : option (Z * Z) :=
  let pte1 := load32 r (root + 4 * (va / 4194304)) in
  if Z.testbit pte1 0 then
    if no_rwx pte1 then
      let pte0 := load32 r (pte1 / 1024 * 4096 + 4 * (va / 4096 mod 1024)) in
      if Z.testbit pte0 0 && leaf_flags pte0
      then Some (pte0 / 1024 * 4096 + va mod 4096, pte0 mod 1024) else None
    else if leaf_flags pte1 && (pte1 / 1024 mod 1024 =? 0)
    then Some (pte1 / 1024 * 4096 + va mod 4194304, pte1 mod 1024) else None
  else None.

(** ** Entries *)

Lemma lor_low n x k : 0 ≤ k → 0 ≤ x < 2 ^ k → Z.lor (n * 2 ^ k) x = n * 2 ^ k + x.
Proof.
  intros Hk Hx. rewrite <- Z.add_lor_land.
  assert (Z.land (n * 2 ^ k) x = 0) as ->; [|lia].
  rewrite <- Z.shiftl_mul_pow2 by done. rewrite <- (Z.mod_small x (2 ^ k)) by done.
  apply Z.bits_inj'. intros i Hi.
  rewrite Z.land_spec, Z.shiftl_spec, Z.bits_0 by done. destruct (Z.lt_ge_cases i k).
  - by rewrite Z.testbit_neg_r by lia.
  - rewrite Z.mod_pow2_bits_high by lia. apply andb_false_r.
Qed.

(** The entry of page number [n] and flags [f], valid. *)
Definition entry (n f : Z) : Z := n * 1024 + Z.lor f 1.

Lemma lor_1_bound f : 0 ≤ f < 1024 → 0 ≤ Z.lor f 1 < 1024.
Proof.
  intros Hf. assert (Z.lor f 1 = Z.lor f 1 mod 2 ^ 10) as Heq.
  { rewrite <- Z.land_ones, Z.land_lor_distr_l, !Z.land_ones by done. by rewrite Z.mod_small. }
  rewrite Heq. apply Z.mod_pos_bound. lia.
Qed.

Lemma entry_code n f :
  0 ≤ n < 4194304 → 0 ≤ f < 1024 → Z.lor (Z.lor (ushl10 n) f) PAGE_V = entry n f.
Proof.
  intros Hn Hf. unfold ushl10, wrap, entry, PAGE_V. rewrite Z.shiftl_mul_pow2 by done.
  change (2 ^ 10) with 1024. rewrite Z.mod_small by lia. rewrite <- Z.lor_assoc.
  apply (lor_low n (Z.lor f 1) 10); [done|]. by apply lor_1_bound.
Qed.

Lemma entry_word n f : 0 ≤ n < 4194304 → 0 ≤ f < 1024 → word (entry n f).
Proof. intros Hn Hf. pose proof (lor_1_bound f Hf). unfold entry, word. lia. Qed.

Lemma entry_page n f : 0 ≤ f < 1024 → entry n f / 1024 = n.
Proof. intros Hf. pose proof (lor_1_bound f Hf). unfold entry. rewrite Z.div_add_l by lia. rewrite Z.div_small; lia. Qed.
Lemma entry_flags n f : 0 ≤ f < 1024 → entry n f mod 1024 = Z.lor f 1.
Proof.
  intros Hf. pose proof (lor_1_bound f Hf). unfold entry.
  rewrite Z.add_comm, Z.mod_add by lia. by apply Z.mod_small.
Qed.
Lemma entry_bit n f i : 0 ≤ f < 1024 → i < 10 → Z.testbit (entry n f) i = Z.testbit (Z.lor f 1) i.
Proof.
  intros Hf Hi. rewrite <- (Z.mod_pow2_bits_low _ 10) by done.
  change (2 ^ 10) with 1024. by rewrite entry_flags.
Qed.
Lemma bit_lor_1 f i : 0 < i → Z.testbit (Z.lor f 1) i = Z.testbit f i.
Proof.
  intros Hi. rewrite Z.lor_spec. replace (Z.testbit 1 i) with false; [apply orb_false_r|].
  symmetry. apply Z.bits_above_log2; [done|]. by change (Z.log2 1) with 0.
Qed.
Lemma entry_valid n f : 0 ≤ f < 1024 → Z.testbit (entry n f) 0 = true.
Proof. intros Hf. rewrite entry_bit by done. rewrite Z.lor_spec. apply orb_true_r. Qed.
Lemma entry_leaf n f : 0 ≤ f < 1024 → leaf_flags (entry n f) = leaf_flags f.
Proof. intros Hf. unfold leaf_flags. by rewrite !entry_bit, !bit_lor_1 by done. Qed.
Lemma entry_table n : no_rwx (entry n 0) = true.
Proof. unfold no_rwx. by rewrite !entry_bit, !bit_lor_1 by done. Qed.

Lemma land_V_spec x : (Z.land x PAGE_V =? 0) = negb (Z.testbit x 0).
Proof.
  unfold PAGE_V. change 1 with (Z.ones 1). rewrite Z.land_ones by done. change (2 ^ 1) with 2.
  rewrite <- Z.bit0_mod. by destruct (Z.testbit x 0).
Qed.

(** ** Page numbers *)

Definition vpn1 (va : Z) : Z := va / 4194304.
Definition vpn0 (va : Z) : Z := va / 4096 mod 1024.

Lemma vpn1_code va : 0 ≤ va < USIZE_MOD → Z.land (Z.shiftr va 22) 1023 = vpn1 va.
Proof.
  intros Hva. change 1023 with (Z.ones 10). rewrite Z.land_ones, Z.shiftr_div_pow2 by done.
  change (2 ^ 22) with 4194304. change (2 ^ 10) with 1024. unfold vpn1.
  apply Z.mod_small. split; [apply Z.div_pos; lia|apply Z.div_lt_upper_bound; lia].
Qed.
Lemma vpn0_code va : Z.land (Z.shiftr va 12) 1023 = vpn0 va.
Proof.
  change 1023 with (Z.ones 10). by rewrite Z.land_ones, Z.shiftr_div_pow2 by done.
Qed.
Lemma vpn1_bound va : 0 ≤ va < USIZE_MOD → 0 ≤ vpn1 va < 1024.
Proof. intros Hva. unfold vpn1. split; [apply Z.div_pos; lia|apply Z.div_lt_upper_bound; lia]. Qed.
Lemma vpn0_bound va : 0 ≤ vpn0 va < 1024.
Proof. apply Z.mod_pos_bound. lia. Qed.

Lemma same_page va v : va / 4096 = v / 4096 ↔ vpn1 va = vpn1 v ∧ vpn0 va = vpn0 v.
Proof.
  unfold vpn1, vpn0. rewrite <- !(Z.div_div _ 4096 1024) by lia.
  pose proof (Z.div_mod (va / 4096) 1024 ltac:(lia)). pose proof (Z.div_mod (v / 4096) 1024 ltac:(lia)).
  split; [by intros ->|]. lia.
Qed.
