(* ===== verification/PageTable.v ===== *)
(** * The invariant of a [PageTable].

    [pt_ok] ties the entries of the root table to the vectors that own the
    second-level tables; [grows] is what an operation on a table may do to the
    rest of the kernel; [walk_absent] and [walk_owned] relate the entries to the
    translation. *)
From S2P Require Import Prelude Ram Addr BuddySpec Sync Machine Kernel FixedVec Vm Sv32.

(** ** The invariant of a page table *)

Section pt.
Context `{HeapSpec, Layout, !LayoutOk}.

(** Free memory reads as zero: true after boot, until something is freed. *)
Definition clean (k : Kernel) : Prop :=
  ∀ a, heap_region k a → (∀ b, heap_live k b → ¬ inside b a) → load8 (ram k) a = 0.

Definition blk (v : FixedVec) : PhysAddr := v.(fv_phys_addr).
Definition root_at (pt : PageTable) (i : Z) : Z := element 4 pt.(root_pt) i.
Definition sub_at (pt : PageTable) (i : Z) : Z := element fv_size pt.(second_pts) i.
(** Entry [i] of the root table and its vector. *)
Definition pte1 (k : Kernel) (pt : PageTable) (i : Z) : Z := load32 (ram k) (root_at pt i).
Definition sub (k : Kernel) (pt : PageTable) (i : Z) : FixedVec := fv_load (ram k) (sub_at pt i).

(** Not valid, and the vector owns nothing. *)
Definition sub_absent (k : Kernel) (pt : PageTable) (i : Z) : Prop :=
  pte1 k pt i = 0 ∧ fv_cap (sub k pt i) = 0 ∧ pa_size (blk (sub k pt i)) = None.
(** The entry points to the table the vector owns. *)
Definition sub_owned (k : Kernel) (pt : PageTable) (i : Z) : Prop :=
  pte1 k pt i = entry (fv_ptr (sub k pt i) / 4096) 0 ∧ owns k 4 1024 (sub k pt i) ∧
  blk (sub k pt i) ≠ blk (root_pt pt) ∧ blk (sub k pt i) ≠ blk (second_pts pt).

Record pt_ok (k : Kernel) (pt : PageTable) : Prop := {
  pt_root : owns k 4 1024 (root_pt pt);
  pt_second : owns k fv_size 1024 (second_pts pt);
  pt_two : blk (root_pt pt) ≠ blk (second_pts pt);
  pt_entries i : 0 ≤ i < 1024 → sub_absent k pt i ∨ sub_owned k pt i;
  pt_distinct i j : 0 ≤ i < 1024 → 0 ≤ j < 1024 → i ≠ j →
    sub_owned k pt i → sub_owned k pt j → blk (sub k pt i) ≠ blk (sub k pt j);
}.

(** The blocks a page table is made of. *)
Definition pt_block (k : Kernel) (pt : PageTable) (b : PhysAddr) : Prop :=
  b = blk (root_pt pt) ∨ b = blk (second_pts pt) ∨
  ∃ i, 0 ≤ i < 1024 ∧ sub_owned k pt i ∧ b = blk (sub k pt i).

Lemma absent_not_owned k pt i : sub_absent k pt i → ¬ sub_owned k pt i.
Proof.
  intros [Ha _] [Hb _]. rewrite Ha in Hb. pose proof (entry_valid (fv_ptr (sub k pt i) / 4096) 0 ltac:(lia)) as Hv.
  rewrite <- Hb in Hv. done.
Qed.

Lemma pt_block_live k pt b : pt_ok k pt → pt_block k pt b → heap_live k b.
Proof.
  intros Hpt [->|[->|(i & _ & Hi & ->)]]; [apply (pt_root _ _ Hpt)|apply (pt_second _ _ Hpt)|apply Hi].
Qed.

Lemma root_at_in k pt i a :
  heap_ready k → pt_ok k pt → 0 ≤ i < 1024 → root_at pt i ≤ a < root_at pt i + 4 → inside (blk (root_pt pt)) a.
Proof.
  intros Hk Hpt Hi Ha. destruct (element_owned k 4 1024 _ i Hk (pt_root _ _ Hpt) ltac:(lia) Hi) as (_ & ? & ?).
  unfold root_at in Ha. unfold inside, blk. lia.
Qed.
Lemma sub_at_in k pt i a :
  heap_ready k → pt_ok k pt → 0 ≤ i < 1024 → sub_at pt i ≤ a < sub_at pt i + fv_size → inside (blk (second_pts pt)) a.
Proof.
  intros Hk Hpt Hi Ha. pose proof layout_size as Hs.
  destruct (element_owned k fv_size 1024 _ i Hk (pt_second _ _ Hpt) ltac:(lia) Hi) as (_ & ? & ?).
  unfold sub_at in Ha. unfold inside, blk. lia.
Qed.
Lemma element_apart k tsize cap v i j a :
  heap_ready k → owns k tsize cap v → 0 < tsize → 0 ≤ i < cap → 0 ≤ j < cap → i ≠ j →
  element tsize v i ≤ a < element tsize v i + tsize → ¬ (element tsize v j ≤ a < element tsize v j + tsize).
Proof.
  intros Hk Hv Ht Hi Hj Hne. destruct (element_owned k tsize cap v i Hk Hv Ht Hi) as (-> & _).
  destruct (element_owned k tsize cap v j Hk Hv Ht Hj) as (-> & _).
  destruct (Z.lt_trichotomy i j) as [Hij|[|Hij]]; [|done|].
  - pose proof (Z.mul_le_mono_nonneg_r (i + 1) j tsize). lia.
  - pose proof (Z.mul_le_mono_nonneg_r (j + 1) i tsize). lia.
Qed.

(** A write inside a block is not seen outside it. *)
Lemma store32_outside r a w b c :
  (∀ x, a ≤ x < a + 4 → inside b x) → ¬ inside b c → load8 (store32 a w r) c = load8 r c.
Proof. intros Hin Hc. apply load8_store32_ne. intros Hx%Hin. done. Qed.
Lemma fv_store_outside r a v b c :
  (∀ x, a ≤ x < a + fv_size → inside b x) → ¬ inside b c → load8 (fv_store a v r) c = load8 r c.
Proof. intros Hin Hc. apply load8_fv_store_ne. intros Hx%Hin. done. Qed.

(** What the entries say depends on the bytes of two blocks. *)
Lemma entries_ext k k' pt i :
  heap_ready k → pt_ok k pt → 0 ≤ i < 1024 →
  (∀ a, inside (blk (root_pt pt)) a ∨ inside (blk (second_pts pt)) a → load8 (ram k') a = load8 (ram k) a) →
  pte1 k' pt i = pte1 k pt i ∧ sub k' pt i = sub k pt i.
Proof.
  intros Hk Hpt Hi Ha. unfold pte1, sub. split.
  - apply load32_ext. intros a Hx. apply Ha. left. by eapply root_at_in.
  - apply fv_load_ext. intros a Hx. apply Ha. right. by eapply sub_at_in.
Qed.

(** The invariant after a change of entry [i]. *)
Lemma pt_ok_change k k' pt i :
  heap_ready k → pt_ok k pt → (∀ b, heap_live k b → heap_live k' b) → 0 ≤ i < 1024 →
  (∀ j, 0 ≤ j < 1024 → j ≠ i → pte1 k' pt j = pte1 k pt j ∧ sub k' pt j = sub k pt j) →
  sub_owned k' pt i →
  (∀ j, 0 ≤ j < 1024 → j ≠ i → sub_owned k pt j → blk (sub k pt j) ≠ blk (sub k' pt i)) →
  pt_ok k' pt ∧ ∀ j, 0 ≤ j < 1024 → j ≠ i → sub_owned k pt j → sub_owned k' pt j.
Proof.
  intros Hk Hpt Hlive Hi Hsame Hown Hnew.
  assert (∀ j, 0 ≤ j < 1024 → j ≠ i → sub_owned k pt j → sub_owned k' pt j) as Hkeep.
  { intros j Hj Hne (He & Ho & Hb). destruct (Hsame j Hj Hne) as [Hp Hs].
    unfold sub_owned. rewrite Hp, Hs. split_and!; [done|by eapply owns_frame|tauto..]. }
  assert (∀ j, 0 ≤ j < 1024 → j ≠ i → sub_owned k' pt j → sub_owned k pt j) as Hback.
  { intros j Hj Hne Ho. destruct (pt_entries _ _ Hpt j Hj) as [Ha|]; [|done].
    destruct (Hsame j Hj Hne) as [Hp Hs]. destruct (absent_not_owned k' pt j); [|done].
    unfold sub_absent in *. by rewrite Hp, Hs. }
  split; [|done]. destruct Hpt as [Hroot Hsec Htwo Hent Hdis]. split; try done; [by eapply owns_frame..| |].
  - intros j Hj. destruct (decide (j = i)) as [->|Hne]; [by right|].
    destruct (Hent j Hj) as [Ha|Ho]; [left|right; by apply Hkeep].
    destruct (Hsame j Hj Hne) as [Hp Hs]. unfold sub_absent in *. by rewrite Hp, Hs.
  - intros j l Hj Hl Hne Hoj Hol. destruct (decide (j = i)) as [->|Hji].
    + destruct (Hsame l Hl ltac:(congruence)) as [_ ->]. apply not_eq_sym. by apply Hnew; [| |apply Hback].
    + destruct (Hsame j Hj Hji) as [_ ->]. destruct (decide (l = i)) as [->|Hli].
      * by apply Hnew; [| |apply Hback].
      * destruct (Hsame l Hl Hli) as [_ ->]. apply Hdis; auto.
Qed.

(** ** Growing a table *)

(** What the operations on a table may do: allocate, and write inside the blocks
    of the table.  Second-level tables stay where they are. *)
Record grows (k k' : Kernel) (pt : PageTable) : Prop := {
  grow_state : ∃ r m, k' = set_ram r (set_MEMORY m k);
  grow_ready : heap_ready k';
  grow_clean : clean k';
  grow_ok : pt_ok k' pt;
  grow_capacity : heap_capacity k' = heap_capacity k;
  grow_region a : heap_region k' a ↔ heap_region k a;
  grow_live b : heap_live k b → heap_live k' b;
  grow_new b : heap_live k' b → heap_live k b ∨ pt_block k' pt b;
  grow_blocks b : pt_block k' pt b → pt_block k pt b ∨ ¬ heap_live k b;
  grow_sub i : 0 ≤ i < 1024 → sub_owned k pt i → sub_owned k' pt i ∧ sub k' pt i = sub k pt i;
  grow_writes a : (∀ b, pt_block k' pt b → ¬ inside b a) → load8 (ram k') a = load8 (ram k) a;
}.

Lemma grows_block k k' pt b : grows k k' pt → pt_block k pt b → pt_block k' pt b.
Proof.
  intros Hg [->|[->|(i & Hi & Ho & ->)]]; [by left|by right; left|]. right. right.
  destruct (grow_sub _ _ _ Hg i Hi Ho) as [Ho' Hs]. exists i. by rewrite Hs.
Qed.

Lemma grows_refl k pt : heap_ready k → clean k → pt_ok k pt → grows k k pt.
Proof.
  intros Hk Hc Hpt. split; try done; [|tauto..].
  exists (ram k), (MEMORY k). by destruct k as [[] ? ? ?].
Qed.

Lemma grows_trans k1 k2 k3 pt : grows k1 k2 pt → grows k2 k3 pt → grows k1 k3 pt.
Proof.
  intros H12 H23.
  destruct H12 as [(r2 & m2 & ->) ? ? ? Hc Hr Hl Hn Hbl Hs Hw].
  pose proof H23 as [(r3 & m3 & ->) ? ? ? Hc' Hr' Hl' Hn' Hbl' Hs' Hw']. split; try done.
  - by eexists _, _.
  - by rewrite Hc'.
  - intros a. by rewrite Hr'.
  - auto.
  - intros b [Hlive|]%Hn'; [|tauto]. destruct (Hn b Hlive); [tauto|]. right.
    by apply (grows_block _ _ _ _ H23).
  - intros b [Hpb|Hnl]%Hbl'; [by apply Hbl|]. right. intros Hlive. by apply Hnl, Hl.
  - intros i Hi Ho. destruct (Hs i Hi Ho) as [Ho2 Hs2]. destruct (Hs' i Hi Ho2) as [Ho3 Hs3].
    split; [done|congruence].
  - intros a Ha. rewrite Hw' by done. apply Hw. intros b Hpb. apply Ha. by apply (grows_block _ _ _ _ H23).
Qed.

(** ** The walk through an owned and through an absent entry *)

Definition leaf (k : Kernel) (pt : PageTable) (i j : Z) : Z := load32 (ram k) (element 4 (sub k pt i) j).
Definition walk (k : Kernel) (pt : PageTable) (va : Z) : option (Z * Z) :=
  sv32_walk (ram k) (PageTable_root_pt_addr pt) va.

Lemma root_at_eq k pt i :
  heap_ready k → pt_ok k pt → 0 ≤ i < 1024 → PageTable_root_pt_addr pt + 4 * i = root_at pt i.
Proof.
  intros Hk Hpt Hi. destruct (element_owned k 4 1024 _ i Hk (pt_root _ _ Hpt) ltac:(lia) Hi) as (Heq & _).
  unfold root_at. rewrite Heq. unfold PageTable_root_pt_addr, FixedVec_as_ptr. lia.
Qed.

Lemma walk_absent k pt va :
  heap_ready k → pt_ok k pt → 0 ≤ va < USIZE_MOD → sub_absent k pt (vpn1 va) → walk k pt va = None.
Proof.
  intros Hk Hpt Hva [Ha _]. unfold walk, sv32_walk. fold (vpn1 va).
  rewrite (root_at_eq k) by (done || by apply vpn1_bound). fold (pte1 k pt (vpn1 va)). by rewrite Ha.
Qed.

(** A page-aligned word is 1024 * 4 times the page number of its entry. *)
Lemma owned_base k pt i :
  heap_ready k → sub_owned k pt i → pte1 k pt i / 1024 * 4096 = fv_ptr (sub k pt i).
Proof.
  intros Hk (He & (Hlive & Hptr & _) & _). rewrite He, entry_page by lia.
  destruct (heap_live_good _ _ Hk Hlive) as (_ & [q Hq] & _). rewrite Hptr, Hq.
  unfold PAGE_SIZE. by rewrite Z.div_mul.
Qed.

Lemma walk_owned k pt va :
  heap_ready k → pt_ok k pt → 0 ≤ va < USIZE_MOD → sub_owned k pt (vpn1 va) →
  walk k pt va =
  let pte0 := leaf k pt (vpn1 va) (vpn0 va) in
  if Z.testbit pte0 0 && leaf_flags pte0
  then Some (pte0 / 1024 * 4096 + va mod 4096, pte0 mod 1024) else None.
Proof.
  intros Hk Hpt Hva Ho. unfold walk, sv32_walk. fold (vpn1 va) (vpn0 va).
  rewrite (root_at_eq k) by (done || by apply vpn1_bound). fold (pte1 k pt (vpn1 va)).
  rewrite (owned_base _ _ _ Hk Ho). pose proof Ho as (He & Hs & _).
  rewrite He, entry_valid, entry_table by lia.
  destruct (element_owned k 4 1024 _ (vpn0 va) Hk Hs ltac:(lia) (vpn0_bound va)) as (Heq & _).
  unfold leaf. rewrite Heq. by replace (4 * vpn0 va) with (vpn0 va * 4) by lia.
Qed.

(** Two states with the same entries and leaves translate alike. *)
Lemma leaf_ext k k' pt i j :
  heap_ready k → sub_owned k pt i → 0 ≤ j < 1024 → sub k' pt i = sub k pt i →
  (∀ a, inside (blk (sub k pt i)) a → load8 (ram k') a = load8 (ram k) a) →
  leaf k' pt i j = leaf k pt i j.
Proof.
  intros Hk (_ & Ho & _) Hj Hs Ha. unfold leaf. rewrite Hs. apply load32_ext. intros a Hx. apply Ha.
  destruct (element_owned k 4 1024 _ j Hk Ho ltac:(lia) Hj) as (_ & ? & ?). unfold inside, blk. lia.
Qed.

(** A change outside the blocks of a table is not seen by it. *)
Lemma pt_frame k k' pt :
  heap_ready k → heap_ready k' → (∀ b, heap_live k b → heap_live k' b) → pt_ok k pt →
  (∀ b a, pt_block k pt b → inside b a → load8 (ram k') a = load8 (ram k) a) →
  pt_ok k' pt ∧ (∀ b, pt_block k' pt b ↔ pt_block k pt b) ∧
  ∀ va, 0 ≤ va < USIZE_MOD → walk k' pt va = walk k pt va.
Proof.
  intros Hk Hk' Hup Hpt Ha.
  assert (∀ i, 0 ≤ i < 1024 → pte1 k' pt i = pte1 k pt i ∧ sub k' pt i = sub k pt i) as Hent.
  { intros i Hi. apply entries_ext; try done. intros a [Hin|Hin]; eapply Ha; try exact Hin; [by left|by right; left]. }
  assert (∀ i, 0 ≤ i < 1024 → sub_absent k pt i → sub_absent k' pt i) as Habs.
  { intros i Hi. destruct (Hent i Hi) as [Hp Hs]. unfold sub_absent. by rewrite Hp, Hs. }
  assert (∀ i, 0 ≤ i < 1024 → sub_owned k' pt i ↔ sub_owned k pt i) as Hown.
  { intros i Hi. destruct (Hent i Hi) as [Hp Hs]. split; intros Ho.
    - destruct (pt_entries _ _ Hpt i Hi) as [Hab%Habs|]; [|done|done]. by destruct (absent_not_owned k' pt i).
    - unfold sub_owned in *. rewrite Hp, Hs. split_and!; try apply Ho. by eapply owns_frame; [exact Hup|apply Ho]. }
  assert (pt_ok k' pt) as Hpt'.
  { destruct Hpt as [Hroot Hsec Htwo Hen Hdis].
    split; [by eapply owns_frame; [exact Hup|]..|exact Htwo| |].
    - intros i Hi. destruct (Hen i Hi); [left; by apply Habs|right; by apply Hown].
    - intros i j Hi Hj Hne Hoi%Hown Hoj%Hown; try done.
      destruct (Hent i Hi) as [_ ->], (Hent j Hj) as [_ ->]. by apply Hdis. }
  split_and!; [done|..].
  - intros b. unfold pt_block. do 2 f_equiv. f_equiv. intros i. split; intros (Hi & Ho & ->);
      destruct (Hent i Hi) as [_ Hs]; rewrite Hs || rewrite <- Hs; (split_and!; [lia|lia|by apply Hown|done]).
  - intros va Hva. pose proof (vpn1_bound va Hva) as Hi. destruct (pt_entries _ _ Hpt _ Hi) as [Hab|Ho].
    + rewrite !walk_absent; try done. by apply Habs.
    + rewrite !walk_owned; try done; [|by apply Hown].
      rewrite (leaf_ext k k'); try done; [apply vpn0_bound|by apply Hent|].
      intros a Hin. eapply Ha; [|exact Hin]. right. right. by exists (vpn1 va).
Qed.
End pt.
