(* ===== verification/VmSpec.v ===== *)
(** * What [PageTable::new] and [map_page] do to the translation of the hardware.

    [ensure_spec] installs a second-level table when it is missing, [with_leaf] writes
    the entry of the page; [map_page_run] composes them. *)
From S2P Require Import Prelude Ram Addr BuddyInv BuddySpec BuddyRoom Sync Machine Kernel Heap FixedVec Vm Sv32 PageTable.

Section pt.
Context `{HeapSpec, Layout, !LayoutOk}.

(** ** Installing a second-level table *)

(** Memory after [second_pts[i] = v] and [root_pt[i] = e]. *)
Definition installed (k : Kernel) (pt : PageTable) (i : Z) (v : FixedVec) (e : Z) : Ram :=
  store32 (root_at pt i) e (fv_store (sub_at pt i) v (ram k)).

Lemma installed_outside k pt i v e a :
  heap_ready k → pt_ok k pt → 0 ≤ i < 1024 →
  ¬ (root_at pt i ≤ a < root_at pt i + 4) → ¬ (sub_at pt i ≤ a < sub_at pt i + fv_size) →
  load8 (installed k pt i v e) a = load8 (ram k) a.
Proof.
  intros Hk Hpt Hi Hr Hs. unfold installed.
  rewrite load8_store32_ne by done. by apply load8_fv_store_ne.
Qed.

Lemma pt_two_apart k pt a :
  heap_ready k → pt_ok k pt → inside (blk (root_pt pt)) a → ¬ inside (blk (second_pts pt)) a.
Proof.
  intros Hk Hpt. apply (live_apart k); [done|apply (pt_root _ _ Hpt)|apply (pt_second _ _ Hpt)|apply Hpt].
Qed.

Lemma installed_same k pt i v e :
  heap_ready k → pt_ok k pt → 0 ≤ i < 1024 → fv_words v → word e →
  load32 (installed k pt i v e) (root_at pt i) = e ∧ fv_load (installed k pt i v e) (sub_at pt i) = v.
Proof.
  intros Hk Hpt Hi Hv He. unfold installed. split; [by apply load32_store32_eq|].
  rewrite <- (fv_load_store (ram k) (sub_at pt i) v Hv) at 2. apply fv_load_ext.
  intros a Ha. apply load8_store32_ne. intros Hx.
  eapply (pt_two_apart k pt a); [done|done|by eapply root_at_in|by eapply sub_at_in].
Qed.

Lemma installed_other k k' pt i v e j :
  heap_ready k → pt_ok k pt → 0 ≤ i < 1024 → 0 ≤ j < 1024 → j ≠ i →
  ram k' = installed k pt i v e →
  pte1 k' pt j = pte1 k pt j ∧ sub k' pt j = sub k pt j.
Proof.
  intros Hk Hpt Hi Hj Hne Hr. pose proof layout_size. unfold pte1, sub. rewrite Hr. split.
  - apply load32_ext. intros a Ha. apply installed_outside; try done.
    + refine (element_apart k 4 1024 _ j i a Hk (pt_root _ _ Hpt) _ Hj Hi Hne Ha). lia.
    + intros Hx. exact (pt_two_apart k pt a Hk Hpt (root_at_in k pt j a Hk Hpt Hj Ha) (sub_at_in k pt i a Hk Hpt Hi Hx)).
  - apply fv_load_ext. intros a Ha. apply installed_outside; try done.
    + intros Hx. exact (pt_two_apart k pt a Hk Hpt (root_at_in k pt i a Hk Hpt Hi Hx) (sub_at_in k pt j a Hk Hpt Hj Ha)).
    + refine (element_apart k fv_size 1024 _ j i a Hk (pt_second _ _ Hpt) _ Hj Hi Hne Ha). lia.
Qed.

Lemma assign_absent k pt i v :
  heap_ready k → sub_absent k pt i →
  assign_fv_usize (sub_at pt i) v k = Ret tt (set_ram (fv_store (sub_at pt i) v (ram k)) k).
Proof.
  intros Hk (_ & Hcap & Hsize). unfold assign_fv_usize, drop_fv_usize.
  erewrite bind_Ret; [reflexivity|]. erewrite bind_Ret by apply gets_run. fold (sub k pt i).
  unfold FixedVec_drop. rewrite Hcap. erewrite bind_Ret by done.
  unfold blk in Hsize. destruct (fv_phys_addr (sub k pt i)) as [a s]. simpl in Hsize. subst s.
  by apply phree_no_size.
Qed.

Lemma pte1_read k pt i A (f : Z → M Kernel A) :
  pt_ok k pt → 0 ≤ i < 1024 →
  (let! a := FixedVec_index 4 (root_pt pt) i in let! pte := read32 a in f pte) k = f (pte1 k pt i) k.
Proof.
  intros Hpt Hi. erewrite bind_Ret by (eapply index_owned; [apply (pt_root _ _ Hpt)|done]).
  by erewrite bind_Ret by apply gets_run.
Qed.

Lemma ensure_owned k pt i :
  pt_ok k pt → 0 ≤ i < 1024 → sub_owned k pt i → ensure_second pt i k = Ret tt k.
Proof.
  intros Hpt Hi (He & _). unfold ensure_second. rewrite pte1_read by done.
  by rewrite He, land_V_spec, entry_valid by lia.
Qed.

(** The vector of a block as [FixedVec::new(1024)] makes it. *)
Definition table_of (pa : PhysAddr) : FixedVec := mkFixedVec (pa_addr pa) 1024 pa.

Lemma good_words pa : good_block pa → fv_words (table_of pa).
Proof.
  unfold good_block, fv_words, word, PAGE_SIZE. simpl. intros (Hp & _ & Hl & He & ->). lia.
Qed.

Lemma ensure_run k k1 pt i pa :
  heap_ready k → pt_ok k pt → 0 ≤ i < 1024 → sub_absent k pt i →
  FixedVec_new 4 1024 k = Ret (table_of pa) k1 → only_memory k k1 → heap_ready k1 → (∀ b, heap_live k b → heap_live k1 b) →
  0 ≤ pa_addr pa < USIZE_MOD →
  ensure_second pt i k =
  Ret tt (set_ram (installed k pt i (table_of pa) (entry (pa_addr pa / 4096) 0)) k1).
Proof.
  intros Hk Hpt Hi Ha Hnew [m ->] Hk1 Hup Hpa. unfold ensure_second. rewrite pte1_read by done.
  rewrite (proj1 Ha). change (Z.land 0 PAGE_V =? 0) with true. cbv iota.
  erewrite bind_Ret by exact Hnew. cbv beta zeta.
  erewrite bind_Ret by (eapply index_owned; [eapply owns_frame; [exact Hup|apply (pt_second _ _ Hpt)]|done]).
  fold (sub_at pt i). erewrite bind_Ret by (apply assign_absent; [done|exact Ha]).
  erewrite bind_Ret by (eapply index_owned; [eapply owns_frame; [|apply (pt_root _ _ Hpt)]|done]; intros b Hb%Hup; by apply (heap_frame (set_MEMORY m k))).
  fold (root_at pt i). unfold write32, modify, PAGE_SIZE, FixedVec_as_ptr. cbn [table_of fv_ptr].
  rewrite <- (entry_code _ 0) by (split; [apply Z.div_pos; lia|apply Z.div_lt_upper_bound; lia]) || lia.
  rewrite Z.lor_0_r. unfold installed. f_equal.
Qed.

(** A fresh table [pa], taken from the heap in [k1], goes into entry [i]. *)
Record fresh_table (k k1 : Kernel) (pa : PhysAddr) : Prop := {
  fresh_memory_only : only_memory k k1;
  fresh_ready : heap_ready k1;
  fresh_capacity : heap_capacity k1 = heap_capacity k;
  fresh_region a : heap_region k1 a ↔ heap_region k a;
  fresh_len : 4096 ≤ pa_len pa;
  fresh_new : ¬ heap_live k pa;
  fresh_live b : heap_live k1 b ↔ heap_live k b ∨ b = pa;
}.

Definition with_table (k1 k : Kernel) (pt : PageTable) (i : Z) (pa : PhysAddr) : Kernel :=
  set_ram (installed k pt i (table_of pa) (entry (pa_addr pa / 4096) 0)) k1.

Lemma with_table_heap k1 k pt i pa :
  let k' := with_table k1 k pt i pa in
  heap_capacity k' = heap_capacity k1 ∧ (heap_ready k' ↔ heap_ready k1) ∧
  (∀ b, heap_live k' b ↔ heap_live k1 b) ∧ ∀ a, heap_region k' a ↔ heap_region k1 a.
Proof. by apply heap_frame. Qed.

Lemma with_table_entry k k1 pt i pa :
  heap_ready k → pt_ok k pt → 0 ≤ i < 1024 → fresh_table k k1 pa →
  sub (with_table k1 k pt i pa) pt i = table_of pa ∧ sub_owned (with_table k1 k pt i pa) pt i.
Proof.
  intros Hk Hpt Hi [_ Hk1 _ _ Hlen Hnew Hlive]. assert (heap_live k1 pa) as Hpa by (apply Hlive; by right).
  pose proof (heap_live_good _ _ Hk1 Hpa) as Hgood. pose proof (good_words pa Hgood) as Hw.
  assert (0 ≤ pa_addr pa / 4096 < 4194304) as Hn.
  { destruct Hw as (Hw & _). unfold word in Hw. simpl in Hw.
    split; [apply Z.div_pos; lia|apply Z.div_lt_upper_bound; lia]. }
  destruct (installed_same k pt i (table_of pa) (entry (pa_addr pa / 4096) 0) Hk Hpt Hi Hw) as [He Hs].
  { apply entry_word; lia. }
  assert (sub (with_table k1 k pt i pa) pt i = table_of pa) as Hsub by done.
  split; [done|]. unfold sub_owned. rewrite Hsub. split_and!; [done| |..].
  - destruct (with_table_heap k1 k pt i pa) as (_ & _ & Hl & _).
    split_and!; [by apply Hl|done|done|simpl; lia].
  - intros Heq. apply Hnew. simpl in Heq. rewrite Heq. apply (pt_root _ _ Hpt).
  - intros Heq. apply Hnew. simpl in Heq. rewrite Heq. apply (pt_second _ _ Hpt).
Qed.

Lemma with_table_ok k k1 pt i pa :
  heap_ready k → pt_ok k pt → 0 ≤ i < 1024 → fresh_table k k1 pa →
  pt_ok (with_table k1 k pt i pa) pt ∧
  ∀ j, 0 ≤ j < 1024 → j ≠ i → sub_owned k pt j → sub_owned (with_table k1 k pt i pa) pt j.
Proof.
  intros Hk Hpt Hi Hf. destruct (with_table_entry k k1 pt i pa Hk Hpt Hi Hf) as [Hsub Hown].
  apply (pt_ok_change k _ pt i); try done.
  - intros b Hb. destruct (with_table_heap k1 k pt i pa) as (_ & _ & -> & _).
    apply (fresh_live _ _ _ Hf). by left.
  - intros j Hj Hne. by apply (installed_other k _ pt i (table_of pa) (entry (pa_addr pa / 4096) 0)).
  - intros j Hj Hne (_ & (Hl & _) & _) Heq. rewrite Hsub in Heq. apply (fresh_new _ _ _ Hf).
    unfold blk in Heq. simpl in Heq. by rewrite <- Heq.
Qed.

(** Outside the two vectors memory is as it was. *)
Lemma with_table_ram k k1 pt i pa a :
  heap_ready k → pt_ok k pt → 0 ≤ i < 1024 →
  ¬ inside (blk (root_pt pt)) a → ¬ inside (blk (second_pts pt)) a →
  load8 (ram (with_table k1 k pt i pa)) a = load8 (ram k) a.
Proof.
  intros Hk Hpt Hi Hr Hs. apply installed_outside; try done.
  - intros Hx. apply Hr. by eapply root_at_in.
  - intros Hx. apply Hs. by eapply sub_at_in.
Qed.

Lemma with_table_grows k k1 pt i pa :
  heap_ready k → clean k → pt_ok k pt → 0 ≤ i < 1024 → fresh_table k k1 pa → sub_absent k pt i →
  grows k (with_table k1 k pt i pa) pt.
Proof.
  intros Hk Hc Hpt Hi Hf Habs. destruct (with_table_ok k k1 pt i pa Hk Hpt Hi Hf) as [Hok Hkeep].
  destruct (with_table_entry k k1 pt i pa Hk Hpt Hi Hf) as [Hsub Hown].
  destruct (with_table_heap k1 k pt i pa) as (Hcap & Hready & Hlive & Hreg). set (k' := with_table k1 k pt i pa) in *.
  assert (∀ b, pt_block k' pt b → pt_block k pt b ∨ b = pa) as Hblocks.
  { intros b [->|[->|(j & Hj & Ho & ->)]]; [by left; left|by left; right; left|].
    destruct (decide (j = i)) as [->|Hne]; [right; by rewrite Hsub|]. left. right. right. exists j.
    destruct (installed_other k k' pt i (table_of pa) (entry (pa_addr pa / 4096) 0) j) as [Hp Hs]; try done.
    rewrite Hs. split; [done|]. split; [|done]. destruct (pt_entries _ _ Hpt j Hj) as [Ha|]; [|done].
    destruct (absent_not_owned k' pt j); [|done]. unfold sub_absent in *. by rewrite Hp, Hs. }
  assert (∀ a, (∀ b, pt_block k' pt b → ¬ inside b a) → load8 (ram k') a = load8 (ram k) a) as Hram.
  { intros a Ha. apply with_table_ram; try done; apply Ha; [by left|by right; left]. }
  destruct Hf as [[m ->] Hk1 Hcap1 Hreg1 Hlen Hnew Hlive1]. split; try done.
  - by eexists _, _.
  - by apply Hready.
  - intros a Ha Hfree. rewrite Hram.
    + apply Hc; [by apply Hreg1, Hreg|]. intros b Hb. apply Hfree, Hlive, Hlive1. by left.
    + intros b Hb. apply Hfree. by eapply pt_block_live.
  - congruence.
  - intros a. by rewrite Hreg, Hreg1.
  - intros b Hb. apply Hlive, Hlive1. by left.
  - intros b [Hb| ->]%Hlive%Hlive1; [by left|]. right. right. right. exists i. by rewrite Hsub.
  - intros b [Hb| ->]%Hblocks; [by left|by right].
  - intros j Hj Ho. destruct (decide (j = i)) as [->|Hne]; [by destruct (absent_not_owned k pt i)|].
    split; [by apply Hkeep|].
    by destruct (installed_other k k' pt i (table_of pa) (entry (pa_addr pa / 4096) 0) j) as [_ ->].
Qed.

Lemma with_table_leaf k k1 pt i pa j :
  heap_ready k → clean k → pt_ok k pt → 0 ≤ i < 1024 → 0 ≤ j < 1024 → fresh_table k k1 pa →
  leaf (with_table k1 k pt i pa) pt i j = 0.
Proof.
  intros Hk Hc Hpt Hi Hj Hf. destruct (with_table_entry k k1 pt i pa Hk Hpt Hi Hf) as [Hsub Hown].
  destruct (with_table_heap k1 k pt i pa) as (_ & Hready & Hlive & _).
  destruct Hf as [_ Hk1 _ Hreg1 _ Hnew Hlive1]. assert (heap_live k1 pa) as Hpa by (apply Hlive1; by right).
  assert (∀ b a, heap_live k b → inside pa a → ¬ inside b a) as Hapart.
  { intros b a Hb Ha Hba. apply (live_apart k1 b pa a Hk1); try done; [apply Hlive1; by left|congruence]. }
  pose proof Hown as (_ & Ho & _). unfold leaf. rewrite Hsub in Ho |- *.
  destruct (element_owned _ 4 1024 _ j (proj2 Hready Hk1) Ho ltac:(lia) Hj) as (_ & Hlo & Hhi).
  simpl in Hlo, Hhi. apply load32_zero. intros a Ha. assert (inside pa a) as Hin by (unfold inside; lia).
  rewrite (with_table_ram k); try done.
  2:{ intros Hx. eapply Hapart; [apply (pt_root _ _ Hpt)|exact Hin|exact Hx]. }
  2:{ intros Hx. eapply Hapart; [apply (pt_second _ _ Hpt)|exact Hin|exact Hx]. }
  apply Hc; [by eapply Hreg1, heap_live_region|]. intros b Hb. by apply Hapart.
Qed.

Lemma with_table_walk k k1 pt i pa va :
  heap_ready k → clean k → pt_ok k pt → 0 ≤ i < 1024 → fresh_table k k1 pa → sub_absent k pt i →
  0 ≤ va < USIZE_MOD → walk (with_table k1 k pt i pa) pt va = walk k pt va.
Proof.
  intros Hk Hc Hpt Hi Hf Habs Hva. pose proof (with_table_grows _ _ _ _ _ Hk Hc Hpt Hi Hf Habs) as Hg.
  set (k' := with_table k1 k pt i pa) in *. pose proof (vpn1_bound va Hva) as Hv.
  pose proof (grow_ready _ _ _ Hg) as Hk'. pose proof (grow_ok _ _ _ Hg) as Hpt'.
  destruct (decide (vpn1 va = i)) as [Heq|Hne].
  - rewrite (walk_absent k) by (done || by rewrite Heq). rewrite walk_owned; try done.
    + rewrite Heq. unfold k'. by rewrite (with_table_leaf k) by (try done; apply vpn0_bound).
    + rewrite Heq. by apply (with_table_entry k).
  - destruct (installed_other k k' pt i (table_of pa) (entry (pa_addr pa / 4096) 0) (vpn1 va)) as [Hp Hs]; try done.
    destruct (pt_entries _ _ Hpt _ Hv) as [Ha|Ho].
    + rewrite !walk_absent; try done. unfold sub_absent in *. by rewrite Hp, Hs.
    + destruct (grow_sub _ _ _ Hg _ Hv Ho) as [Ho' _]. rewrite !walk_owned by done.
      rewrite (leaf_ext k k'); try done; [apply vpn0_bound|]. intros a Ha.
      destruct Ho as (_ & (Hl & _) & Hr & Hs2). apply with_table_ram; try done.
      * apply (live_apart k (blk (sub k pt (vpn1 va)))); try done. apply (pt_root _ _ Hpt).
      * apply (live_apart k (blk (sub k pt (vpn1 va)))); try done. apply (pt_second _ _ Hpt).
Qed.

(** The second-level table of [i] is there afterwards, or there was no memory. *)
Lemma ensure_spec k pt i :
  heap_ready k → clean k → pt_ok k pt → 0 ≤ i < 1024 →
  (∃ k', ensure_second pt i k = Ret tt k' ∧ grows k k' pt ∧ sub_owned k' pt i ∧
     (∀ va, 0 ≤ va < USIZE_MOD → walk k' pt va = walk k pt va) ∧
     (sub_owned k pt i ∧ spends k 0 k' ∨ sub_absent k pt i ∧ spends k 4096 k')) ∨
  (∃ msg k', ensure_second pt i k = Panic msg k' ∧ sub_absent k pt i ∧
     phalloc 4096 k = Ret (Err OutOfMemory) k').
Proof.
  intros Hk Hc Hpt Hi. destruct (pt_entries _ _ Hpt i Hi) as [Ha|Ho].
  2:{ left. exists k. split_and!; [by apply ensure_owned|by apply grows_refl|done..|]. left. split; [done|by constructor]. }
  assert (1024 * 4 ≤ heap_capacity k) as Hcap.
  { pose proof (pt_root _ _ Hpt) as (Hl & _ & _ & Hlen). pose proof (heap_live_small _ _ Hk Hl). lia. }
  destruct (FixedVec_new_run k 4 1024 Hk ltac:(lia) ltac:(lia) Hcap ltac:(lia))
    as (r & k1 & Hrun & Hmem & Hk1 & Hcap1 & Hreg1 & Hr). destruct r as [pa|e].
  - left. destruct Hr as (Hnew & Ho & Hfresh & _ & Hlive). fold (table_of pa) in Hnew.
    assert (fresh_table k k1 pa) as Hf by (split; try done; destruct Ho as (_ & _ & _ & Ho); simpl in Ho; lia).
    exists (with_table k1 k pt i pa). split_and!.
    + pose proof Ho as (Hl & _). destruct (heap_live_good _ _ Hk1 Hl) as (Hp & _ & Hp1 & Hp2 & _).
      unfold PAGE_SIZE in Hp1. simpl in *. apply ensure_run; try done; [|lia].
      intros b Hb. apply Hlive. by left.
    + by apply with_table_grows.
    + by apply with_table_entry.
    + intros va Hva. by apply with_table_walk.
    + right. split; [done|]. apply (spends_after k 4096 k1); [done|]. apply (spends_alloc k 4096 pa k1 Hk); [lia|exact Hrun].
  - right. destruct Hr as (-> & [msg Hmsg] & _). exists msg, k1. split_and!; [|done|done].
    unfold ensure_second. rewrite pte1_read by done. rewrite (proj1 Ha).
    change (Z.land 0 PAGE_V =? 0) with true. cbv iota. by apply bind_Panic.
Qed.

(** ** Writing a leaf *)

Definition with_leaf (k : Kernel) (pt : PageTable) (i j w : Z) : Kernel :=
  set_ram (store32 (element 4 (sub k pt i) j) w (ram k)) k.

Lemma leaf_at_in k pt i j a :
  heap_ready k → sub_owned k pt i → 0 ≤ j < 1024 →
  element 4 (sub k pt i) j ≤ a < element 4 (sub k pt i) j + 4 → inside (blk (sub k pt i)) a.
Proof.
  intros Hk (_ & Ho & _) Hj Ha.
  destruct (element_owned k 4 1024 _ j Hk Ho ltac:(lia) Hj) as (_ & ? & ?). unfold inside, blk. lia.
Qed.

Lemma with_leaf_ram k pt i j w a :
  heap_ready k → sub_owned k pt i → 0 ≤ j < 1024 → ¬ inside (blk (sub k pt i)) a →
  load8 (ram (with_leaf k pt i j w)) a = load8 (ram k) a.
Proof.
  intros Hk Ho Hj Ha. apply load8_store32_ne. intros Hx. by eapply Ha, leaf_at_in.
Qed.

Lemma with_leaf_entries k pt i j w l :
  heap_ready k → pt_ok k pt → 0 ≤ l < 1024 → sub_owned k pt i → 0 ≤ j < 1024 →
  pte1 (with_leaf k pt i j w) pt l = pte1 k pt l ∧ sub (with_leaf k pt i j w) pt l = sub k pt l.
Proof.
  intros Hk Hpt Hl Ho Hj. apply entries_ext; try done. intros a Ha.
  apply with_leaf_ram; try done. destruct Ho as (_ & (Hlive & _) & Hr & Hs).
  destruct Ha as [Ha|Ha].
  - apply (live_apart k (blk (root_pt pt))); try done. apply (pt_root _ _ Hpt).
  - apply (live_apart k (blk (second_pts pt))); try done. apply (pt_second _ _ Hpt).
Qed.

Lemma with_leaf_grows k pt i j w :
  heap_ready k → clean k → pt_ok k pt → 0 ≤ i < 1024 → sub_owned k pt i → 0 ≤ j < 1024 →
  grows k (with_leaf k pt i j w) pt.
Proof.
  intros Hk Hc Hpt Hi Ho Hj. pose proof (λ l Hl, with_leaf_entries k pt i j w l Hk Hpt Hl Ho Hj) as Hent.
  assert (heap_capacity (with_leaf k pt i j w) = heap_capacity k ∧
    (heap_ready (with_leaf k pt i j w) ↔ heap_ready k) ∧
    (∀ b, heap_live (with_leaf k pt i j w) b ↔ heap_live k b) ∧
    ∀ a, heap_region (with_leaf k pt i j w) a ↔ heap_region k a) as (Hcap & Hready & Hlive & Hreg)
    by by apply heap_frame.
  assert (∀ l, 0 ≤ l < 1024 → sub_owned (with_leaf k pt i j w) pt l ↔ sub_owned k pt l) as Hown.
  { intros l Hl. destruct (Hent l Hl) as [Hp Hs]. unfold sub_owned, owns. by rewrite Hp, Hs, Hlive. }
  assert (∀ b, pt_block (with_leaf k pt i j w) pt b ↔ pt_block k pt b) as Hblk.
  { intros b. unfold pt_block. do 2 f_equiv. f_equiv. intros l. split; intros (Hl & Hol & ->);
      destruct (Hent l Hl) as [_ Hs]; rewrite Hs || rewrite <- Hs; (split_and!; [lia|lia|by apply Hown|done]). }
  split; try done.
  - exists (store32 (element 4 (sub k pt i) j) w (ram k)), (MEMORY k). by destruct k as [[] ? ? ?].
  - by apply Hready.
  - intros a Ha Hfree. rewrite with_leaf_ram; try done.
    + apply Hc; [by apply Hreg|]. intros b Hb. by apply Hfree, Hlive.
    + apply Hfree, Hlive, Ho.
  - destruct (pt_ok_change k (with_leaf k pt i j w) pt i) as [Hok _]; try done.
    + intros b Hb. by apply Hlive.
    + intros l Hl _. by apply Hent.
    + by apply Hown.
    + intros l Hl Hne Hol. destruct (Hent i Hi) as [_ ->]. by apply (pt_distinct _ _ Hpt).
  - intros b Hb. by apply Hlive.
  - intros b Hb%Hlive. by left.
  - intros b Hb%Hblk. by left.
  - intros l Hl Hol. split; [by apply Hown|]. by apply Hent.
  - intros a Ha. apply with_leaf_ram; try done. apply Ha, Hblk. right. right. by exists i.
Qed.

Lemma with_leaf_leaf k pt i j w i' j' :
  heap_ready k → pt_ok k pt → 0 ≤ i < 1024 → 0 ≤ i' < 1024 → sub_owned k pt i → sub_owned k pt i' →
  0 ≤ j < 1024 → 0 ≤ j' < 1024 → word w →
  leaf (with_leaf k pt i j w) pt i' j' = if decide (i' = i ∧ j' = j) then w else leaf k pt i' j'.
Proof.
  intros Hk Hpt Hi Hi' Ho Ho' Hj Hj' Hw. unfold leaf.
  destruct (with_leaf_entries k pt i j w i' Hk Hpt Hi' Ho Hj) as [_ ->].
  change (ram (with_leaf k pt i j w)) with (store32 (element 4 (sub k pt i) j) w (ram k)).
  destruct (decide (i' = i ∧ j' = j)) as [[-> ->]|Hne]; [by apply load32_store32_eq|].
  apply load32_ext. intros a Ha. apply load8_store32_ne. intros Hx.
  destruct (decide (i' = i)) as [->|Hii].
  - refine (element_apart k 4 1024 _ j' j a Hk (proj1 (proj2 Ho)) _ Hj' Hj _ Ha Hx); [lia|intros ->; by apply Hne].
  - refine (live_apart k (blk (sub k pt i')) (blk (sub k pt i)) a Hk _ _ _ _ _).
    + apply Ho'.
    + apply Ho.
    + by apply (pt_distinct _ _ Hpt).
    + exact (leaf_at_in k pt i' j' a Hk Ho' Hj' Ha).
    + exact (leaf_at_in k pt i j a Hk Ho Hj Hx).
Qed.

(** ** [map_page] *)

Definition mapped (v p f va : Z) (old : option (Z * Z)) : option (Z * Z) :=
  if va / 4096 =? v / 4096 then Some (p + va mod 4096, Z.lor f 1) else old.

Lemma map_page_enter k pt v p f :
  0 ≤ v → v mod PAGE_SIZE = 0 → p mod PAGE_SIZE = 0 → v < USIZE_MOD →
  PageTable_map_page pt v p f k =
  (ensure_second pt (vpn1 v);;!
   let! b := FixedVec_index fv_size (second_pts pt) (vpn1 v) in
   let! second_pt := read_fv b in
   let! c := FixedVec_index 4 second_pt (vpn0 v) in
   write32 c (Z.lor (Z.lor (ushl10 (p / PAGE_SIZE)) f) PAGE_V)) k.
Proof.
  intros H0v Hv Hp Hmax. unfold PageTable_map_page.
  erewrite bind_Ret by by apply urem_run. rewrite Hv. erewrite bind_Ret by done.
  erewrite bind_Ret by by apply urem_run. rewrite Hp. erewrite bind_Ret by done.
  by rewrite vpn1_code, vpn0_code by lia.
Qed.

Lemma map_page_leaf k pt v p f :
  pt_ok k pt → sub_owned k pt (vpn1 v) → 0 ≤ v < USIZE_MOD → 0 ≤ p < USIZE_MOD → 0 ≤ f < 1024 →
  (let! b := FixedVec_index fv_size (second_pts pt) (vpn1 v) in
   let! second_pt := read_fv b in
   let! c := FixedVec_index 4 second_pt (vpn0 v) in
   write32 c (Z.lor (Z.lor (ushl10 (p / PAGE_SIZE)) f) PAGE_V)) k =
  Ret tt (with_leaf k pt (vpn1 v) (vpn0 v) (entry (p / 4096) f)).
Proof.
  intros Hpt Ho Hv Hp Hf. erewrite bind_Ret by (eapply index_owned; [apply (pt_second _ _ Hpt)|by apply vpn1_bound]).
  erewrite bind_Ret by apply gets_run. fold (sub_at pt (vpn1 v)) (sub k pt (vpn1 v)).
  erewrite bind_Ret by (eapply index_owned; [apply Ho|by apply vpn0_bound]).
  unfold write32, modify, PAGE_SIZE. rewrite entry_code; [done| |done].
  split; [apply Z.div_pos; lia|apply Z.div_lt_upper_bound; lia].
Qed.

Lemma map_page_run k pt v p f :
  heap_ready k → clean k → pt_ok k pt →
  0 ≤ v < USIZE_MOD → 0 ≤ p < USIZE_MOD → v mod PAGE_SIZE = 0 → p mod PAGE_SIZE = 0 →
  0 ≤ f < 1024 → leaf_flags f = true →
  (∃ k', PageTable_map_page pt v p f k = Ret tt k' ∧ grows k k' pt ∧
     (∀ va, 0 ≤ va < USIZE_MOD → walk k' pt va = mapped v p f va (walk k pt va)) ∧
     sub_owned k' pt (vpn1 v) ∧ (sub_owned k pt (vpn1 v) ∧ spends k 0 k' ∨ sub_absent k pt (vpn1 v) ∧ spends k 4096 k')) ∨
  (∃ msg k', PageTable_map_page pt v p f k = Panic msg k' ∧ sub_absent k pt (vpn1 v) ∧
     phalloc 4096 k = Ret (Err OutOfMemory) k').
Proof.
  intros Hk Hc Hpt Hv Hp Hva Hpa Hf Hleaf. rewrite map_page_enter by (done || lia).
  pose proof (vpn1_bound v Hv) as Hi. pose proof (vpn0_bound v) as Hj.
  destruct (ensure_spec k pt (vpn1 v) Hk Hc Hpt Hi) as [(k1 & Hrun & Hg & Ho & Hwalk & Hsp)|(msg & k1 & Hrun & Hrest)].
  2:{ right. exists msg, k1. by rewrite (bind_Panic _ _ _ _ _ Hrun). }
  left. erewrite bind_Ret by exact Hrun. pose proof (grow_ready _ _ _ Hg) as Hk1.
  pose proof (grow_ok _ _ _ Hg) as Hpt1. rewrite map_page_leaf by done.
  set (w := entry (p / 4096) f). assert (0 ≤ p / 4096 < 4194304) as Hn
    by (split; [apply Z.div_pos; lia|apply Z.div_lt_upper_bound; lia]).
  assert (word w) as Hw by by apply entry_word.
  pose proof (with_leaf_grows k1 pt _ _ w Hk1 (grow_clean _ _ _ Hg) Hpt1 Hi Ho Hj) as Hg2.
  set (k2 := with_leaf k1 pt (vpn1 v) (vpn0 v) w) in *.
  exists k2. split_and!; [done|by eapply grows_trans| |by apply (grow_sub _ _ _ Hg2)|].
  2:{ destruct Hsp as [[Ho0 Hsp]|[Ha0 Hsp]]; [left|right]; (split; [done|]); by eapply spends_after; [|exact Hsp]. }
  intros va Hx. rewrite <- (Hwalk va Hx).
  pose proof (grow_ready _ _ _ Hg2) as Hk2. pose proof (grow_ok _ _ _ Hg2) as Hpt2.
  pose proof (vpn1_bound va Hx) as Hvx. pose proof (vpn0_bound va) as Hv0.
  destruct (with_leaf_entries k1 pt (vpn1 v) (vpn0 v) w (vpn1 va) Hk1 Hpt1 Hvx Ho Hj) as [Hp1 Hs1].
  unfold mapped. destruct (pt_entries _ _ Hpt1 _ Hvx) as [Ha|Hox].
  - rewrite (walk_absent k1), (walk_absent k2); try done; [|unfold sub_absent in *; unfold k2; by rewrite Hp1, Hs1].
    destruct (Z.eqb_spec (va / 4096) (v / 4096)) as [[Heq _]%same_page|]; [|done].
    destruct (absent_not_owned k1 pt (vpn1 va)); [done|by rewrite Heq].
  - destruct (grow_sub _ _ _ Hg2 _ Hvx Hox) as [Hox2 _]. rewrite !walk_owned by done. unfold k2.
    rewrite with_leaf_leaf by done.
    destruct (Z.eqb_spec (va / 4096) (v / 4096)) as [Heq%same_page|Hne%(not_iff_compat (same_page va v))].
    + rewrite decide_True by done. unfold w. cbv zeta. rewrite entry_valid, entry_leaf, Hleaf, entry_page, entry_flags by done.
      simpl. do 2 f_equal. unfold PAGE_SIZE in Hpa. pose proof (Z.div_mod p 4096 ltac:(lia)). lia.
    + by rewrite decide_False.
Qed.

(** An unaligned address panics before anything is read. *)
Lemma map_page_unaligned k pt v p f :
  v mod PAGE_SIZE ≠ 0 ∨ p mod PAGE_SIZE ≠ 0 →
  PageTable_map_page pt v p f k =
  Panic (if v mod PAGE_SIZE =? 0 then "unaligned paddr " +:+ lower_hex p else "unaligned vaddr " +:+ lower_hex v) k.
Proof.
  intros Hbad. unfold PageTable_map_page. erewrite bind_Ret by by apply urem_run.
  destruct (Z.eqb_spec (v mod PAGE_SIZE) 0) as [Hv0|Hv0]; [|by apply bind_Panic].
  erewrite bind_Ret by done. erewrite bind_Ret by by apply urem_run.
  destruct (Z.eqb_spec (p mod PAGE_SIZE) 0) as [Hp0|Hp0]; [|by apply bind_Panic].
  by destruct Hbad.
Qed.

(** C32. [map_page] on a well-formed table, with flags of a leaf entry ([f] below 1024,
    readable or executable, and not writable only).  An address that is not a multiple of the page
    size panics with its name and value and changes nothing.  Otherwise, on a heap whose
    free memory reads as zero (true until something is dropped: a new second-level table
    is not cleared), the hardware then translates every address of that page to the given
    frame with the given flags and every other address as before; the table stays well
    formed, and memory is written inside its own blocks only.  With aligned addresses it
    panics only when a second-level table is missing and the heap has no page for it. *)
Theorem map_page_translates k pt v p f :
  heap_ready k → clean k → pt_ok k pt →
  0 ≤ v < USIZE_MOD → 0 ≤ p < USIZE_MOD → 0 ≤ f < 1024 → leaf_flags f = true →
  if negb (v mod PAGE_SIZE =? 0) then PageTable_map_page pt v p f k = Panic ("unaligned vaddr " +:+ lower_hex v) k
  else if negb (p mod PAGE_SIZE =? 0) then PageTable_map_page pt v p f k = Panic ("unaligned paddr " +:+ lower_hex p) k
  else
  (∃ k', PageTable_map_page pt v p f k = Ret tt k' ∧ pt_ok k' pt ∧ heap_ready k' ∧ clean k' ∧
     (∀ va, 0 ≤ va < USIZE_MOD →
        sv32_walk (ram k') (PageTable_root_pt_addr pt) va =
        if va / 4096 =? v / 4096 then Some (p + va mod 4096, Z.lor f PAGE_V)
        else sv32_walk (ram k) (PageTable_root_pt_addr pt) va) ∧
     ∀ a, (∀ b, pt_block k' pt b → ¬ inside b a) → load8 (ram k') a = load8 (ram k) a) ∨
  (∃ msg k', PageTable_map_page pt v p f k = Panic msg k' ∧ sub_absent k pt (v / 4194304) ∧
     phalloc 4096 k = Ret (Err OutOfMemory) k').
Proof.
  intros Hk Hc Hpt Hv Hp Hf Hleaf.
  destruct (Z.eqb_spec (v mod PAGE_SIZE) 0) as [Hva|Hva]; cbn [negb].
  2:{ rewrite map_page_unaligned by by left. by rewrite (proj2 (Z.eqb_neq _ _) Hva). }
  destruct (Z.eqb_spec (p mod PAGE_SIZE) 0) as [Hpa|Hpa]; cbn [negb].
  2:{ rewrite map_page_unaligned by by right. by rewrite (proj2 (Z.eqb_eq _ _) Hva). }
  destruct (map_page_run k pt v p f) as [(k' & Hrun & Hg & Hwalk & _)|]; try done; [left|by right].
  exists k'. destruct Hg. by split_and!.
Qed.

(** ** A new table *)

(** A block that was free reads as zero. *)
Lemma fresh_block_zero k k1 pa a :
  heap_ready k1 → clean k → heap_live k1 pa → (∀ x, heap_region k1 x ↔ heap_region k x) →
  (∀ b, heap_live k b → heap_live k1 b) → ¬ heap_live k pa → inside pa a → load8 (ram k) a = 0.
Proof.
  intros Hk1 Hc Hpa Hreg Hup Hnew Ha. apply Hc; [by eapply Hreg, heap_live_region|].
  intros b Hb Hin. apply (live_apart k1 b pa a); auto. congruence.
Qed.

Lemma clean_alloc k k1 :
  clean k → only_memory k k1 → (∀ x, heap_region k1 x ↔ heap_region k x) →
  (∀ b, heap_live k b → heap_live k1 b) → clean k1.
Proof.
  intros Hc [m ->] Hreg Hup a Ha Hfree. apply (Hc a); [by apply Hreg|]. intros b Hb. by apply Hfree, Hup.
Qed.

Lemma new_table_ok k pt :
  heap_ready k → owns k 4 1024 (root_pt pt) → owns k fv_size 1024 (second_pts pt) →
  blk (root_pt pt) ≠ blk (second_pts pt) →
  (∀ a, inside (blk (root_pt pt)) a ∨ inside (blk (second_pts pt)) a → load8 (ram k) a = 0) →
  pt_ok k pt ∧ (∀ i, 0 ≤ i < 1024 → sub_absent k pt i) ∧
  ∀ va, 0 ≤ va < USIZE_MOD → walk k pt va = None.
Proof.
  intros Hk Hroot Hsec Htwo Hz. pose proof layout_size as Hsz.
  assert (∀ i, 0 ≤ i < 1024 → sub_absent k pt i) as Habs.
  { intros i Hi. destruct (element_owned k 4 1024 _ i Hk Hroot ltac:(lia) Hi) as (_ & ? & ?).
    destruct (element_owned k fv_size 1024 _ i Hk Hsec ltac:(lia) Hi) as (_ & ? & ?).
    assert (sub k pt i = fv_empty) as Hs.
    { apply fv_load_zero. intros a Ha. apply Hz. right. unfold sub_at in Ha. unfold inside, blk. lia. }
    unfold sub_absent. rewrite Hs. split_and!; try done. apply load32_zero. intros a Ha.
    apply Hz. left. unfold root_at in Ha. unfold inside, blk. lia. }
  assert (pt_ok k pt) as Hpt.
  { split; try done; [by left; apply Habs|]. intros i j Hi _ _ Ho. by destruct (absent_not_owned k pt i (Habs i Hi)). }
  split_and!; [done..|]. intros va Hva. apply walk_absent; try done. by apply Habs, vpn1_bound.
Qed.

(** What a new page table takes: the root table and the vector of the others. *)
Definition new_cost : Z := 4096 + block_size (1024 * fv_size).

(** A new table, on any heap: two blocks, with the bytes they had. *)
Record new_table (k : Kernel) (pt : PageTable) (k' : Kernel) : Prop := {
  nt_memory : only_memory k k';
  nt_ready : heap_ready k';
  nt_capacity : heap_capacity k' = heap_capacity k;
  nt_region a : heap_region k' a ↔ heap_region k a;
  nt_root : owns k' 4 1024 (root_pt pt);
  nt_second : owns k' fv_size 1024 (second_pts pt);
  nt_two : blk (root_pt pt) ≠ blk (second_pts pt);
  nt_live b : heap_live k' b ↔ heap_live k b ∨ b = blk (root_pt pt) ∨ b = blk (second_pts pt);
  nt_fresh b : b = blk (root_pt pt) ∨ b = blk (second_pts pt) → ¬ heap_live k b;
  nt_spends : spends k new_cost k';
}.

Lemma new_table_ram k pt k' : new_table k pt k' → ram k' = ram k.
Proof. by intros [[m ->] _ _ _ _ _ _ _ _ _]. Qed.

Lemma PageTable_new_any k :
  heap_ready k → 1024 * fv_size ≤ heap_capacity k → 4096 ≤ heap_capacity k →
  (∃ pt k', PageTable_new k = Ret pt k' ∧ new_table k pt k') ∨
  (∃ msg k', PageTable_new k = Panic msg k' ∧ starved k new_cost k').
Proof.
  intros Hk Hcap Hcap4. pose proof layout_size as Hsz.
  destruct (FixedVec_new_run k 4 1024 Hk) as (r & k1 & Hal1 & Hmem & Hk1 & Hcap1 & Hreg1 & Hr); try lia.
  unfold PageTable_new. destruct r as [pa|e].
  2:{ right. destruct Hr as (-> & [msg Hmsg] & _). exists msg, k1. rewrite (bind_Panic _ _ _ _ _ Hmsg). split; [done|].
      apply (starved_le _ 4096); [unfold new_cost, block_size; pose proof (pow2_pos (order_of (1024 * fv_size))); lia|].
      apply (starved_alloc k 4096 k1 Hk); [lia|exact Hal1]. }
  assert (spends k 4096 k1) as Hsp1 by (apply (spends_alloc k 4096 pa k1 Hk); [lia|exact Hal1]).
  destruct Hr as (Hrun & Ho & Hnew & _ & Hlive). erewrite bind_Ret by exact Hrun.
  destruct (FixedVec_new_run k1 fv_size 1024 Hk1) as (r & k2 & Hal2 & Hmem2 & Hk2 & Hcap2 & Hreg2 & Hr); try lia.
  destruct r as [pb|e].
  2:{ right. destruct Hr as (-> & [msg Hmsg] & _). exists msg, k2. rewrite (bind_Panic _ _ _ _ _ Hmsg). split; [done|].
      apply (starved_after k 4096 k1 _ k2 Hsp1), (starved_alloc k1 (1024 * fv_size) k2 Hk1); [lia|exact Hal2]. }
  destruct Hr as (Hrun2 & Ho2 & Hnew2 & _ & Hlive2). erewrite bind_Ret by exact Hrun2. left.
  eexists _, k2. split; [done|]. split; cbn [root_pt second_pts blk fv_phys_addr]; try done.
  - destruct Hmem as [m1 ->], Hmem2 as [m2 ->]. by exists m2.
  - congruence.
  - intros x. by rewrite Hreg2.
  - eapply owns_frame; [|exact Ho]. intros b Hb. apply Hlive2. by left.
  - intros Heq. apply Hnew2, Hlive. by right.
  - intros b. rewrite Hlive2, Hlive. unfold blk. simpl. tauto.
  - intros b [->|Hb] Hbl; [done|]. apply Hnew2, Hlive. left. by rewrite <- Hb.
  - apply (spends_trans k 4096 k1); [exact Hsp1|]. apply (spends_alloc k1 (1024 * fv_size) pb k2 Hk1); [lia|exact Hal2].
Qed.

(** On clean memory it maps nothing. *)
Lemma new_table_clean k pt k' :
  clean k → new_table k pt k' →
  clean k' ∧ pt_ok k' pt ∧ (∀ va, 0 ≤ va < USIZE_MOD → walk k' pt va = None) ∧
  ∀ b, pt_block k' pt b ↔ b = blk (root_pt pt) ∨ b = blk (second_pts pt).
Proof.
  intros Hc Hn. pose proof Hn as [Hm Hk' _ Hreg Hroot Hsec Htwo Hlive Hnew _].
  destruct (new_table_ok k' pt) as (Hpt & Habs & Hwalk); try done.
  - intros a Ha. rewrite (new_table_ram _ _ _ Hn).
    destruct Ha as [Ha|Ha]; (eapply fresh_block_zero; [exact Hk'|exact Hc| |exact Hreg| | |exact Ha]);
      try (intros b Hb; apply Hlive; tauto); try (apply Hnew; tauto); apply Hlive; tauto.
  - split_and!; [|done..|].
    + eapply clean_alloc; [exact Hc|exact Hm|exact Hreg|]. intros b Hb. apply Hlive. tauto.
    + intros b. unfold pt_block. split; [|tauto]. intros [->|[->|(i & Hi & Hoi & _)]]; [tauto..|].
      by destruct (absent_not_owned k' pt i (Habs i Hi)).
Qed.

Lemma PageTable_new_run k :
  heap_ready k → clean k → 1024 * fv_size ≤ heap_capacity k → 4096 ≤ heap_capacity k →
  (∃ pt k', PageTable_new k = Ret pt k' ∧ only_memory k k' ∧ heap_ready k' ∧ clean k' ∧ pt_ok k' pt ∧
     heap_capacity k' = heap_capacity k ∧ (∀ a, heap_region k' a ↔ heap_region k a) ∧
     (∀ va, 0 ≤ va < USIZE_MOD → walk k' pt va = None) ∧
     (∀ b, heap_live k' b ↔ heap_live k b ∨ pt_block k' pt b) ∧
     (∀ b, pt_block k' pt b → ¬ heap_live k b) ∧ spends k new_cost k') ∨
  (∃ msg k', PageTable_new k = Panic msg k' ∧ starved k new_cost k').
Proof.
  intros Hk Hc Hcap Hcap4. destruct (PageTable_new_any k Hk Hcap Hcap4) as [(pt & k' & Hrun & Hn)|]; [left|by right].
  destruct (new_table_clean k pt k' Hc Hn) as (Hc' & Hpt & Hwalk & Hblk). destruct Hn.
  exists pt, k'. split_and!; try done.
  - intros b. by rewrite Hblk.
  - intros b ?%Hblk. auto.
Qed.

(** C33. [PageTable::new] on any ready heap that could hold its two blocks: it answers a
    table that owns two new blocks, the root table and the vector of the second-level
    tables, and writes no byte of them, whatever they hold.  Where free memory reads as
    zero ([clean]: true until something is dropped) that is a well-formed table that maps
    nothing, every address faults, and free memory still reads as zero.  It panics only
    when one of its two allocations is refused, hence not while the heap has room for
    both. *)
Theorem PageTable_new_ok k :
  heap_ready k → 1024 * fv_size ≤ heap_capacity k → 4096 ≤ heap_capacity k →
  (∃ pt k', PageTable_new k = Ret pt k' ∧ heap_ready k' ∧ ram k' = ram k ∧
     owns k' 4 1024 (root_pt pt) ∧ owns k' fv_size 1024 (second_pts pt) ∧ blk (root_pt pt) ≠ blk (second_pts pt) ∧
     (∀ b, heap_live k' b ↔ heap_live k b ∨ b = blk (root_pt pt) ∨ b = blk (second_pts pt)) ∧
     (∀ b, b = blk (root_pt pt) ∨ b = blk (second_pts pt) → ¬ heap_live k b) ∧
     (clean k → pt_ok k' pt ∧ clean k' ∧
        (∀ b, pt_block k' pt b ↔ b = blk (root_pt pt) ∨ b = blk (second_pts pt)) ∧
        ∀ va, 0 ≤ va < USIZE_MOD → sv32_walk (ram k') (PageTable_root_pt_addr pt) va = None)) ∨
  (∃ msg k', PageTable_new k = Panic msg k' ∧ starved k new_cost k' ∧
     ∀ f, heap_room k f → f < new_cost).
Proof.
  intros Hk Hcap Hcap4. destruct (PageTable_new_any k Hk Hcap Hcap4) as [(pt & k' & Hrun & Hn)|(msg & k' & Hr & Hst)].
  - left. exists pt, k'. pose proof (new_table_ram _ _ _ Hn) as Hram.
    split_and!; try done; [apply Hn..|]. intros Hc. by destruct (new_table_clean k pt k' Hc Hn) as (? & ? & ? & ?).
  - right. exists msg, k'. split_and!; [done|done|]. intros f Hf. by eapply starved_room.
Qed.
End pt.
