(* ===== verification/PageDrop.v ===== *)
(** * Dropping a page table.

    [FixedVec::drop] calls the destructor of every element and gives the block
    back.  [FixedVec_drop_run] is that loop for any destructor; for a page table the
    elements of [second_pts] are vectors themselves, empty or the owners of a
    second-level table, and exactly the blocks of the table are freed. *)
From S2P Require Import Prelude Ram Addr BuddyInv BuddySpec BuddyRoom Sync Machine Kernel Heap FixedVec Vm Sv32 PageTable VmSpec.

Lemma for_range_inv {S} (P : Z → S → Prop) (body : Z → M S ()) n start s :
  P start s →
  (∀ i s, start ≤ i < start + Z.of_nat n → P i s → ∃ s', body i s = Ret tt s' ∧ P (i + 1) s') →
  ∃ s', for_range n start body s = Ret tt s' ∧ P (start + Z.of_nat n) s'.
Proof.
  revert start s. induction n as [|n IH]; intros start s Hs Hstep.
  - exists s. split; [done|]. by rewrite Z.add_0_r.
  - destruct (Hstep start s ltac:(lia) Hs) as (s1 & Hrun & Hs1). cbn [for_range].
    destruct (IH (start + 1) s1 Hs1) as (s2 & Hrun2 & Hs2).
    { intros i s0 Hi. apply Hstep. lia. }
    exists s2. erewrite bind_Ret by exact Hrun. split; [done|].
    by replace (start + Z.of_nat (Datatypes.S n)) with (start + 1 + Z.of_nat n) by lia.
Qed.

Section drop.
Context `{HeapSpec, Layout, !LayoutOk}.

(** The blocks of [gone] were given back, and nothing else happened. *)
Record freed (k : Kernel) (gone : PhysAddr → Prop) (k' : Kernel) : Prop := {
  freed_only : only_memory k k';
  freed_ready : heap_ready k';
  freed_capacity : heap_capacity k' = heap_capacity k;
  freed_region a : heap_region k' a ↔ heap_region k a;
  freed_live b : heap_live k' b ↔ heap_live k b ∧ ¬ gone b;
}.

Lemma freed_ram k gone k' : freed k gone k' → ram k' = ram k.
Proof. intros [[m ->] _ _ _ _]. done. Qed.

Lemma freed_none k gone : heap_ready k → (∀ b, ¬ gone b) → freed k gone k.
Proof.
  intros Hk Hno. split; try done; [exists (MEMORY k); by destruct k|]. naive_solver.
Qed.

Lemma freed_more k gone k' gone' k'' :
  freed k gone k' → freed k' gone' k'' → freed k (λ b, gone b ∨ gone' b) k''.
Proof.
  intros [[m ->] _ Hc Hr Hl] [[m' ->] Hk' Hc' Hr' Hl']. split; try done.
  - by exists m'.
  - by rewrite Hc'.
  - intros a. by rewrite Hr'.
  - intros b. rewrite Hl', Hl. tauto.
Qed.

Lemma freed_iff k gone gone' k' : (∀ b, gone b ↔ gone' b) → freed k gone k' → freed k gone' k'.
Proof. intros Heq [? ? ? ? Hl]. split; try done. intros b. by rewrite Hl, Heq. Qed.

(** [phree] of a live block of a heap that has another one. *)
Lemma phree_freed k b :
  heap_ready k → heap_live k b → pa_len b < heap_capacity k →
  ∃ k', phree b k = Ret tt k' ∧ freed k (λ x, x = b) k'.
Proof.
  intros Hk Hb Hlen. destruct (phree_spec k b Hk Hb Hlen) as (k' & Hrun & Hmem & Hk' & Hc & Hr & Hl).
  by exists k'.
Qed.

(** The loop of [drop] over any elements: the destructor of element [i] frees [gone i]. *)
Lemma FixedVec_drop_run k tsize cap v drop_elem (gone : Z → PhysAddr → Prop) :
  heap_ready k → owns k tsize cap v → 0 ≤ cap → pa_len (fv_phys_addr v) < heap_capacity k →
  (∀ i k1, 0 ≤ i < cap → freed k (λ b, ∃ j, 0 ≤ j < i ∧ gone j b) k1 →
     ∃ k2, drop_elem (element tsize v i) k1 = Ret tt k2 ∧ freed k1 (gone i) k2) →
  (∀ i, 0 ≤ i < cap → ¬ gone i (fv_phys_addr v)) →
  ∃ k', FixedVec_drop tsize drop_elem v k = Ret tt k' ∧
    freed k (λ b, b = fv_phys_addr v ∨ ∃ j, 0 ≤ j < cap ∧ gone j b) k'.
Proof.
  intros Hk (Hlive & _ & Hcap & _) Hpos Hlen Helem Hself.
  destruct (for_range_inv (λ i, freed k (λ b, ∃ j, 0 ≤ j < i ∧ gone j b))
    (λ i, drop_elem (element tsize v i)) (Z.to_nat cap) 0 k) as (k1 & Hrun & Hk1).
  - apply freed_none; [done|]. intros b (j & Hj & _). lia.
  - intros i s Hi Hs. destruct (Helem i s ltac:(lia) Hs) as (s' & Hrun & Hs'). exists s'. split; [done|].
    eapply freed_iff; [|eapply freed_more; [exact Hs|exact Hs']]. intros b. cbv beta. split.
    + intros [(j & Hj & Hg)|Hg]; [exists j|exists i]; split; (done || lia).
    + intros (j & Hj & Hg). destruct (decide (j = i)) as [->|]; [by right|left; exists j; split; [lia|done]].
  - rewrite Z.add_0_l, Z2Nat.id in Hk1 by lia.
    destruct (phree_freed k1 (fv_phys_addr v)) as (k2 & Hrun2 & Hk2).
    + apply Hk1.
    + apply Hk1. split; [done|]. intros (j & Hj & Hg). by eapply Hself.
    + rewrite (freed_capacity _ _ _ Hk1). done.
    + exists k2. unfold FixedVec_drop. rewrite Hcap. erewrite bind_Ret by exact Hrun. split; [done|].
      eapply freed_iff; [|eapply freed_more; [exact Hk1|exact Hk2]]. intros b. cbv beta. tauto.
Qed.

(** A vector of words. *)
Lemma drop_words k cap v :
  heap_ready k → owns k 4 cap v → 0 ≤ cap → pa_len (fv_phys_addr v) < heap_capacity k →
  ∃ k', FixedVec_drop 4 drop_usize v k = Ret tt k' ∧ freed k (λ b, b = fv_phys_addr v) k'.
Proof.
  intros Hk Hv Hcap Hlen.
  destruct (FixedVec_drop_run k 4 cap v drop_usize (λ _ _, False)) as (k' & Hrun & Hk'); try done.
  - intros i k1 _ Hk1. exists k1. split; [done|]. apply freed_none; [apply Hk1|tauto].
  - naive_solver.
  - exists k'. split; [done|]. eapply freed_iff; [|exact Hk']. naive_solver.
Qed.

(** ** Page tables *)

(** What dropping entry [i] of [second_pts] frees. *)
Definition sub_gone (k : Kernel) (pt : PageTable) (i : Z) (b : PhysAddr) : Prop :=
  sub_owned k pt i ∧ b = blk (sub k pt i).

Lemma pt_small k pt b : heap_ready k → pt_ok k pt → pt_block k pt b → pa_len b < heap_capacity k.
Proof.
  intros Hk Hpt Hb. pose proof (pt_block_live _ _ _ Hpt Hb) as Hlive.
  destruct (decide (b = blk (root_pt pt))) as [->|Hne].
  - eapply heap_live_two; [done|done|apply (pt_second _ _ Hpt)|apply Hpt].
  - eapply heap_live_two; [done|done|apply (pt_root _ _ Hpt)|done].
Qed.

Lemma drop_entry k k1 pt i :
  heap_ready k → pt_ok k pt → 0 ≤ i < 1024 →
  freed k (λ b, b = blk (root_pt pt) ∨ ∃ j, 0 ≤ j < i ∧ sub_gone k pt j b) k1 →
  ∃ k2, drop_fv_usize (sub_at pt i) k1 = Ret tt k2 ∧ freed k1 (sub_gone k pt i) k2.
Proof.
  intros Hk Hpt Hi Hk1. unfold drop_fv_usize. erewrite bind_Ret by apply gets_run.
  rewrite (freed_ram _ _ _ Hk1). fold (sub k pt i). destruct (pt_entries _ _ Hpt i Hi) as [Ha|Ho].
  - pose proof Ha as (_ & Hcap & Hsize). exists k1. split.
    + unfold FixedVec_drop. rewrite Hcap. erewrite bind_Ret by done. unfold blk in Hsize.
      destruct (fv_phys_addr (sub k pt i)) as [a s]. simpl in Hsize. subst s. apply phree_no_size, Hk1.
    + apply freed_none; [apply Hk1|]. intros b [Ho _]. by destruct (absent_not_owned k pt i).
  - pose proof Ho as (_ & Hs & Hr & _).
    assert (owns k1 4 1024 (sub k pt i)) as Hs1.
    { destruct Hs as (Hl & ? & ? & ?). split_and!; try done. apply Hk1. split; [done|].
      intros [Heq|(j & Hj & Hoj & Heq)]; [done|].
      apply (pt_distinct _ _ Hpt i j); [lia|lia|lia|done|done|exact Heq]. }
    destruct (drop_words k1 1024 (sub k pt i)) as (k2 & Hrun & Hk2); [apply Hk1|done|lia| |].
    { rewrite (freed_capacity _ _ _ Hk1). apply (pt_small k pt); [done|done|]. right. right. by exists i. }
    exists k2. split; [done|]. eapply freed_iff; [|exact Hk2]. intros b. unfold sub_gone, blk. tauto.
Qed.

Lemma PageTable_drop_run k pt :
  heap_ready k → pt_ok k pt →
  ∃ k', PageTable_drop pt k = Ret tt k' ∧ freed k (pt_block k pt) k'.
Proof.
  intros Hk Hpt. destruct (drop_words k 1024 (root_pt pt)) as (k1 & Hrun1 & Hk1);
    [done|apply Hpt|lia|apply (pt_small k pt); [done|done|by left]|].
  assert (owns k1 fv_size 1024 (second_pts pt)) as Hsec.
  { destruct (pt_second _ _ Hpt) as (Hl & ? & ? & ?). split_and!; try done. apply Hk1. split; [done|].
    intros Heq. by apply (pt_two _ _ Hpt). }
  destruct (FixedVec_drop_run k1 fv_size 1024 (second_pts pt) drop_fv_usize (sub_gone k pt)) as (k2 & Hrun2 & Hk2);
    [apply Hk1|done|lia| | | |].
  - rewrite (freed_capacity _ _ _ Hk1). apply (pt_small k pt); [done|done|]. right. by left.
  - intros i k2 Hi Hk2. apply drop_entry; try done.
    eapply freed_iff; [|eapply freed_more; [exact Hk1|exact Hk2]]. intros b. done.
  - intros i Hi [(_ & _ & _ & Hne) Heq]. by apply Hne.
  - exists k2. unfold PageTable_drop. erewrite bind_Ret by exact Hrun1. split; [done|].
    eapply freed_iff; [|eapply freed_more; [exact Hk1|exact Hk2]].
    intros b. unfold pt_block, sub_gone, blk. naive_solver.
Qed.

(** ** From [new] to the drop *)

(** The mappings of a table, one call of [map_page] each: address, frame and flags. *)
Definition map_all (pt : PageTable) (maps : list (Z * Z * Z)) : M Kernel () :=
  foldr (λ '(v, p, f) rest, PageTable_map_page pt v p f;;! rest) (ret tt) maps.
Definition mapping_ok (m : Z * Z * Z) : Prop :=
  let '(v, p, f) := m in
  0 ≤ v < USIZE_MOD ∧ 0 ≤ p < USIZE_MOD ∧ v mod PAGE_SIZE = 0 ∧ p mod PAGE_SIZE = 0 ∧
  0 ≤ f < 1024 ∧ leaf_flags f = true.
(** The last mapping of the page of [va]. *)
Definition mapped_all (maps : list (Z * Z * Z)) (va : Z) (old : option (Z * Z)) : option (Z * Z) :=
  foldl (λ old '(v, p, f), mapped v p f va old) old maps.

Lemma map_all_run maps k pt room :
  heap_ready k → clean k → pt_ok k pt → Forall mapping_ok maps →
  heap_room k room → 4096 * Z.of_nat (length maps) ≤ room →
  ∃ k', map_all pt maps k = Ret tt k' ∧ grows k k' pt ∧
    ∀ va, 0 ≤ va < USIZE_MOD → walk k' pt va = mapped_all maps va (walk k pt va).
Proof.
  revert k room. induction maps as [|[[v p] f] maps IH]; intros k room Hk Hc Hpt Hmaps Hroom Hlen.
  { exists k. split; [done|]. split; [by apply grows_refl|done]. }
  apply Forall_cons in Hmaps as [(? & ? & ? & ? & ? & ?) Hmaps]. cbn [length] in Hlen.
  assert (4096 ≤ heap_capacity k) as Hcap.
  { pose proof (pt_root _ _ Hpt) as (Hl & _ & _ & Hl4). pose proof (heap_live_small _ _ Hk Hl). lia. }
  destruct (map_page_run k pt v p f) as [(k1 & Hrun & Hg & Hwalk & _ & Hsp)|(msg & k1 & _ & _ & Hst)]; try done.
  2: { pose proof (phalloc_room k room 4096 _ _ Hk Hroom ltac:(lia) Hst) as Hlt.
       cbv beta iota in Hlt. rewrite block_size_page in Hlt. lia. }
  assert (∃ room1, heap_room k1 room1 ∧ room - 4096 ≤ room1) as (room1 & Hroom1 & Hle).
  { destruct Hsp as [[_ Hsp]|[_ Hsp]]; (eexists; split; [exact (spends_room _ _ _ _ Hroom Hsp)|lia]). }
  destruct (IH k1 room1) as (k2 & Hrun2 & Hg2 & Hwalk2); try done; [apply Hg..|lia|].
  exists k2. split_and!; [|by eapply grows_trans|].
  - cbn [map_all foldr]. by erewrite bind_Ret by exact Hrun.
  - intros va Hva. rewrite Hwalk2, Hwalk by done. done.
Qed.

(** Dropping a well-formed page table returns and gives back exactly its blocks:
    the root table, the vector of vectors and each second-level table that was
    created; no other block and no byte of memory changes. *)
Theorem PageTable_drop_ok k pt :
  heap_ready k → pt_ok k pt →
  ∃ k', PageTable_drop pt k = Ret tt k' ∧ only_memory k k' ∧ heap_ready k' ∧
    ∀ b, heap_live k' b ↔ heap_live k b ∧ ¬ pt_block k pt b.
Proof.
  intros Hk Hpt. destruct (PageTable_drop_run k pt Hk Hpt) as (k' & Hrun & [Hmem Hk' _ _ Hl]).
  by exists k'.
Qed.

(** C34. The life of a page table: on a heap with room for it whose free memory reads as
    zero ([clean]), [new], any number of calls of [map_page] with aligned addresses and
    leaf flags, and the drop all return; in between the hardware translates by the last
    mapping of each page, and afterwards the live blocks are the ones there were before.
    The drop leaves every byte of memory as it was, the entries of the table included: the
    heap need not be clean any more, and this does not say that the next table maps
    nothing. *)
Theorem PageTable_lifecycle k maps room :
  heap_ready k → clean k → Forall mapping_ok maps → heap_room k room →
  new_cost + 4096 * Z.of_nat (length maps) ≤ room →
  1024 * fv_size ≤ heap_capacity k → 4096 ≤ heap_capacity k →
  ∃ pt k1 k2 k3, PageTable_new k = Ret pt k1 ∧ map_all pt maps k1 = Ret tt k2 ∧
    (∀ va, 0 ≤ va < USIZE_MOD →
       sv32_walk (ram k2) (PageTable_root_pt_addr pt) va = mapped_all maps va None) ∧
    PageTable_drop pt k2 = Ret tt k3 ∧ heap_ready k3 ∧ ram k3 = ram k2 ∧ ∀ b, heap_live k3 b ↔ heap_live k b.
Proof.
  intros Hk Hc Hmaps Hroom Hcost Hcap Hcap4.
  destruct (PageTable_new_run k Hk Hc Hcap Hcap4) as [(pt & k1 & Hrun & _ & Hk1 & Hc1 & Hpt & _ & _ & Hwalk & Hlive & Hnew & Hsp)|(msg & k1 & _ & Hst)].
  2: { pose proof (starved_room _ _ _ _ Hroom Hst). lia. }
  destruct (map_all_run maps k1 pt (room - new_cost)) as (k2 & Hrun2 & Hg & Hwalk2); try done; [|lia|].
  { by apply (spends_room k). }
  destruct (PageTable_drop_run k2 pt) as (k3 & Hrun3 & Hk3); [apply Hg..|].
  exists pt, k1, k2, k3. split_and!; try done; [|apply Hk3|by eapply freed_ram|].
  - intros va Hva. fold (walk k2 pt va). by rewrite Hwalk2, Hwalk.
  - intros b. rewrite (freed_live _ _ _ Hk3). split.
    + intros [[Hb|Hb]%(grow_new _ _ _ Hg) Hno]; [|done]. apply Hlive in Hb as [Hb|Hb]; [done|].
      destruct Hno. by apply (grows_block _ _ _ _ Hg).
    + intros Hb. assert (heap_live k1 b) as Hb1 by (apply Hlive; by left). split; [by apply Hg|].
      intros [Hpb|Hno]%(grow_blocks _ _ _ Hg); [|done]. by eapply Hnew.
Qed.
End drop.
