(* ===== verification/Context.v ===== *)
(** * The assembly routine [switch_context] of src/rust/src/proc.rs.

    [switch_run] is the routine as a whole, [switch_loads] its effect register by
    register, [switch_context_resumes] what two calls do to a suspended process. *)
From S2P Require Import Prelude Ram Machine.

(** ** [switch_context] *)

Definition switch_context_code : list instr := [
  Addi SP SP (-52);
  Sw RA 0 SP; Sw S0 4 SP; Sw S1 8 SP; Sw S2 12 SP; Sw S3 16 SP; Sw S4 20 SP; Sw S5 24 SP;
  Sw S6 28 SP; Sw S7 32 SP; Sw S8 36 SP; Sw S9 40 SP; Sw S10 44 SP; Sw S11 48 SP;
  Sw SP 0 A0;
  Lw SP 0 A1;
  Lw RA 0 SP; Lw S0 4 SP; Lw S1 8 SP; Lw S2 12 SP; Lw S3 16 SP; Lw S4 20 SP; Lw S5 24 SP;
  Lw S6 28 SP; Lw S7 32 SP; Lw S8 36 SP; Lw S9 40 SP; Lw S10 44 SP; Lw S11 48 SP;
  Addi SP SP 52;
  Return].
Definition switch_context : M Machine () := exec switch_context_code.

(** The registers a call must preserve, and the return address, in frame order. *)
Definition switch_regs : list reg := [RA; S0; S1; S2; S3; S4; S5; S6; S7; S8; S9; S10; S11].

(** The code calls nothing, so it reaches its [ret] from any state. *)
Lemma switch_context_total m : ∃ m', switch_context m = Ret tt m'.
Proof. unfold switch_context. by apply exec_total. Qed.

Lemma SP_not_switch : SP ∉ switch_regs.
Proof. by apply (bool_decide_unpack _). Qed.
Lemma switch_regs_NoDup : NoDup switch_regs.
Proof. by apply (bool_decide_unpack _). Qed.

Lemma switch_code_eq :
  switch_context_code =
  Addi SP SP (-52) :: save switch_regs 0 ++ [Sw SP 0 A0; Lw SP 0 A1] ++
  restore switch_regs 0 ++ [Addi SP SP 52; Return].
Proof. done. Qed.

(** Memory after the first half: the frame below the stack pointer and the cell
    [*prev_sp] that points to it. *)
Definition frame_of (m : Machine) : Z := regs m SP - 52.
Definition saved_ram (m : Machine) : Ram :=
  store32 (regs m A0) (frame_of m) (store_words (frame_of m) (map (regs m) switch_regs) (m_ram m)).

Definition word_regs (m : Machine) : Prop := ∀ r, word (regs m r).

Lemma set_reg_eq r v m : regs (set_reg r v m) r = v.
Proof. simpl. unfold fn_set. by rewrite decide_True. Qed.
Lemma set_reg_ne r r' v m : r ≠ r' → regs (set_reg r v m) r' = regs m r'.
Proof. intros Hr. simpl. unfold fn_set. by rewrite decide_False. Qed.

Lemma wrap_small x : word x → wrap x = x.
Proof. apply Z.mod_small. Qed.

(** The first half: make room, save. *)
Lemma save_frame m :
  word_regs m → 52 ≤ regs m SP →
  exec (Addi SP SP (-52) :: save switch_regs 0) m =
  Ret tt (set_m_ram (store_words (frame_of m) (map (regs m) switch_regs) (m_ram m))
            (set_reg SP (frame_of m) m)).
Proof.
  intros Hw Hsp. pose proof (Hw SP) as HSP. unfold word in HSP.
  rewrite (exec_step _ _ _ (set_reg SP (frame_of m) m)).
  2:{ cbn [exec1]. replace (regs m SP + -52) with (frame_of m) by (unfold frame_of; lia).
      rewrite wrap_small by (unfold frame_of, word; lia). reflexivity. }
  rewrite exec_save by first [lia|rewrite set_reg_eq; unfold frame_ok, frame_of, zlen; simpl; lia].
  rewrite set_reg_eq. replace (frame_of m + 4 * 0) with (frame_of m) by lia.
  assert (map (regs (set_reg SP (frame_of m) m)) switch_regs = map (regs m) switch_regs) as -> by done.
  assert (m_ram (set_reg SP (frame_of m) m) = m_ram m) as -> by done. reflexivity.
Qed.

(** The switch itself. *)
Lemma exec_swap m :
  word (regs m A0) → word (regs m A1) →
  exec [Sw SP 0 A0; Lw SP 0 A1] m =
  let r := store32 (regs m A0) (regs m SP) (m_ram m) in
  Ret tt (set_reg SP (load32 r (regs m A1)) (set_m_ram r m)).
Proof.
  intros H0 H1. cbn [exec]. unfold bind. cbn [exec1]. unfold ret, effective.
  cbn [regs m_ram set_m_ram]. by rewrite !Z.add_0_r, !wrap_small.
Qed.

(** The second half: load, give the room back, return. *)
Lemma restore_frame m ws :
  frame_ok (regs m SP) 13 → regs m SP + 52 < USIZE_MOD → length ws = 13%nat →
  words_at (m_ram m) (regs m SP) ws →
  exec (restore switch_regs 0 ++ [Addi SP SP 52; Return]) m =
  Ret tt (let m' := load_regs switch_regs ws m in
          set_pc (regs m' RA) (set_reg SP (regs m SP + 52) m')).
Proof.
  intros Hb Hb' Hlen Hws. rewrite exec_app. unfold bind at 1. rewrite (exec_restore _ ws).
  - set (m' := load_regs _ _ _). cbn [exec]. unfold bind. cbn [exec1]. unfold ret.
    assert (regs m' SP = regs m SP) as ->.
    { unfold m'. by rewrite (proj2 (proj2 (proj2 (load_regs_other _ _ _)))) by exact SP_not_switch. }
    rewrite wrap_small by (unfold word; unfold frame_ok in Hb; lia).
    done.
  - lia.
  - exact SP_not_switch.
  - done.
  - done.
  - by replace (regs m SP + 4 * 0) with (regs m SP) by lia.
Qed.

(** The whole routine: the caller's registers go to its frame, those of the frame
    [*next_sp] points to are loaded, everything else stays. *)
Lemma switch_run m ws :
  let b := load32 (saved_ram m) (regs m A1) in
  word_regs m → 52 ≤ regs m SP → frame_ok b 13 → b + 52 < USIZE_MOD →
  length ws = 13%nat → words_at (saved_ram m) b ws →
  switch_context m =
  Ret tt (let m' := load_regs switch_regs ws (set_reg SP b (set_m_ram (saved_ram m) (set_reg SP (frame_of m) m))) in
          set_pc (regs m' RA) (set_reg SP (b + 52) m')).
Proof.
  intros b Hw Hsp Hb Hb' Hlen Hws. unfold switch_context. rewrite switch_code_eq.
  change (Addi SP SP (-52) :: save switch_regs 0 ++ ?c) with ((Addi SP SP (-52) :: save switch_regs 0) ++ c).
  rewrite exec_app. unfold bind at 1. rewrite save_frame by done.
  rewrite exec_app. unfold bind at 1. set (m1 := set_m_ram _ _).
  assert (regs m1 SP = frame_of m) as HSP by apply set_reg_eq.
  assert (∀ r, r ≠ SP → regs m1 r = regs m r) as Hne by (intros r Hr; by apply set_reg_ne).
  rewrite exec_swap by (rewrite Hne by done; apply Hw). cbv zeta.
  rewrite HSP, !Hne by done. change (store32 _ _ (m_ram m1)) with (saved_ram m). fold b.
  set (m2 := set_reg SP b _). assert (regs m2 SP = b) as Hb2 by apply set_reg_eq.
  rewrite (restore_frame m2 ws) by (rewrite ?Hb2; done). by rewrite Hb2.
Qed.

(** The same by register. *)
Lemma switch_loads m ws :
  let b := load32 (saved_ram m) (regs m A1) in
  word_regs m → 52 ≤ regs m SP → frame_ok b 13 → b + 52 < USIZE_MOD →
  length ws = 13%nat → words_at (saved_ram m) b ws →
  ∃ m', switch_context m = Ret tt m' ∧ pc m' = regs m' RA ∧ regs m' SP = b + 52 ∧
    (∀ i r w, switch_regs !! i = Some r → ws !! i = Some w → regs m' r = w) ∧
    (∀ r, r ∉ SP :: switch_regs → regs m' r = regs m r) ∧ csrs m' = csrs m ∧ m_ram m' = saved_ram m.
Proof.
  intros b Hw Hsp Hb Hb' Hlen Hws. pose proof (switch_run m ws Hw Hsp Hb Hb' Hlen Hws) as Hrun. fold b in Hrun.
  set (m4 := set_reg SP b _) in Hrun.
  destruct (load_regs_other switch_regs ws m4) as (Hcsr & _ & Hram & Hother).
  assert (∀ r, r ≠ SP → regs (set_reg SP (b + 52) (load_regs switch_regs ws m4)) r = regs (load_regs switch_regs ws m4) r) as Hne
    by (intros r Hr; by apply set_reg_ne).
  eexists. split; [exact Hrun|]. cbn [regs pc csrs m_ram set_pc]. split_and!.
  - by rewrite Hne.
  - apply set_reg_eq.
  - intros i r w Hi Hwi. rewrite Hne.
    + by eapply load_regs_in; [apply switch_regs_NoDup|exact Hi|].
    + intros ->. apply SP_not_switch. by eapply list_elem_of_lookup_2.
  - intros r [Hr Hin]%not_elem_of_cons. rewrite Hne by done. rewrite Hother by done.
    unfold m4. rewrite set_reg_ne by congruence. by apply set_reg_ne.
  - exact Hcsr.
  - exact Hram.
Qed.

(** ** Suspending and resuming *)

(** Instructions that leave memory alone. *)
Definition no_store (i : instr) : bool := match i with Sw _ _ _ | Call _ _ => false | _ => true end.

Lemma exec_no_store code m m1 :
  forallb no_store code = true → exec code m = Ret tt m1 → m_ram m1 = m_ram m.
Proof.
  revert m. induction code as [|i code IH]; intros m Hn; [by intros [= <-]|].
  simpl in Hn. apply andb_prop in Hn as [Hi Hn]. cbn [exec]. unfold bind.
  destruct i; try done; cbn [exec1]; intros Hrun; apply (IH _ Hn) in Hrun; done.
Qed.

Lemma switch_ram m m1 :
  word_regs m → 52 ≤ regs m SP → switch_context m = Ret tt m1 → m_ram m1 = saved_ram m.
Proof.
  intros Hw Hsp. unfold switch_context. rewrite switch_code_eq.
  change (Addi SP SP (-52) :: save switch_regs 0 ++ ?c) with ((Addi SP SP (-52) :: save switch_regs 0) ++ c).
  rewrite exec_app. unfold bind at 1. rewrite save_frame by done.
  rewrite exec_app. unfold bind at 1. set (m2 := set_m_ram _ _).
  assert (∀ r, r ≠ SP → regs m2 r = regs m r) as Hne by (intros r Hr; by apply set_reg_ne).
  rewrite exec_swap by (rewrite Hne by done; apply Hw). cbv zeta. intros Hrun.
  apply exec_no_store in Hrun; [|done]. rewrite Hrun. cbn [m_ram set_reg set_m_ram].
  rewrite Hne by done. assert (regs m2 SP = frame_of m) as -> by apply set_reg_eq. done.
Qed.

(** The bytes a suspended context is made of: its frame and the cell that holds
    its stack pointer. *)
Definition context_bytes (m : Machine) (a : Z) : Prop :=
  frame_of m ≤ a < frame_of m + 52 ∨ regs m A0 ≤ a < regs m A0 + 4.
(** The bytes a call of [switch_context] writes. *)
Definition switch_writes (m : Machine) (a : Z) : Prop := context_bytes m a.

Lemma saved_ram_other m a : ¬ switch_writes m a → load8 (saved_ram m) a = load8 (m_ram m) a.
Proof.
  unfold switch_writes, context_bytes. intros Ha. unfold saved_ram.
  rewrite load8_store32_ne by lia. apply load8_store_words_ne. unfold zlen. simpl. lia.
Qed.

(** The cell is not part of the frame. *)
Definition cell_apart (m : Machine) : Prop :=
  regs m A0 + 4 ≤ frame_of m ∨ frame_of m + 52 ≤ regs m A0.

Lemma saved_frame m :
  word_regs m → cell_apart m → words_at (saved_ram m) (frame_of m) (map (regs m) switch_regs).
Proof.
  unfold cell_apart. intros Hw Hc. eapply words_at_ext; [|apply words_at_store].
  - intros b Hb. apply load8_store32_ne. unfold zlen in Hb. rewrite length_map in Hb. simpl in Hb. lia.
  - apply Forall_map, Forall_true. intros r. apply Hw.
Qed.

Lemma saved_cell m : word_regs m → 52 ≤ regs m SP → load32 (saved_ram m) (regs m A0) = frame_of m.
Proof.
  intros Hw Hsp. pose proof (Hw SP) as HSP. unfold word in HSP.
  apply load32_store32_eq. unfold frame_of. lia.
Qed.

(** C29. A context switch is invisible to the process it suspends.  Let a process
    call [switch_context] in state [m], and another call in state [m2] name its
    cell as [next_sp]; if in between nothing wrote to its frame and cell, and the
    second call does not, then the second call returns to the first caller's return
    address with its stack pointer and all callee-saved registers as they were. *)
Theorem switch_context_resumes m m1 m2 :
  word_regs m → 52 ≤ regs m SP → cell_apart m →
  switch_context m = Ret tt m1 →
  word_regs m2 → 52 ≤ regs m2 SP → regs m2 A1 = regs m A0 →
  (∀ a, context_bytes m a → load8 (m_ram m2) a = load8 (m_ram m1) a ∧ ¬ switch_writes m2 a) →
  ∃ m3, switch_context m2 = Ret tt m3 ∧
    pc m3 = regs m RA ∧ regs m3 SP = regs m SP ∧
    (∀ r, r ∈ switch_regs → regs m3 r = regs m r) ∧
    (∀ r, r ∉ SP :: switch_regs → regs m3 r = regs m2 r) ∧ csrs m3 = csrs m2.
Proof.
  intros Hw Hsp Hcell Hrun Hw2 Hsp2 Hnext Hkeep. apply switch_ram in Hrun; [|done..].
  assert (∀ a, context_bytes m a → load8 (saved_ram m2) a = load8 (saved_ram m) a) as Hsame.
  { intros a Ha. destruct (Hkeep a Ha) as [Heq Hno]. by rewrite saved_ram_other, Heq, Hrun. }
  pose proof (Hw SP) as HSP. unfold word in HSP.
  assert (load32 (saved_ram m2) (regs m2 A1) = frame_of m) as Hb.
  { rewrite Hnext, <- saved_cell by done. apply load32_ext. intros a Ha. apply Hsame. by right. }
  assert (words_at (saved_ram m2) (frame_of m) (map (regs m) switch_regs)) as Hws.
  { eapply words_at_ext; [|by apply saved_frame]. intros a Ha. apply Hsame. left.
    unfold zlen in Ha. rewrite length_map in Ha. simpl in Ha. lia. }
  destruct (switch_loads m2 (map (regs m) switch_regs)) as (m3 & Hgo & Hpc & HSP3 & Hin & Hother & Hcsr & _);
    rewrite ?Hb; [exact Hw2|exact Hsp2|unfold frame_ok, frame_of; lia|unfold frame_of; lia|reflexivity|exact Hws|].
  rewrite Hb in HSP3.
  assert (∀ r, r ∈ switch_regs → regs m3 r = regs m r) as Hregs.
  { intros r [i Hi]%list_elem_of_lookup. eapply Hin; [exact Hi|]. by rewrite list_lookup_fmap, Hi. }
  exists m3. split_and!; [exact Hgo| | |exact Hregs|exact Hother|exact Hcsr].
  - rewrite Hpc. apply Hregs. by apply (bool_decide_unpack _).
  - rewrite HSP3. unfold frame_of. lia.
Qed.
