(* ===== verification/Trap.v ===== *)
(** * Traps: [trap_entry] and [trap_handler] of src/rust/src/trap.rs.

    The entry code is run around any handler; [handler_state] is the hart the handler
    sees. *)
From S2P Require Import Prelude Ram Machine Context.

(** The fields of [TrapFrame] in order, each named after the register it holds. *)
Definition TrapFrame : list reg :=
  [RA; GP; TP; T0; T1; T2; T3; T4; T5; T6; A0; A1; A2; A3; A4; A5; A6; A7;
   S0; S1; S2; S3; S4; S5; S6; S7; S8; S9; S10; S11; SP].

(** All but the last are saved and restored by number. *)
Definition trap_regs : list reg :=
  [RA; GP; TP; T0; T1; T2; T3; T4; T5; T6; A0; A1; A2; A3; A4; A5; A6; A7;
   S0; S1; S2; S3; S4; S5; S6; S7; S8; S9; S10; S11].

(** [link] is the address of the first instruction after the call. *)
Definition trap_entry_code (link : Z) (trap_handler : M Machine ()) : list instr := [
  Csrrw SP SSCRATCH SP;
  Addi SP SP (-124);
  Sw RA 0 SP; Sw GP 4 SP; Sw TP 8 SP; Sw T0 12 SP; Sw T1 16 SP; Sw T2 20 SP; Sw T3 24 SP;
  Sw T4 28 SP; Sw T5 32 SP; Sw T6 36 SP; Sw A0 40 SP; Sw A1 44 SP; Sw A2 48 SP; Sw A3 52 SP;
  Sw A4 56 SP; Sw A5 60 SP; Sw A6 64 SP; Sw A7 68 SP; Sw S0 72 SP; Sw S1 76 SP; Sw S2 80 SP;
  Sw S3 84 SP; Sw S4 88 SP; Sw S5 92 SP; Sw S6 96 SP; Sw S7 100 SP; Sw S8 104 SP; Sw S9 108 SP;
  Sw S10 112 SP; Sw S11 116 SP;
  Csrr A0 SSCRATCH;
  Sw A0 120 SP;
  Addi A0 SP 124;
  Csrw SSCRATCH A0;
  Mv A0 SP;
  Call link trap_handler;
  Lw RA 0 SP; Lw GP 4 SP; Lw TP 8 SP; Lw T0 12 SP; Lw T1 16 SP; Lw T2 20 SP; Lw T3 24 SP;
  Lw T4 28 SP; Lw T5 32 SP; Lw T6 36 SP; Lw A0 40 SP; Lw A1 44 SP; Lw A2 48 SP; Lw A3 52 SP;
  Lw A4 56 SP; Lw A5 60 SP; Lw A6 64 SP; Lw A7 68 SP; Lw S0 72 SP; Lw S1 76 SP; Lw S2 80 SP;
  Lw S3 84 SP; Lw S4 88 SP; Lw S5 92 SP; Lw S6 96 SP; Lw S7 100 SP; Lw S8 104 SP; Lw S9 108 SP;
  Lw S10 112 SP; Lw S11 116 SP;
  Lw SP 120 SP;
  Sret].
Definition trap_entry (link : Z) (trap_handler : M Machine ()) : M Machine () := exec (trap_entry_code link trap_handler).

(** ** [trap_handler] *)

Definition trap_message (scause stval user_pc : Z) : string :=
  ("Oops...I'm trapped!
scause=" +:+ lower_hex scause +:+ ", stval=" +:+ lower_hex stval +:+ ", sepc=0x" +:+ lower_hex user_pc +:+ "
")%string.

Definition trap_handler : M Machine () :=
  let! scause := read_csr SCAUSE in
  let! stval := read_csr STVAL in
  let! user_pc := read_csr SEPC in
  panic (trap_message scause stval user_pc).

(** ** The frame *)

Lemma trap_code_eq link h :
  trap_entry_code link h =
  [Csrrw SP SSCRATCH SP; Addi SP SP (-124)] ++ save trap_regs 0 ++
  [Csrr A0 SSCRATCH; Sw A0 120 SP; Addi A0 SP 124; Csrw SSCRATCH A0; Mv A0 SP] ++
  Call link h :: restore trap_regs 0 ++ [Lw SP 120 SP; Sret].
Proof. done. Qed.

Lemma SP_not_trap : SP ∉ trap_regs.
Proof. by apply (bool_decide_unpack _). Qed.
Lemma in_trap_regs r : r ≠ SP → r ∈ trap_regs.
Proof. intros Hr. apply (bool_decide_unpack _). by destruct r. Qed.
Lemma trap_regs_NoDup : NoDup trap_regs.
Proof. by apply (bool_decide_unpack _). Qed.

(** The trap stack top [sscratch] holds, and the frame below it. *)
Definition trap_frame (m : Machine) : Z := csrs m SSCRATCH - 124.
Definition trap_ram (m : Machine) : Ram :=
  store32 (trap_frame m + 120) (regs m SP)
    (store_words (trap_frame m) (map (regs m) trap_regs) (m_ram m)).

(** The state the handler is called in. *)
Definition handler_state (link : Z) (m m1 : Machine) : Prop :=
  m_ram m1 = trap_ram m ∧ regs m1 SP = trap_frame m ∧ regs m1 A0 = trap_frame m ∧
  regs m1 RA = link ∧ csrs m1 SSCRATCH = csrs m SSCRATCH ∧ pc m1 = pc m ∧
  (∀ c, c ≠ SSCRATCH → csrs m1 c = csrs m c) ∧
  ∀ r, r ≠ SP → r ≠ A0 → r ≠ RA → regs m1 r = regs m r.

Definition trap_stack_ok (m : Machine) : Prop := 124 ≤ csrs m SSCRATCH < USIZE_MOD.

Lemma set_csr_eq c v m : csrs (set_csr c v m) c = v.
Proof. simpl. unfold fn_set. by rewrite decide_True. Qed.
Lemma set_csr_ne c c' v m : c ≠ c' → csrs (set_csr c v m) c' = csrs m c'.
Proof. intros Hc. simpl. unfold fn_set. by rewrite decide_False. Qed.

(** After the swap of [sp] and [sscratch] and the first thirty stores. *)
Definition swapped (m : Machine) : Machine :=
  set_reg SP (trap_frame m) (set_reg SP (csrs m SSCRATCH) (set_csr SSCRATCH (regs m SP) m)).

Lemma swapped_other m r : r ≠ SP → regs (swapped m) r = regs m r.
Proof. intros Hr. unfold swapped. by rewrite !set_reg_ne by congruence. Qed.

Lemma trap_first_half m :
  trap_stack_ok m →
  exec ([Csrrw SP SSCRATCH SP; Addi SP SP (-124)] ++ save trap_regs 0) m =
  Ret tt (set_m_ram (store_words (trap_frame m) (map (regs m) trap_regs) (m_ram m)) (swapped m)).
Proof.
  unfold trap_stack_ok. intros Hs. cbn [app].
  rewrite (exec_step _ _ _ (set_reg SP (csrs m SSCRATCH) (set_csr SSCRATCH (regs m SP) m))) by done.
  rewrite (exec_step _ _ _ (swapped m)).
  2:{ cbn [exec1]. rewrite set_reg_eq.
      replace (csrs m SSCRATCH + -124) with (trap_frame m) by (unfold trap_frame; lia).
      rewrite wrap_small by (unfold trap_frame, word; lia). reflexivity. }
  assert (regs (swapped m) SP = trap_frame m) as HSP by apply set_reg_eq.
  rewrite exec_save by first [lia|rewrite HSP; unfold frame_ok, trap_frame, zlen; simpl; lia].
  rewrite HSP. replace (trap_frame m + 4 * 0) with (trap_frame m) by lia.
  assert (map (regs (swapped m)) trap_regs = map (regs m) trap_regs) as ->.
  { apply map_ext_in. intros r Hr%list_elem_of_In. apply swapped_other. intros ->. by destruct SP_not_trap. }
  assert (m_ram (swapped m) = m_ram m) as -> by done. reflexivity.
Qed.

Lemma trap_second_half m1 m :
  trap_stack_ok m → regs m1 SP = trap_frame m → csrs m1 SSCRATCH = regs m SP →
  ∃ m2, exec [Csrr A0 SSCRATCH; Sw A0 120 SP; Addi A0 SP 124; Csrw SSCRATCH A0; Mv A0 SP] m1 = Ret tt m2 ∧
    m_ram m2 = store32 (trap_frame m + 120) (regs m SP) (m_ram m1) ∧ pc m2 = pc m1 ∧
    regs m2 A0 = trap_frame m ∧ (∀ r, r ≠ A0 → regs m2 r = regs m1 r) ∧
    csrs m2 SSCRATCH = csrs m SSCRATCH ∧ ∀ c, c ≠ SSCRATCH → csrs m2 c = csrs m1 c.
Proof.
  unfold trap_stack_ok. intros Hs HSP Hcsr. eexists. split.
  - do 5 (erewrite exec_step by reflexivity). reflexivity.
  - cbn [regs csrs pc m_ram set_reg set_csr set_m_ram]. unfold fn_set.
    rewrite ?decide_True, ?decide_False by done. rewrite HSP, Hcsr. unfold effective.
    cbn [regs set_reg]. unfold fn_set. rewrite decide_False, HSP by done.
    rewrite !wrap_small by (unfold word, trap_frame; lia).
    split_and!; [done..| | |].
    + intros r Hr. by rewrite !decide_False by congruence.
    + rewrite !decide_True by done. unfold trap_frame. lia.
    + intros c Hc. by rewrite decide_False by congruence.
Qed.

Lemma trap_to_handler link h m :
  trap_stack_ok m →
  ∃ m1, handler_state link m m1 ∧
    trap_entry link h m = (h;;! exec (restore trap_regs 0 ++ [Lw SP 120 SP; Sret])) m1.
Proof.
  intros Hs. set (m0 := set_m_ram (store_words (trap_frame m) (map (regs m) trap_regs) (m_ram m)) (swapped m)).
  destruct (trap_second_half m0 m Hs) as (m1 & Hrun & Hram & Hpc & HA0 & Hr & Hsc & Hcs).
  { apply set_reg_eq. }
  { apply set_csr_eq. }
  exists (set_reg RA link m1). split.
  - split_and!; try done.
    + rewrite set_reg_ne, Hr by done. apply set_reg_eq.
    + intros c Hc. change (csrs m1 c = csrs m c). rewrite Hcs by done. apply set_csr_ne. congruence.
    + intros r H1 H2 H3. rewrite set_reg_ne, Hr by congruence. by apply swapped_other.
  - unfold trap_entry. rewrite trap_code_eq.
    rewrite (app_assoc [Csrrw SP SSCRATCH SP; Addi SP SP (-124)]).
    rewrite exec_app. unfold bind at 1. rewrite trap_first_half by done. fold m0.
    rewrite exec_app. unfold bind at 1. rewrite Hrun. apply exec_call.
Qed.

(** The struct the handler is given a pointer to. *)
Lemma trap_frame_words m :
  word_regs m → words_at (trap_ram m) (trap_frame m) (map (regs m) TrapFrame).
Proof.
  intros Hw. change TrapFrame with (trap_regs ++ [SP]). rewrite map_app.
  intros i w Hi. apply lookup_app_Some in Hi as [Hi|[Hlen Hi]].
  - unfold trap_ram. pose proof (lookup_lt_Some _ _ _ Hi) as Hl. rewrite length_map in Hl. simpl in Hl.
    rewrite load32_store32_ne by lia. apply words_at_store; [|done].
    apply Forall_map, Forall_true. intros r. apply Hw.
  - rewrite length_map in Hi, Hlen. simpl in Hi, Hlen. apply list_lookup_singleton_Some in Hi as [Hi <-].
    assert (i = 30%nat) as -> by lia. change (4 * Z.of_nat 30) with 120. apply load32_store32_eq, Hw.
Qed.

(** A trap always ends in the handler's panic: the message is made of
    [scause], [stval] and [sepc], the argument points to a [TrapFrame] below the
    trap stack top that holds the interrupted registers, field by field, and
    [sscratch] holds that top again. *)
Theorem trap_entry_panics link m :
  word_regs m → trap_stack_ok m →
  ∃ m1, trap_entry link trap_handler m =
      Panic (trap_message (csrs m SCAUSE) (csrs m STVAL) (csrs m SEPC)) m1 ∧
    regs m1 A0 = csrs m SSCRATCH - 4 * Z.of_nat (length TrapFrame) ∧
    words_at (m_ram m1) (regs m1 A0) (map (regs m) TrapFrame) ∧
    csrs m1 SSCRATCH = csrs m SSCRATCH.
Proof.
  intros Hw Hs. destruct (trap_to_handler link trap_handler m Hs) as (m1 & Hst & Hrun).
  destruct Hst as (Hram & _ & HA0 & _ & Hsc & _ & Hcs & _). exists m1. split_and!.
  - rewrite Hrun. apply bind_Panic. unfold trap_handler, read_csr, bind, gets, panic. by rewrite !Hcs.
  - rewrite HA0. done.
  - rewrite HA0, Hram. by apply trap_frame_words.
  - done.
Qed.

Lemma trap_return m :
  exec [Lw SP 120 SP; Sret] m =
  Ret tt (set_pc (csrs m SEPC) (set_reg SP (load32 (m_ram m) (effective 120 SP m)) m)).
Proof. reflexivity. Qed.

(** Loading the thirty registers back from a frame. *)
Lemma trap_restore m2 ws :
  frame_ok (regs m2 SP) 30 → length ws = length trap_regs → words_at (m_ram m2) (regs m2 SP) ws →
  ∃ m', exec (restore trap_regs 0) m2 = Ret tt m' ∧ csrs m' = csrs m2 ∧ m_ram m' = m_ram m2 ∧
    regs m' SP = regs m2 SP ∧ ∀ i r w, trap_regs !! i = Some r → ws !! i = Some w → regs m' r = w.
Proof.
  intros Hf Hlen Hws. exists (load_regs trap_regs ws m2).
  destruct (load_regs_other trap_regs ws m2) as (Hc & _ & Hm & Ho). split_and!.
  - apply exec_restore; [lia|exact SP_not_trap|exact Hlen|exact Hf|].
    by replace (regs m2 SP + 4 * 0) with (regs m2 SP) by lia.
  - exact Hc.
  - exact Hm.
  - exact (Ho SP SP_not_trap).
  - intros i r w Hi Hw. by eapply load_regs_in; [exact trap_regs_NoDup|exact Hi|].
Qed.

Lemma trap_leave m2 m :
  trap_stack_ok m → regs m2 SP = trap_frame m →
  words_at (m_ram m2) (trap_frame m) (map (regs m) TrapFrame) →
  ∃ m3, exec (restore trap_regs 0 ++ [Lw SP 120 SP; Sret]) m2 = Ret tt m3 ∧
    (∀ r, regs m3 r = regs m r) ∧ csrs m3 = csrs m2 ∧ pc m3 = csrs m2 SEPC.
Proof.
  unfold trap_stack_ok. intros Hs HSP Hws.
  destruct (trap_restore m2 (map (regs m) trap_regs)) as (m' & Hrun & Hcsr & Hram & HSP' & Hin).
  { rewrite HSP. unfold frame_ok, trap_frame. lia. }
  { by rewrite length_map. }
  { rewrite HSP. intros i w Hi. apply Hws.
    assert (TrapFrame = trap_regs ++ [SP]) as -> by reflexivity. rewrite map_app.
    by apply lookup_app_l_Some. }
  rewrite exec_app. unfold bind. rewrite Hrun, trap_return. eexists. split; [reflexivity|].
  split; [|split; [exact Hcsr|by cbn [pc set_pc]; rewrite Hcsr]].
  intros r. cbn [regs set_pc]. destruct (decide (SP = r)) as [<-|Hr].
  - rewrite set_reg_eq. unfold effective. rewrite Hram, HSP', HSP.
    rewrite wrap_small by (unfold word, trap_frame; lia).
    exact (Hws 30%nat (regs m SP) eq_refl).
  - rewrite set_reg_ne by done.
    destruct (proj1 (list_elem_of_lookup _ _) (in_trap_regs r ltac:(congruence))) as [i Hi].
    eapply Hin; [exact Hi|]. by rewrite list_lookup_fmap, Hi.
Qed.

(** C30. The entry code loses nothing: around any handler that returns with its
    stack pointer, its frame and [sscratch] intact, every register of the
    interrupted code is restored, and execution goes on at [sepc]. *)
Theorem trap_entry_transparent link h m :
  word_regs m → trap_stack_ok m →
  (∀ m1, handler_state link m m1 → ∃ m2, h m1 = Ret tt m2 ∧ regs m2 SP = regs m1 SP ∧
     csrs m2 SSCRATCH = csrs m1 SSCRATCH ∧
     ∀ a, trap_frame m ≤ a < trap_frame m + 124 → load8 (m_ram m2) a = load8 (m_ram m1) a) →
  ∃ m3, trap_entry link h m = Ret tt m3 ∧ (∀ r, regs m3 r = regs m r) ∧
    csrs m3 SSCRATCH = csrs m SSCRATCH ∧ pc m3 = csrs m3 SEPC.
Proof.
  intros Hw Hs Hh. destruct (trap_to_handler link h m Hs) as (m1 & Hst & Hrun).
  destruct (Hh m1 Hst) as (m2 & Hh2 & HSP2 & Hsc2 & Hmem).
  destruct Hst as (Hram & HSP & _ & _ & Hsc & _). rewrite HSP in HSP2.
  destruct (trap_leave m2 m Hs HSP2) as (m3 & Hrun3 & Hregs & Hcsr & Hpc).
  { eapply words_at_ext; [|by apply trap_frame_words]. intros a Ha. rewrite Hmem, Hram; [done|].
    unfold zlen in Ha. rewrite length_map in Ha. exact Ha. }
  exists m3. rewrite Hrun, (bind_Ret _ _ _ _ _ Hh2). split_and!; [exact Hrun3|exact Hregs|..].
  - by rewrite Hcsr, Hsc2.
  - by rewrite Hpc, Hcsr.
Qed.
