(* ===== verification/Proc.v ===== *)
(** * Processes: src/rust/src/proc.rs.

    The processes are behind the pointer of [ProcTable::table]; a [&mut Process] is
    its address, and the fields are read and written through [ProcLayout], which
    states what any layout of the struct has in common.  [proc_giveup] is the
    function [give_up]. *)
From S2P Require Import Prelude Ram Addr Sync Machine Kernel FixedVec Vm Context.

Definition PROC_STACK_SIZE : Z := 8 * 1024 / 4.
Definition PROC_MAX : Z := 8.

Inductive ProcState : Type := Unused | Runnable.
Definition ProcState_as_u8 (s : ProcState) : Z := match s with Unused => 0 | Runnable => 1 end.

(** The addresses kernel.ld defines. *)
Class Linker : Type := {
  ld_kernel_base : Z;
  ld_bss : Z;
  ld_bss_end : Z;
  ld_stack_top : Z;
  ld_allocator_mem : Z;
  ld_allocator_mem_end : Z;
  ld_free_ram : Z;
  ld_free_ram_end : Z;
}.

(** Addresses of code: the three functions whose address is taken, and the
    instruction of [give_up] after its call of [switch_context]. *)
Class Symbols : Type := {
  sym_trap_entry : Z;
  sym_proc_a_entry : Z;
  sym_proc_b_entry : Z;
  sym_switch_return : Z;
}.

(** Offsets of the fields of a [Process]; [off_root] and [off_second] are those of
    the two vectors of its page table. *)
Class ProcLayout : Type := {
  proc_size : Z;
  off_stack : Z;
  off_sp : Z;
  off_pid : Z;
  off_root : Z;
  off_second : Z;
  off_state : Z;
}.

Section proc.
Context `{Profile, Layout, ProcLayout, Linker, Symbols}.

(** The fields of the process at [p]. *)
Definition state_is (p : Z) (s : ProcState) : M Kernel bool :=
  let! b := read8 (p + off_state) in ret (b =? ProcState_as_u8 s).
Definition read_pt (p : Z) : M Kernel PageTable :=
  let! root := read_fv (p + off_root) in
  let! second := read_fv (p + off_second) in
  ret (mkPageTable root second).
Definition write_pt (p : Z) (pt : PageTable) : M Kernel () :=
  write_fv (p + off_root) (root_pt pt);;! write_fv (p + off_second) (second_pts pt).
(** [proc.page_table = pt] drops the old value first. *)
Definition assign_pt (p : Z) (pt : PageTable) : M Kernel () :=
  (let! old := read_pt p in PageTable_drop old);;! write_pt p pt.
Definition sp_as_mut_ptr (p : Z) : Z := p + off_sp.

Definition ProcTable_new : M Kernel ProcTable :=
  let! t := FixedVec_new proc_size PROC_MAX in ret (mkProcTable t 0).

Definition get_proc (self : ProcTable) (index : Z) : M Kernel Z :=
  FixedVec_index proc_size (table self) index.

(** The loop of [next_unused] over [i..i + n]. *)
Fixpoint find_unused (self : ProcTable) (n : nat) (i : Z) : M Kernel (option Z) :=
  match n with
  | O => ret None
  | S n =>
    let! p := get_proc self i in
    let! unused := state_is p Unused in
    if unused then ret (Some i) else find_unused self n (i + 1)
  end.
Definition next_unused (self : ProcTable) : M Kernel (option Z) :=
  find_unused self (Z.to_nat (FixedVec_cap (table self))) 0.

(** The identity mapping of the kernel's memory in the page table of process [p]. *)
Fixpoint map_kernel (fuel : nat) (p base end_ : Z) : M Kernel () :=
  match fuel with
  | O => no_fuel
  | S fuel =>
    if base <? end_ then
      (let! pt := read_pt p in
       PageTable_map_page pt base base (Z.lor (Z.lor PAGE_R PAGE_W) PAGE_X));;!
      let! base := uadd base PAGE_SIZE in
      map_kernel fuel p base end_
    else ret tt
  end.
(** One iteration per page, one for a last partial page and one for the test. *)
Definition map_fuel (base end_ : Z) : nat := S (S (Z.to_nat ((end_ - base) / PAGE_SIZE))).

(** The initial context of a process: [pc] for [ra] and twelve zeros. *)
Definition init_stack (sp pc : Z) : M Kernel () :=
  write32 sp pc;;!
  for_range 12 1 (λ i, write32 (wrap (sp + 4 * i)) 0).

Definition create_process (self : ProcTable) (pc : Z) : M Kernel Z :=
  let! o := next_unused self in
  let! proc_index := expect o "no free process slots." in
  let! proc := get_proc self proc_index in
  write32 (proc + off_pid) proc_index;;!
  write8 (proc + off_state) (ProcState_as_u8 Runnable);;!
  let sp := proc + off_stack + (PROC_STACK_SIZE - 4) in
  let sp := wrap (sp - 12 * 4) in
  init_stack sp pc;;!
  write32 (proc + off_sp) sp;;!
  let! pt := PageTable_new in
  assign_pt proc pt;;!
  map_kernel (map_fuel ld_kernel_base ld_free_ram_end) proc ld_kernel_base ld_free_ram_end;;!
  ret proc_index.

(** ** The functions on the static *)

Definition new_PROC_TABLE : M Kernel (Mutex ProcTable) :=
  let! t := ProcTable_new in ret (Mutex_new t).
Definition table_init : M Kernel () := get_or_init PROC_TABLE set_PROC_TABLE new_PROC_TABLE.
Definition table_lock : M Kernel ProcTable :=
  table_init;;!
  mutex_lock PROC_TABLE set_PROC_TABLE;;!
  let! mx := get_mutex PROC_TABLE in ret (mx_data mx).
Definition table_set (t : ProcTable) : M Kernel () :=
  let! mx := get_mutex PROC_TABLE in
  set_mutex PROC_TABLE set_PROC_TABLE (mkMutex (mx_lock mx) t).
Definition table_unlock : M Kernel () := mutex_unlock PROC_TABLE set_PROC_TABLE.

(** [proc::init] and [proc::new]. *)
Definition proc_init : M Kernel () := table_init.
Definition proc_new (pc : Z) : M Kernel () :=
  let! t := table_lock in
  create_process t pc;;!
  table_unlock.

(** The search of [give_up] over [i..i + n]. *)
Fixpoint find_runnable (self : ProcTable) (n : nat) (i : Z) : M Kernel Z :=
  match n with
  | O => ret 0
  | S n =>
    let! p := get_proc self i in
    let! runnable := state_is p Runnable in
    if runnable && negb (i =? curr_proc_idx self) then ret i else find_runnable self n (i + 1)
  end.

(** The two CSR writes; a page-table fence does nothing here. *)
Definition switch_space (satp sscratch : Z) : M Kernel () :=
  modify (λ k, set_cpu (set_csr SSCRATCH sscratch (set_csr SATP satp (cpu k))) k).

(** A call of [switch_context]: its arguments are in [a0] and [a1], and the call puts
    the return address in [ra]. *)
Definition call_switch (prev_sp next_sp : Z) : M Kernel () :=
  zoom cpu set_cpu (modify (λ m, set_reg RA sym_switch_return (set_reg A1 next_sp (set_reg A0 prev_sp m)));;! switch_context).

Definition proc_giveup : M Kernel () :=
  let! guard := table_lock in
  let curr := curr_proc_idx guard in
  let! next_idx := find_runnable guard (Z.to_nat (FixedVec_cap (table guard) - 1)) 1 in
  let! prev := get_proc guard curr in
  let prev_sp := sp_as_mut_ptr prev in
  let! next := get_proc guard next_idx in
  let next_sp := sp_as_mut_ptr next in
  let next_stack := next + off_stack + (PROC_STACK_SIZE - 1) + 1 in
  let! pt := read_pt next in
  switch_space (Z.lor SATP_SV32 (PageTable_root_pt_addr pt / PAGE_SIZE)) next_stack;;!
  table_set (mkProcTable (table guard) next_idx);;!
  table_unlock;;!
  call_switch prev_sp next_sp.
End proc.
