(* ===== verification/ProcSpec.v ===== *)
(** * The process table: searching it and laying a process out. *)
From S2P Require Import Prelude Ram Addr BuddySpec Sync Machine Kernel FixedVec Vm Sv32 PageTable VmSpec Context Proc.

(** Two fields do not overlap. *)
Definition sep (o l o' l' : Z) : Prop := o + l ≤ o' ∨ o' + l' ≤ o.

Class ProcLayoutOk `{Layout, ProcLayout} : Prop := {
  proc_size_ok : 0 < proc_size ≤ 1048576;
  field_stack : 0 ≤ off_stack ∧ off_stack + PROC_STACK_SIZE ≤ proc_size;
  field_sp : 0 ≤ off_sp ∧ off_sp + 4 ≤ proc_size;
  field_pid : 0 ≤ off_pid ∧ off_pid + 4 ≤ proc_size;
  field_root : 0 ≤ off_root ∧ off_root + fv_size ≤ proc_size;
  field_second : 0 ≤ off_second ∧ off_second + fv_size ≤ proc_size;
  field_state : 0 ≤ off_state ∧ off_state + 1 ≤ proc_size;
  sep_stack_sp : sep off_stack PROC_STACK_SIZE off_sp 4;
  sep_stack_pid : sep off_stack PROC_STACK_SIZE off_pid 4;
  sep_stack_root : sep off_stack PROC_STACK_SIZE off_root fv_size;
  sep_stack_second : sep off_stack PROC_STACK_SIZE off_second fv_size;
  sep_stack_state : sep off_stack PROC_STACK_SIZE off_state 1;
  sep_sp_pid : sep off_sp 4 off_pid 4;
  sep_sp_root : sep off_sp 4 off_root fv_size;
  sep_sp_second : sep off_sp 4 off_second fv_size;
  sep_sp_state : sep off_sp 4 off_state 1;
  sep_pid_root : sep off_pid 4 off_root fv_size;
  sep_pid_second : sep off_pid 4 off_second fv_size;
  sep_pid_state : sep off_pid 4 off_state 1;
  sep_root_second : sep off_root fv_size off_second fv_size;
  sep_root_state : sep off_root fv_size off_state 1;
  sep_second_state : sep off_second fv_size off_state 1;
}.

Create HintDb fields discriminated.
#[export] Hint Resolve sep_stack_sp sep_stack_pid sep_stack_root sep_stack_second sep_stack_state
  sep_sp_pid sep_sp_root sep_sp_second sep_sp_state sep_pid_root sep_pid_second sep_pid_state
  sep_root_second sep_root_state sep_second_state : fields.

Lemma sep_sym o l o' l' : sep o l o' l' → sep o' l' o l.
Proof. unfold sep. tauto. Qed.

Section search.
Context `{HeapSpec, Layout, ProcLayout, Linker}.

(** The byte of the state field of process [i]. *)
Definition proc_at (t : ProcTable) (i : Z) : Z := element proc_size (table t) i.
Definition state_byte (k : Kernel) (t : ProcTable) (i : Z) : Z := load8 (ram k) (proc_at t i + off_state).
Definition is_unused (k : Kernel) (t : ProcTable) (i : Z) : Prop := state_byte k t i = ProcState_as_u8 Unused.
Definition is_runnable (k : Kernel) (t : ProcTable) (i : Z) : Prop := state_byte k t i = ProcState_as_u8 Runnable.

Lemma get_proc_run k t i :
  owns k proc_size PROC_MAX (table t) → 0 ≤ i < PROC_MAX → get_proc t i k = Ret (proc_at t i) k.
Proof. intros Ho Hi. by eapply index_owned. Qed.

Lemma state_is_run k p s :
  state_is p s k = Ret (load8 (ram k) (p + off_state) =? ProcState_as_u8 s) k.
Proof. reflexivity. Qed.

Lemma find_unused_run k t n i :
  owns k proc_size PROC_MAX (table t) → 0 ≤ i → i + Z.of_nat n ≤ PROC_MAX →
  ∃ o, find_unused t n i k = Ret o k ∧
    match o with
    | Some j => i ≤ j < i + Z.of_nat n ∧ is_unused k t j ∧ ∀ l, i ≤ l < j → ¬ is_unused k t l
    | None => ∀ l, i ≤ l < i + Z.of_nat n → ¬ is_unused k t l
    end.
Proof.
  intros Ho. revert i. induction n as [|n IH]; intros i Hi Hn.
  - exists None. split; [done|]. lia.
  - cbn [find_unused]. erewrite bind_Ret by (apply get_proc_run; [done|lia]).
    erewrite bind_Ret by apply state_is_run.
    destruct (Z.eqb_spec (load8 (ram k) (proc_at t i + off_state)) (ProcState_as_u8 Unused)) as [Hu|Hu].
    + exists (Some i). split; [done|]. split_and!; [lia|lia|done|lia].
    + destruct (IH (i + 1) ltac:(lia) ltac:(lia)) as (o & Hrun & Hres). exists o. split; [done|].
      destruct o as [j|].
      * destruct Hres as (Hj & Hju & Hl). split_and!; [lia|lia|done|]. intros l Hl'.
        destruct (decide (l = i)) as [->|]; [done|]. apply Hl. lia.
      * intros l Hl'. destruct (decide (l = i)) as [->|]; [done|]. apply Hres. lia.
Qed.

(** The process [give_up] switches to: the lowest runnable one but the idle and
    the current process, or the idle process. *)
Definition chosen (k : Kernel) (t : ProcTable) (j : Z) : Prop :=
  (1 ≤ j < PROC_MAX ∧ is_runnable k t j ∧ j ≠ curr_proc_idx t ∧
     ∀ l, 1 ≤ l < j → is_runnable k t l → l = curr_proc_idx t) ∨
  (j = 0 ∧ ∀ l, 1 ≤ l < PROC_MAX → is_runnable k t l → l = curr_proc_idx t).

Lemma find_runnable_run k t n i :
  owns k proc_size PROC_MAX (table t) → 0 ≤ i → i + Z.of_nat n = PROC_MAX →
  (∀ l, 1 ≤ l < i → is_runnable k t l → l = curr_proc_idx t) → 1 ≤ i →
  ∃ j, find_runnable t n i k = Ret j k ∧ chosen k t j.
Proof.
  intros Ho. revert i. induction n as [|n IH]; intros i Hi Hn Hprev Hpos.
  - exists 0. split; [done|]. right. split; [done|]. intros l Hl. apply Hprev. lia.
  - cbn [find_runnable]. erewrite bind_Ret by (apply get_proc_run; [done|lia]).
    erewrite bind_Ret by apply state_is_run.
    destruct (Z.eqb_spec (load8 (ram k) (proc_at t i + off_state)) (ProcState_as_u8 Runnable)) as [Hr|Hr].
    + destruct (Z.eqb_spec i (curr_proc_idx t)) as [Hc|Hc]; simpl.
      * apply IH; [lia|lia| |lia]. intros l Hl Hlr. destruct (decide (l = i)) as [->|]; [done|].
        apply Hprev; [lia|done].
      * exists i. split; [done|]. left. split_and!; [lia|lia|done|done|]. intros l Hl. apply Hprev. lia.
    + apply IH; [lia|lia| |lia]. intros l Hl Hlr. destruct (decide (l = i)) as [->|]; [done|].
      apply Hprev; [lia|done].
Qed.

Lemma chosen_bound k t j : chosen k t j → 0 ≤ j < PROC_MAX.
Proof. intros [(? & _)|[-> _]]; unfold PROC_MAX in *; lia. Qed.

Lemma chosen_unique k t j j' : chosen k t j → chosen k t j' → j = j'.
Proof.
  intros [(Hj & Hr & Hc & Hl)|[-> Hl]] [(Hj' & Hr' & Hc' & Hl')|[-> Hl']]; try done.
  - destruct (Z.lt_trichotomy j j') as [Hlt|[->|Hlt]]; [|done|].
    + destruct Hc. by apply Hl'; [lia|].
    + destruct Hc'. by apply Hl; [lia|].
  - destruct Hc. by apply Hl'.
  - destruct Hc'. by apply Hl.
Qed.
End search.

(** ** The memory of one process *)

Section slot.
Context `{HeapSpec, Layout, !LayoutOk, ProcLayout, !ProcLayoutOk, Linker}.

(** The bytes of the field of [len] bytes at offset [o] of process [p]. *)
Definition in_field (p o len a : Z) : Prop := p + o ≤ a < p + o + len.

Lemma field_apart p o l o' l' a : sep o l o' l' → in_field p o l a → ¬ in_field p o' l' a.
Proof. unfold sep, in_field. lia. Qed.

(** A memory transformer that writes one field only. *)
Definition writes_field (f : Ram → Ram) (p o len : Z) : Prop :=
  ∀ r a, ¬ in_field p o len a → load8 (f r) a = load8 r a.

Lemma field_kept f p o l o' l' r a :
  writes_field f p o l → sep o l o' l' ∨ sep o' l' o l → in_field p o' l' a → load8 (f r) a = load8 r a.
Proof. intros Hf Hs Ha. apply Hf. unfold sep, in_field in *. lia. Qed.

Definition stack_top (p : Z) : Z := p + off_stack + PROC_STACK_SIZE.
Definition first_frame (p : Z) : Z := stack_top p - 52.

Definition w_pid (p i : Z) (r : Ram) : Ram := store32 (p + off_pid) i r.
Definition w_state (p : Z) (r : Ram) : Ram := store8 (p + off_state) (ProcState_as_u8 Runnable) r.
Definition w_stack (p pc : Z) (r : Ram) : Ram := store_words (first_frame p) (pc :: replicate 12 0) r.
Definition w_sp (p : Z) (r : Ram) : Ram := store32 (p + off_sp) (first_frame p) r.
Definition w_root (p : Z) (v : FixedVec) (r : Ram) : Ram := fv_store (p + off_root) v r.
Definition w_second (p : Z) (v : FixedVec) (r : Ram) : Ram := fv_store (p + off_second) v r.

Lemma w_pid_field p i : writes_field (w_pid p i) p off_pid 4.
Proof. intros r a Ha. by apply load8_store32_ne. Qed.
Lemma w_state_field p : writes_field (w_state p) p off_state 1.
Proof. intros r a Ha. apply load8_store8_ne. unfold in_field in Ha. lia. Qed.
Lemma w_stack_field p pc : writes_field (w_stack p pc) p off_stack PROC_STACK_SIZE.
Proof.
  intros r a Ha. apply load8_store_words_ne. unfold in_field, first_frame, stack_top in *.
  unfold zlen. simpl length. change PROC_STACK_SIZE with 2048 in *. lia.
Qed.
Lemma w_sp_field p : writes_field (w_sp p) p off_sp 4.
Proof. intros r a Ha. by apply load8_store32_ne. Qed.
Lemma w_root_field p v : writes_field (w_root p v) p off_root fv_size.
Proof. intros r a Ha. by apply load8_fv_store_ne. Qed.
Lemma w_second_field p v : writes_field (w_second p v) p off_second fv_size.
Proof. intros r a Ha. by apply load8_fv_store_ne. Qed.

(** The slot before and after its page table is assigned. *)
Definition header_ram (p i pc : Z) (r : Ram) : Ram := w_sp p (w_stack p pc (w_state p (w_pid p i r))).
Definition pt_ram (p : Z) (pt : PageTable) (r : Ram) : Ram :=
  w_second p (second_pts pt) (w_root p (root_pt pt) r).

Definition in_slot (p a : Z) : Prop := p ≤ a < p + proc_size.

Lemma field_in_slot p o l a : 0 ≤ o ∧ o + l ≤ proc_size → in_field p o l a → in_slot p a.
Proof. unfold in_field, in_slot. lia. Qed.

Lemma header_outside p i pc r a : ¬ in_slot p a → load8 (header_ram p i pc r) a = load8 r a.
Proof.
  intros Ha. unfold header_ram.
  rewrite w_sp_field by (intros Hx; by apply Ha, (field_in_slot _ _ _ _ field_sp)).
  rewrite w_stack_field by (intros Hx; by apply Ha, (field_in_slot _ _ _ _ field_stack)).
  rewrite w_state_field by (intros Hx; by apply Ha, (field_in_slot _ _ _ _ field_state)).
  by rewrite w_pid_field by (intros Hx; by apply Ha, (field_in_slot _ _ _ _ field_pid)).
Qed.
Lemma pt_ram_outside p pt r a : ¬ in_slot p a → load8 (pt_ram p pt r) a = load8 r a.
Proof.
  intros Ha. unfold pt_ram.
  rewrite w_second_field by (intros Hx; by apply Ha, (field_in_slot _ _ _ _ field_second)).
  by rewrite w_root_field by (intros Hx; by apply Ha, (field_in_slot _ _ _ _ field_root)).
Qed.

Ltac other_field :=
  first [left; solve [auto with fields] | right; solve [auto with fields]].
Ltac peel f := rewrite (field_kept _ _ _ _ _ _ _ _ f) by first [other_field|eassumption].

(** Reading the fields of a finished slot. *)
Lemma pt_ram_other p pt r o l a :
  (sep o l off_root fv_size ∨ sep off_root fv_size o l) → (sep o l off_second fv_size ∨ sep off_second fv_size o l) →
  in_field p o l a → load8 (pt_ram p pt r) a = load8 r a.
Proof.
  intros H1' H2' Ha. unfold pt_ram.
  rewrite (field_kept _ p off_second fv_size o l) by (apply w_second_field || tauto || done).
  by rewrite (field_kept _ p off_root fv_size o l) by (apply w_root_field || tauto || done).
Qed.
End slot.
