(* ===== verification/ProcCreate.v ===== *)
(** * Creating a process.

    A slot of the table is filled field by field ([with_header], [finished]), then
    its page table grows page by page ([map_kernel_run]).  [suspended] and [process]
    say what a process that does not run looks like in memory. *)
From S2P Require Import Prelude Ram Addr BuddySpec BuddyRoom Sync Machine Kernel Heap FixedVec Vm Sv32 PageTable VmSpec Context Proc ProcSpec.

Section create.
Context `{HeapSpec, Layout, !LayoutOk, ProcLayout, !ProcLayoutOk, Linker}.

(** ** The slot of a process lies in the block of the table *)

Lemma slot_in_table k t i a :
  heap_ready k → owns k proc_size PROC_MAX (table t) → 0 ≤ i < PROC_MAX →
  in_slot (proc_at t i) a → inside (blk (table t)) a.
Proof.
  intros Hk Ho Hi Ha. pose proof proc_size_ok.
  destruct (element_owned k proc_size PROC_MAX _ i Hk Ho ltac:(lia) Hi) as (_ & ? & ?).
  unfold in_slot, proc_at in Ha. unfold inside, blk. lia.
Qed.

Lemma slot_bounds k t i :
  heap_ready k → owns k proc_size PROC_MAX (table t) → 0 ≤ i < PROC_MAX →
  0 < proc_at t i ∧ proc_at t i + proc_size ≤ USIZE_MOD.
Proof.
  intros Hk Ho Hi. pose proof proc_size_ok.
  destruct (element_owned k proc_size PROC_MAX _ i Hk Ho ltac:(lia) Hi) as (_ & ? & ?).
  destruct (heap_live_good _ _ Hk (proj1 Ho)) as (? & _ & _ & ? & _). unfold proc_at. lia.
Qed.

Lemma slots_apart k t i j a :
  heap_ready k → owns k proc_size PROC_MAX (table t) → 0 ≤ i < PROC_MAX → 0 ≤ j < PROC_MAX → i ≠ j →
  in_slot (proc_at t i) a → ¬ in_slot (proc_at t j) a.
Proof.
  intros Hk Ho Hi Hj Hne Ha. pose proof proc_size_ok.
  exact (element_apart k proc_size PROC_MAX _ i j a Hk Ho ltac:(lia) Hi Hj Hne Ha).
Qed.

(** ** The header: identity, state, stack and stack pointer *)

Lemma init_zeros n start sp k :
  0 ≤ sp → 0 ≤ start → sp + 4 * (start + Z.of_nat n) ≤ USIZE_MOD →
  for_range n start (λ i, write32 (wrap (sp + 4 * i)) 0) k =
  Ret tt (set_ram (store_words (sp + 4 * start) (replicate n 0) (ram k)) k).
Proof.
  revert start k. induction n as [|n IH]; intros start k Hsp Hst Hn.
  - simpl. by destruct k as [[] ? ? ?].
  - cbn [for_range]. erewrite bind_Ret by reflexivity. rewrite IH by lia.
    unfold wrap. rewrite Z.mod_small by lia. simpl replicate. cbn [store_words].
    by replace (sp + 4 * (start + 1)) with (sp + 4 * start + 4) by lia.
Qed.

Lemma init_stack_run sp pc k :
  0 ≤ sp → sp + 52 ≤ USIZE_MOD →
  init_stack sp pc k = Ret tt (set_ram (store_words sp (pc :: replicate 12 0) (ram k)) k).
Proof.
  intros Hsp Hmax. unfold init_stack. erewrite bind_Ret by reflexivity.
  rewrite init_zeros by lia. by replace (sp + 4 * 1) with (sp + 4) by lia.
Qed.

Definition with_header (k : Kernel) (p i pc : Z) : Kernel := set_ram (header_ram p i pc (ram k)) k.

Lemma create_enter k t pc i :
  heap_ready k → owns k proc_size PROC_MAX (table t) → 0 ≤ i < PROC_MAX →
  next_unused t k = Ret (Some i) k →
  create_process t pc k =
  (let! pt := PageTable_new in
   assign_pt (proc_at t i) pt;;!
   map_kernel (map_fuel ld_kernel_base ld_free_ram_end) (proc_at t i) ld_kernel_base ld_free_ram_end;;!
   ret i) (with_header k (proc_at t i) i pc).
Proof.
  intros Hk Ho Hi Hnext. destruct (slot_bounds k t i Hk Ho Hi) as [Hp0 Hp1].
  pose proof field_stack as Hfs. pose proof proc_size_ok. set (p := proc_at t i) in *.
  unfold create_process. erewrite bind_Ret by exact Hnext. erewrite bind_Ret by done.
  erewrite bind_Ret by by apply get_proc_run. fold p. cbv zeta.
  assert (wrap (p + off_stack + (PROC_STACK_SIZE - 4) - 12 * 4) = first_frame p) as ->.
  { change PROC_STACK_SIZE with 2048 in *. unfold first_frame, stack_top. change PROC_STACK_SIZE with 2048.
    unfold wrap. rewrite Z.mod_small by lia. lia. }
  assert (0 ≤ first_frame p ∧ first_frame p + 52 ≤ USIZE_MOD) as [Hf0 Hf1].
  { unfold first_frame, stack_top. change PROC_STACK_SIZE with 2048 in *. lia. }
  erewrite bind_Ret by reflexivity. erewrite bind_Ret by reflexivity.
  erewrite bind_Ret by by apply init_stack_run. erewrite bind_Ret by reflexivity. reflexivity.
Qed.

(** ** Assigning the page table *)

Definition owns_nothing (v : FixedVec) : Prop := fv_cap v = 0 ∧ pa_size (fv_phys_addr v) = None.

Lemma drop_nothing tsize drop_elem v k :
  heap_ready k → owns_nothing v → FixedVec_drop tsize drop_elem v k = Ret tt k.
Proof.
  intros Hk [Hcap Hsize]. unfold FixedVec_drop. rewrite Hcap. erewrite bind_Ret by done.
  destruct (fv_phys_addr v) as [a s]. simpl in Hsize. subst s. by apply phree_no_size.
Qed.

(** The page table in the slot at [p], and a slot that has none. *)
Definition slot_pt (k : Kernel) (p : Z) : PageTable :=
  mkPageTable (fv_load (ram k) (p + off_root)) (fv_load (ram k) (p + off_second)).
Definition slot_empty (k : Kernel) (p : Z) : Prop :=
  owns_nothing (root_pt (slot_pt k p)) ∧ owns_nothing (second_pts (slot_pt k p)).

Lemma read_pt_run p k : read_pt p k = Ret (slot_pt k p) k.
Proof. reflexivity. Qed.

Lemma assign_pt_run k p pt :
  heap_ready k → slot_empty k p →
  assign_pt p pt k = Ret tt (set_ram (pt_ram p pt (ram k)) k).
Proof.
  intros Hk [Hr Hs]. unfold assign_pt. erewrite bind_Ret; [reflexivity|].
  erewrite bind_Ret by apply read_pt_run. unfold PageTable_drop.
  erewrite bind_Ret by by apply drop_nothing. by apply drop_nothing.
Qed.

Lemma slot_pt_ext k k' p :
  (∀ a, in_slot p a → load8 (ram k') a = load8 (ram k) a) → slot_pt k' p = slot_pt k p.
Proof.
  intros Ha. unfold slot_pt. f_equal; apply fv_load_ext; intros a Hx; apply Ha.
  - by apply (field_in_slot p off_root fv_size _ field_root).
  - by apply (field_in_slot p off_second fv_size _ field_second).
Qed.

Lemma slot_pt_header k p i pc : slot_pt (with_header k p i pc) p = slot_pt k p.
Proof.
  pose proof sep_sp_root. pose proof sep_stack_root. pose proof sep_root_state. pose proof sep_pid_root.
  pose proof sep_sp_second. pose proof sep_stack_second. pose proof sep_second_state. pose proof sep_pid_second.
  unfold slot_pt. f_equal; apply fv_load_ext; intros a Hx; change (ram (with_header k p i pc)) with (header_ram p i pc (ram k));
    unfold header_ram.
  - rewrite (field_kept _ p _ _ off_root fv_size _ _ (w_sp_field p)) by first [tauto|eassumption].
    rewrite (field_kept _ p _ _ off_root fv_size _ _ (w_stack_field p pc)) by first [tauto|eassumption].
    rewrite (field_kept _ p _ _ off_root fv_size _ _ (w_state_field p)) by first [tauto|eassumption].
    by rewrite (field_kept _ p _ _ off_root fv_size _ _ (w_pid_field p i)) by first [tauto|eassumption].
  - rewrite (field_kept _ p _ _ off_second fv_size _ _ (w_sp_field p)) by first [tauto|eassumption].
    rewrite (field_kept _ p _ _ off_second fv_size _ _ (w_stack_field p pc)) by first [tauto|eassumption].
    rewrite (field_kept _ p _ _ off_second fv_size _ _ (w_state_field p)) by first [tauto|eassumption].
    by rewrite (field_kept _ p _ _ off_second fv_size _ _ (w_pid_field p i)) by first [tauto|eassumption].
Qed.

Lemma slot_pt_assigned k p pt :
  fv_words (root_pt pt) → fv_words (second_pts pt) → slot_pt (set_ram (pt_ram p pt (ram k)) k) p = pt.
Proof.
  intros Hr Hs. pose proof sep_root_second. unfold slot_pt. destruct pt as [root second]. simpl in *. f_equal.
  - rewrite <- (fv_load_store (ram k) (p + off_root) root Hr) at 2. apply fv_load_ext. intros a Ha.
    change (ram (set_ram (pt_ram p (mkPageTable root second) (ram k)) k)) with (w_second p second (w_root p root (ram k))).
    by rewrite (field_kept _ p _ _ off_root fv_size _ _ (w_second_field p second)) by first [tauto|eassumption].
  - by apply fv_load_store.
Qed.

(** ** Mapping the kernel *)

(** Process [p] lies in the table block [tb] of slot owner [t], and its page table
    is [pt], whose blocks are others. *)
Record has_table (k : Kernel) (t : ProcTable) (i : Z) (pt : PageTable) : Prop := {
  ht_ready : heap_ready k;
  ht_clean : clean k;
  ht_owns : owns k proc_size PROC_MAX (table t);
  ht_index : 0 ≤ i < PROC_MAX;
  ht_ok : pt_ok k pt;
  ht_apart : ¬ pt_block k pt (blk (table t));
  ht_slot : slot_pt k (proc_at t i) = pt;
}.

(** The pages of [[base, end)]. *)
Definition in_pages (base end_ va : Z) : bool := (base <=? va / 4096 * 4096) && (va / 4096 * 4096 <? end_).

(** What growing the table of one process leaves alone. *)
Lemma grows_slot k k' t i pt a :
  has_table k t i pt → grows k k' pt → inside (blk (table t)) a → load8 (ram k') a = load8 (ram k) a.
Proof.
  intros Ht Hg Ha. apply (grow_writes _ _ _ Hg). intros b Hb.
  pose proof (proj1 (ht_owns _ _ _ _ Ht)) as Hlive.
  apply (live_apart k' (blk (table t))); [apply (grow_ready _ _ _ Hg)|by apply (grow_live _ _ _ Hg)|
    by eapply pt_block_live; [apply (grow_ok _ _ _ Hg)|]|  |done].
  intros <-. destruct (grow_blocks _ _ _ Hg _ Hb) as [Hb'|Hb']; [by apply (ht_apart _ _ _ _ Ht)|done].
Qed.

Lemma has_table_grows k k' t i pt : has_table k t i pt → grows k k' pt → has_table k' t i pt.
Proof.
  intros Ht Hg. pose proof Ht as [Hk Hc Ho Hi Hpt Hap Hs]. split.
  - apply (grow_ready _ _ _ Hg).
  - apply (grow_clean _ _ _ Hg).
  - eapply owns_frame; [apply (grow_live _ _ _ Hg)|done].
  - done.
  - apply (grow_ok _ _ _ Hg).
  - intros Hb. destruct (grow_blocks _ _ _ Hg _ Hb) as [|Hn]; [done|]. by apply Hn, Ho.
  - rewrite <- Hs. apply slot_pt_ext. intros a Ha. eapply grows_slot; [exact Ht|exact Hg|].
    by eapply slot_in_table.
Qed.

Lemma page_start va : va / 4096 * 4096 ≤ va < va / 4096 * 4096 + 4096.
Proof. pose proof (Z.div_mod va 4096 ltac:(lia)). pose proof (Z.mod_pos_bound va 4096 ltac:(lia)). lia. Qed.

Lemma in_pages_step base end_ va :
  base mod 4096 = 0 → base < end_ →
  in_pages base end_ va = (va / 4096 =? base / 4096) || in_pages (base + 4096) end_ va.
Proof.
  intros Hb Hlt. pose proof (Z.div_mod base 4096 ltac:(lia)) as Hd. unfold in_pages.
  destruct (Z.eqb_spec (va / 4096) (base / 4096)) as [Heq|Hne].
  - rewrite (proj2 (Z.leb_le _ _)), (proj2 (Z.ltb_lt _ _)) by lia. done.
  - simpl. f_equal. apply Bool.eq_true_iff_eq. rewrite !Z.leb_le. lia.
Qed.

(** The second-level tables the pages of [[base, end)] need, in bytes; one is
    there when [base] is not the first page of its table. *)
Definition map_cost (base end_ : Z) : Z :=
  if base <? end_ then 4096 * (vpn1 (end_ - 1) - vpn1 base + 1) else 0.
Definition cost_left (k : Kernel) (pt : PageTable) (base end_ c : Z) : Prop :=
  c = map_cost base end_ ∨ base < end_ ∧ sub_owned k pt (vpn1 base) ∧ c = map_cost base end_ - 4096.

Lemma cost_step k pt base end_ :
  0 ≤ base → base < end_ → sub_owned k pt (vpn1 base) →
  ∃ c, cost_left k pt (base + 4096) end_ c ∧ c ≤ map_cost base end_ - 4096.
Proof.
  intros Hb Hlt Ho. unfold cost_left, map_cost. rewrite (proj2 (Z.ltb_lt base end_)) by done.
  assert (vpn1 base ≤ vpn1 (end_ - 1)) as Hv by (apply Z.div_le_mono; lia).
  destruct (Z.ltb_spec (base + 4096) end_) as [Hlt'|Hge]; [|exists 0; lia].
  assert (vpn1 (base + 4096) = vpn1 base ∨ vpn1 (base + 4096) = vpn1 base + 1) as [Heq|Heq].
  { unfold vpn1. pose proof (Z.div_mod base 4194304 ltac:(lia)). pose proof (Z.mod_pos_bound base 4194304 ltac:(lia)).
    pose proof (Z.div_mod (base + 4096) 4194304 ltac:(lia)). pose proof (Z.mod_pos_bound (base + 4096) 4194304 ltac:(lia)). lia. }
  - eexists. rewrite Heq. split; [right; split_and!; [done|done|reflexivity]|lia].
  - eexists. rewrite Heq. split; [left; reflexivity|lia].
Qed.

(** What one page costs, of the budget [c]. *)
Lemma map_spent k k1 pt base end_ c :
  cost_left k pt base end_ c → base < end_ →
  sub_owned k pt (vpn1 base) ∧ spends k 0 k1 ∨ sub_absent k pt (vpn1 base) ∧ spends k 4096 k1 →
  ∃ s, spends k s k1 ∧ s + (map_cost base end_ - 4096) ≤ c.
Proof.
  intros Hcost Hlt [[Ho Hs]|[Ha Hs]].
  - exists 0. split; [done|]. destruct Hcost as [->|(_ & _ & ->)]; lia.
  - exists 4096. split; [done|]. destruct Hcost as [->|(_ & Ho & _)]; [lia|].
    by destruct (absent_not_owned k pt (vpn1 base)).
Qed.
Lemma map_starved k k1 pt base end_ c :
  heap_ready k → pt_ok k pt → 0 ≤ base → cost_left k pt base end_ c → base < end_ → sub_absent k pt (vpn1 base) →
  phalloc 4096 k = Ret (Err OutOfMemory) k1 → starved k c k1.
Proof.
  intros Hk Hpt Hb Hcost Hlt Ha Hal. destruct Hcost as [->|(_ & Ho & _)].
  2:{ by destruct (absent_not_owned k pt (vpn1 base)). }
  apply (starved_le _ 4096).
  - unfold map_cost. rewrite (proj2 (Z.ltb_lt base end_)) by done.
    assert (vpn1 base ≤ vpn1 (end_ - 1)) by (apply Z.div_le_mono; lia). lia.
  - apply (starved_alloc k 4096 k1 Hk); [|exact Hal].
    pose proof (pt_root _ _ Hpt) as (Hl & _ & _ & Hlen). pose proof (heap_live_small _ _ Hk Hl). lia.
Qed.

Lemma map_kernel_run t i pt fuel base end_ c k :
  has_table k t i pt → cost_left k pt base end_ c → 0 ≤ base → base mod PAGE_SIZE = 0 → end_ ≤ USIZE_MAX - 4095 →
  end_ - base ≤ 4096 * (Z.of_nat fuel - 1) → (1 ≤ fuel)%nat →
  (∃ k', map_kernel fuel (proc_at t i) base end_ k = Ret tt k' ∧ grows k k' pt ∧
     (∀ va, 0 ≤ va < USIZE_MOD → walk k' pt va = if in_pages base end_ va then Some (va, 15) else walk k pt va) ∧
     spends_upto k c k') ∨
  (∃ msg k', map_kernel fuel (proc_at t i) base end_ k = Panic msg k' ∧ starved k c k').
Proof.
  revert base c k. induction fuel as [|fuel IH]; intros base c k Ht Hcost Hb Hbm Hend Hfuel Hf1; [lia|].
  pose proof Ht as [Hk Hc Ho Hi Hpt Hap Hs]. cbn [map_kernel]. destruct (Z.ltb_spec base end_) as [Hlt|Hge].
  2:{ left. exists k. split_and!; [done|by apply grows_refl| |].
      - intros va Hva. unfold in_pages.
        destruct (Z.leb_spec base (va / 4096 * 4096)); [|done]. by rewrite (proj2 (Z.ltb_ge _ _)) by lia.
      - exists 0. split; [by constructor|]. destruct Hcost as [->|(? & _)]; [|lia].
        unfold map_cost. by rewrite (proj2 (Z.ltb_ge _ _)). }
  change (Z.lor (Z.lor PAGE_R PAGE_W) PAGE_X) with 14.
  assert ((let! pt0 := read_pt (proc_at t i) in PageTable_map_page pt0 base base 14) k =
    PageTable_map_page pt base base 14 k) as Hbody.
  { erewrite bind_Ret by apply read_pt_run. by rewrite Hs. }
  destruct (map_page_run k pt base base 14) as [(k1 & Hrun & Hg & Hwalk & Ho1 & Hsp)|(msg & k1 & Hrun & Ha & Hal)]; try done; try lia.
  2:{ right. exists msg, k1. split; [by apply bind_Panic; rewrite Hbody|]. by eapply map_starved. }
  destruct (cost_step k1 pt base end_ Hb Hlt Ho1) as (c' & Hcost' & Hc').
  destruct (map_spent k k1 pt base end_ c Hcost Hlt Hsp) as (s1 & Hs1 & Hle1).
  rewrite Hrun in Hbody. rewrite (bind_Ret _ _ _ _ _ Hbody), (bind_Ret _ _ k1 (base + 4096) k1) by (apply uadd_run; unfold PAGE_SIZE; lia).
  assert ((base + 4096) mod PAGE_SIZE = 0) as Hbm'.
  { unfold PAGE_SIZE in *. by rewrite <- (Z.mul_1_l 4096) at 1; rewrite Z.mod_add by lia. }
  destruct fuel as [|fuel]; [lia|].
  destruct (IH (base + 4096) c' k1) as [(k2 & Hrun2 & Hg2 & Hwalk2 & Hsp2)|(msg & k2 & Hrun2 & Hst)]; try done; try lia.
  - by eapply has_table_grows.
  - left. exists k2. split_and!; [done|by eapply grows_trans| |].
    2:{ apply (spends_upto_le _ (s1 + c')); [lia|]. eapply spends_upto_trans; [by apply spends_upto_exact|done]. }
    intros va Hva. rewrite Hwalk2, Hwalk, (in_pages_step base) by done. unfold mapped.
    destruct (in_pages (base + 4096) end_ va); [by rewrite orb_true_r|]. rewrite orb_false_r.
    destruct (Z.eqb_spec (va / 4096) (base / 4096)) as [Heq|]; [|done].
    unfold PAGE_SIZE in Hbm. pose proof (Z.div_mod base 4096 ltac:(lia)). pose proof (Z.div_mod va 4096 ltac:(lia)).
    do 2 f_equal. lia.
  - right. exists msg, k2. split; [done|]. apply (starved_le _ (s1 + c')); [lia|]. by eapply starved_after.
Qed.

(** ** The finished slot *)

Ltac kept f :=
  match goal with Ha : in_field ?p ?o ?l ?a |- _ =>
    rewrite (field_kept _ p _ _ o l _ a f) by first [tauto|exact Ha] end.

(** What follows a header in memory: the page table, then the growth of the table. *)
Definition finished (p : Z) (pt : PageTable) (i pc : Z) (r : Ram) : Ram := pt_ram p pt (header_ram p i pc r).

Lemma finished_state p pt i pc r : load8 (finished p pt i pc r) (p + off_state) = ProcState_as_u8 Runnable.
Proof.
  pose proof sep_root_state. pose proof sep_second_state. pose proof sep_sp_state. pose proof sep_stack_state.
  assert (in_field p off_state 1 (p + off_state)) as Ha by (unfold in_field; lia).
  unfold finished, pt_ram, header_ram. kept (w_second_field p (second_pts pt)). kept (w_root_field p (root_pt pt)).
  kept (w_sp_field p). kept (w_stack_field p pc). apply load8_store8_eq.
Qed.

Lemma finished_pid p pt i pc r : word i → load32 (finished p pt i pc r) (p + off_pid) = i.
Proof.
  intros Hi. pose proof sep_pid_root. pose proof sep_pid_second. pose proof sep_sp_pid.
  pose proof sep_stack_pid. pose proof sep_pid_state.
  rewrite <- (load32_store32_eq r (p + off_pid) i Hi) at 2. apply load32_ext. intros a Ha.
  change (in_field p off_pid 4 a) in Ha.
  unfold finished, pt_ram, header_ram. kept (w_second_field p (second_pts pt)). kept (w_root_field p (root_pt pt)).
  kept (w_sp_field p). kept (w_stack_field p pc). by kept (w_state_field p).
Qed.

Lemma finished_sp p pt i pc r :
  word (first_frame p) → load32 (finished p pt i pc r) (p + off_sp) = first_frame p.
Proof.
  intros Hf. pose proof sep_sp_root. pose proof sep_sp_second.
  rewrite <- (load32_store32_eq (w_stack p pc (w_state p (w_pid p i r))) (p + off_sp) (first_frame p) Hf) at 1.
  apply load32_ext. intros a Ha. change (in_field p off_sp 4 a) in Ha.
  unfold finished, pt_ram, header_ram. kept (w_second_field p (second_pts pt)). by kept (w_root_field p (root_pt pt)).
Qed.

Lemma finished_frame p pt i pc r :
  word pc → words_at (finished p pt i pc r) (first_frame p) (pc :: replicate 12 0).
Proof.
  intros Hpc. pose proof sep_stack_root. pose proof sep_stack_second. pose proof sep_stack_sp.
  eapply words_at_ext; [|apply (words_at_store (w_state p (w_pid p i r)))].
  - intros a Ha. assert (in_field p off_stack PROC_STACK_SIZE a) as Hin.
    { unfold in_field, first_frame, stack_top, zlen in *. simpl length in Ha.
      change PROC_STACK_SIZE with 2048 in *. lia. }
    unfold finished, pt_ram, header_ram. kept (w_second_field p (second_pts pt)). kept (w_root_field p (root_pt pt)).
    by kept (w_sp_field p).
  - constructor; [done|]. apply Forall_replicate. unfold word. lia.
Qed.

Lemma finished_other p pt i pc r a : ¬ in_slot p a → load8 (finished p pt i pc r) a = load8 r a.
Proof. intros Ha. unfold finished. by rewrite pt_ram_outside, header_outside. Qed.

(** ** [create_process] *)

(** The memory a process takes at most. *)
Definition create_cost : Z := new_cost + map_cost ld_kernel_base ld_free_ram_end.

Lemma map_cost_nonneg base end_ : 0 ≤ map_cost base end_.
Proof.
  unfold map_cost. destruct (Z.ltb_spec base end_); [|lia].
  assert (vpn1 base ≤ vpn1 (end_ - 1)) by (apply Z.div_le_mono; lia). lia.
Qed.
Lemma create_cost_ge : new_cost ≤ create_cost.
Proof. unfold create_cost. pose proof (map_cost_nonneg ld_kernel_base ld_free_ram_end). lia. Qed.

(** The thirteen words [switch_context] leaves on a stack. *)
Definition saved_frame_at (r : Ram) (a : Z) (ws : list Z) : Prop :=
  length ws = 13%nat ∧ Forall word ws ∧ words_at r a ws.

(** Process [i] while it does not run: the top of its stack holds the frame [ws],
    which its cell points to, and its page table maps the kernel's memory. *)
Record suspended (k : Kernel) (t : ProcTable) (i : Z) (ws : list Z) (pt : PageTable) : Prop := {
  pr_table : has_table k t i pt;
  pr_state : is_runnable k t i;
  pr_pid : load32 (ram k) (proc_at t i + off_pid) = i;
  pr_sp : load32 (ram k) (proc_at t i + off_sp) = first_frame (proc_at t i);
  pr_frame : saved_frame_at (ram k) (first_frame (proc_at t i)) ws;
  pr_map va : 0 ≤ va < USIZE_MOD →
    sv32_walk (ram k) (PageTable_root_pt_addr pt) va =
    if in_pages ld_kernel_base ld_free_ram_end va
    then Some (va, Z.lor (Z.lor (Z.lor PAGE_R PAGE_W) PAGE_X) PAGE_V) else None;
}.
(** As [create_process] leaves it: it has not run yet. *)
Definition process (k : Kernel) (t : ProcTable) (i pc : Z) (pt : PageTable) : Prop :=
  suspended k t i (pc :: replicate 12 0) pt.

Lemma saved_frame_ext r r' a ws :
  (∀ b, a ≤ b < a + 52 → load8 r' b = load8 r b) → saved_frame_at r a ws → saved_frame_at r' a ws.
Proof.
  intros Hb (Hl & Hw & Hws). split_and!; [done|done|]. eapply words_at_ext; [|exact Hws].
  intros b Hb'. apply Hb. unfold zlen in Hb'. lia.
Qed.
Lemma first_words pc : word pc → length (pc :: replicate 12 0) = 13%nat ∧ Forall word (pc :: replicate 12 0).
Proof. intros Hpc. split; [done|]. constructor; [done|]. apply Forall_replicate. unfold word. lia. Qed.

Record created (k k' : Kernel) (t : ProcTable) (i pc : Z) (pt : PageTable) : Prop := {
  cr_process : process k' t i pc pt;
  cr_memory b a : heap_live k b → inside b a → ¬ in_slot (proc_at t i) a →
    load8 (ram k') a = load8 (ram k) a;
  cr_live b : heap_live k b → heap_live k' b;
  cr_capacity : heap_capacity k' = heap_capacity k;
  cr_spends : spends_upto k create_cost k';
  cr_region a : heap_region k' a ↔ heap_region k a;
  cr_only : ∃ r m, k' = set_ram r (set_MEMORY m k);
}.

(** The kernel before a slot is filled. *)
Record table_ready (k : Kernel) (t : ProcTable) : Prop := {
  tr_ready : heap_ready k;
  tr_clean : clean k;
  tr_owns : owns k proc_size PROC_MAX (table t);
  tr_empty i : 0 ≤ i < PROC_MAX → is_unused k t i → slot_empty k (proc_at t i);
  tr_capacity : 1024 * fv_size ≤ heap_capacity k ∧ 4096 ≤ heap_capacity k;
}.

Record linker_ok : Prop := {
  ld_base_page : ld_kernel_base mod PAGE_SIZE = 0;
  ld_base_pos : 0 ≤ ld_kernel_base;
  ld_end_max : ld_free_ram_end ≤ USIZE_MAX - 4095;
}.

Lemma next_unused_run k t :
  owns k proc_size PROC_MAX (table t) →
  ∃ o, next_unused t k = Ret o k ∧
    match o with
    | Some j => 0 ≤ j < PROC_MAX ∧ is_unused k t j ∧ ∀ l, 0 ≤ l < j → ¬ is_unused k t l
    | None => ∀ l, 0 ≤ l < PROC_MAX → ¬ is_unused k t l
    end.
Proof.
  intros Ho. unfold next_unused, FixedVec_cap. pose proof Ho as (_ & _ & -> & _).
  exact (find_unused_run k t (Z.to_nat PROC_MAX) 0 Ho ltac:(lia) ltac:(done)).
Qed.

Lemma with_header_ready k t i pc :
  table_ready k t → 0 ≤ i < PROC_MAX →
  let kh := with_header k (proc_at t i) i pc in
  heap_ready kh ∧ clean kh ∧ heap_capacity kh = heap_capacity k ∧ ∀ b, heap_live kh b ↔ heap_live k b.
Proof.
  intros [Hk Hc Ho _ _] Hi. cbv zeta. set (kh := with_header k (proc_at t i) i pc).
  destruct (heap_frame k kh eq_refl) as (Hcap & Hready & Hlive & Hreg). split_and!; try done; [by apply Hready|].
  intros a Ha Hfree. change (ram kh) with (header_ram (proc_at t i) i pc (ram k)).
  rewrite header_outside.
  - apply Hc; [by apply Hreg|]. intros b Hb. by apply Hfree, Hlive.
  - intros Hs. eapply (Hfree (blk (table t))); [apply Hlive, Ho|]. by eapply slot_in_table.
Qed.

(** The slot once its page table is assigned. *)
Lemma assigned_has_table k t i pc pt k2 :
  table_ready k t → 0 ≤ i < PROC_MAX → is_unused k t i →
  PageTable_new (with_header k (proc_at t i) i pc) = Ret pt k2 →
  only_memory (with_header k (proc_at t i) i pc) k2 → heap_ready k2 → clean k2 → pt_ok k2 pt →
  (∀ va, 0 ≤ va < USIZE_MOD → walk k2 pt va = None) →
  (∀ b, heap_live k b → heap_live k2 b) → (∀ b, pt_block k2 pt b → ¬ heap_live k b) →
  let k3 := set_ram (finished (proc_at t i) pt i pc (ram k)) k2 in
  assign_pt (proc_at t i) pt k2 = Ret tt k3 ∧ has_table k3 t i pt ∧
  (∀ va, 0 ≤ va < USIZE_MOD → walk k3 pt va = None) ∧
  (∀ b, heap_live k3 b ↔ heap_live k2 b) ∧ heap_capacity k3 = heap_capacity k2 ∧
  ∀ b, pt_block k3 pt b → ¬ heap_live k b.
Proof.
  intros Hr Hi Hu Hnew Hmem Hk2 Hc2 Hpt2 Hwalk Hup Hfresh k3.
  pose proof Hr as [Hk Hc Ho He _]. set (p := proc_at t i) in *.
  assert (ram k2 = header_ram p i pc (ram k)) as Hram by (destruct Hmem as [m ->]; done).
  assert (owns k2 proc_size PROC_MAX (table t)) as Ho2 by by eapply owns_frame.
  destruct (heap_frame k2 k3 eq_refl) as (Hcap & Hready & Hlive & Hreg).
  assert (∀ a, ¬ inside (blk (table t)) a → load8 (ram k3) a = load8 (ram k2) a) as Hout.
  { intros a Ha. change (ram k3) with (pt_ram p pt (header_ram p i pc (ram k))). rewrite <- Hram.
    apply pt_ram_outside. intros Hs. apply Ha. by eapply (slot_in_table k2). }
  assert (∀ b, pt_block k2 pt b → b ≠ blk (table t)) as Hne by (intros b Hb ->; by apply (Hfresh _ Hb), Ho).
  destruct (pt_frame k2 k3 pt Hk2 (proj2 Hready Hk2) (λ b, proj2 (Hlive b)) Hpt2) as (Hpt3 & Hblk & Hwalk3).
  { intros b a Hb Ha. apply Hout. apply (live_apart k2 b); [done|by eapply pt_block_live|apply Ho2|by apply Hne|done]. }
  assert (∀ v, owns k2 4 1024 v ∨ owns k2 fv_size 1024 v → fv_words v) as Hwords.
  { intros v Hv. assert (heap_live k2 (fv_phys_addr v) ∧ fv_ptr v = pa_addr (fv_phys_addr v) ∧ fv_cap v = 1024) as (Hl & Hp & Hcp)
      by (destruct Hv as [(? & ? & ? & _)|(? & ? & ? & _)]; done).
    destruct (heap_live_good _ _ Hk2 Hl) as (? & _ & Hlen & ? & Hsz). unfold fv_words, word. rewrite Hp, Hcp, Hsz.
    unfold PAGE_SIZE in Hlen. lia. }
  split_and!.
  - assert (slot_pt k2 p = slot_pt (with_header k p i pc) p) as Hslot.
    { apply slot_pt_ext. intros a _. by rewrite Hram. }
    rewrite assign_pt_run; [|done|unfold slot_empty; rewrite Hslot, slot_pt_header; by apply He].
    unfold k3, finished. by rewrite Hram.
  - split; try done; [by apply Hready| |by eapply owns_frame; [intros b; apply Hlive|]|..].
    + intros a Ha Hfree. rewrite Hout; [|apply Hfree, Hlive, Ho2].
      apply Hc2; [by apply Hreg|]. intros b Hb. by apply Hfree, Hlive.
    + intros Hb%Hblk. by apply (Hne _ Hb).
    + change k3 with (set_ram (finished p pt i pc (ram k)) k2). unfold finished. rewrite <- Hram.
      apply slot_pt_assigned; apply Hwords; [left; apply (pt_root _ _ Hpt2)|right; apply (pt_second _ _ Hpt2)].
  - intros va Hva. rewrite Hwalk3 by done. by apply Hwalk.
  - done.
  - done.
  - intros b Hb%Hblk. by apply Hfresh.
Qed.

Lemma map_fuel_enough base end_ :
  base ≤ end_ → end_ - base ≤ 4096 * (Z.of_nat (map_fuel base end_) - 1).
Proof.
  intros Hle. unfold map_fuel, PAGE_SIZE. pose proof (Z.div_mod (end_ - base) 4096 ltac:(lia)).
  pose proof (Z.mod_pos_bound (end_ - base) 4096 ltac:(lia)).
  assert (0 ≤ (end_ - base) / 4096) by (apply Z.div_pos; lia). lia.
Qed.

(** The slot is written, then only blocks of the new page table are. *)
Lemma created_after k t i pc pt k3 k' :
  table_ready k t → 0 ≤ i < PROC_MAX → word pc →
  has_table k3 t i pt → ram k3 = finished (proc_at t i) pt i pc (ram k) →
  (∀ b, heap_live k b → heap_live k3 b) → heap_capacity k3 = heap_capacity k →
  (∀ va, 0 ≤ va < USIZE_MOD → walk k3 pt va = None) → (∀ b, pt_block k3 pt b → ¬ heap_live k b) →
  grows k3 k' pt →
  (∀ va, 0 ≤ va < USIZE_MOD →
     walk k' pt va = if in_pages ld_kernel_base ld_free_ram_end va then Some (va, 15) else walk k3 pt va) →
  spends_upto k create_cost k' → (∃ r m, k3 = set_ram r (set_MEMORY m k)) →
  (∀ a, heap_region k3 a ↔ heap_region k a) → created k k' t i pc pt.
Proof.
  intros Hr Hi Hpc Ht Hram Hup Hcap Hnone Hfresh Hg Hwalk Hsp Hset Hreg. set (p := proc_at t i) in *.
  destruct (slot_bounds k t i (tr_ready _ _ Hr) (tr_owns _ _ Hr) Hi) as [Hp0 Hp1]. fold p in Hp0, Hp1.
  assert (∀ a, inside (blk (table t)) a → load8 (ram k') a = load8 (finished p pt i pc (ram k)) a) as Hsame.
  { intros a Ha. rewrite <- Hram. by eapply grows_slot. }
  assert (∀ a, in_slot p a → load8 (ram k') a = load8 (finished p pt i pc (ram k)) a) as Hslot.
  { intros a Ha. apply Hsame. eapply slot_in_table; [apply (tr_ready _ _ Hr)|apply (tr_owns _ _ Hr)|exact Hi|exact Ha]. }
  pose proof field_stack as Hfs. pose proof field_sp. pose proof field_pid. pose proof field_state.
  assert (word (first_frame p)) as Hff.
  { unfold word, first_frame, stack_top. change PROC_STACK_SIZE with 2048 in *. lia. }
  split; [split|..].
  - by eapply has_table_grows.
  - unfold is_runnable, state_byte. fold p. rewrite Hslot by (unfold in_slot; lia). apply finished_state.
  - fold p. rewrite <- (finished_pid p pt i pc (ram k)) at 1 by (unfold word, PROC_MAX in *; lia).
    apply load32_ext. intros a Ha. apply Hslot. unfold in_slot. lia.
  - fold p. rewrite <- (finished_sp p pt i pc (ram k)) at 1 by done.
    apply load32_ext. intros a Ha. apply Hslot. unfold in_slot. lia.
  - fold p. apply (saved_frame_ext (finished p pt i pc (ram k))).
    + intros a Ha. apply Hslot. unfold in_slot, first_frame, stack_top in *. change PROC_STACK_SIZE with 2048 in *. lia.
    + destruct (first_words pc Hpc) as [? ?]. split_and!; [done|done|by apply finished_frame].
  - intros va Hva. unfold walk in Hwalk, Hnone. by rewrite Hwalk, Hnone.
  - intros b a Hb Ha Hns. rewrite (grow_writes _ _ _ Hg), Hram; [by apply finished_other|].
    intros b' Hb'. apply (live_apart k' b); [apply (grow_ready _ _ _ Hg)|by apply (grow_live _ _ _ Hg), Hup|
      by eapply pt_block_live; [apply (grow_ok _ _ _ Hg)|]| |done].
    intros <-. destruct (grow_blocks _ _ _ Hg _ Hb') as [Hb3|Hb3]; [by apply (Hfresh b)|by apply Hb3, Hup].
  - intros b Hb. by apply (grow_live _ _ _ Hg), Hup.
  - by rewrite (grow_capacity _ _ _ Hg).
  - done.
  - intros a. by rewrite (grow_region _ _ _ Hg).
  - destruct Hset as (r3 & m3 & ->), (grow_state _ _ _ Hg) as (r4 & m4 & ->). by exists r4, m4.
Qed.

(** Slots of other processes are not touched. *)
Lemma created_other k k' t i pc pt j a :
  table_ready k t → created k k' t i pc pt → 0 ≤ j < PROC_MAX → j ≠ i → in_slot (proc_at t j) a →
  load8 (ram k') a = load8 (ram k) a.
Proof.
  intros Hr Hcr Hj Hne Ha. destruct Hr as [Hk _ Ho _ _].
  apply (cr_memory _ _ _ _ _ _ Hcr (blk (table t))); [apply Ho|by eapply slot_in_table|].
  apply (slots_apart k t j i); try done. apply (ht_index _ _ _ _ (pr_table _ _ _ _ _ (cr_process _ _ _ _ _ _ Hcr))).
Qed.

Lemma create_run k t pc i :
  table_ready k t → linker_ok → word pc → next_unused t k = Ret (Some i) k →
  0 ≤ i < PROC_MAX → is_unused k t i → ld_kernel_base ≤ ld_free_ram_end →
  (∃ pt k', create_process t pc k = Ret i k' ∧ created k k' t i pc pt) ∨
  (∃ msg k', create_process t pc k = Panic msg k' ∧ starved k create_cost k').
Proof.
  intros Hr [Hbp Hb0 Hem] Hpc Hnext Hi Hu Hld. pose proof Hr as [Hk Hc Ho He [Hc1 Hc2]].
  rewrite (create_enter k t pc i) by done.
  destruct (with_header_ready k t i pc Hr Hi) as (Hkh & Hch & Hcaph & Hliveh).
  set (kh := with_header k (proc_at t i) i pc) in *.
  destruct (PageTable_new_run kh Hkh Hch) as [Hn|(msg & k2 & Hn & Hst)]; try lia.
  2:{ right. exists msg, k2. split; [by apply bind_Panic|]. apply (starved_before k kh); [done|].
      apply (starved_le _ new_cost); [apply create_cost_ge|done]. }
  destruct Hn as (pt & k2 & Hrun & Hmem & Hk2 & Hcl2 & Hpt2 & Hcap2 & Hreg2 & Hwalk & Hlive & Hfresh & Hsp).
  erewrite bind_Ret by exact Hrun.
  destruct (assigned_has_table k t i pc pt k2) as (Hassign & Ht3 & Hnone & Hlive3 & Hcap3 & Hfresh3); try done.
  { intros b Hb. apply Hlive. left. by apply Hliveh. }
  { intros b Hb Hb'. by apply (Hfresh b Hb), Hliveh. }
  erewrite bind_Ret by exact Hassign. set (k3 := set_ram (finished (proc_at t i) pt i pc (ram k)) k2) in *.
  assert (spends k new_cost k3) as Hsp3.
  { apply (spends_before k kh); [done|]. by apply (spends_after kh new_cost k2). }
  destruct (map_kernel_run t i pt (map_fuel ld_kernel_base ld_free_ram_end) ld_kernel_base ld_free_ram_end
    (map_cost ld_kernel_base ld_free_ram_end) k3) as [(k' & Hmap & Hg & Hwalk' & Hspm)|(msg & k' & Hmap & Hst)]; try done.
  - by left.
  - by apply map_fuel_enough.
  - unfold map_fuel. lia.
  - left. exists pt, k'. erewrite bind_Ret by exact Hmap. split; [done|].
    eapply created_after; try done; [|congruence|..].
    + intros b Hb. apply Hlive3, Hlive. left. by apply Hliveh.
    + unfold create_cost. eapply spends_upto_trans; [by apply spends_upto_exact|done].
    + destruct Hmem as [m2 ->]. by eexists _, m2.
    + intros a. destruct (heap_frame k2 k3 eq_refl) as (_ & _ & _ & ->). rewrite Hreg2.
      by apply (heap_frame k kh).
  - right. exists msg, k'. split; [by apply bind_Panic|]. by eapply starved_after.
Qed.

(** The table is ready for the next process. *)
Lemma created_ready k k' t i pc pt : table_ready k t → created k k' t i pc pt → table_ready k' t.
Proof.
  intros Hr Hcr. pose proof (created_other k k' t i pc pt) as Hoth.
  pose proof Hr as [Hk Hc Ho He Hcap]. pose proof Hcr as [[Ht Hst _ _ _ _] _ Hlive Hcap' _ _ _].
  split; try apply Ht; [|by rewrite Hcap'].
  intros j Hj Hu. assert (j ≠ i) as Hne.
  { intros ->. unfold is_runnable, is_unused in *. rewrite Hst in Hu. done. }
  pose proof field_state. assert (is_unused k t j) as Hu'.
  { unfold is_unused, state_byte in *. rewrite <- Hu. symmetry. apply (Hoth j); [done..|]. unfold in_slot. lia. }
  unfold slot_empty. rewrite (slot_pt_ext k k'); [by apply He|]. intros a Ha. by apply (Hoth j).
Qed.

(** C27. [create_process] fills the lowest unused slot: it becomes runnable with
    its index as pid, its saved stack pointer points to a frame at the top of its
    own stack that holds [pc] and twelve zeros, and its new page table maps exactly
    the kernel's pages, each to itself with read, write and execute permission.
    Nothing that was live is written but the slot, and the table is ready for the
    next process.  It panics when no slot is unused, with the kernel as it was, or
    when an allocation is refused on the way, which does not happen while the heap
    has room for [create_cost] bytes. *)
Theorem create_process_ok k t pc :
  table_ready k t → linker_ok → ld_kernel_base ≤ ld_free_ram_end → word pc →
  (∃ i pt k', create_process t pc k = Ret i k' ∧ 0 ≤ i < PROC_MAX ∧ is_unused k t i ∧
     (∀ j, 0 ≤ j < i → ¬ is_unused k t j) ∧ created k k' t i pc pt ∧ table_ready k' t) ∨
  (∃ msg, create_process t pc k = Panic msg k ∧ ∀ j, 0 ≤ j < PROC_MAX → ¬ is_unused k t j) ∨
  (∃ msg k', create_process t pc k = Panic msg k' ∧ starved k create_cost k' ∧
     ∀ f, heap_room k f → f < create_cost).
Proof.
  intros Hr Hl Hld Hpc. destruct (next_unused_run k t (tr_owns _ _ Hr)) as ([i|] & Hnext & Ho).
  - destruct Ho as (Hi & Hu & Hlow).
    destruct (create_run k t pc i Hr Hl Hpc Hnext Hi Hu Hld) as [(pt & k' & Hrun & Hcr)|(msg & k' & Hrun & Hst)].
    + left. exists i, pt, k'. split_and!; try done; try lia. by eapply created_ready.
    + right. right. exists msg, k'. split_and!; [done|done|]. intros f Hf. by eapply starved_room.
  - right. left. eexists. split; [|exact Ho]. unfold create_process.
    erewrite bind_Ret by exact Hnext. by apply bind_Panic.
Qed.

(** A switch to a suspended process loads its frame. *)
Lemma resume_switch k t i ws pt m :
  suspended k t i ws pt → m_ram m = ram k →
  word_regs m → 52 ≤ regs m SP → regs m A1 = sp_as_mut_ptr (proc_at t i) →
  stack_top (proc_at t i) < USIZE_MOD → (∀ a, in_slot (proc_at t i) a → ¬ switch_writes m a) →
  ∃ m', switch_context m = Ret tt m' ∧ Machine.pc m' = regs m' RA ∧
    regs m' SP = stack_top (proc_at t i) ∧
    (∀ j r w, switch_regs !! j = Some r → ws !! j = Some w → regs m' r = w) ∧
    (∀ r, r ∉ SP :: switch_regs → regs m' r = regs m r) ∧
    csrs m' = csrs m ∧ m_ram m' = saved_ram m.
Proof.
  intros [Ht _ _ Hsp Hframe _] Hram Hw Hs Hnext Htop Hout. set (p := proc_at t i) in *.
  destruct (slot_bounds k t i (ht_ready _ _ _ _ Ht) (ht_owns _ _ _ _ Ht) (ht_index _ _ _ _ Ht)) as [Hp0 Hp1].
  fold p in Hp0, Hp1. pose proof field_stack as Hfs. pose proof field_sp as Hfp.
  assert (∀ a, in_slot p a → load8 (saved_ram m) a = load8 (ram k) a) as Hsame.
  { intros a Ha. rewrite saved_ram_other by by apply Hout. by rewrite Hram. }
  assert (0 ≤ first_frame p ∧ first_frame p + 52 = stack_top p) as [Hf0 Hf1].
  { unfold first_frame, stack_top. change PROC_STACK_SIZE with 2048 in *. lia. }
  assert (load32 (saved_ram m) (regs m A1) = first_frame p) as Hb.
  { rewrite Hnext, <- Hsp. apply load32_ext. intros a Ha. apply Hsame. unfold sp_as_mut_ptr in Ha. unfold in_slot. lia. }
  assert (saved_frame_at (saved_ram m) (first_frame p) ws) as (Hlen & _ & Hws).
  { apply (saved_frame_ext (ram k)); [|exact Hframe]. intros a Ha. apply Hsame. unfold in_slot, stack_top in *. change PROC_STACK_SIZE with 2048 in *. lia. }
  destruct (switch_loads m ws) as (m' & Hrun & Hpc' & HSP & Hregs & Hother & Hcsr & Hmr);
    rewrite ?Hb; [exact Hw|exact Hs|unfold frame_ok; lia|lia|exact Hlen|exact Hws|].
  rewrite Hb in HSP. exists m'. split_and!; [exact Hrun|exact Hpc'|lia|exact Hregs|exact Hother|exact Hcsr|exact Hmr].
Qed.

Lemma first_switch k t i pc pt m :
  process k t i pc pt → m_ram m = ram k →
  word_regs m → 52 ≤ regs m SP → regs m A1 = sp_as_mut_ptr (proc_at t i) →
  stack_top (proc_at t i) < USIZE_MOD → (∀ a, in_slot (proc_at t i) a → ¬ switch_writes m a) →
  ∃ m', switch_context m = Ret tt m' ∧ Machine.pc m' = pc ∧ regs m' RA = pc ∧
    regs m' SP = stack_top (proc_at t i) ∧
    (∀ r, r ∈ [S0; S1; S2; S3; S4; S5; S6; S7; S8; S9; S10; S11] → regs m' r = 0) ∧
    csrs m' = csrs m ∧ ∀ a, ¬ switch_writes m a → load8 (m_ram m') a = load8 (m_ram m) a.
Proof.
  intros Hp Hram Hw Hs Hnext Htop Hout.
  destruct (resume_switch k t i _ pt m Hp Hram Hw Hs Hnext Htop Hout) as (m' & Hrun & Hpc' & HSP & Hregs & _ & Hcsr & Hmr).
  exists m'. split_and!; [exact Hrun|rewrite Hpc'; by apply (Hregs 0%nat)|by apply (Hregs 0%nat)|exact HSP| |exact Hcsr|].
  2:{ intros a Ha. rewrite Hmr. by apply saved_ram_other. }
  intros r Hr. destruct (proj1 (list_elem_of_lookup _ _) Hr) as [j Hj]. apply (Hregs (S j)); [exact Hj|].
  apply lookup_lt_Some in Hj. exact (lookup_replicate_2 12 0 j Hj).
Qed.

(** The first switch to a new process starts it: whatever the hart was doing,
    a [switch_context] whose [next_sp] is the new process's stack-pointer cell, and
    which does not write to its slot, goes on at [pc] with the stack pointer at the
    top of the new stack and zero in every saved register; no CSR changes. *)
Theorem new_process_starts k t i pc pt m :
  process k t i pc pt → m_ram m = ram k →
  word_regs m → 52 ≤ regs m SP → regs m A1 = sp_as_mut_ptr (proc_at t i) →
  stack_top (proc_at t i) < USIZE_MOD → (∀ a, in_slot (proc_at t i) a → ¬ switch_writes m a) →
  ∃ m', switch_context m = Ret tt m' ∧ Machine.pc m' = pc ∧ regs m' RA = pc ∧
    regs m' SP = stack_top (proc_at t i) ∧
    (∀ r, r ∈ [S0; S1; S2; S3; S4; S5; S6; S7; S8; S9; S10; S11] → regs m' r = 0) ∧
    csrs m' = csrs m ∧ ∀ a, ¬ switch_writes m a → load8 (m_ram m') a = load8 (m_ram m) a.
Proof. apply first_switch. Qed.
End create.
