(* ===== verification/Sched.v ===== *)
(** * Scheduling: what [give_up] does, and the order it runs processes in. *)
From S2P Require Import Prelude Ram Addr BuddySpec Sync Machine Kernel FixedVec Vm Sv32 PageTable VmSpec Context Proc ProcSpec ProcCreate.

Section sched.
Context `{HeapSpec, Layout, ProcLayout, Linker, Symbols}.

(** The process table is set up and nobody holds it. *)
Record sched_ok (k : Kernel) (t : ProcTable) : Prop := {
  so_cell : PROC_TABLE k = ready t;
  so_owns : owns k proc_size PROC_MAX (table t);
  so_curr : 0 ≤ curr_proc_idx t < PROC_MAX;
}.

Lemma table_lock_run k t :
  PROC_TABLE k = ready t → table_lock k = Ret t (set_PROC_TABLE (held t) k).
Proof.
  intros Hk. unfold table_lock, table_init.
  erewrite bind_Ret by (eapply get_or_init_ready; exact Hk).
  unfold mutex_lock, get_mutex, set_mutex, bind, gets, modify, expect, ret. rewrite Hk. simpl. by rewrite Hk.
Qed.

Lemma table_set_run k t t' :
  PROC_TABLE k = held t → table_set t' k = Ret tt (set_PROC_TABLE (held t') k).
Proof.
  intros Hk. unfold table_set, get_mutex, set_mutex, bind, gets, modify, expect, ret. rewrite Hk. simpl.
  by rewrite Hk.
Qed.
Lemma table_unlock_run k t :
  PROC_TABLE k = held t → table_unlock k = Ret tt (set_PROC_TABLE (ready t) k).
Proof.
  intros Hk. unfold table_unlock, mutex_unlock, get_mutex, set_mutex, bind, gets, modify, expect, ret.
  rewrite Hk. simpl. by rewrite Hk.
Qed.

Lemma zoom_cpu_modify f (m : M Machine ()) k :
  zoom cpu set_cpu (modify f;;! m) k = zoom cpu set_cpu m (set_cpu (f (cpu k)) k).
Proof. unfold zoom, bind, modify. cbn [cpu set_cpu]. by destruct (m (f (cpu k))). Qed.
Lemma call_switch_run prev_sp next_sp k :
  call_switch prev_sp next_sp k =
  zoom cpu set_cpu switch_context (set_cpu (set_reg RA sym_switch_return (set_reg A1 next_sp (set_reg A0 prev_sp (cpu k)))) k).
Proof. apply zoom_cpu_modify. Qed.

(** The hart when [switch_context] is called for a switch from [curr] to [next]. *)
Definition switching (k : Kernel) (t : ProcTable) (next : Z) : Machine :=
  set_reg RA sym_switch_return
    (set_reg A1 (sp_as_mut_ptr (proc_at t next))
      (set_reg A0 (sp_as_mut_ptr (proc_at t (curr_proc_idx t)))
        (set_csr SSCRATCH (stack_top (proc_at t next))
          (set_csr SATP (Z.lor SATP_SV32 (PageTable_root_pt_addr (slot_pt k (proc_at t next)) / PAGE_SIZE))
            (cpu k))))).

Lemma giveup_run k t :
  sched_ok k t →
  ∃ next, chosen k t next ∧
    proc_giveup k =
    zoom cpu set_cpu switch_context
      (set_cpu (switching k t next) (set_PROC_TABLE (ready (mkProcTable (table t) next)) k)).
Proof.
  intros [Hcell Ho Hc]. set (k1 := set_PROC_TABLE (held t) k).
  assert (owns k1 proc_size PROC_MAX (table t)) as Ho1.
  { eapply owns_frame; [|exact Ho]. intros b. by apply heap_frame. }
  destruct (find_runnable_run k1 t 7 1 Ho1 ltac:(lia) ltac:(done) ltac:(lia) ltac:(lia)) as (next & Hfind & Hch).
  assert (chosen k t next) as Hch' by exact Hch.
  exists next. split; [done|]. pose proof (chosen_bound _ _ _ Hch) as Hn.
  unfold proc_giveup. erewrite bind_Ret by by apply table_lock_run. fold k1. cbv zeta.
  unfold FixedVec_cap. rewrite (proj1 (proj2 (proj2 Ho))). change (Z.to_nat (PROC_MAX - 1)) with 7%nat.
  erewrite bind_Ret by exact Hfind. erewrite bind_Ret by by apply get_proc_run.
  erewrite bind_Ret by by apply get_proc_run. erewrite bind_Ret by apply read_pt_run.
  change (slot_pt k1 (proc_at t next)) with (slot_pt k (proc_at t next)).
  replace (proc_at t next + off_stack + (PROC_STACK_SIZE - 1) + 1) with (stack_top (proc_at t next))
    by (unfold stack_top; lia).
  erewrite bind_Ret by reflexivity. erewrite bind_Ret by (apply (table_set_run _ t); reflexivity).
  erewrite bind_Ret by (apply (table_unlock_run _ (mkProcTable (table t) next)); reflexivity). rewrite call_switch_run. f_equal.
Qed.

Lemma giveup_returns k t :
  sched_ok k t →
  ∃ next m, chosen k t next ∧ switch_context (switching k t next) = Ret tt m ∧
    proc_giveup k = Ret tt (set_cpu m (set_PROC_TABLE (ready (mkProcTable (table t) next)) k)).
Proof.
  intros Hs. destruct (giveup_run k t Hs) as (next & Hch & Hrun).
  destruct (switch_context_total (switching k t next)) as [m Hm].
  exists next, m. split_and!; [exact Hch|exact Hm|].
  rewrite Hrun. set (k1 := set_PROC_TABLE _ k). unfold zoom.
  change (cpu (set_cpu (switching k t next) k1)) with (switching k t next). by rewrite Hm.
Qed.

(** [give_up] never fails.  It switches to the lowest runnable process that is
    neither the idle process nor the current one, and to the idle process when
    there is none: that process's page table goes into [satp] and its stack top into
    [sscratch], it becomes the current process, the table is released, and
    [switch_context] runs from the current process's cell to the next one's. *)
Theorem giveup_switches k t :
  sched_ok k t →
  ∃ next m, chosen k t next ∧ switch_context (switching k t next) = Ret tt m ∧
    proc_giveup k = Ret tt (set_cpu m (set_PROC_TABLE (ready (mkProcTable (table t) next)) k)).
Proof. apply giveup_returns. Qed.

(** ** Fairness *)

Definition current_proc (k : Kernel) : option Z :=
  match oc_value (PROC_TABLE k) with Some mx => Some (curr_proc_idx (mx_data mx)) | None => None end.

(** One call of [give_up] that came back, with [R] the runnable processes. *)
Lemma giveup_current k t k' next :
  sched_ok k t → proc_giveup k = Ret tt k' → chosen k t next →
  PROC_TABLE k' = ready (mkProcTable (table t) next).
Proof.
  intros Hs Hrun Hch. destruct (giveup_returns k t Hs) as (next' & m & Hch' & _ & Heq).
  rewrite (chosen_unique _ _ _ _ Hch Hch'). rewrite Heq in Hrun. injection Hrun as <-. reflexivity.
Qed.

(** A run of the scheduler: at every step the current process calls [give_up];
    between two calls processes do anything but change the table or its states. *)
Record yields (T : FixedVec) (R : Z → Prop) (ks : nat → Kernel) : Prop := {
  y_table n : ∃ c, sched_ok (ks n) (mkProcTable T c);
  y_states n t i : PROC_TABLE (ks n) = ready t → 1 ≤ i < PROC_MAX → is_runnable (ks n) t i ↔ R i;
  y_step n : ∃ k', proc_giveup (ks n) = Ret tt k' ∧ PROC_TABLE (ks (S n)) = PROC_TABLE k';
}.

Lemma yields_next T R ks n c next :
  yields T R ks → PROC_TABLE (ks n) = ready (mkProcTable T c) → chosen (ks n) (mkProcTable T c) next →
  PROC_TABLE (ks (S n)) = ready (mkProcTable T next).
Proof.
  intros [Ht _ Hstep] Hn Hch. destruct (Ht n) as (c' & Hs). pose proof (so_cell _ _ Hs) as Hc.
  rewrite Hn in Hc. injection Hc as <-. destruct (Hstep n) as (k' & Hrun & ->).
  by eapply (giveup_current _ _ _ _ Hs Hrun).
Qed.

(** C28. The scheduler is not fair.  When [p < q] are the two lowest runnable
    processes, they alternate for ever: no other process, runnable or not, ever
    becomes current after the first call. *)
Theorem giveup_alternates T R ks p q :
  yields T R ks → 1 ≤ p → p < q → q < PROC_MAX → R p → R q → (∀ l, 1 ≤ l < q → R l → l = p) →
  PROC_TABLE (ks 0%nat) = ready (mkProcTable T 0) →
  ∀ n, PROC_TABLE (ks (2 * n + 1)%nat) = ready (mkProcTable T p) ∧
       PROC_TABLE (ks (2 * n + 2)%nat) = ready (mkProcTable T q).
Proof.
  intros Hy Hp1 Hpq Hq Hp HRq Hlow H0t.
  assert (∀ n c, c ≠ p → (∀ l, 1 ≤ l < p → ¬ R l) → PROC_TABLE (ks n) = ready (mkProcTable T c) →
    PROC_TABLE (ks (S n)) = ready (mkProcTable T p)) as Hto_p.
  { intros n c Hc Hlow' Hn. eapply yields_next; [done|exact Hn|]. left. simpl. split_and!; try lia.
    - apply (y_states _ _ _ Hy n _ p Hn); [lia|done].
    - intros l Hl Hr%(y_states _ _ _ Hy n _ l Hn); [|lia]. by destruct (Hlow' l Hl). }
  assert (∀ n, PROC_TABLE (ks n) = ready (mkProcTable T p) → PROC_TABLE (ks (S n)) = ready (mkProcTable T q)) as Hto_q.
  { intros n Hn. eapply yields_next; [done|exact Hn|]. left. simpl. split_and!; try lia.
    - apply (y_states _ _ _ Hy n _ q Hn); [lia|done].
    - intros l Hl Hr%(y_states _ _ _ Hy n _ l Hn); [|lia]. by apply Hlow. }
  assert (∀ l, 1 ≤ l < p → ¬ R l) as Hlow'.
  { intros l Hl Hr. assert (l = p) by (apply Hlow; [lia|done]). lia. }
  induction n as [|n [IH1 IH2]].
  - assert (PROC_TABLE (ks 1%nat) = ready (mkProcTable T p)) as H1t by (eapply Hto_p; [|done|exact H0t]; lia).
    split; [exact H1t|]. by apply Hto_q.
  - replace (2 * S n + 1)%nat with (S (2 * n + 2)) by lia. replace (2 * S n + 2)%nat with (S (S (2 * n + 2))) by lia.
    assert (PROC_TABLE (ks (S (2 * n + 2))) = ready (mkProcTable T p)) as H1t by (eapply Hto_p; [|done|exact IH2]; lia).
    split; [exact H1t|]. by apply Hto_q.
Qed.
End sched.
