(* ===== verification/ProcNew.v ===== *)
(** * [proc::new]: one process after another.

    A process that is not running is kept by everything that leaves its slot and
    its page table alone ([process_frame]), in particular by the creation of
    another one ([process_other]). *)
From S2P Require Import Prelude Ram Addr BuddyInv BuddySpec BuddyRoom Sync Machine Kernel Heap FixedVec Vm Sv32 PageTable VmSpec Context Proc ProcSpec ProcCreate Sched.

Section new.
Context `{HeapSpec, Layout, !LayoutOk, ProcLayout, !ProcLayoutOk, Linker}.

(** The bytes of a slot a switch away from its process writes. *)
Definition in_context (p a : Z) : Prop :=
  first_frame p ≤ a < stack_top p ∨ p + off_sp ≤ a < p + off_sp + 4.

(** They belong to no other field. *)
Lemma context_apart p o l a :
  (sep off_stack PROC_STACK_SIZE o l ∨ sep o l off_stack PROC_STACK_SIZE) →
  (sep off_sp 4 o l ∨ sep o l off_sp 4) → in_field p o l a → ¬ in_context p a.
Proof.
  unfold sep, in_field, in_context, first_frame, stack_top. change PROC_STACK_SIZE with 2048. lia.
Qed.

(** A process is kept with a new frame by whatever writes its context only. *)
Lemma context_frame k k' t i ws ws' pt :
  heap_ready k' → clean k' → (∀ b, heap_live k b → heap_live k' b) →
  (∀ b a, heap_live k b → inside b a →
     (b = blk (table t) → in_slot (proc_at t i) a ∧ ¬ in_context (proc_at t i) a) →
     load8 (ram k') a = load8 (ram k) a) →
  load32 (ram k') (proc_at t i + off_sp) = first_frame (proc_at t i) →
  saved_frame_at (ram k') (first_frame (proc_at t i)) ws' →
  suspended k t i ws pt → suspended k' t i ws' pt.
Proof.
  intros Hk' Hc' Hup Hsame Hsp' Hfr' [[Hk Hc Ho Hi Hpt Hap Hs] Hst Hpid _ _ Hmap].
  set (p := proc_at t i) in *.
  assert (∀ o l a, 0 ≤ o ∧ o + l ≤ proc_size → (sep off_stack PROC_STACK_SIZE o l ∨ sep o l off_stack PROC_STACK_SIZE) →
    (sep off_sp 4 o l ∨ sep o l off_sp 4) → in_field p o l a → load8 (ram k') a = load8 (ram k) a) as Hfield.
  { intros o l a Hin Hst' Hcell Ha. pose proof (field_in_slot _ _ _ _ Hin Ha) as Ha'.
    apply (Hsame (blk (table t))); [apply Ho|by eapply slot_in_table|]. intros _. split; [done|by eapply context_apart]. }
  destruct (pt_frame k k' pt Hk Hk' Hup Hpt) as (Hpt' & Hblk & Hwalk).
  { intros b a Hb Ha. apply (Hsame b); [by eapply pt_block_live|done|]. by intros ->. }
  split; [split|..]; try done.
  - by eapply owns_frame.
  - by rewrite Hblk.
  - rewrite <- Hs. unfold slot_pt. f_equal; apply fv_load_ext; intros a Ha.
    + apply (Hfield off_root fv_size); [apply field_root|left; apply sep_stack_root|left; apply sep_sp_root|done].
    + apply (Hfield off_second fv_size); [apply field_second|left; apply sep_stack_second|left; apply sep_sp_second|done].
  - unfold is_runnable, state_byte. fold p.
    rewrite (Hfield off_state 1); [exact Hst|apply field_state|left; apply sep_stack_state|left; apply sep_sp_state|].
    unfold in_field. lia.
  - fold p. transitivity (load32 (ram k) (p + off_pid)); [|exact Hpid]. apply load32_ext. intros a Ha.
    apply (Hfield off_pid 4); [apply field_pid|left; apply sep_stack_pid|left; apply sep_sp_pid|done].
  - intros va Hva. rewrite <- Hmap by done. by apply Hwalk.
Qed.

Lemma process_frame k k' t i ws pt :
  heap_ready k' → clean k' → (∀ b, heap_live k b → heap_live k' b) →
  (∀ b a, heap_live k b → inside b a → (b = blk (table t) → in_slot (proc_at t i) a) →
     load8 (ram k') a = load8 (ram k) a) →
  suspended k t i ws pt → suspended k' t i ws pt.
Proof.
  intros Hk' Hc' Hup Hsame Hp. pose proof Hp as [[Hk _ Ho Hi _ _ _] _ _ Hsp Hfr _].
  pose proof field_stack as Hfs. pose proof field_sp.
  assert (∀ a, in_slot (proc_at t i) a → load8 (ram k') a = load8 (ram k) a) as Hslot.
  { intros a Ha. apply (Hsame (blk (table t))); [apply Ho|by eapply slot_in_table|done]. }
  apply (context_frame k k' t i ws); try done.
  - intros b a Hb Ha Hin. apply (Hsame b); [done|done|]. intros Hx. by apply Hin.
  - rewrite <- Hsp at 1. apply load32_ext. intros a Ha. apply Hslot. unfold in_slot. lia.
  - eapply saved_frame_ext; [|exact Hfr]. intros a Ha. apply Hslot.
    unfold in_slot, first_frame, stack_top in *. change PROC_STACK_SIZE with 2048 in *. lia.
Qed.

(** Another process is created. *)
Lemma process_other k k' t i j pc pc' pt pt' :
  process k t i pc pt → created k k' t j pc' pt' → i ≠ j → process k' t i pc pt.
Proof.
  intros Hp Hcr Hne. pose proof (cr_process _ _ _ _ _ _ Hcr) as [[Hk' Hc' Ho' Hj _ _ _] _ _ _ _ _].
  pose proof Hp as [[Hk _ Ho Hi _ _ _] _ _ _ _ _].
  apply (process_frame k); try done; [apply (cr_live _ _ _ _ _ _ Hcr)|].
  intros b a Hb Ha Hin. apply (cr_memory _ _ _ _ _ _ Hcr b); [done|done|]. intros Hs.
  destruct (decide (b = blk (table t))) as [->|Hbt].
  - by apply (slots_apart k t i j a Hk Ho Hi Hj Hne (Hin eq_refl)).
  - apply (live_apart k b (blk (table t)) a); try done; [apply Ho|]. by apply (slot_in_table k t j).
Qed.

(** The heap and memory are the same. *)
Definition agrees (k k' : Kernel) : Prop := MEMORY k' = MEMORY k ∧ ram k' = ram k.

Lemma clean_agrees k k' : agrees k k' → clean k → clean k'.
Proof.
  intros [Hm Hr] Hc a Ha Hfree. destruct (heap_frame k k' Hm) as (_ & _ & Hlive & Hreg). rewrite Hr.
  apply Hc; [by apply Hreg|]. intros b Hb. by apply Hfree, Hlive.
Qed.

Lemma process_agrees k k' t i ws pt : agrees k k' → suspended k t i ws pt → suspended k' t i ws pt.
Proof.
  intros Hag Hp. pose proof Hag as [Hm Hr]. destruct (heap_frame k k' Hm) as (_ & Hready & Hlive & _).
  pose proof (pr_table _ _ _ _ _ Hp) as Ht. apply (process_frame k); try done.
  - apply Hready, Ht.
  - eapply clean_agrees; [exact Hag|apply Ht].
  - intros b. apply Hlive.
  - intros b a _ _ _. by rewrite Hr.
Qed.

Lemma is_unused_agrees k k' t i : agrees k k' → is_unused k t i → is_unused k' t i.
Proof. intros [_ Hr]. unfold is_unused, state_byte. by rewrite Hr. Qed.

Lemma agrees_sym k k' : agrees k k' → agrees k' k.
Proof. by intros []. Qed.

Lemma table_ready_agrees k k' t : agrees k k' → table_ready k t → table_ready k' t.
Proof.
  intros Hag [Hk Hc Ho He Hcap]. pose proof Hag as [Hm Hr].
  destruct (heap_frame k k' Hm) as (Hcap' & Hready & Hlive & _). split.
  - by apply Hready.
  - by apply (clean_agrees k).
  - eapply owns_frame; [|exact Ho]. intros b. apply Hlive.
  - intros i Hi Hu. unfold slot_empty. rewrite (slot_pt_ext k k'); [|intros a _; by rewrite Hr].
    apply He; [done|]. by apply (is_unused_agrees k'); [apply agrees_sym|].
  - by rewrite Hcap'.
Qed.

Lemma created_agrees k1 k2 k1' k2' t i pc pt :
  agrees k1 k1' → agrees k2 k2' → (∃ r m, k2' = set_ram r (set_MEMORY m k1')) →
  created k1 k2 t i pc pt → created k1' k2' t i pc pt.
Proof.
  intros [Hm1 Hr1] Hag2 Honly [Hp Hmem Hup Hcap Hsp Hreg _]. pose proof Hag2 as [Hm2 Hr2].
  destruct (heap_frame k1 k1' Hm1) as (Hcap1 & _ & Hlive1 & Hreg1).
  destruct (heap_frame k2 k2' Hm2) as (Hcap2 & _ & Hlive2 & Hreg2). split; [by eapply process_agrees|..|done].
  - intros b a Hb Ha Hs. rewrite Hr1, Hr2. by apply (Hmem b); [apply Hlive1|..].
  - intros b Hb. by apply Hlive2, Hup, Hlive1.
  - congruence.
  - apply (spends_upto_before k1' k1); [done|]. by apply (spends_upto_after k1 _ k2).
  - intros a. by rewrite Hreg2, Hreg, Hreg1.
Qed.

(** Filling slot [i] leaves the other slots' states as they are. *)
Lemma created_unused k k' t i pc pt j :
  table_ready k t → created k k' t i pc pt → 0 ≤ j < PROC_MAX → j ≠ i → is_unused k t j → is_unused k' t j.
Proof.
  intros Hr Hcr Hj Hne Hu. pose proof field_state. unfold is_unused, state_byte in *. rewrite <- Hu.
  apply (created_other k k' t i pc pt j); try done. unfold in_slot. lia.
Qed.

Lemma next_unused_least k t i :
  owns k proc_size PROC_MAX (table t) → 0 ≤ i < PROC_MAX → is_unused k t i →
  (∀ j, 0 ≤ j < i → ¬ is_unused k t j) → next_unused t k = Ret (Some i) k.
Proof.
  intros Ho Hi Hu Hlow. destruct (next_unused_run k t Ho) as ([j|] & Hrun & Hj).
  - destruct Hj as (Hj & Huj & Hlowj). destruct (Z.lt_trichotomy i j) as [Hlt|[->|Hlt]]; [|done|].
    + by destruct (Hlowj i); [lia|].
    + by destruct (Hlow j); [lia|].
  - by destruct (Hj i Hi).
Qed.

(** [proc::new] on a table that is set up: the lowest unused slot is filled, and the
    table is free again. *)
Lemma proc_new_run k t pc i :
  sched_ok k t → table_ready k t → linker_ok → ld_kernel_base ≤ ld_free_ram_end → word pc →
  0 ≤ i < PROC_MAX → is_unused k t i → (∀ j, 0 ≤ j < i → ¬ is_unused k t j) →
  (∃ pt k', proc_new pc k = Ret tt k' ∧ created k k' t i pc pt ∧ sched_ok k' t ∧ table_ready k' t) ∨
  (∃ msg k', proc_new pc k = Panic msg k' ∧ starved k create_cost k').
Proof.
  intros [Hcell Ho Hcur] Hr Hl Hld Hpc Hi Hu Hlow. set (k1 := set_PROC_TABLE (held t) k).
  assert (agrees k k1) as Hag by done. pose proof (table_ready_agrees _ _ _ Hag Hr) as Hr1.
  pose proof (next_unused_least k1 t i (tr_owns _ _ Hr1) Hi Hu Hlow) as Hnext.
  unfold proc_new. erewrite bind_Ret by by apply table_lock_run. fold k1.
  destruct (create_run k1 t pc i Hr1 Hl Hpc Hnext Hi Hu Hld) as [(pt & k2 & Hrun & Hcr)|(msg & k2 & Hrun & Hst)].
  2:{ right. exists msg, k2. rewrite (bind_Panic _ _ _ _ _ Hrun). split; [done|]. by apply (starved_before k k1). }
  left. set (k' := set_PROC_TABLE (ready t) k2). exists pt, k'. pose proof (cr_only _ _ _ _ _ _ Hcr) as (r & m & Hk2).
  assert (created k k' t i pc pt) as Hcr'.
  { apply (created_agrees k1 k2); [done|done| |done]. exists r, m. unfold k'. rewrite Hk2.
    destruct k as [? ? ? ?]. simpl in Hcell. by subst. }
  split_and!; [|done| |exact (created_ready _ _ _ _ _ _ Hr Hcr')].
  - erewrite bind_Ret by exact Hrun. apply table_unlock_run. by rewrite Hk2.
  - split; [done| |done]. apply (cr_process _ _ _ _ _ _ Hcr').
Qed.

(** With room for a process it succeeds. *)
Lemma proc_new_room k t pc i f :
  sched_ok k t → table_ready k t → linker_ok → ld_kernel_base ≤ ld_free_ram_end → word pc →
  0 ≤ i < PROC_MAX → is_unused k t i → (∀ j, 0 ≤ j < i → ¬ is_unused k t j) →
  heap_room k f → create_cost ≤ f →
  ∃ pt k' f', proc_new pc k = Ret tt k' ∧ created k k' t i pc pt ∧ sched_ok k' t ∧ table_ready k' t ∧
    f - create_cost ≤ f' ∧ heap_room k' f'.
Proof.
  intros Hs Hr Hl Hld Hpc Hi Hu Hlow Hf Hcost.
  destruct (proc_new_run k t pc i) as [(pt & k' & Hrun & Hcr & Hs' & Hr')|(msg & k' & _ & Hst)]; try done.
  - destruct (spends_upto_room _ _ _ _ Hf (cr_spends _ _ _ _ _ _ Hcr)) as (f' & Hle & Hf').
    by exists pt, k', f'.
  - pose proof (starved_room _ _ _ _ Hf Hst). lia.
Qed.

Lemma process_used k t i pc pt : process k t i pc pt → ¬ is_unused k t i.
Proof. intros Hp Hu. pose proof (pr_state _ _ _ _ _ Hp) as Hr. unfold is_runnable, is_unused in *. by rewrite Hr in Hu. Qed.

(** The first three processes. *)
Lemma new_three k t f pc0 pc1 pc2 :
  sched_ok k t → table_ready k t → linker_ok → ld_kernel_base ≤ ld_free_ram_end →
  word pc0 → word pc1 → word pc2 → (∀ i, 0 ≤ i < PROC_MAX → is_unused k t i) →
  heap_room k f → 3 * create_cost ≤ f →
  ∃ k' pt0 pt1 pt2, (proc_new pc0;;! proc_new pc1;;! proc_new pc2) k = Ret tt k' ∧
    process k' t 0 pc0 pt0 ∧ process k' t 1 pc1 pt1 ∧ process k' t 2 pc2 pt2 ∧
    (∀ i, 3 ≤ i < PROC_MAX → is_unused k' t i) ∧ sched_ok k' t ∧ table_ready k' t ∧
    (∀ a, heap_region k' a ↔ heap_region k a) ∧ ∃ r m, k' = set_ram r (set_MEMORY m k).
Proof.
  intros Hs Hr Hl Hld Hp0 Hp1 Hp2 Hun Hf Hcost. assert (PROC_MAX = 8) as HP by done.
  pose proof create_cost_ge as Hcc. assert (0 ≤ new_cost) as Hnc by (unfold new_cost, block_size; pose proof (pow2_pos (order_of (1024 * fv_size))); lia).
  destruct (proc_new_room k t pc0 0 f) as (pt0 & k1 & f1 & Hrun1 & Hcr1 & Hs1 & Hr1 & Hle1 & Hf1); try done; try lia.
  { apply Hun. lia. }
  pose proof (cr_process _ _ _ _ _ _ Hcr1) as P0. pose proof (process_used _ _ _ _ _ P0) as U0.
  destruct (proc_new_room k1 t pc1 1 f1) as (pt1 & k2 & f2 & Hrun2 & Hcr2 & Hs2 & Hr2 & Hle2 & Hf2); try done; try lia.
  { apply (created_unused k k1 t 0 pc0 pt0); [done..| | |apply Hun]; lia. }
  { intros j Hj. by assert (j = 0) as -> by lia. }
  pose proof (cr_process _ _ _ _ _ _ Hcr2) as P1.
  pose proof (process_other _ _ _ _ _ _ _ _ _ P0 Hcr2 ltac:(done)) as P0'.
  assert (∀ i, 2 ≤ i < PROC_MAX → is_unused k2 t i) as Hun2.
  { intros i Hi. apply (created_unused k1 k2 t 1 pc1 pt1); [done..|lia|lia|].
    apply (created_unused k k1 t 0 pc0 pt0); [done..|lia|lia|]. apply Hun. lia. }
  destruct (proc_new_room k2 t pc2 2 f2) as (pt2 & k3 & f3 & Hrun3 & Hcr3 & Hs3 & Hr3 & _); try done; try lia.
  { apply Hun2. lia. }
  { intros j Hj. assert (j = 0 ∨ j = 1) as [-> | ->] by lia; by eapply process_used. }
  exists k3, pt0, pt1, pt2. split_and!; try done.
  - erewrite bind_Ret by exact Hrun1. by erewrite bind_Ret by exact Hrun2.
  - by eapply process_other.
  - by eapply process_other.
  - apply (cr_process _ _ _ _ _ _ Hcr3).
  - intros i Hi. apply (created_unused k2 k3 t 2 pc2 pt2); [done..|lia|lia|]. apply Hun2. lia.
  - intros a. by rewrite (cr_region _ _ _ _ _ _ Hcr3), (cr_region _ _ _ _ _ _ Hcr2), (cr_region _ _ _ _ _ _ Hcr1).
  - destruct (cr_only _ _ _ _ _ _ Hcr3) as (r3 & m3 & ->), (cr_only _ _ _ _ _ _ Hcr2) as (r2 & m2 & ->),
      (cr_only _ _ _ _ _ _ Hcr1) as (r1 & m1 & ->). by exists r3, m3.
Qed.
End new.
