(* ===== verification/Switch.v ===== *)
(** * A call of [give_up] from one process to another.

    [giveup_resumes]: the chosen process goes on where its frame says, on its own
    stack and page table.  The process that called is suspended ([switched_saved])
    and every other one is kept ([switched_process]). *)
From S2P Require Import Prelude Ram Addr BuddySpec Sync Machine Kernel FixedVec Vm Sv32 PageTable VmSpec Context Proc ProcSpec ProcCreate Sched ProcNew.

Section switch.
Context `{HeapSpec, Layout, !LayoutOk, ProcLayout, !ProcLayoutOk, Linker, Symbols}.

(** The table with another current process. *)
Definition with_current (t : ProcTable) (i : Z) : ProcTable := mkProcTable (table t) i.

Lemma process_current k t i ws pt c : suspended k t i ws pt → suspended k (with_current t c) i ws pt.
Proof. intros [[? ? ? ? ? ? ?] ? ? ? ? ?]. by split; [split|..]. Qed.

Lemma word_set r v m r' : word v → word (regs m r') → word (regs (set_reg r v m) r').
Proof. intros Hv Hr. simpl. unfold fn_set. by case_decide. Qed.

(** ** The switch away from the boot stack *)

(** The hart at the first [give_up]. *)
Lemma switching_words k t next :
  sched_ok k t → heap_ready k → 0 ≤ next < PROC_MAX → word sym_switch_return → word_regs (cpu k) →
  word_regs (switching k t next) ∧
  regs (switching k t next) SP = regs (cpu k) SP ∧
  regs (switching k t next) A0 = sp_as_mut_ptr (proc_at t (curr_proc_idx t)) ∧
  regs (switching k t next) A1 = sp_as_mut_ptr (proc_at t next) ∧ m_ram (switching k t next) = ram k.
Proof.
  intros [_ Ho Hc] Hk Hn Hret Hw. pose proof field_sp as Hf. pose proof proc_size_ok.
  destruct (slot_bounds k t next Hk Ho Hn) as [? ?]. destruct (slot_bounds k t _ Hk Ho Hc) as [? ?].
  split_and!; try done. intros r. unfold switching. apply word_set; [exact Hret|].
  destruct (decide (r = A1)) as [->|H1']; [rewrite set_reg_eq; unfold word, sp_as_mut_ptr; lia|].
  rewrite set_reg_ne by congruence. destruct (decide (r = A0)) as [->|H0'];
    [rewrite set_reg_eq; unfold word, sp_as_mut_ptr; lia|].
  rewrite set_reg_ne by congruence. apply Hw.
Qed.

(** The stack frame of the caller lies in its own slot or outside the heap. *)
Definition frame_private (k : Kernel) (t : ProcTable) : Prop :=
  ∀ a, regs (cpu k) SP - 52 ≤ a < regs (cpu k) SP →
    in_slot (proc_at t (curr_proc_idx t)) a ∨ ¬ heap_region k a.

(** What a switch writes lies there too. *)
Lemma switch_private k t next a :
  sched_ok k t → heap_ready k → frame_private k t → switch_writes (switching k t next) a →
  in_slot (proc_at t (curr_proc_idx t)) a ∨ ¬ heap_region k a.
Proof.
  intros [_ Ho Hc] Hk Hp [Ha|Ha].
  { apply Hp. unfold frame_of in Ha. change (regs (switching k t next) SP) with (regs (cpu k) SP) in Ha. lia. }
  left. pose proof field_sp.
  change (regs (switching k t next) A0) with (proc_at t (curr_proc_idx t) + off_sp) in Ha. unfold in_slot. lia.
Qed.

Lemma switch_spares k t next a :
  sched_ok k t → heap_ready k → frame_private k t → 0 ≤ next < PROC_MAX → next ≠ curr_proc_idx t →
  in_slot (proc_at t next) a → ¬ switch_writes (switching k t next) a.
Proof.
  intros Hs Hk Hp Hn Hne Ha Hwr. pose proof Hs as [_ Ho Hcur].
  destruct (switch_private k t next a Hs Hk Hp Hwr) as [Ha'|Ha'].
  - by apply (slots_apart k t next _ a Hk Ho Hn Hcur Hne Ha).
  - apply Ha', (heap_live_region k (blk (table t))); [done|apply Ho|exact (slot_in_table k t next a Hk Ho Hn Ha)].
Qed.

(** The top of a stack is an address: another slot follows. *)
Lemma stack_top_word k t i :
  heap_ready k → owns k proc_size PROC_MAX (table t) → 0 ≤ i < PROC_MAX - 1 → stack_top (proc_at t i) < USIZE_MOD.
Proof.
  intros Hk Ho Hi. destruct (slot_bounds k t (i + 1) Hk Ho ltac:(lia)) as [_ Hend].
  pose proof field_stack. pose proof proc_size_ok.
  destruct (element_owned k proc_size PROC_MAX (table t) i Hk Ho ltac:(lia) ltac:(lia)) as (He1 & _).
  destruct (element_owned k proc_size PROC_MAX (table t) (i + 1) Hk Ho ltac:(lia) ltac:(lia)) as (He2 & _).
  unfold stack_top, proc_at in *. lia.
Qed.

(** ** Resuming *)

(** What [give_up] does when it switches to [next], suspended with the frame [ws]
    and the page table [pt]. *)
Record switched (k : Kernel) (t : ProcTable) (next : Z) (ws : list Z) (pt : PageTable) (k' : Kernel) : Prop := {
  sw_table : PROC_TABLE k' = ready (with_current t next);
  sw_pc : Some (Machine.pc (cpu k')) = ws !! 0%nat;
  sw_sp : regs (cpu k') SP = stack_top (proc_at t next);
  sw_regs j r w : switch_regs !! j = Some r → ws !! j = Some w → regs (cpu k') r = w;
  sw_words : word_regs (cpu k');
  sw_satp : csrs (cpu k') SATP = Z.lor SATP_SV32 (PageTable_root_pt_addr pt / PAGE_SIZE);
  sw_sscratch : csrs (cpu k') SSCRATCH = stack_top (proc_at t next);
  sw_stvec : csrs (cpu k') STVEC = csrs (cpu k) STVEC;
  sw_memory : MEMORY k' = MEMORY k;
  sw_ecalls : ecalls k' = ecalls k;
  sw_ram : ram k' = saved_ram (switching k t next);
}.

Lemma resumed_words m m' ws :
  word_regs m → word (regs m' SP) → length ws = 13%nat → Forall word ws →
  (∀ j r w, switch_regs !! j = Some r → ws !! j = Some w → regs m' r = w) →
  (∀ r, r ∉ SP :: switch_regs → regs m' r = regs m r) → word_regs m'.
Proof.
  intros Hw Hsp Hlen Hws Hin Hother r. destruct (decide (r ∈ SP :: switch_regs)) as [Hr|Hr].
  - apply elem_of_cons in Hr as [->|Hr]; [done|]. apply list_elem_of_lookup in Hr as [j Hj].
    destruct (lookup_lt_is_Some_2 ws j) as [w Hwj].
    { apply lookup_lt_Some in Hj. by rewrite Hlen. }
    rewrite (Hin j r w Hj Hwj). by apply (proj1 (Forall_lookup _ _) Hws j).
  - rewrite Hother by done. apply Hw.
Qed.

Lemma giveup_resumes k t next ws pt :
  sched_ok k t → frame_private k t → chosen k t next → suspended k t next ws pt → word sym_switch_return →
  next ≠ curr_proc_idx t → next < PROC_MAX - 1 → word_regs (cpu k) → 52 ≤ regs (cpu k) SP →
  ∃ k', proc_giveup k = Ret tt k' ∧ switched k t next ws pt k'.
Proof.
  intros Hs Hp Hch Hpr Hret Hne Hlt Hw Hsp. pose proof Hs as [_ Ho Hcur].
  pose proof (pr_table _ _ _ _ _ Hpr) as [Hk _ _ Hi _ _ Hslot].
  destruct (pr_frame _ _ _ _ _ Hpr) as (Hlen & Hws & _).
  destruct (switching_words k t next Hs Hk Hi Hret Hw) as (Hw' & HSP & _ & HA1 & Hram).
  destruct (giveup_returns k t Hs) as (next' & m & Hch' & Hrun & Hgive).
  rewrite (chosen_unique _ _ _ _ Hch' Hch) in Hrun, Hgive.
  pose proof (stack_top_word k t next Hk Ho ltac:(lia)) as Htop.
  destruct (resume_switch k t next ws pt (switching k t next) Hpr Hram Hw' ltac:(by rewrite HSP) HA1 Htop
    ltac:(intros a; by apply switch_spares)) as (m' & Hrun' & Hpc' & HSP' & Hregs & Hother & Hcsr & Hmem).
  rewrite Hrun in Hrun'. injection Hrun' as <-. eexists. split; [exact Hgive|].
  assert (word (regs m SP)) as HwSP.
  { rewrite HSP'. destruct (slot_bounds k t next Hk Ho Hi). pose proof field_stack. unfold word.
    unfold stack_top in *. change PROC_STACK_SIZE with 2048 in *. lia. }
  split; cbn [cpu set_cpu PROC_TABLE MEMORY ecalls set_PROC_TABLE];
    [reflexivity| |exact HSP'|exact Hregs| |rewrite Hcsr..|reflexivity|reflexivity|exact Hmem].
  - destruct (lookup_lt_is_Some_2 ws 0) as [w Hw0]; [lia|]. rewrite Hw0, Hpc'. f_equal. by apply (Hregs 0%nat).
  - by apply (resumed_words (switching k t next) m ws).
  - unfold switching. cbn [csrs set_reg set_csr]. unfold fn_set. rewrite decide_False, decide_True by done.
    by rewrite Hslot.
  - reflexivity.
  - reflexivity.
Qed.

(** ** What is kept *)

Section kept.
Context {k k' : Kernel} {t : ProcTable} {next : Z} {ws : list Z} {pt : PageTable}.
Context (Hsched : sched_ok k t) (Hready : heap_ready k) (Hclean : clean k) (Hpriv : frame_private k t)
  (Hnext : 0 ≤ next < PROC_MAX) (Hswitched : switched k t next ws pt k').

(** A byte of a block outside the slot of the caller. *)
Lemma switched_byte b a :
  heap_live k b → inside b a → (b = blk (table t) → ¬ in_slot (proc_at t (curr_proc_idx t)) a) →
  load8 (ram k') a = load8 (ram k) a.
Proof.
  intros Hb Ha Hin. pose proof Hsched as [_ Ho Hcur]. rewrite (sw_ram _ _ _ _ _ _ Hswitched).
  rewrite saved_ram_other; [done|]. intros [Hs1|Hs1]%switch_private; try done.
  - destruct (decide (b = blk (table t))) as [->|Hbt]; [by apply Hin|].
    apply (live_apart k b (blk (table t)) a); try done; [apply Ho|]. exact (slot_in_table k t _ a Hready Ho Hcur Hs1).
  - apply Hs1. by eapply heap_live_region.
Qed.

Lemma switched_heap :
  heap_ready k' ∧ clean k' ∧ (∀ b, heap_live k b → heap_live k' b) ∧ sched_ok k' (with_current t next).
Proof.
  pose proof Hsched as [_ Ho Hcur]. destruct (heap_frame k k' (sw_memory _ _ _ _ _ _ Hswitched)) as (_ & Hr & Hlive & Hreg).
  split_and!; [by apply Hr| |by intros b Hb; apply Hlive|].
  - intros a Ha Hfree. rewrite (sw_ram _ _ _ _ _ _ Hswitched), saved_ram_other.
    + apply Hclean; [by apply Hreg|]. intros b Hb. by apply Hfree, Hlive.
    + intros [Hs1|Hs1]%switch_private; try done; [|by apply Hs1, Hreg].
      apply (Hfree (blk (table t))); [apply Hlive, Ho|exact (slot_in_table k t _ a Hready Ho Hcur Hs1)].
  - split; [apply Hswitched| |].
    + eapply owns_frame; [|exact Ho]. intros b Hb. by apply Hlive.
    + exact Hnext.
Qed.

(** Every process but the caller's. *)
Lemma switched_process i ws' pt' :
  i ≠ curr_proc_idx t → suspended k t i ws' pt' → suspended k' (with_current t next) i ws' pt'.
Proof.
  intros Hne Hpr. apply process_current. pose proof Hsched as [_ Ho Hcur].
  pose proof (ht_index _ _ _ _ (pr_table _ _ _ _ _ Hpr)) as Hi.
  destruct switched_heap as (Hr & Hc & Hlive & _). apply (process_frame k); try done.
  intros b a Hb Ha Hin. apply (switched_byte b); [done|done|]. intros Hbt.
  by apply (slots_apart k t i _ a Hready Ho Hi Hcur Hne), Hin.
Qed.

(** The caller, if it runs on its own empty stack: the frame holds its registers. *)
Lemma switched_saved ws' pt' :
  word sym_switch_return → word_regs (cpu k) →
  regs (cpu k) SP = stack_top (proc_at t (curr_proc_idx t)) → suspended k t (curr_proc_idx t) ws' pt' →
  suspended k' (with_current t next) (curr_proc_idx t) (map (regs (switching k t next)) switch_regs) pt'.
Proof.
  intros Hret Hw HSP Hpr. apply process_current. pose proof Hsched as [_ Ho Hcur].
  destruct (switching_words k t next Hsched Hready Hnext Hret Hw) as (Hw' & HSP' & HA0 & _ & Hram).
  set (p := proc_at t (curr_proc_idx t)) in *. set (m := switching k t next) in *.
  destruct switched_heap as (Hr & Hc & Hlive & _).
  pose proof field_stack. pose proof field_sp. pose proof sep_stack_sp as Hsep. unfold sep in Hsep.
  destruct (slot_bounds k t _ Hready Ho Hcur) as [Hp0 Hp1]. fold p in Hp0, Hp1.
  assert (frame_of m = first_frame p ∧ first_frame p + 52 = stack_top p ∧ 52 ≤ regs m SP) as (Hf & Hf' & Hge).
  { unfold frame_of, first_frame. rewrite HSP', HSP. unfold stack_top. change PROC_STACK_SIZE with 2048 in *. lia. }
  pose proof (sw_ram _ _ _ _ _ _ Hswitched) as Hmem. fold m in Hmem.
  apply (context_frame k k' t _ ws'); try done.
  - intros b a Hb Ha Hin. destruct (decide (b = blk (table t))) as [->|Hbt].
    + destruct (Hin eq_refl) as [_ Hctx]. rewrite Hmem, saved_ram_other; [by rewrite Hram|].
      intros [Hx|Hx]; apply Hctx; [left; rewrite Hf in Hx; fold p; lia|right; rewrite HA0 in Hx; exact Hx].
    + by apply (switched_byte b).
  - fold p. rewrite Hmem, <- Hf. replace (p + off_sp) with (regs m A0) by done. by apply saved_cell.
  - fold p. rewrite Hmem, <- Hf. split_and!; [done| |].
    + apply Forall_map, Forall_true. intros r. apply Hw'.
    + apply saved_frame; [done|]. unfold cell_apart. rewrite HA0, Hf. unfold sp_as_mut_ptr.
      unfold first_frame, stack_top in *. change PROC_STACK_SIZE with 2048 in *. lia.
Qed.
End kept.

(** The states of all slots survive the switch. *)
Lemma switched_state k t next k' i :
  sched_ok k t → heap_ready k →
  (∀ a, regs (cpu k) SP - 52 ≤ a < regs (cpu k) SP → ¬ heap_region k a) →
  (∀ a, ¬ switch_writes (switching k t next) a → load8 (ram k') a = load8 (ram k) a) →
  0 ≤ i < PROC_MAX → state_byte k' (with_current t next) i = state_byte k t i.
Proof.
  intros [_ Ho Hc] Hk Hp Hsame Hi. unfold state_byte. apply Hsame.
  pose proof field_sp. pose proof field_state. pose proof sep_sp_state as Hsep. unfold sep in Hsep.
  assert (in_slot (proc_at t i) (proc_at t i + off_state)) as Hin by (unfold in_slot; lia).
  intros [Ha|Ha].
  - apply (Hp (proc_at t i + off_state)).
    + unfold frame_of in Ha. change (regs (switching k t next) SP) with (regs (cpu k) SP) in Ha. lia.
    + apply (heap_live_region k (blk (table t))); [done|apply Ho|exact (slot_in_table k t i _ Hk Ho Hi Hin)].
  - change (regs (switching k t next) A0) with (proc_at t (curr_proc_idx t) + off_sp) in Ha.
    destruct (decide (i = curr_proc_idx t)) as [->|Hne]; [lia|].
    apply (slots_apart k t i _ _ Hk Ho Hi Hc Hne Hin). unfold in_slot. lia.
Qed.

End switch.
