(* ===== verification/Console.v ===== *)
(** * The console: src/rust/src/sbi.rs and the printing macros of
    src/rust/src/macros.rs.

    The firmware is not part of the kernel: it answers a call with an error code
    and a value, as a function of the calls made so far.  Text is a list of
    Unicode scalar values; formatted arguments are text already. *)
From S2P Require Import Prelude Ram Sync Machine Kernel.

Class Firmware : Type := firmware : list Ecall → Ecall → Z * Z.

Section console.
Context `{Firmware}.

Definition sbi_call (arg0 arg1 arg2 arg3 arg4 arg5 fid eid : Z) : M Kernel (result Z Z) :=
  let! log := gets ecalls in
  let call := mkEcall [arg0; arg1; arg2; arg3; arg4; arg5] fid eid in
  let answer := firmware log call in
  modify (set_ecalls (log ++ [call]));;!
  ret (if answer.1 =? 0 then Ok answer.2 else Err answer.1).

(** The console extension is number 1; the answer is dropped. *)
Definition putchar (ch : Z) : M Kernel () := sbi_call ch 0 0 0 0 0 0 1;;! ret tt.

(** [Writer::write_str]. *)
Fixpoint write_str (s : list Z) : M Kernel () :=
  match s with
  | [] => ret tt
  | ch :: s => putchar ch;;! write_str s
  end.

(** A string literal as text. *)
Definition text (s : string) : list Z :=
  map (λ c, Z.of_nat (Ascii.nat_of_ascii c)) (String.list_ascii_of_string s).

Definition print (s : list Z) : M Kernel () := write_str s.
Definition println (s : list Z) : M Kernel () := print (s ++ [10]).

(** The [panic!] macro of macros.rs: a message, then [wfi] for ever. *)
Definition panic_macro {A} (file : list Z) (line : list Z) (msg : list Z) : M Kernel A :=
  print (text "PANIC: " ++ file ++ text ":" ++ line ++ text ": " ++ msg);;!
  hang.

(** The kernel's [#[panic_handler]], where the panics of the standard library end. *)
Definition panic_handler {A} (info : list Z) : M Kernel A :=
  panic_macro (text "src/kernel.rs") (text "19") info.

(** [Display] of the [PanicInfo] of a panic of the standard library: the place, and on
    the next line the message. *)
Definition PanicInfo_fmt (file line column : string) (msg : list Z) : list Z :=
  text "panicked at " ++ text file ++ text ":" ++ text line ++ text ":" ++ text column ++ text ":" ++ [10] ++ msg.

(** Code whose panic is [core]'s at this place, as the hart runs it: the macro of
    macros.rs is meant only where it is imported ([use crate::panic]), and [core::panic!]
    goes through the handler. *)
Definition core_panics_at {A} (file line column : string) (m : M Kernel A) : M Kernel A := λ k,
  match m k with
  | Panic msg k' => panic_handler (PanicInfo_fmt file line column (text msg)) k'
  | r => r
  end.

(** ** What reaches the firmware *)

Definition putchar_call (ch : Z) : Ecall := mkEcall [ch; 0; 0; 0; 0; 0] 0 1.

Lemma write_str_run s k :
  write_str s k = Ret tt (set_ecalls (ecalls k ++ map putchar_call s) k).
Proof.
  revert k. induction s as [|ch s IH]; intros k; cbn [write_str map].
  - rewrite app_nil_r. by destruct k.
  - unfold putchar at 1, sbi_call, bind at 1. unfold bind, gets, modify, ret. rewrite IH.
    cbn [ecalls set_ecalls]. by rewrite <- app_assoc.
Qed.

Lemma print_run s k : print s k = Ret tt (set_ecalls (ecalls k ++ map putchar_call s) k).
Proof. apply write_str_run. Qed.

(** [panic!] prints where it was and why, and does not come back. *)
Lemma panic_macro_run {A} file line msg k :
  @panic_macro A file line msg k =
  Hang (set_ecalls (ecalls k ++ map putchar_call (text "PANIC: " ++ file ++ text ":" ++ line ++ text ": " ++ msg)) k).
Proof. unfold panic_macro. by erewrite bind_Ret by apply print_run. Qed.
End console.
