(* ===== verification/Boot.v ===== *)
(** * Booting: src/rust/src/kernel.rs, with the memory map of src/rust/kernel.ld. *)
From S2P Require Import Prelude Ram Addr Buddy BuddyTree BuddyRefine BuddyLoops BuddyInv BuddySpec BuddyRoom MemInit Sync Machine Kernel Heap FixedVec Vm Sv32 PageTable VmSpec Context Proc ProcSpec ProcCreate Sched ProcNew Console.

Section boot.
Context `{Profile, Layout, ProcLayout, Linker, Symbols, Firmware}.

(** [write_bytes(0, end.offset_from(start))] on two linker symbols. *)
Definition zero_region (start end_ : Z) : M Kernel () :=
  modify (λ k, set_ram (write_bytes start 0 (wrap (end_ - start)) (ram k)) k).

(** The three regions, and the two subsystems. *)
Definition kernel_setup : M Kernel () :=
  zero_region ld_bss ld_bss_end;;!
  zero_region ld_allocator_mem ld_allocator_mem_end;;!
  zero_region ld_free_ram ld_free_ram_end;;!
  mem_init ld_free_ram ld_free_ram_end ld_allocator_mem ld_allocator_mem_end;;!
  proc_init.

(** [kernel_init]; [hart_text] is the hart number as text. *)
Definition kernel_init (hart_id : Z) (hart_text : list Z) : M Kernel () :=
  zoom cpu set_cpu (write_csr STVEC sym_trap_entry);;!
  if negb (hart_id =? 0) then
    println (text "hart_id:" ++ hart_text);;!
    hang
  else kernel_setup.

(** [kernel_main] up to the switch its [give_up] makes, and what follows when the
    idle process, which is this code, is switched to again. *)
Definition kernel_main (hart_id : Z) (hart_text : list Z) : M Kernel () :=
  kernel_init hart_id hart_text;;!
  println (text "Hello, World!");;!
  proc_new 0;;!
  proc_new sym_proc_a_entry;;!
  proc_new sym_proc_b_entry;;!
  proc_giveup.
Definition kernel_main_resumed : M Kernel () := panic "switched to idle proc".

(** [boot], the entry point: the arguments go to [a0] and [a1], the stack pointer to
    the top of the boot stack, and [kernel_main] runs.  The frames the compiler lays
    out on that stack are not modelled. *)
Definition boot (hart_id dtb_addr : Z) (hart_text : list Z) : M Kernel () :=
  modify (λ k, set_cpu (set_reg SP ld_stack_top (set_reg A1 dtb_addr (set_reg A0 hart_id (cpu k)))) k);;!
  kernel_main hart_id hart_text.

Definition delay : M Kernel () := for_range (Z.to_nat 10000000) 0 (λ _, ret tt).
Lemma delay_run k : delay k = Ret tt k.
Proof. by apply for_range_id. Qed.

(** The loops of [proc_a_entry] and [proc_b_entry] from one switch to the next: a
    process that is [resumed] first finishes its round. *)
Definition proc_a_round (resumed : bool) : M Kernel () :=
  (if resumed then delay else ret tt);;! print (text "a");;! proc_giveup.
Definition proc_b_round (resumed : bool) : M Kernel () :=
  (if resumed then delay else ret tt);;! print (text "b");;! proc_giveup.
End boot.

(** ** What [kernel_init] establishes *)

Section boot_spec.
Context `{Profile, Layout, !LayoutOk, ProcLayout, !ProcLayoutOk, Linker, Symbols, Firmware}.

(** The memory map: regions that fit, in the order of the linker script, and room
    for a process table and a page table. *)
Record boot_ok (D : nat) : Prop := {
  bo_regions : regions_ok ld_free_ram ld_free_ram_end ld_allocator_mem ld_allocator_mem_end D;
  bo_start : 0 < ld_free_ram;
  bo_page : (PAGE_SIZE | ld_free_ram);
  bo_order : ld_allocator_mem_end ≤ ld_free_ram;
  bo_procs : PROC_MAX * proc_size ≤ pow2 (D + 12);
  bo_tables : 1024 * fv_size ≤ pow2 (D + 12);
}.

(** Free RAM reads as zero once the regions are cleared and the allocator is set up. *)
Lemma cleared k D r a :
  boot_ok D → init_ram ld_allocator_mem ld_allocator_mem_end (node_count (ld_free_ram_end - ld_free_ram))
    (ram (set_ram (write_bytes ld_free_ram 0 (wrap (ld_free_ram_end - ld_free_ram)) (ram k)) k)) r →
  ld_free_ram ≤ a < ld_free_ram + pow2 (D + 12) → load8 r a = 0.
Proof.
  intros [[_ Hs He [Hsz _] _ _ Hfit] _ _ Hord _ _] Hr Ha.
  assert (0 ≤ node_count (ld_free_ram_end - ld_free_ram)) as Hn.
  { pose proof (node_count_pos _ _ Hsz). pose proof (pow2_pos D). lia. }
  rewrite Hr. rewrite decide_False.
  2:{ unfold init_bytes in Hfit. pose proof (div_ceil_bounds _ Hn).
      set (n := node_count (ld_free_ram_end - ld_free_ram)) in *.
      pose proof (div_ceil_bounds (n * 4) ltac:(lia)).
      unfold PAGE_SIZE in *. lia. }
  rewrite decide_False by lia. cbn [ram set_ram set_cpu cpu m_ram set_m_ram].
  rewrite load8_write_bytes. rewrite decide_True; [done|].
  unfold wrap. rewrite Z.mod_small; lia.
Qed.

(** [mem::init] on the cleared regions. *)
Lemma boot_heap D k :
  boot_ok D → MEMORY k = OnceCell_new →
  ∃ r, mem_init ld_free_ram ld_free_ram_end ld_allocator_mem ld_allocator_mem_end
        (set_ram (write_bytes ld_free_ram 0 (wrap (ld_free_ram_end - ld_free_ram)) (ram k)) k) =
      Ret tt (set_MEMORY (ready (fresh_memory ld_free_ram ld_free_ram_end D)) (set_ram r k)) ∧
    ∀ a, ld_free_ram ≤ a < ld_free_ram + pow2 (D + 12) → load8 r a = 0.
Proof.
  intros Hb Hk. set (k1 := set_ram (write_bytes ld_free_ram 0 (wrap (ld_free_ram_end - ld_free_ram)) (ram k)) k).
  destruct (mem_init_run _ _ _ _ D k1 (bo_regions _ Hb) Hk) as (r & Hrun & Hr).
  exists r. split; [exact Hrun|intros a; by apply (cleared k D)].
Qed.

(** The first allocation of a fresh heap, through [FixedVec::new]. *)
Lemma first_vec D k tsize cap :
  boot_ok D → MEMORY k = ready (fresh_memory ld_free_ram ld_free_ram_end D) →
  0 < tsize → 1 ≤ cap → cap * tsize ≤ pow2 (D + 12) → cap * tsize ≤ ISIZE_MAX →
  (∀ a, ld_free_ram ≤ a < ld_free_ram + pow2 (D + 12) → load8 (ram k) a = 0) →
  ∃ v k', FixedVec_new tsize cap k = Ret v k' ∧ only_memory k k' ∧ heap_ready k' ∧ clean k' ∧
    owns k' tsize cap v ∧ heap_capacity k' = pow2 (D + 12) ∧
    (∀ a, inside (blk v) a → load8 (ram k') a = 0) ∧
    (∀ a, heap_region k' a → ld_free_ram ≤ a) ∧ heap_room k' (pow2 (D + 12) - block_size (cap * tsize)).
Proof.
  intros Hb Hk Ht Hc Hcap Hmax Hz.
  destruct (fresh_memory_of _ _ _ _ D k (bo_regions _ Hb) (bo_start _ Hb) (bo_page _ Hb) Hk) as (Hmem & Hpow & Hno).
  set (m := fresh_memory ld_free_ram ld_free_ram_end D) in *.
  destruct (buddy_at _ _ Hmem) as (Hcapk & Hlivek & Hregk). rewrite Hpow in Hcapk, Hregk.
  assert (heap_ready k) as Hrk by by exists m.
  assert (cap * tsize ≤ heap_capacity k) as Hcap' by (simpl; lia).
  destruct (FixedVec_new_run k tsize cap Hrk Ht Hc Hcap' Hmax) as (r & k' & Hal & Honly & Hk' & Hcapk' & Hreg' & Hr).
  destruct (phalloc_empty k m (cap * tsize) Hmem Hno ltac:(nia)) as (pa & k2 & Hal2).
  rewrite Hal in Hal2. injection Hal2 as -> <-. destruct Hr as (Hrun & Ho & _ & _ & Hlive).
  assert (ram k' = ram k) as Hram by (destruct Honly as [? ->]; done).
  assert (clean k) as Hclean by (intros a Ha _; apply Hz; by apply Hregk).
  eexists _, k'. split_and!; [exact Hrun|done|done| |exact Ho|by rewrite Hcapk'; simpl|..].
  - eapply clean_alloc; [exact Hclean|done|exact Hreg'|]. intros b Hl. apply Hlive. by left.
  - intros a Ha. rewrite Hram. apply Hz, Hregk. apply Hreg'. eapply heap_live_region; [done|apply Ho|exact Ha].
  - intros a Ha%Hreg'%Hregk. exact (proj1 Ha).
  - rewrite <- Hcapk. refine (phalloc_room k _ (cap * tsize) _ _ Hrk (heap_room_empty k Hrk _) ltac:(split; [nia|exact Hcap']) Hal).
    intros b' Hlb%Hlivek. by apply (Hno b').
Qed.

(** A process table whose block reads as zero has eight unused, empty slots. *)
Lemma zero_table k t :
  heap_ready k → clean k → owns k proc_size PROC_MAX (table t) →
  1024 * fv_size ≤ heap_capacity k → 4096 ≤ heap_capacity k →
  (∀ a, inside (blk (table t)) a → load8 (ram k) a = 0) →
  table_ready k t ∧ ∀ i, 0 ≤ i < PROC_MAX → is_unused k t i.
Proof.
  intros Hk Hc Ho Hcap Hcap4 Hz.
  assert (∀ i a, 0 ≤ i < PROC_MAX → in_slot (proc_at t i) a → load8 (ram k) a = 0) as Hslot.
  { intros i a Hi Ha. apply Hz. by eapply slot_in_table. }
  pose proof field_state. pose proof field_root. pose proof field_second.
  split; [split; try done|].
  - intros i Hi _. unfold slot_empty, slot_pt, owns_nothing. cbn [root_pt second_pts].
    rewrite !fv_load_zero by (intros a Ha; apply (Hslot i); [done|unfold in_slot; lia]). done.
  - intros i Hi. unfold is_unused, state_byte. apply (Hslot i); [done|]. unfold in_slot. lia.
Qed.

Lemma kernel_init_run D k hart_text :
  boot_ok D → MEMORY k = OnceCell_new → PROC_TABLE k = OnceCell_new →
  ∃ t k', kernel_init 0 hart_text k = Ret tt k' ∧ sched_ok k' t ∧ curr_proc_idx t = 0 ∧
    table_ready k' t ∧ (∀ i, 0 ≤ i < PROC_MAX → is_unused k' t i) ∧
    (∃ r m, k' = set_PROC_TABLE (ready t) (set_ram r (set_MEMORY m
       (set_cpu (set_csr STVEC sym_trap_entry (cpu k)) k)))) ∧
    (∀ a, heap_region k' a → ld_free_ram ≤ a) ∧
    heap_room k' (pow2 (D + 12) - block_size (PROC_MAX * proc_size)).
Proof.
  intros Hb Hm Hp. set (k1 := set_cpu (set_csr STVEC sym_trap_entry (cpu k)) k).
  set (k2 := set_ram (write_bytes ld_bss 0 (wrap (ld_bss_end - ld_bss)) (ram k1)) k1).
  set (k3 := set_ram (write_bytes ld_allocator_mem 0 (wrap (ld_allocator_mem_end - ld_allocator_mem)) (ram k2)) k2).
  destruct (boot_heap D k3 Hb Hm) as (r & Hheap & Hz).
  set (k4 := set_MEMORY (ready (fresh_memory ld_free_ram ld_free_ram_end D)) (set_ram r k3)) in *.
  pose proof proc_size_ok as Hps. pose proof (bo_procs _ Hb) as Hprocs. pose proof (bo_tables _ Hb) as Htabs.
  assert (pow2 12 ≤ pow2 (D + 12)) as Hpage by (apply pow2_mono; lia). change (pow2 12) with 4096 in Hpage.
  destruct (first_vec D (set_PROC_TABLE initialising k4) proc_size PROC_MAX Hb eq_refl) as
    (v & k5 & Hvec & Honly & Hk5 & Hc5 & Ho5 & Hcap5 & Hz5 & Hreg5 & Hroom5); try (unfold PROC_MAX in *; lia).
  { exact Hz. }
  set (t := mkProcTable v 0). set (k' := set_PROC_TABLE (ready t) k5).
  destruct (heap_frame k5 k' eq_refl) as (Hcap & Hready & Hlive & Hreg).
  assert (owns k' proc_size PROC_MAX v) as Ho by (eapply owns_frame; [intros b; apply Hlive|exact Ho5]).
  destruct (zero_table k' t) as [Htr Hun]; try done; try lia.
  exists t, k'. split_and!; try done.
  - unfold kernel_init. erewrite bind_Ret by reflexivity. fold k1. cbn [Z.eqb negb]. unfold kernel_setup.
    erewrite bind_Ret by reflexivity. erewrite bind_Ret by reflexivity. fold k2 k3.
    erewrite bind_Ret by reflexivity. erewrite bind_Ret by exact Hheap.
    unfold proc_init, table_init.
    refine (get_or_init_fresh PROC_TABLE set_PROC_TABLE new_PROC_TABLE k4 k5 (Mutex_new t) Hp _).
    unfold new_PROC_TABLE, ProcTable_new. unfold bind at 1. erewrite bind_Ret by exact Hvec. done.
  - destruct Honly as [m' Hk5']. exists r, m'. unfold k'. by rewrite Hk5'.
Qed.

(** C35. [kernel_init] on hart 0, from fresh statics and with a memory map that
    fits, returns with the trap vector set, the heap ready, its free memory zero,
    and the process table set up and free: process 0 current, all eight slots
    unused.  These are the hypotheses of the theorems on processes.  Any other hart
    prints and waits for ever without touching the memory or the statics. *)
Theorem kernel_init_ok D k hart_text :
  boot_ok D → MEMORY k = OnceCell_new → PROC_TABLE k = OnceCell_new →
  (∃ t k', kernel_init 0 hart_text k = Ret tt k' ∧ sched_ok k' t ∧ curr_proc_idx t = 0 ∧
     table_ready k' t ∧ (∀ i, 0 ≤ i < PROC_MAX → is_unused k' t i) ∧
     csrs (cpu k') STVEC = sym_trap_entry) ∧
  ∀ hart_id, hart_id ≠ 0 → ∃ k', kernel_init hart_id hart_text k = Hang k' ∧
    ram k' = ram k ∧ MEMORY k' = MEMORY k ∧ PROC_TABLE k' = PROC_TABLE k.
Proof.
  intros Hb Hm Hp. split.
  - destruct (kernel_init_run D k hart_text Hb Hm Hp) as (t & k' & Hrun & Hs & Hc & Htr & Hun & (r & m & Hk') & _).
    exists t, k'. split_and!; try done. by rewrite Hk'.
  - intros h Hh. eexists. unfold kernel_init. erewrite bind_Ret by reflexivity.
    rewrite (proj2 (Z.eqb_neq h 0) Hh). cbn [negb]. unfold println.
    erewrite bind_Ret by apply print_run. done.
Qed.
End boot_spec.
