(* ===== verification/Main.v ===== *)
(** * From the entry point to the first process.

    [kernel_init], three times [proc::new] and [give_up] composed, as [kernel_main]
    composes them: [boot] on hart 0 ends in the first instruction of process A. *)
From S2P Require Import Prelude Ram Addr BuddyInv BuddySpec BuddyRoom MemInit Sync Machine Kernel Heap FixedVec Vm Sv32 PageTable VmSpec Context Proc ProcSpec ProcCreate Sched ProcNew Switch Console Boot.

Section main.
Context `{Profile, Layout, !LayoutOk, ProcLayout, !ProcLayoutOk, Linker, Symbols, Firmware}.

(** A memory map with room for the table and three processes, and a boot stack
    below the free RAM. *)
Record main_ok (D : nat) : Prop := {
  mo_boot : boot_ok D;
  mo_linker : linker_ok;
  mo_kernel : ld_kernel_base ≤ ld_free_ram_end;
  mo_room : block_size (PROC_MAX * proc_size) + 3 * create_cost ≤ pow2 (D + 12);
  mo_a : word sym_proc_a_entry;
  mo_b : word sym_proc_b_entry;
  mo_return : word sym_switch_return;
  mo_stack : 52 ≤ ld_stack_top ≤ ld_free_ram;
}.

Lemma sched_ok_agrees k k' t : agrees k k' → PROC_TABLE k' = PROC_TABLE k → sched_ok k t → sched_ok k' t.
Proof.
  intros [Hm _] Hp [Hcell Ho Hc]. split; [congruence| |done]. eapply owns_frame; [|exact Ho].
  intros b. by apply heap_frame.
Qed.

Lemma then_three {S A} (m1 m2 m3 : M S ()) (f : M S A) s s' :
  (m1;;! m2;;! m3) s = Ret tt s' → (m1;;! m2;;! m3;;! f) s = f s'.
Proof.
  unfold bind. destruct (m1 s) as [[] s1| | |]; try discriminate. destruct (m2 s1) as [[] s2| | |]; try discriminate.
  by intros ->.
Qed.

(** [kernel_init], the greeting and the three processes. *)
Lemma kernel_setup_run D k hart_text :
  main_ok D → MEMORY k = OnceCell_new → PROC_TABLE k = OnceCell_new →
  ∃ t k' pt0 pt1 pt2,
    (∀ A (f : M Kernel A), (kernel_init 0 hart_text;;! println (text "Hello, World!");;! proc_new 0;;!
      proc_new sym_proc_a_entry;;! proc_new sym_proc_b_entry;;! f) k = f k') ∧
    process k' t 0 0 pt0 ∧ process k' t 1 sym_proc_a_entry pt1 ∧ process k' t 2 sym_proc_b_entry pt2 ∧
    (∀ i, 3 ≤ i < PROC_MAX → is_unused k' t i) ∧ sched_ok k' t ∧ table_ready k' t ∧ curr_proc_idx t = 0 ∧
    (∀ a, heap_region k' a → ld_free_ram ≤ a) ∧ regs (cpu k') = regs (cpu k) ∧
    csrs (cpu k') STVEC = sym_trap_entry ∧
    ecalls k' = ecalls k ++ map putchar_call (text "Hello, World!" ++ [10]).
Proof.
  intros [Hb Hl Hld Hroom Ha Hbw _] Hm Hp.
  destruct (kernel_init_run D k hart_text Hb Hm Hp) as
    (t & k1 & Hrun1 & Hs1 & Hcur & Hr1 & Hun1 & (r1 & m1 & Hk1) & Hreg1 & Hroom1).
  set (k2 := set_ecalls (ecalls k1 ++ map putchar_call (text "Hello, World!" ++ [10])) k1).
  assert (agrees k1 k2) as Hag by done.
  pose proof (sched_ok_agrees _ _ _ Hag eq_refl Hs1) as Hs2. pose proof (table_ready_agrees _ _ _ Hag Hr1) as Hr2.
  destruct (new_three k2 t (pow2 (D + 12) - block_size (PROC_MAX * proc_size)) 0 sym_proc_a_entry sym_proc_b_entry)
    as (k3 & pt0 & pt1 & pt2 & Hrun3 & P0 & P1 & P2 & Hun3 & Hs3 & Hr3 & Hreg3 & (r3 & m3 & Hk3)); try done; try lia.
  exists t, k3, pt0, pt1, pt2. split_and!; try done.
  - intros A f. erewrite bind_Ret by exact Hrun1. erewrite bind_Ret by apply print_run. fold k2.
    by apply (then_three _ _ _ _ _ _ Hrun3).
  - intros a Har%Hreg3. apply Hreg1. by apply (heap_frame k1 k2).
  - rewrite Hk3. change (regs (cpu k1) = regs (cpu k)). by rewrite Hk1.
  - rewrite Hk3. change (csrs (cpu k1) STVEC = sym_trap_entry). by rewrite Hk1.
  - rewrite Hk3. cbn [ecalls set_ram set_cpu set_MEMORY]. unfold k2. cbn [ecalls set_ecalls]. by rewrite Hk1.
Qed.

(** The whole of [boot], as the switch its last call makes from the state [k1]. *)
Lemma boot_run D k dtb_addr hart_text :
  main_ok D → word_regs (cpu k) → word dtb_addr → MEMORY k = OnceCell_new → PROC_TABLE k = OnceCell_new →
  ∃ t k1 k' pt0 pt1 pt2, boot 0 dtb_addr hart_text k = Ret tt k' ∧
    switched k1 t 1 (sym_proc_a_entry :: replicate 12 0) pt1 k' ∧
    process k1 t 0 0 pt0 ∧ process k1 t 1 sym_proc_a_entry pt1 ∧ process k1 t 2 sym_proc_b_entry pt2 ∧
    (∀ i, 3 ≤ i < PROC_MAX → is_unused k1 t i) ∧ sched_ok k1 t ∧ table_ready k1 t ∧ curr_proc_idx t = 0 ∧
    (∀ a, regs (cpu k1) SP - 52 ≤ a < regs (cpu k1) SP → ¬ heap_region k1 a) ∧
    csrs (cpu k1) STVEC = sym_trap_entry ∧
    ecalls k1 = ecalls k ++ map putchar_call (text "Hello, World!" ++ [10]).
Proof.
  intros Hmain Hw Hdtb Hm Hp. pose proof (mo_stack _ Hmain) as Hstk. assert (PROC_MAX = 8) as HP by done.
  set (k0 := set_cpu (set_reg SP ld_stack_top (set_reg A1 dtb_addr (set_reg A0 0 (cpu k)))) k).
  destruct (kernel_setup_run D k0 hart_text Hmain Hm Hp) as
    (t & k1 & pt0 & pt1 & pt2 & Hrun & P0 & P1 & P2 & Hun & Hs & Hr & Hcur & Hreg & Hregs & Hstv & Hec).
  assert (regs (cpu k1) SP = ld_stack_top) as HSP by (rewrite Hregs; apply set_reg_eq).
  assert (∀ a, regs (cpu k1) SP - 52 ≤ a < regs (cpu k1) SP → ¬ heap_region k1 a) as Hframe.
  { intros a Ha Har%Hreg. lia. }
  assert (frame_private k1 t) as Hpriv by (intros a Ha; right; by apply Hframe).
  assert (word_regs (cpu k1)) as Hw1.
  { intros r. rewrite Hregs. apply word_set; [unfold word; pose proof (bo_regions _ (mo_boot _ Hmain)) as [_ ? ? [? _] _ _ _]; pose proof (pow2_pos (D + 12)); lia|].
    apply word_set; [done|]. apply word_set; [unfold word; lia|]. apply Hw. }
  assert (chosen k1 t 1) as Hch.
  { left. rewrite Hcur. split_and!; try lia. apply P1. }
  pose proof (tr_ready _ _ Hr) as Hk1.
  destruct (giveup_resumes k1 t 1 _ pt1 Hs Hpriv Hch P1 (mo_return _ Hmain) ltac:(lia) ltac:(lia) Hw1 ltac:(lia))
    as (k' & Hgive & Hsw).
  exists t, k1, k', pt0, pt1, pt2. split_and!; try done.
  unfold boot. erewrite bind_Ret by reflexivity. fold k0. unfold kernel_main. by rewrite Hrun.
Qed.

(** C3. The kernel boots.  On hart 0, with fresh statics and a memory map with room
    for the process table and three processes, [boot] clears memory, sets the
    allocator and the process table up, greets, creates the idle process and the
    processes A and B, and switches to A: the hart is at [proc_a_entry] on an empty
    stack of its own, [satp] points to a page table that maps every page of the
    kernel's memory to itself with read, write and execute permission, [sscratch]
    and [stvec] are set for its traps, A is current, and B is ready to run next.
    Nothing else was printed, and nothing panicked or waits. *)
Theorem boot_starts_process_a D k dtb_addr hart_text :
  main_ok D → word_regs (cpu k) → word dtb_addr → MEMORY k = OnceCell_new → PROC_TABLE k = OnceCell_new →
  ∃ t k' pt_a pt_b, boot 0 dtb_addr hart_text k = Ret tt k' ∧
    PROC_TABLE k' = ready t ∧ curr_proc_idx t = 1 ∧
    Machine.pc (cpu k') = sym_proc_a_entry ∧ regs (cpu k') SP = stack_top (proc_at t 1) ∧
    csrs (cpu k') SATP = Z.lor SATP_SV32 (PageTable_root_pt_addr pt_a / PAGE_SIZE) ∧
    csrs (cpu k') SSCRATCH = stack_top (proc_at t 1) ∧ csrs (cpu k') STVEC = sym_trap_entry ∧
    process k' t 1 sym_proc_a_entry pt_a ∧ process k' t 2 sym_proc_b_entry pt_b ∧
    (∀ i, 0 ≤ i < 3 → is_runnable k' t i) ∧ (∀ i, 3 ≤ i < PROC_MAX → is_unused k' t i) ∧
    ecalls k' = ecalls k ++ map putchar_call (text "Hello, World!" ++ [10]).
Proof.
  intros Hmain Hw Hdtb Hm Hp. assert (PROC_MAX = 8) as HP by done.
  destruct (boot_run D k dtb_addr hart_text Hmain Hw Hdtb Hm Hp) as
    (t & k1 & k' & pt0 & pt1 & pt2 & Hrun & Hsw & P0 & P1 & P2 & Hun & Hs & Hr & Hcur & Hframe & Hstv & Hec).
  pose proof (tr_ready _ _ Hr) as Hk1.
  assert (frame_private k1 t) as Hpriv by (intros a Ha; right; by apply Hframe).
  assert (∀ i pc pt, i ≠ curr_proc_idx t → process k1 t i pc pt → process k' (with_current t 1) i pc pt) as Hkept.
  { intros i pc' pt' Hi Hpr. refine (switched_process Hs Hk1 (tr_clean _ _ Hr) Hpriv _ Hsw i _ pt' Hi Hpr). lia. }
  assert (∀ a, ¬ switch_writes (switching k1 t 1) a → load8 (ram k') a = load8 (ram k1) a) as Hsw'.
  { intros a Ha. rewrite (sw_ram _ _ _ _ _ _ Hsw). by apply saved_ram_other. }
  exists (with_current t 1), k', pt1, pt2. split_and!.
  - exact Hrun.
  - apply Hsw.
  - reflexivity.
  - pose proof (sw_pc _ _ _ _ _ _ Hsw) as Hpc. by injection Hpc.
  - apply Hsw.
  - apply Hsw.
  - apply Hsw.
  - rewrite (sw_stvec _ _ _ _ _ _ Hsw). exact Hstv.
  - apply Hkept; [lia|exact P1].
  - apply Hkept; [lia|exact P2].
  - intros i Hi. unfold is_runnable. rewrite (switched_state k1 t 1 k' i Hs Hk1 Hframe) by (apply Hsw' || lia).
    assert (i = 0 ∨ i = 1 ∨ i = 2) as [-> |[-> | ->]] by lia; [apply P0|apply P1|apply P2].
  - intros i Hi. unfold is_unused. rewrite (switched_state k1 t 1 k' i Hs Hk1 Hframe) by (apply Hsw' || lia). by apply Hun.
  - by rewrite (sw_ecalls _ _ _ _ _ _ Hsw), Hec.
Qed.
End main.
