(* ===== verification/Rounds.v ===== *)
(** * The two processes of the kernel, for ever.

    After [boot] the processes A and B print a letter and give up the processor in
    turn.  [duo] is the invariant of that loop: whose turn it is, the stack pointer
    at the top of that process's stack, and the frame of the other one on its own. *)
From S2P Require Import Prelude Ram Addr BuddyInv BuddySpec BuddyRoom MemInit Sync Machine Kernel Heap FixedVec Vm Sv32 PageTable VmSpec Context Proc ProcSpec ProcCreate Sched ProcNew Switch Console Boot Main.

Section rounds.
Context `{Profile, Layout, !LayoutOk, ProcLayout, !ProcLayoutOk, Linker, Symbols, Firmware}.

(** The code the current process goes on with: its loop, up to the next switch.  It
    was resumed when the hart is at the instruction after the call in [give_up].  The
    idle process goes on after the [give_up] of [kernel_main]. *)
Definition running_proc : M Kernel (Z * bool) :=
  let! mx := get_mutex PROC_TABLE in
  let! pc := gets (λ k, Machine.pc (cpu k)) in
  ret (curr_proc_idx (mx_data mx), pc =? sym_switch_return).
Definition proc_round (c : Z) (resumed : bool) : M Kernel () :=
  if c =? 1 then proc_a_round resumed else if c =? 2 then proc_b_round resumed else kernel_main_resumed.
Fixpoint rounds (n : nat) : M Kernel () :=
  match n with
  | O => ret tt
  | S n => (let! r := running_proc in proc_round r.1 r.2);;! rounds n
  end.

(** What [n] rounds print, and who is next. *)
Definition letter (c : Z) : Z := if c =? 1 then 97 else 98.
Definition other (c : Z) : Z := 3 - c.
Fixpoint letters (n : nat) (c : Z) : list Z :=
  match n with O => [] | S n => letter c :: letters n (other c) end.
Definition turn_after (n : nat) : Z := if Nat.even n then 1 else 2.

(** Process [c] runs, and the other one goes on at [q] when it is switched to. *)
Record duo (k : Kernel) (t : ProcTable) (pts : Z → PageTable) (c q : Z) : Prop := {
  du_sched : sched_ok k t;
  du_ready : heap_ready k;
  du_clean : clean k;
  du_curr : curr_proc_idx t = c;
  du_turn : c = 1 ∨ c = 2;
  du_words : word_regs (cpu k);
  du_sp : regs (cpu k) SP = stack_top (proc_at t c);
  du_satp : csrs (cpu k) SATP = Z.lor SATP_SV32 (PageTable_root_pt_addr (pts c) / PAGE_SIZE);
  du_sscratch : csrs (cpu k) SSCRATCH = stack_top (proc_at t c);
  du_stvec : csrs (cpu k) STVEC = sym_trap_entry;
  du_self : ∃ ws, suspended k t c ws (pts c);
  du_other : ∃ ws, suspended k t (other c) ws (pts (other c)) ∧ ws !! 0%nat = Some q;
  du_unused i : 3 ≤ i < PROC_MAX → is_unused k t i;
}.

Lemma duo_agrees k k' t pts c q :
  agrees k k' → cpu k' = cpu k → PROC_TABLE k' = PROC_TABLE k → duo k t pts c q → duo k' t pts c q.
Proof.
  intros Hag Hcpu Htab [Hs Hr Hc Hcur Hturn Hw Hsp Hsatp Hsc Hstv (ws & Hself) (ws' & Hoth & Hq) Hun].
  pose proof Hag as [Hm _]. destruct (heap_frame k k' Hm) as (_ & Hready & _).
  split; rewrite ?Hcpu; try done.
  - by apply (sched_ok_agrees k).
  - by apply Hready.
  - by apply (clean_agrees k).
  - exists ws. by apply (process_agrees k).
  - exists ws'. split; [by apply (process_agrees k)|done].
  - intros i Hi. apply (is_unused_agrees k); [done|by apply Hun].
Qed.

Lemma duo_private k t pts c q : duo k t pts c q → frame_private k t.
Proof.
  intros Hd a Ha. left. rewrite (du_sp _ _ _ _ _ Hd) in Ha. rewrite (du_curr _ _ _ _ _ Hd).
  pose proof field_stack. unfold in_slot, stack_top in *. change PROC_STACK_SIZE with 2048 in *. lia.
Qed.

Lemma duo_chosen k t pts c q : duo k t pts c q → chosen k t (other c).
Proof.
  intros Hd. assert (PROC_MAX = 8) as HP by done. left. rewrite (du_curr _ _ _ _ _ Hd).
  destruct (du_other _ _ _ _ _ Hd) as (ws & Hoth & _).
  pose proof (pr_state _ _ _ _ _ Hoth) as Hst. unfold other in *.
  destruct (du_turn _ _ _ _ _ Hd) as [-> | ->]; (split; [lia|]); (split; [done|]); (split; [lia|]); intros l Hl Hrun; lia.
Qed.

(** The slots in use stay so, the others stay unused. *)
Lemma switched_unused k k' t next ws pt i :
  sched_ok k t → heap_ready k → frame_private k t → switched k t next ws pt k' →
  0 ≤ i < PROC_MAX → i ≠ curr_proc_idx t → is_unused k t i → is_unused k' (with_current t next) i.
Proof.
  intros Hs Hk Hp Hsw Hi Hne Hu. pose proof Hs as [_ Ho Hcur]. pose proof field_state.
  assert (in_slot (proc_at t i) (proc_at t i + off_state)) as Hin by (unfold in_slot; lia).
  unfold is_unused, state_byte. change (proc_at (with_current t next) i) with (proc_at t i).
  rewrite (switched_byte Hs Hk Hp Hsw (blk (table t))); [exact Hu|apply Ho|exact (slot_in_table k t i _ Hk Ho Hi Hin)|].
  intros _. exact (slots_apart k t i _ _ Hk Ho Hi Hcur Hne Hin).
Qed.

(** A call of [give_up]: the other process goes on. *)
Lemma duo_switch k t pts c q :
  duo k t pts c q → word sym_switch_return →
  ∃ k', proc_giveup k = Ret tt k' ∧ duo k' (with_current t (other c)) pts (other c) sym_switch_return ∧
    Machine.pc (cpu k') = q ∧ ecalls k' = ecalls k.
Proof.
  intros Hd Hret. pose proof (duo_private _ _ _ _ _ Hd) as Hp. pose proof (duo_chosen _ _ _ _ _ Hd) as Hch.
  assert (PROC_MAX = 8) as HP by done.
  pose proof Hd as [Hs Hr Hc Hcur Hturn Hw Hsp _ _ Hstv (ws & Hself) (ws' & Hoth & Hq) Hun].
  assert (other c ≠ c ∧ 1 ≤ other c ≤ 2 ∧ other (other c) = c) as (Hne & Hrange & Hinv) by (unfold other; lia).
  pose proof (stack_top_word k t c Hr (so_owns _ _ Hs) ltac:(lia)) as Htop.
  destruct (slot_bounds k t c Hr (so_owns _ _ Hs) ltac:(lia)) as [Hp0 _].
  assert (52 ≤ regs (cpu k) SP) as Hge.
  { rewrite Hsp. pose proof field_stack. unfold stack_top. change PROC_STACK_SIZE with 2048. lia. }
  destruct (giveup_resumes k t (other c) ws' (pts (other c)) Hs Hp Hch Hoth Hret ltac:(lia) ltac:(lia) Hw Hge)
    as (k' & Hrun & Hsw).
  assert (0 ≤ other c < PROC_MAX) as Hno by lia.
  destruct (switched_heap Hs Hr Hc Hp Hno Hsw) as (Hr' & Hc' & _ & Hs').
  exists k'. split_and!; [exact Hrun| | |apply Hsw].
  2:{ pose proof (sw_pc _ _ _ _ _ _ Hsw) as Hpc. rewrite Hq in Hpc. by injection Hpc. }
  split; try done; [lia|apply Hsw|apply Hsw|apply Hsw|apply Hsw|by rewrite (sw_stvec _ _ _ _ _ _ Hsw)|..].
  - exists ws'. by apply (switched_process Hs Hr Hc Hp Hno Hsw); [rewrite Hcur|].
  - rewrite Hinv. exists (map (regs (switching k t (other c))) switch_regs). split; [|reflexivity].
    pose proof (switched_saved Hs Hr Hc Hp Hno Hsw ws (pts c) Hret Hw) as Hsaved. rewrite Hcur in Hsaved. by apply Hsaved.
  - intros i Hi. apply (switched_unused k k' t (other c) ws' (pts (other c))); try done; [lia|lia|]. by apply Hun.
Qed.

Lemma running_proc_run k t :
  PROC_TABLE k = ready t → running_proc k = Ret (curr_proc_idx t, Machine.pc (cpu k) =? sym_switch_return) k.
Proof. intros Hk. unfold running_proc, get_mutex, bind, gets, expect, ret. by rewrite Hk. Qed.

(** One round. *)
Lemma duo_round k t pts c q :
  duo k t pts c q → word sym_switch_return →
  ∃ k', (let! r := running_proc in proc_round r.1 r.2) k = Ret tt k' ∧
    duo k' (with_current t (other c)) pts (other c) sym_switch_return ∧
    Machine.pc (cpu k') = q ∧ ecalls k' = ecalls k ++ [putchar_call (letter c)].
Proof.
  intros Hd Hret. erewrite bind_Ret by (apply running_proc_run, Hd). rewrite (du_curr _ _ _ _ _ Hd).
  set (k1 := set_ecalls (ecalls k ++ map putchar_call [letter c]) k).
  set (resumed := Machine.pc (cpu k) =? sym_switch_return). cbn [fst snd].
  assert ((if resumed then delay else ret tt) k = Ret tt k) as Hdelay by (destruct resumed; [apply delay_run|done]).
  assert (proc_round c resumed k = proc_giveup k1) as ->.
  { unfold proc_round, letter in *. destruct (du_turn _ _ _ _ _ Hd) as [-> | ->]; cbn [Z.eqb Pos.eqb];
      unfold proc_a_round, proc_b_round; rewrite (bind_Ret _ _ _ _ _ Hdelay); erewrite bind_Ret by apply print_run; reflexivity. }
  destruct (duo_switch k1 t pts c q) as (k' & Hrun & Hd' & Hpc & Hec); [by apply (duo_agrees k)|done|].
  by exists k'.
Qed.

Lemma duo_rounds n k t pts c q :
  duo k t pts c q → word sym_switch_return →
  ∃ t' k' q', rounds n k = Ret tt k' ∧ duo k' t' pts (if Nat.even n then c else other c) q' ∧ table t' = table t ∧
    Machine.pc (cpu k') = match n with 0%nat => Machine.pc (cpu k) | 1%nat => q | _ => sym_switch_return end ∧
    ecalls k' = ecalls k ++ map putchar_call (letters n c).
Proof.
  revert k t c q. induction n as [|n IH]; intros k t c q Hd Hret.
  - exists t, k, q. split_and!; try done. by rewrite app_nil_r.
  - destruct (duo_round k t pts c q Hd Hret) as (k1 & Hrun & Hd1 & Hpc & Hec).
    destruct (IH k1 _ (other c) sym_switch_return Hd1 Hret) as (t' & k' & q' & Hrun' & Hd' & Htab & Hpc' & Hec').
    exists t', k', q'. cbn [rounds]. erewrite bind_Ret by exact Hrun. split_and!; [done| |done| |].
    + rewrite Nat.even_succ, <- Nat.negb_even. destruct (Nat.even n); simpl in *; [done|].
      by replace c with (other (other c)) by (unfold other; lia).
    + rewrite Hpc'. destruct n as [|[|n]]; done.
    + rewrite Hec', Hec, <- app_assoc. done.
Qed.

(** The state [boot] ends in. *)
Lemma boot_duo D k dtb_addr hart_text :
  main_ok D → word_regs (cpu k) → word dtb_addr → MEMORY k = OnceCell_new → PROC_TABLE k = OnceCell_new →
  ∃ t k' pts, boot 0 dtb_addr hart_text k = Ret tt k' ∧ duo k' t pts 1 sym_proc_b_entry ∧
    Machine.pc (cpu k') = sym_proc_a_entry ∧
    ecalls k' = ecalls k ++ map putchar_call (text "Hello, World!" ++ [10]).
Proof.
  intros Hmain Hw Hdtb Hm Hp. assert (PROC_MAX = 8) as HP by done.
  destruct (boot_run D k dtb_addr hart_text Hmain Hw Hdtb Hm Hp) as
    (t & k1 & k' & pt0 & pt1 & pt2 & Hrun & Hsw & P0 & P1 & P2 & Hun & Hs & Hr & Hcur & Hframe & Hstv & Hec).
  pose proof (tr_ready _ _ Hr) as Hk1. pose proof (tr_clean _ _ Hr) as Hc1.
  assert (frame_private k1 t) as Hpriv by (intros a Ha; right; by apply Hframe).
  assert (0 ≤ 1 < PROC_MAX) as H1' by lia.
  destruct (switched_heap Hs Hk1 Hc1 Hpriv H1' Hsw) as (Hr' & Hc' & _ & Hs').
  exists (with_current t 1), k', (λ i, if i =? 1 then pt1 else pt2). split_and!; [exact Hrun| | |].
  - split; try done; [by left|apply Hsw|apply Hsw|apply Hsw|apply Hsw|by rewrite (sw_stvec _ _ _ _ _ _ Hsw)|..].
    + eexists. exact (switched_process Hs Hk1 Hc1 Hpriv H1' Hsw 1 _ pt1 ltac:(lia) P1).
    + eexists. split; [exact (switched_process Hs Hk1 Hc1 Hpriv H1' Hsw 2 _ pt2 ltac:(lia) P2)|done].
    + intros i Hi. apply (switched_unused k1 k' t 1 (sym_proc_a_entry :: replicate 12 0) pt1); try done; [lia|lia|].
      by apply Hun.
  - pose proof (sw_pc _ _ _ _ _ _ Hsw) as Hpc. by injection Hpc.
  - by rewrite (sw_ecalls _ _ _ _ _ _ Hsw), Hec.
Qed.

(** C2. The kernel runs for ever.  After [boot] on hart 0, any number of rounds
    of the processes returns: nothing panics, waits or reaches the idle process.  The
    console shows the greeting and then "abab...", a letter a round; the
    hart alternates between the two processes, each on top of its own stack and in
    its own page table, first at its entry point and from then on after the call of
    [switch_context] in its own [give_up]. *)
Theorem processes_alternate D k dtb_addr hart_text n :
  main_ok D → word_regs (cpu k) → word dtb_addr → MEMORY k = OnceCell_new → PROC_TABLE k = OnceCell_new →
  ∃ t k' pts, (boot 0 dtb_addr hart_text;;! rounds n) k = Ret tt k' ∧
    PROC_TABLE k' = ready t ∧ curr_proc_idx t = turn_after n ∧
    Machine.pc (cpu k') = match n with 0%nat => sym_proc_a_entry | 1%nat => sym_proc_b_entry | _ => sym_switch_return end ∧
    regs (cpu k') SP = stack_top (proc_at t (turn_after n)) ∧
    csrs (cpu k') SATP = Z.lor SATP_SV32 (PageTable_root_pt_addr (pts (turn_after n)) / PAGE_SIZE) ∧
    (∀ i va, 1 ≤ i ≤ 2 → 0 ≤ va < USIZE_MOD →
       sv32_walk (ram k') (PageTable_root_pt_addr (pts i)) va =
       if in_pages ld_kernel_base ld_free_ram_end va
       then Some (va, Z.lor (Z.lor (Z.lor PAGE_R PAGE_W) PAGE_X) PAGE_V) else None) ∧
    ecalls k' = ecalls k ++ map putchar_call (text "Hello, World!" ++ [10] ++ letters n 1).
Proof.
  intros Hmain Hw Hdtb Hm Hp.
  destruct (boot_duo D k dtb_addr hart_text Hmain Hw Hdtb Hm Hp) as (t & k1 & pts & Hrun & Hd & Hpc & Hec).
  destruct (duo_rounds n k1 t pts 1 _ Hd (mo_return _ Hmain)) as (t' & k' & q' & Hrun' & Hd' & _ & Hpc' & Hec').
  exists t', k', pts. change (if Nat.even n then 1 else other 1) with (turn_after n) in Hd'. split_and!.
  - erewrite bind_Ret by exact Hrun. exact Hrun'.
  - apply Hd'.
  - apply Hd'.
  - rewrite Hpc'. destruct n as [|[|n]]; [exact Hpc|reflexivity..].
  - apply Hd'.
  - apply Hd'.
  - intros i va Hi Hva. destruct (du_self _ _ _ _ _ Hd') as (ws & Hself), (du_other _ _ _ _ _ Hd') as (ws' & Hoth & _).
    assert (i = turn_after n ∨ i = other (turn_after n)) as [-> | ->].
    { unfold other, turn_after. destruct (Nat.even n); lia. }
    + by apply Hself.
    + by apply Hoth.
  - rewrite Hec', Hec, <- app_assoc, <- map_app. by rewrite <- app_assoc.
Qed.
End rounds.
