(* ===== verification/Witnesses.v ===== *)
(** * The theorems at concrete inputs.

    A heap of four pages in a reserved region of half a megabyte, a mutex and a
    cell with two harts: the hypotheses of the theorems hold of them, by
    computation. *)
From S2P Require Import Prelude Ram Addr Slice Order Buddy BuddyTree BuddyRefine BuddyLoops BuddyInv BuddySpec BuddyTrace BuddyTerm BuddyRam MemInit Sync SyncSeq SyncWeak.

Ltac concrete := vm_compute; repeat split; discriminate.

(** ** The heap of four pages at 0x80300000 *)

Definition demo_start : Z := 2150629376.
Definition demo_end : Z := 2150645760.
Definition demo_astart : Z := 2149580800.
Definition demo_aend : Z := 2150105088.

Lemma demo_regions : regions_ok demo_start demo_end demo_astart demo_aend 2.
Proof. split; try lia; concrete. Qed.

Definition demo : Memory := fresh_memory demo_start demo_end 2.
Lemma demo_ok : heap_ok demo.
Proof. exact (heap_ok_inv _ _ _ (fresh_inv _ _ _ _ _ demo_regions)). Qed.

(** After an allocation of 5000 bytes, and after one of all four pages. *)
Definition after {A} (m : M Memory A) (s : Memory) : Memory :=
  match m s with Ret _ s' => s' | _ => s end.
Definition half : PhysAddr := PhysAddr_new demo_start (Some 8192).
Definition all_pages : PhysAddr := PhysAddr_new demo_start (Some 16384).
Definition demo_half : Memory := after (@Memory_buddy_alloc debug Memory list_store 5000) demo.
Definition demo_full : Memory := after (@Memory_buddy_alloc debug Memory list_store 16384) demo.

Lemma demo_half_run : @Memory_buddy_alloc debug Memory list_store 5000 demo = Ret (Ok half) demo_half.
Proof. by vm_compute. Qed.
Lemma demo_full_run : @Memory_buddy_alloc debug Memory list_store 16384 demo = Ret (Ok all_pages) demo_full.
Proof. by vm_compute. Qed.

Lemma demo_half_runs : @runs debug demo demo_half.
Proof.
  eapply runs_alloc; [apply runs_start|..|apply demo_half_run]; [lia|left; concrete].
Qed.
Lemma demo_half_ok : heap_ok demo_half.
Proof. exact (proj1 (runs_ok _ _ demo_ok demo_half_runs)). Qed.
Lemma demo_full_ok : heap_ok demo_full.
Proof.
  refine (proj1 (runs_ok (H := debug) demo _ demo_ok _)).
  eapply runs_alloc; [apply runs_start|..|apply demo_full_run]; [lia|left; concrete].
Qed.

Ltac evaluated := vm_compute; first [done | lia | reflexivity | repeat split; discriminate].

Lemma demo_half_live : live_block demo_half half.
Proof. exists 1%nat, 0. split_and!; evaluated. Qed.
Lemma demo_full_live : live_block demo_full all_pages.
Proof. exists 0%nat, 0. split_and!; evaluated. Qed.

Lemma demo_no_live b : ¬ live_block demo b.
Proof.
  intros (l & p & Hl & _)%(live_block_tree _ _ _ _ (fresh_inv _ _ _ _ _ demo_regions)).
  by destruct l.
Qed.

(** ** The allocator *)

Lemma buddy_alloc_safe_witness :
  ∃ r m', @Memory_buddy_alloc debug Memory list_store 5000 demo = Ret r m' ∧
    heap_ok m' ∧ same_heap demo m' ∧ alloc_post demo 5000 r m'.
Proof. apply (@buddy_alloc_safe debug demo 5000); [exact demo_ok|concrete]. Defined.

Lemma buddy_alloc_first_fit_witness :
  ∃ b, live_block demo_full b ∧ ¬ disjoint_blocks (granted demo_full 5000 1) b.
Proof.
  apply (@buddy_alloc_first_fit debug demo_full 5000 (Err OutOfMemory)
    (after (@Memory_buddy_alloc debug Memory list_store 5000) demo_full));
    [exact demo_full_ok|concrete|by vm_compute|lia|by vm_compute].
Defined.

Lemma buddy_alloc_size_witness :
  pa_size half = Some (2 ^ Z.log2_up (Z.max 5000 PAGE_SIZE)) ∧
  (pa_len half | pa_addr half - ram_start demo) ∧
  ((PAGE_SIZE | ram_start demo) → (PAGE_SIZE | pa_addr half)).
Proof.
  apply (@buddy_alloc_size debug demo 5000 half demo_half);
    [exact demo_ok|concrete|by vm_compute].
Defined.

Lemma demo_inv : mem_inv demo (depth demo) BFree.
Proof. exact (fresh_inv _ _ _ _ _ demo_regions). Qed.

(** Three requests of a page and two pages, the first block given back, two more
    requests: the freed page is used again, and the last one is refused. *)
Definition demo_requests : list request := [Ask 100; Ask 8192; Ask 4096; Give 2 0; Ask 4000; Ask 1].
Definition demo_answers : list (option (nat * Z)) :=
  [Some (2%nat, 0); Some (1%nat, 1); Some (2%nat, 1); Some (2%nat, 0); None].

Lemma buddy_refines_tree_witness :
  ∃ m', @heap_run debug Memory list_store demo demo_requests demo = Ret (map (heap_answer demo) demo_answers) m' ∧
    mem_inv m' (depth demo) (BSplit (BSplit BAlloc BAlloc) BAlloc) ∧ same_heap demo m'.
Proof.
  apply (@buddy_refines_tree debug demo BFree demo_requests demo_answers (BSplit (BSplit BAlloc BAlloc) BAlloc) demo_inv).
  vm_compute. reflexivity.
Defined.

Lemma buddy_terminates_witness :
  @Memory_buddy_alloc debug Memory list_store 5000 demo ≠ NoFuel ∧ @Memory_buddy_free debug Memory list_store half demo ≠ NoFuel.
Proof. apply (@buddy_terminates debug 5000 half demo). split; vm_compute; discriminate. Defined.

(** Five pages of RAM: the tree covers four. *)
Definition demo5 : Memory := fresh_memory demo_start (demo_start + 20480) 2.
Lemma demo5_regions : regions_ok demo_start (demo_start + 20480) demo_astart demo_aend 2.
Proof. split; try lia; concrete. Qed.

(** Without overflow checks the request for all five searches for a level that does
    not exist, marks nodes as split on the way and leaves the array. *)
Lemma alloc_gap_release :
  match @Memory_buddy_alloc release Memory list_store 20480 demo5 with
  | Panic _ m => take 5 (buddy_meta m) = [Split; Split; Free; Split; Free]
  | _ => False
  end.
Proof. by vm_compute. Qed.

Lemma buddy_alloc_refused_witness :
  (mem_size demo5 < 20480 → ∀ H : Profile, @Memory_buddy_alloc H Memory list_store 20480 demo5 = Ret (Err OutOfMemory) demo5) ∧
  (capacity demo5 < 20480 ≤ mem_size demo5 → ∃ msg, @Memory_buddy_alloc debug Memory list_store 20480 demo5 = Panic msg demo5) ∧
  ∀ H : Profile, @Memory_buddy_alloc H Memory list_store 0 demo5 = Ret (Err ZeroSize) demo5.
Proof.
  apply (buddy_alloc_refused demo5 20480). exact (heap_ok_inv _ _ _ (fresh_inv _ _ _ _ _ demo5_regions)).
Defined.

Lemma buddy_free_safe_witness :
  ∃ m', @Memory_buddy_free debug Memory list_store half demo_half = Ret tt m' ∧ heap_ok m' ∧ same_heap demo_half m' ∧
    ∀ b, live_block m' b ↔ live_block demo_half b ∧ b ≠ half.
Proof.
  apply (@buddy_free_safe debug demo_half half);
    [exact demo_half_ok|exact demo_half_live|by vm_compute].
Defined.

Lemma buddy_free_alloc_witness :
  ∃ m'', @Memory_buddy_free debug Memory list_store half demo_half = Ret tt m'' ∧ buddy_meta m'' = buddy_meta demo.
Proof.
  apply (@buddy_free_alloc debug demo 5000 half demo_half);
    [exact demo_ok|concrete|by vm_compute..].
Defined.

Lemma buddy_free_root_panics_witness :
  ∃ msg m', @Memory_buddy_free debug Memory list_store all_pages demo_full = Panic msg m' ∧
    zget (buddy_meta m') 0 = Some Free.
Proof.
  apply (@buddy_free_root_panics debug demo_full all_pages);
    [exact demo_full_ok|exact demo_full_live|by vm_compute].
Defined.

Lemma buddy_free_refused_witness :
  (∃ msg, @Memory_buddy_free debug Memory list_store (block demo (depth demo) 1 0) demo = Panic msg demo) ∧
  ∀ a, @Memory_buddy_free debug Memory list_store (PhysAddr_new a None) demo = Ret tt demo.
Proof.
  apply (@buddy_free_refused debug demo 1 0);
    [exact demo_ok|vm_compute; lia|concrete|apply demo_no_live].
Defined.


Lemma buddy_blocks_disjoint_witness :
  in_heap demo half ∧ (half = half ∨ disjoint_blocks half half).
Proof.
  apply (@buddy_blocks_disjoint debug demo demo_half half half);
    [exact demo_ok|exact demo_half_runs|exact demo_half_live..].
Defined.

(** ** Setting up *)

Lemma next_power_of_two_least_witness :
  match next_power_of_two 5000 with
  | Some x => 5000 ≤ ISIZE_HALF ∧
      ∃ k : nat, x = pow2 k ∧ 5000 ≤ x ∧ ∀ j : nat, 5000 ≤ pow2 j → x ≤ pow2 j
  | None => ISIZE_HALF < 5000
  end.
Proof. apply (next_power_of_two_least 5000). concrete. Defined.

Lemma Memory_new_ok_witness :
  ∃ at_ r', @Memory_new debug (Some demo_start) (Some demo_end) (Some demo_astart) (Some demo_aend) ∅
      = Ret at_ r' ∧
    let m := borrowed r' at_ in
    represents (mkInRam at_ r') m ∧ heap_ok m ∧ (∀ b, ¬ live_block m b) ∧
    ram_start m = demo_start ∧ capacity m = pow2 (2 + 12) ∧ mem_size m = demo_end - demo_start ∧
    (∀ a, in_slice 1 (buddy_meta at_) a ∨ in_slice 4 (buddy_stack at_) a → demo_astart ≤ a < demo_aend) ∧
    init_ram demo_astart demo_aend (buddy_node_count m) ∅ r'.
Proof. apply (@Memory_new_ok debug). exact demo_regions. Defined.

(** The same requests with the heap where it is, in the reserved region. *)
Lemma buddy_in_ram_witness :
  ∃ at_ r1 s, @Memory_new debug (Some demo_start) (Some demo_end) (Some demo_astart) (Some demo_aend) ∅ = Ret at_ r1 ∧
    @heap_run debug InRam ram_store (fresh_memory demo_start demo_end 2) demo_requests (mkInRam at_ r1) =
      Ret (map (λ o, match o with
                     | Some (l, q) =>
                       Ok (PhysAddr_new (demo_start + q * pow2 (2 + 12 - l)) (Some (pow2 (2 + 12 - l))))
                     | None => Err OutOfMemory
                     end) demo_answers) s ∧
    ir_memory s = at_ ∧ slices_sound at_ (ir_ram s) ∧ mem_inv (borrowed (ir_ram s) at_) 2 (BSplit (BSplit BAlloc BAlloc) BAlloc) ∧
    ∀ a, ¬ (demo_astart ≤ a < demo_aend) → load8 (ir_ram s) a = load8 ∅ a.
Proof.
  apply (@buddy_in_ram debug demo_start demo_end demo_astart demo_aend 2 ∅ demo_requests demo_answers);
    [exact demo_regions|vm_compute; reflexivity].
Defined.

(** ** Two harts, one mutex and one cell *)

(** Hart 0 has the lock and has read the counter, hart 1 waits for it. *)
Definition lock_trace : list (nat * Spin.action (T := Z)) :=
  [(0%nat, Spin.Lock); (1%nat, Spin.Lock); (0%nat, Spin.Cas); (1%nat, Spin.Cas);
   (0%nat, Spin.Deref); (0%nat, Spin.DerefMut (Z.add 1)); (1%nat, Spin.Cas)].
Definition lock_state : Spin.state (T := Z) :=
  default (Spin.init 7) (run_trace Spin.step lock_trace (Spin.init 7)).

Lemma mutex_exclusive_witness :
  (∀ i j, Spin.holds (Spin.at_ lock_state i) → Spin.holds (Spin.at_ lock_state j) → i = j) ∧
  (mx_lock (Spin.shared lock_state) = MLocked ↔ ∃ i, Spin.holds (Spin.at_ lock_state i)).
Proof. apply (mutex_exclusive 7 lock_trace lock_state). reflexivity. Defined.

Lemma mutex_updates_atomic_witness :
  mx_data (Spin.shared lock_state) = Spin.apply_all (Spin.updates lock_trace) 7.
Proof. apply (mutex_updates_atomic 7 lock_trace lock_state). reflexivity. Defined.

Lemma mutex_progress_witness :
  (∃ s', Spin.step (1%nat, Spin.Cas) lock_state = Some s' ∧ Spin.holds (Spin.at_ s' 1)) ∨
  (∃ j s', j ≠ 1%nat ∧ Spin.holds (Spin.at_ lock_state j) ∧
     Spin.step (j, Spin.DropGuard) lock_state = Some s' ∧ mx_lock (Spin.shared s') = MFree).
Proof. apply (mutex_progress 7 lock_trace lock_state 1); reflexivity. Defined.

(** Hart 0 runs the closure, hart 1 waits; then the closure answers or panics. *)
Definition init_trace : list (nat * Init.action (T := Z)) :=
  [(0%nat, Init.Call); (0%nat, Init.Go); (0%nat, Init.Go);
   (1%nat, Init.Call); (1%nat, Init.Go); (1%nat, Init.Go)].
Definition done_trace : list (nat * Init.action (T := Z)) :=
  init_trace ++ [(0%nat, Init.Closure 5); (0%nat, Init.Go); (1%nat, Init.Go); (1%nat, Init.Go)].
Definition panic_trace : list (nat * Init.action (T := Z)) := init_trace ++ [(0%nat, Init.ClosurePanic)].
Definition init_state (tr : list (nat * Init.action (T := Z))) : Init.state (T := Z) :=
  default Init.init (run_trace Init.step tr Init.init).

Lemma once_runs_once_witness :
  (length (Init.closures done_trace) ≤ 1)%nat ∧
  (∀ i, Init.at_ (init_state done_trace) i ≠ Init.Crashed) ∧
  (∀ i v, Init.at_ (init_state done_trace) i = Init.Returned v →
     Init.closures done_trace = [Some v] ∧ oc_value (Init.shared (init_state done_trace)) = Some v).
Proof. apply (once_runs_once done_trace (init_state done_trace)). reflexivity. Defined.

Lemma once_panic_blocks_witness :
  oc_once (Init.shared (init_state panic_trace)) = InProgress ∧
  (∀ j v, Init.at_ (init_state panic_trace) j ≠ Init.Returned v ∧
     Init.at_ (init_state panic_trace) j ≠ Init.Unwrapping) ∧
  (∀ j a s', Init.at_ (init_state panic_trace) j = Init.Waiting →
     Init.step (j, a) (init_state panic_trace) = Some s' →
     Init.at_ s' j = Init.Waiting ∧ Init.shared s' = Init.shared (init_state panic_trace)).
Proof. apply (once_panic_blocks panic_trace (init_state panic_trace) 0); reflexivity. Defined.

(** ** The same on the weak memory *)

Definition weak_mutex : WeakMutex.state (T := Z) :=
  default (WeakMutex.init 7) (run_trace (WeakMutex.step WeakMutex.source_orders) mutex_handover (WeakMutex.init 7)).
Definition weak_cell : WeakInit.state (T := Z) :=
  default WeakInit.init (run_trace (WeakInit.step WeakInit.source_orders) (once_handover 5) WeakInit.init).

Lemma mutex_orders_suffice_witness :
  raced (WeakMutex.mem weak_mutex) = false ∧
  ∃ tr' x, run_trace Spin.step tr' (Spin.init 7) = Some x ∧
    mx_data (Spin.shared x) = value (WeakMutex.mem weak_mutex) ∧
    (∀ i, Spin.at_ x i = (WeakMutex.at_ weak_mutex i).1) ∧
    tr' `sublist_of` WeakMutex.erase mutex_handover ∧
    Spin.updates tr' = Spin.updates (WeakMutex.erase mutex_handover).
Proof. apply (mutex_orders_suffice 7 mutex_handover weak_mutex). vm_compute. reflexivity. Defined.

Lemma once_orders_suffice_witness :
  raced (WeakInit.mem weak_cell) = false ∧
  ∃ tr' x, run_trace Init.step tr' Init.init = Some x ∧
    oc_value (Init.shared x) = value (WeakInit.mem weak_cell) ∧
    (∀ i, Init.at_ x i = WeakInit.settled (WeakInit.at_ weak_cell i).1) ∧
    Init.closures tr' = Init.closures (WeakInit.erase (once_handover 5)).
Proof. apply (once_orders_suffice (once_handover 5) weak_cell). vm_compute. reflexivity. Defined.

(** ** One hart, whose whole state is the static *)

#[local] Instance self_lens T : Lens (λ x : OnceCell T, x) (λ x _, x).
Proof. by split. Qed.

Lemma get_or_init_is_run_witness :
  ∃ acts s' k', final (get_or_init (λ x, x) (λ x _, x) (ret 5) OnceCell_new) = Some k' ∧
    run_trace Init.step (map (pair 0%nat) acts) Init.init = Some s' ∧ Init.shared s' = k' ∧
    once_point (get_or_init (λ x, x) (λ x _, x) (ret 5) OnceCell_new) (Init.at_ s' 0) ∧
    (Init.at_ s' 0 = Init.Waiting →
       ∃ s'', Init.step (0%nat, Init.Go) s' = Some s'' ∧ Init.at_ s'' 0 = Init.Waiting ∧ Init.shared s'' = Init.shared s').
Proof.
  apply (get_or_init_is_run (λ x : OnceCell Z, x) (λ x _, x) (ret 5) OnceCell_new 0 Init.init);
    [intros k; reflexivity|vm_compute; discriminate|reflexivity|reflexivity].
Defined.

Lemma locked_section_is_run_witness :
  ∃ acts s' k', final (locked_section (λ x, x) (λ x _, x) (modify (Z.add 1)) (ready 7)) = Some k' ∧
    run_trace Spin.step (map (pair 0%nat) acts) (Spin.init 7) = Some s' ∧ oc_value k' = Some (Spin.shared s') ∧
    mutex_point (locked_section (λ x, x) (λ x _, x) (modify (Z.add 1)) (ready 7)) (Spin.at_ s' 0) ∧
    (Spin.at_ s' 0 = Spin.Spinning →
       ∃ s'', Spin.step (0%nat, Spin.Cas) s' = Some s'' ∧ Spin.at_ s'' 0 = Spin.Spinning ∧ Spin.shared s'' = Spin.shared s').
Proof.
  apply (locked_section_is_run (λ x : OnceCell (Mutex Z), x) (λ x _, x) (modify (Z.add 1)) (ready 7) (mkMutex MFree 7) 0 (Spin.init 7));
    [reflexivity|reflexivity|reflexivity|vm_compute; discriminate].
Defined.
