(* ===== verification/WitnessBoot.v ===== *)
(** * Booting at a concrete memory map: the instances and the witnesses.

    The struct layouts are those of a [repr(C)] compiler; the memory map is the one
    of src/rust/kernel.ld with 64 KB of code and data. *)
From S2P Require Import Prelude Ram Addr Order Buddy BuddyTree BuddyRefine BuddyLoops BuddyInv BuddySpec BuddyRoom MemInit Sync Machine Kernel Heap FixedVec Vm Sv32 PageTable VmSpec Context Trap Proc ProcSpec ProcCreate Sched ProcNew Console Switch Boot Main Rounds TrapKernel Witnesses.

(** ** Layouts, memory map and firmware *)

#[export] Instance demo_profile : Profile := debug.

#[export] Instance demo_layout : Layout :=
  {| fv_size := 20; off_ptr := 0; off_cap := 4; off_addr := 8; off_tag := 12; off_val := 16 |}.
#[export] Instance demo_layout_ok : LayoutOk.
Proof.
  split; [simpl; lia| |unfold apart4; simpl; lia].
  unfold off_all. repeat (constructor; [simpl; lia|]). constructor.
Qed.

#[export] Instance demo_proc : ProcLayout :=
  {| proc_size := 2100; off_stack := 0; off_sp := 2048; off_pid := 2052; off_root := 2056;
     off_second := 2076; off_state := 2096 |}.
#[export] Instance demo_proc_ok : ProcLayoutOk.
Proof. split; unfold sep; change PROC_STACK_SIZE with 2048; simpl; lia. Qed.

(** src/rust/kernel.ld: a stack of 128 KB, 512 KB for the allocator, 64 MB of RAM. *)
#[export] Instance os1k : Linker :=
  {| ld_kernel_base := 2149580800; ld_bss := 2149642240; ld_bss_end := 2149646336;
     ld_stack_top := 2149777408; ld_allocator_mem := 2149777408; ld_allocator_mem_end := 2150301696;
     ld_free_ram := 2150301696; ld_free_ram_end := 2217410560 |}.
#[export] Instance os1k_symbols : Symbols :=
  {| sym_trap_entry := 2149580864; sym_proc_a_entry := 2149584896; sym_proc_b_entry := 2149588992;
     sym_switch_return := 2149593088 |}.
#[export] Instance sbi_ok : Firmware := λ _ _, (0, 0).

Definition zero_machine (r : Ram) : Machine := mkMachine (λ _, 0) (λ _, 0) 0 r.
(** The kernel as it is loaded. *)
Definition fresh_kernel : Kernel := mkKernel (zero_machine ∅) OnceCell_new OnceCell_new [].

Lemma load8_empty a : load8 (∅ : Ram) a = 0.
Proof. unfold load8. by rewrite lookup_empty. Qed.

(** ** Booting *)

Lemma os1k_boot : boot_ok 14.
Proof.
  split; try (vm_compute; repeat split; discriminate).
  - split; try lia; concrete.
  - exists 524976. by vm_compute.
Qed.

Lemma os1k_main : main_ok 14.
Proof.
  split; [exact os1k_boot|..]; vm_compute; repeat split; discriminate.
Qed.

Lemma boot_starts_process_a_witness :
  ∃ t k' pt_a pt_b, boot 0 0 [] fresh_kernel = Ret tt k' ∧
    PROC_TABLE k' = ready t ∧ curr_proc_idx t = 1 ∧
    Machine.pc (cpu k') = sym_proc_a_entry ∧ regs (cpu k') SP = stack_top (proc_at t 1) ∧
    csrs (cpu k') SATP = Z.lor SATP_SV32 (PageTable_root_pt_addr pt_a / PAGE_SIZE) ∧
    csrs (cpu k') SSCRATCH = stack_top (proc_at t 1) ∧ csrs (cpu k') STVEC = sym_trap_entry ∧
    process k' t 1 sym_proc_a_entry pt_a ∧ process k' t 2 sym_proc_b_entry pt_b ∧
    (∀ i, 0 ≤ i < 3 → is_runnable k' t i) ∧ (∀ i, 3 ≤ i < PROC_MAX → is_unused k' t i) ∧
    ecalls k' = [] ++ map putchar_call (text "Hello, World!" ++ [10]).
Proof.
  apply (boot_starts_process_a 14 fresh_kernel 0 []);
    [exact os1k_main|intros r; simpl; unfold word; lia|unfold word; lia|reflexivity|reflexivity].
Defined.

(** Three rounds. *)
Lemma processes_alternate_witness :
  ∃ t k' pts, (boot 0 0 [];;! rounds 3) fresh_kernel = Ret tt k' ∧
    PROC_TABLE k' = ready t ∧ curr_proc_idx t = turn_after 3 ∧
    Machine.pc (cpu k') = sym_switch_return ∧
    regs (cpu k') SP = stack_top (proc_at t (turn_after 3)) ∧
    csrs (cpu k') SATP = Z.lor SATP_SV32 (PageTable_root_pt_addr (pts (turn_after 3)) / PAGE_SIZE) ∧
    (∀ i va, 1 ≤ i ≤ 2 → 0 ≤ va < USIZE_MOD →
       sv32_walk (ram k') (PageTable_root_pt_addr (pts i)) va =
       if in_pages ld_kernel_base ld_free_ram_end va
       then Some (va, Z.lor (Z.lor (Z.lor PAGE_R PAGE_W) PAGE_X) PAGE_V) else None) ∧
    ecalls k' = ecalls fresh_kernel ++ map putchar_call (text "Hello, World!" ++ [10] ++ letters 3 1).
Proof.
  apply (processes_alternate 14 fresh_kernel 0 [] 3);
    [exact os1k_main|intros r; simpl; unfold word; lia|unfold word; lia|reflexivity|reflexivity].
Defined.



Lemma kernel_init_ok_witness :
  (∃ t k', kernel_init 0 [] fresh_kernel = Ret tt k' ∧ sched_ok k' t ∧
     curr_proc_idx t = 0 ∧ table_ready k' t ∧ (∀ i, 0 ≤ i < PROC_MAX → is_unused k' t i) ∧
     csrs (cpu k') STVEC = sym_trap_entry) ∧
  ∀ hart_id, hart_id ≠ 0 → ∃ k', kernel_init hart_id [] fresh_kernel = Hang k' ∧
    ram k' = ram fresh_kernel ∧ MEMORY k' = MEMORY fresh_kernel ∧ PROC_TABLE k' = PROC_TABLE fresh_kernel.
Proof. apply (kernel_init_ok 14); [exact os1k_boot|reflexivity|reflexivity]. Defined.
