(* ===== verification/WitnessHeap.v ===== *)
(** * The theorems on the heap and on vectors at concrete inputs, on a heap of half
    a megabyte whose state is computed. *)
From S2P Require Import Prelude Ram Addr Order Buddy BuddyTree BuddyRefine BuddyLoops BuddyInv BuddySpec BuddyRoom MemInit Sync Machine Kernel Heap FixedVec Vm Sv32 PageTable VmSpec Context Trap Proc ProcSpec ProcCreate Sched ProcNew Console Boot Main Witnesses WitnessBoot.

(** ** A heap of half a megabyte *)

Definition big_start : Z := 2150629376.
Definition big_end : Z := 2151153664.
Lemma big_regions : regions_ok big_start big_end demo_astart demo_aend 7.
Proof. split; try lia; concrete. Qed.
Lemma big_page : (PAGE_SIZE | big_start).
Proof. exists 525056. by vm_compute. Qed.

Lemma mem_init_ready_witness :
  ∃ k', mem_init big_start big_end demo_astart demo_aend fresh_kernel = Ret tt k' ∧
    heap_ready k' ∧ (∀ b, ¬ heap_live k' b) ∧ heap_capacity k' = pow2 (7 + 12) ∧
    (∀ a, heap_region k' a ↔ big_start ≤ a < big_start + pow2 (7 + 12)) ∧
    init_ram demo_astart demo_aend (node_count (big_end - big_start)) (ram fresh_kernel) (ram k') ∧
    ∀ a b c d, mem_init a b c d k' = Ret tt k'.
Proof.
  apply (mem_init_ready big_start big_end demo_astart demo_aend 7 fresh_kernel);
    [exact big_regions|concrete|exact big_page|reflexivity].
Defined.

Lemma heap_before_init_witness :
  ∃ k', (∃ msg, phalloc 4096 fresh_kernel = Panic msg k') ∧
    (∃ msg, phree (PhysAddr_new big_start None) fresh_kernel = Panic msg k') ∧
    (∀ n', phalloc n' k' = Hang k') ∧ (∀ addr', phree addr' k' = Hang k') ∧
    ∀ a b c d, mem_init a b c d k' = Hang k'.
Proof. apply (heap_before_init 4096 (PhysAddr_new big_start None) fresh_kernel). reflexivity. Defined.

(** The kernel with this heap, nothing allocated. *)
Definition heap_kernel : Kernel :=
  mkKernel (zero_machine ∅) (ready (fresh_memory big_start big_end 7)) OnceCell_new [].
Lemma heap_kernel_memory :
  memory_of heap_kernel (fresh_memory big_start big_end 7) ∧ capacity (fresh_memory big_start big_end 7) = pow2 (7 + 12) ∧
  ∀ b, ¬ live_block (fresh_memory big_start big_end 7) b.
Proof. apply (fresh_memory_of _ _ _ _ 7 heap_kernel big_regions); [concrete|exact big_page|reflexivity]. Qed.
Lemma heap_kernel_ready : heap_ready heap_kernel.
Proof. eexists. apply heap_kernel_memory. Qed.
Lemma big_capacity : capacity (fresh_memory big_start big_end 7) = 524288.
Proof. rewrite (proj1 (proj2 heap_kernel_memory)). reflexivity. Qed.
Lemma heap_kernel_capacity : heap_capacity heap_kernel = 524288.
Proof. by vm_compute. Qed.
Lemma big_room : room (fresh_memory big_start big_end 7) 524288.
Proof.
  destruct heap_kernel_memory as ((_ & Hok & _) & _ & Hno). rewrite <- big_capacity. by apply room_empty.
Qed.
Lemma heap_kernel_room : heap_room heap_kernel 524288.
Proof.
  rewrite <- heap_kernel_capacity. apply heap_room_empty; [exact heap_kernel_ready|].
  intros b Hb. destruct (buddy_at _ _ (proj1 heap_kernel_memory)) as (_ & Hl & _).
  exact (proj2 (proj2 heap_kernel_memory) b (proj1 (Hl b) Hb)).
Qed.

Lemma buddy_alloc_frugal_witness :
  ∃ r m', Memory_buddy_alloc 5000 (fresh_memory big_start big_end 7) = Ret r m' ∧
    match r with
    | Ok pa => pa_len pa = block_size 5000 ∧ block_size 5000 ≤ 524288 ∧ room m' (524288 - block_size 5000)
    | Err _ => 524288 < block_size 5000 ∧ room m' 524288
    end.
Proof. apply (buddy_alloc_frugal _ 524288 5000); [exact big_room|rewrite big_capacity; lia]. Defined.

(** ** A vector of 1024 words *)

Definition result_state {S A} (m : M S A) (s : S) : S :=
  match m s with Ret _ s' | Panic _ s' | Hang s' => s' | NoFuel => s end.
(** Two runs of the same computation. *)
Lemma Ret_eq {S A} (m : M S A) s a s1 b s2 : m s = Ret a s1 → m s = Ret b s2 → a = b ∧ s1 = s2.
Proof. intros ->. by injection 1. Qed.
Definition vec_kernel : Kernel := result_state (FixedVec_new 4 1024) heap_kernel.
Definition vec_block : PhysAddr := PhysAddr_new big_start (Some 4096).
Definition vec : FixedVec := mkFixedVec big_start 1024 vec_block.

Lemma vec_run : FixedVec_new 4 1024 heap_kernel = Ret vec vec_kernel.
Proof. by vm_compute. Qed.
Lemma vec_owned : heap_ready vec_kernel ∧ heap_capacity vec_kernel = 524288 ∧ owns vec_kernel 4 1024 vec.
Proof.
  destruct (FixedVec_new_run heap_kernel 4 1024 heap_kernel_ready) as ([pa|e] & k' & _ & _ & Hk' & Hcap & _ & Hr);
    rewrite ?heap_kernel_capacity in *; try lia.
  - destruct Hr as (Hrun & Ho & _). destruct (Ret_eq _ _ _ _ _ _ vec_run Hrun) as [-> ->]. split; [exact Hk'|]. split; [exact Hcap|exact Ho].
  - destruct Hr as (_ & [msg Hrun] & _). rewrite vec_run in Hrun. discriminate.
Qed.

Lemma FixedVec_new_ok_witness :
  ∃ k', only_memory heap_kernel k' ∧ heap_ready k' ∧
    ((∃ v, FixedVec_new 4 1024 heap_kernel = Ret v k' ∧ owns k' 4 1024 v ∧
        ¬ heap_live heap_kernel (fv_phys_addr v) ∧
        (∀ b, heap_live heap_kernel b → disjoint_blocks (fv_phys_addr v) b) ∧
        ∀ b, heap_live k' b ↔ heap_live heap_kernel b ∨ b = fv_phys_addr v) ∨
     (phalloc (1024 * 4) heap_kernel = Ret (Err OutOfMemory) k' ∧
        (∃ msg, FixedVec_new 4 1024 heap_kernel = Panic msg k') ∧
        ∀ b, heap_live k' b ↔ heap_live heap_kernel b)).
Proof.
  apply (FixedVec_new_ok heap_kernel 4 1024 heap_kernel_ready); rewrite ?heap_kernel_capacity; lia.
Defined.

Lemma FixedVec_get_set_witness :
  (let! a := FixedVec_index 4 vec 5 in write32 a 77;;! let! b := FixedVec_index 4 vec 6 in read32 b) vec_kernel =
  (let! b := FixedVec_index 4 vec 6 in
   let! old := read32 b in
   let! a := FixedVec_index 4 vec 5 in
   write32 a 77;;! ret (if 5 =? 6 then 77 else old)) vec_kernel.
Proof. apply (FixedVec_get_set vec_kernel 1024 vec 5 6 77); [exact (proj1 vec_owned)|exact (proj2 (proj2 vec_owned))|lia|lia|lia]. Defined.

Lemma FixedVec_drop_ok_witness :
  ∃ k', FixedVec_drop 4 drop_usize vec vec_kernel = Ret tt k' ∧ only_memory vec_kernel k' ∧ heap_ready k' ∧
    ∀ b, heap_live k' b ↔ heap_live vec_kernel b ∧ b ≠ fv_phys_addr vec.
Proof.
  apply (FixedVec_drop_ok vec_kernel 1024 vec); [exact (proj1 vec_owned)|exact (proj2 (proj2 vec_owned))|].
  rewrite (proj1 (proj2 vec_owned)). concrete.
Defined.

(** 2^30 + 1 words are 2^32 + 4 bytes: in a release build, a block of one page. *)
Lemma heap_kernel_release : @heap_ready release buddy_heap heap_kernel ∧ @heap_capacity release buddy_heap heap_kernel = 524288.
Proof. split; [eexists; exact (proj1 heap_kernel_memory)|by vm_compute]. Qed.

Lemma FixedVec_new_overflow_witness :
  (∃ msg, @FixedVec_new debug 4 1073741825 heap_kernel = Panic msg heap_kernel) ∧
  ∃ v k', @FixedVec_new release 4 1073741825 heap_kernel = Ret v k' ∧
    fv_cap v = 1073741825 ∧ pa_len (fv_phys_addr v) < 1073741825 * 4.
Proof.
  destruct (@FixedVec_new_overflow buddy_heap heap_kernel 4 1073741825) as [Hdebug Hrelease]; try lia.
  split; [exact Hdebug|]. exists (mkFixedVec big_start 1073741825 vec_block).
  assert (∃ k', @FixedVec_new release 4 1073741825 heap_kernel = Ret (mkFixedVec big_start 1073741825 vec_block) k') as [k' Hk'].
  { exists (result_state (@FixedVec_new release 4 1073741825) heap_kernel). by vm_compute. }
  exists k'. split; [exact Hk'|]. revert Hk'. apply Hrelease; [exact (proj1 heap_kernel_release)| |discriminate].
  rewrite (proj2 heap_kernel_release). vm_compute. split; discriminate.
Defined.
