(* ===== verification/WitnessProc.v ===== *)
(** * Processes, the scheduler, context switches and traps at concrete inputs: the
    kernel of src/rust/kernel.ld after [kernel_init] and after its three processes. *)
From S2P Require Import Prelude Ram Addr Order Buddy BuddyInv BuddySpec BuddyRoom MemInit Sync Machine Kernel Heap FixedVec Vm Sv32 PageTable VmSpec Context Trap Proc ProcSpec ProcCreate Sched ProcNew Switch Console Boot Main Witnesses WitnessBoot WitnessHeap.

(** ** Harts *)

(** A hart with three registers set. *)
Definition hart (sp a0 a1 : Z) (r : Ram) : Machine :=
  set_reg A1 a1 (set_reg A0 a0 (set_reg SP sp (zero_machine r))).
Lemma hart_words sp a0 a1 r : word sp → word a0 → word a1 → word_regs (hart sp a0 a1 r).
Proof. intros Hs H0 H1 x. do 3 (apply word_set; [done|]). unfold word. simpl. lia. Qed.

Lemma hart_SP sp a0 a1 r : regs (hart sp a0 a1 r) SP = sp.
Proof. reflexivity. Qed.
Lemma hart_A0 sp a0 a1 r : regs (hart sp a0 a1 r) A0 = a0.
Proof. reflexivity. Qed.
Lemma hart_A1 sp a0 a1 r : regs (hart sp a0 a1 r) A1 = a1.
Proof. reflexivity. Qed.

(** A process on a stack below 4096 is suspended, another one below 8192 resumes it. *)
Lemma switch_context_resumes_witness :
  ∃ m1, switch_context (hart 4096 100 200 ∅) = Ret tt m1 ∧
  ∃ m3, switch_context (hart 8192 300 100 (m_ram m1)) = Ret tt m3 ∧
    Machine.pc m3 = regs (hart 4096 100 200 ∅) RA ∧ regs m3 SP = regs (hart 4096 100 200 ∅) SP ∧
    (∀ r, r ∈ switch_regs → regs m3 r = regs (hart 4096 100 200 ∅) r) ∧
    (∀ r, r ∉ SP :: switch_regs → regs m3 r = regs (hart 8192 300 100 (m_ram m1)) r) ∧
    csrs m3 = csrs (hart 8192 300 100 (m_ram m1)).
Proof.
  destruct (switch_context_total (hart 4096 100 200 ∅)) as [m1 Hm1]. exists m1. split; [exact Hm1|].
  apply (switch_context_resumes (hart 4096 100 200 ∅) m1 (hart 8192 300 100 (m_ram m1))).
  - apply hart_words; unfold word; lia.
  - rewrite hart_SP. lia.
  - unfold cell_apart, frame_of. rewrite hart_SP, hart_A0. lia.
  - exact Hm1.
  - apply hart_words; unfold word; lia.
  - rewrite hart_SP. lia.
  - rewrite hart_A1, hart_A0. reflexivity.
  - intros a Ha. split; [reflexivity|]. unfold switch_writes, context_bytes, frame_of in *.
    rewrite hart_SP, hart_A0 in *. lia.
Defined.

(** A hart in user mode whose trap stack ends at 4096. *)
Definition user : Machine := set_csr SSCRATCH 4096 (hart 9000 1 2 ∅).
Lemma user_words : word_regs user.
Proof. intros r. apply (hart_words 9000 1 2 ∅); unfold word; lia. Qed.
Lemma user_stack : trap_stack_ok user.
Proof. unfold trap_stack_ok. change (csrs user SSCRATCH) with 4096. lia. Qed.

Lemma trap_entry_transparent_witness :
  ∃ m3, trap_entry 2149580928 (ret tt) user = Ret tt m3 ∧ (∀ r, regs m3 r = regs user r) ∧
    csrs m3 SSCRATCH = csrs user SSCRATCH ∧ Machine.pc m3 = csrs m3 SEPC.
Proof.
  apply (trap_entry_transparent 2149580928 (ret tt) user user_words user_stack).
  intros m1 _. exists m1. split; [reflexivity|]. split; [reflexivity|]. split; [reflexivity|]. intros a _. reflexivity.
Defined.

Lemma trap_entry_panics_witness :
  ∃ m1, trap_entry 2149580928 trap_handler user =
      Panic (trap_message (csrs user SCAUSE) (csrs user STVAL) (csrs user SEPC)) m1 ∧
    regs m1 A0 = csrs user SSCRATCH - 4 * Z.of_nat (length TrapFrame) ∧
    words_at (m_ram m1) (regs m1 A0) (map (regs user) TrapFrame) ∧
    csrs m1 SSCRATCH = csrs user SSCRATCH.
Proof. apply (trap_entry_panics 2149580928 user user_words user_stack). Defined.

(** ** Page tables on the half-megabyte heap *)

Lemma heap_kernel_clean : clean heap_kernel.
Proof. intros a _ _. apply load8_empty. Qed.
Lemma heap_kernel_tables : 1024 * fv_size ≤ heap_capacity heap_kernel ∧ 4096 ≤ heap_capacity heap_kernel.
Proof. rewrite heap_kernel_capacity. change fv_size with 20. lia. Qed.

Lemma PageTable_new_ok_witness :
  clean heap_kernel ∧
  ((∃ pt k', PageTable_new heap_kernel = Ret pt k' ∧ heap_ready k' ∧ ram k' = ram heap_kernel ∧
     owns k' 4 1024 (root_pt pt) ∧ owns k' fv_size 1024 (second_pts pt) ∧ blk (root_pt pt) ≠ blk (second_pts pt) ∧
     (∀ b, heap_live k' b ↔ heap_live heap_kernel b ∨ b = blk (root_pt pt) ∨ b = blk (second_pts pt)) ∧
     (∀ b, b = blk (root_pt pt) ∨ b = blk (second_pts pt) → ¬ heap_live heap_kernel b) ∧
     (clean heap_kernel → pt_ok k' pt ∧ clean k' ∧
        (∀ b, pt_block k' pt b ↔ b = blk (root_pt pt) ∨ b = blk (second_pts pt)) ∧
        ∀ va, 0 ≤ va < USIZE_MOD → sv32_walk (ram k') (PageTable_root_pt_addr pt) va = None)) ∨
  (∃ msg k', PageTable_new heap_kernel = Panic msg k' ∧ starved heap_kernel new_cost k' ∧
     ∀ f, heap_room heap_kernel f → f < new_cost)).
Proof.
  split; [exact heap_kernel_clean|].
  apply (PageTable_new_ok heap_kernel heap_kernel_ready);
    [exact (proj1 heap_kernel_tables)|exact (proj2 heap_kernel_tables)].
Defined.

(** A new table, its kernel, and the room that is left. *)
Lemma table_made : ∃ pt k, PageTable_new heap_kernel = Ret pt k ∧ pt_ok k pt ∧ heap_ready k ∧ clean k.
Proof.
  destruct (PageTable_new_run heap_kernel heap_kernel_ready heap_kernel_clean (proj1 heap_kernel_tables)
    (proj2 heap_kernel_tables)) as [(pt & k & Hrun & _ & Hk & Hc & Hpt & _)|(msg & k & Hrun & Hst)].
  - exists pt, k. split; [exact Hrun|]. split; [exact Hpt|]. split; [exact Hk|exact Hc].
  - pose proof (starved_room _ _ _ _ heap_kernel_room Hst) as Hlt. revert Hlt. vm_compute. discriminate.
Qed.

(** Three calls: both addresses aligned, and one of them not. *)
Lemma map_page_translates_witness :
  ∃ pt k, PageTable_new heap_kernel = Ret pt k ∧
  ((∃ k', PageTable_map_page pt 12288 8192 (Z.lor PAGE_R PAGE_W) k = Ret tt k' ∧ pt_ok k' pt ∧ heap_ready k' ∧ clean k' ∧
     (∀ va, 0 ≤ va < USIZE_MOD →
        sv32_walk (ram k') (PageTable_root_pt_addr pt) va =
        if va / 4096 =? 12288 / 4096 then Some (8192 + va mod 4096, Z.lor (Z.lor PAGE_R PAGE_W) PAGE_V)
        else sv32_walk (ram k) (PageTable_root_pt_addr pt) va) ∧
     ∀ a, (∀ b, pt_block k' pt b → ¬ inside b a) → load8 (ram k') a = load8 (ram k) a) ∨
   (∃ msg k', PageTable_map_page pt 12288 8192 (Z.lor PAGE_R PAGE_W) k = Panic msg k' ∧ sub_absent k pt (12288 / 4194304) ∧
     phalloc 4096 k = Ret (Err OutOfMemory) k')) ∧
  PageTable_map_page pt 12289 8192 (Z.lor PAGE_R PAGE_W) k = Panic "unaligned vaddr 3001" k ∧
  PageTable_map_page pt 12288 8200 (Z.lor PAGE_R PAGE_W) k = Panic "unaligned paddr 2008" k.
Proof.
  destruct table_made as (pt & k & Hrun & Hpt & Hk & Hc). exists pt, k. split; [exact Hrun|]. split; [|split].
  - apply (map_page_translates k pt 12288 8192 (Z.lor PAGE_R PAGE_W) Hk Hc Hpt);
      first [reflexivity | vm_compute; split; [discriminate|reflexivity]].
  - apply (map_page_translates k pt 12289 8192 (Z.lor PAGE_R PAGE_W) Hk Hc Hpt);
      first [reflexivity | vm_compute; split; [discriminate|reflexivity]].
  - apply (map_page_translates k pt 12288 8200 (Z.lor PAGE_R PAGE_W) Hk Hc Hpt);
      first [reflexivity | vm_compute; split; [discriminate|reflexivity]].
Defined.

(** ** The process table after [kernel_init] *)

Lemma init_kernel :
  ∃ t k, kernel_init 0 [] fresh_kernel = Ret tt k ∧ sched_ok k t ∧ table_ready k t ∧
    ∀ i, 0 ≤ i < PROC_MAX → is_unused k t i.
Proof.
  destruct (kernel_init_run 14 fresh_kernel [] os1k_boot eq_refl eq_refl) as (t & k & Hrun & Hs & _ & Hr & Hu & _).
  exists t, k. exact (conj Hrun (conj Hs (conj Hr Hu))).
Qed.

Lemma create_process_ok_witness :
  ∃ t k, kernel_init 0 [] fresh_kernel = Ret tt k ∧
  ((∃ i pt k', create_process t sym_proc_a_entry k = Ret i k' ∧ 0 ≤ i < PROC_MAX ∧ is_unused k t i ∧
     (∀ j, 0 ≤ j < i → ¬ is_unused k t j) ∧ created k k' t i sym_proc_a_entry pt ∧ table_ready k' t) ∨
   (∃ msg, create_process t sym_proc_a_entry k = Panic msg k ∧ ∀ j, 0 ≤ j < PROC_MAX → ¬ is_unused k t j) ∨
   (∃ msg k', create_process t sym_proc_a_entry k = Panic msg k' ∧ starved k create_cost k' ∧
     ∀ f, heap_room k f → f < create_cost)).
Proof.
  destruct init_kernel as (t & k & Hrun & _ & Hr & _). exists t, k. split; [exact Hrun|].
  apply (create_process_ok k t sym_proc_a_entry Hr (mo_linker _ os1k_main) (mo_kernel _ os1k_main) (mo_a _ os1k_main)).
Defined.

Lemma giveup_switches_witness :
  ∃ t k, kernel_init 0 [] fresh_kernel = Ret tt k ∧
  ∃ next m, chosen k t next ∧ switch_context (switching k t next) = Ret tt m ∧
    proc_giveup k = Ret tt (set_cpu m (set_PROC_TABLE (ready (mkProcTable (table t) next)) k)).
Proof.
  destruct init_kernel as (t & k & Hrun & Hs & _). exists t, k. split; [exact Hrun|].
  apply (giveup_switches k t Hs).
Defined.

(** ** Three processes *)

(** The kernel on the boot stack. *)
Definition boot_stack : Kernel := set_cpu (set_reg SP ld_stack_top (cpu fresh_kernel)) fresh_kernel.

Lemma three_processes :
  ∃ t k pt0 pt1 pt2, process k t 0 0 pt0 ∧ process k t 1 sym_proc_a_entry pt1 ∧ process k t 2 sym_proc_b_entry pt2 ∧
    (∀ i, 3 ≤ i < PROC_MAX → is_unused k t i) ∧ sched_ok k t ∧ table_ready k t ∧ curr_proc_idx t = 0 ∧
    frame_private k t ∧ word_regs (cpu k) ∧ regs (cpu k) SP = ld_stack_top.
Proof.
  destruct (kernel_setup_run 14 boot_stack [] os1k_main eq_refl eq_refl) as
    (t & k & pt0 & pt1 & pt2 & _ & P0 & P1 & P2 & Hu & Hs & Hr & Hc & Hreg & Hregs & _).
  exists t, k, pt0, pt1, pt2. split; [exact P0|]. split; [exact P1|]. split; [exact P2|].
  split; [exact Hu|]. split; [exact Hs|]. split; [exact Hr|]. split; [exact Hc|].
  split; [|split; [|rewrite Hregs; reflexivity]].
  - intros a Ha. right. intros Har%Hreg. rewrite Hregs in Ha. change (regs (cpu boot_stack) SP) with ld_stack_top in Ha.
    change ld_stack_top with 2149777408 in Ha. change ld_free_ram with 2150301696 in Har. lia.
  - intros r. rewrite Hregs. apply word_set; [split; [discriminate|reflexivity]|unfold word; simpl; lia].
Qed.

Lemma new_process_starts_witness :
  ∃ k t pt, process k t 1 sym_proc_a_entry pt ∧
  ∃ m', switch_context (switching k t 1) = Ret tt m' ∧ Machine.pc m' = sym_proc_a_entry ∧ regs m' RA = sym_proc_a_entry ∧
    regs m' SP = stack_top (proc_at t 1) ∧
    (∀ r, r ∈ [S0; S1; S2; S3; S4; S5; S6; S7; S8; S9; S10; S11] → regs m' r = 0) ∧
    csrs m' = csrs (switching k t 1) ∧
    ∀ a, ¬ switch_writes (switching k t 1) a → load8 (m_ram m') a = load8 (m_ram (switching k t 1)) a.
Proof.
  destruct three_processes as (t & k & pt0 & pt1 & pt2 & P0 & P1 & P2 & Hu & Hs & Hr & Hc & Hp & Hw & HSP).
  exists k, t, pt1. split; [exact P1|].
  destruct (switching_words k t 1 Hs (tr_ready _ _ Hr) ltac:(split; [discriminate|reflexivity]) (mo_return _ os1k_main) Hw) as (Hw' & HSP' & _ & HA1 & Hram).
  apply (new_process_starts k t 1 sym_proc_a_entry pt1 (switching k t 1) P1 Hram Hw').
  - rewrite HSP', HSP. discriminate.
  - exact HA1.
  - apply (stack_top_word k); [exact (tr_ready _ _ Hr)|exact (tr_owns _ _ Hr)|split; [discriminate|reflexivity]].
  - intros a. apply (switch_spares k t 1 a Hs (tr_ready _ _ Hr) Hp); [split; [discriminate|reflexivity]|rewrite Hc; discriminate].
Defined.

(** ** Two processes that only yield *)

(** The current process after [n] calls of [give_up], from the idle process. *)
Definition turn (n : nat) : Z := match n with O => 0 | S n => if Nat.even n then 1 else 2 end.
Definition turns (k : Kernel) (t : ProcTable) (n : nat) : Kernel :=
  set_PROC_TABLE (ready (with_current t (turn n))) k.

Lemma turn_cases n : (turn n = 0 ∨ turn n = 2) ∧ turn (S n) = 1 ∨ turn n = 1 ∧ turn (S n) = 2.
Proof.
  destruct n as [|n]; [left; split; [by left|reflexivity]|].
  cbn [turn]. rewrite Nat.even_succ, <- Nat.negb_even. destruct (Nat.even n); simpl; tauto.
Qed.

Lemma turns_sched k t n : sched_ok k t → sched_ok (turns k t n) (with_current t (turn n)).
Proof.
  intros [_ Ho _]. split; [reflexivity|by eapply owns_frame; [intros b; by apply heap_frame|exact Ho]|].
  simpl. unfold PROC_MAX. destruct (turn_cases n) as [[[-> | ->] _]|[-> _]]; lia.
Qed.

Lemma turns_chosen k t n :
  is_runnable k t 1 → is_runnable k t 2 → (∀ i, 3 ≤ i < PROC_MAX → is_unused k t i) →
  chosen (turns k t n) (with_current t (turn n)) (turn (S n)).
Proof.
  intros H1 H2 Hu. left. destruct (turn_cases n) as [[Hn ->]|[Hn ->]]; cbn [with_current curr_proc_idx];
    (split; [unfold PROC_MAX; lia|]); (split; [assumption|]); (split; [lia|]); intros l Hl; [lia|].
  intros _. lia.
Qed.

Lemma turns_yield k t :
  sched_ok k t → is_runnable k t 1 → is_runnable k t 2 → (∀ i, 3 ≤ i < PROC_MAX → is_unused k t i) →
  yields (table t) (λ i, i = 1 ∨ i = 2) (turns k t).
Proof.
  intros Hs H1 H2 Hu. split.
  - intros n. exists (turn n). by apply turns_sched.
  - intros n t' i Ht Hi. injection Ht as <-.
    change (is_runnable k t i ↔ i = 1 ∨ i = 2). split; [|by intros [-> | ->]].
    intros Hr. destruct (decide (i < 3)) as [|Hge]; [lia|]. specialize (Hu i ltac:(lia)).
    unfold is_runnable, is_unused in *. rewrite Hu in Hr. discriminate.
  - intros n. destruct (giveup_returns _ _ (turns_sched k t n Hs)) as (next & m & Hch & _ & Hrun).
    eexists. split; [exact Hrun|]. rewrite (chosen_unique _ _ _ _ Hch (turns_chosen k t n H1 H2 Hu)). reflexivity.
Qed.

Lemma giveup_alternates_witness :
  ∃ k t, sched_ok k t ∧ ∀ n,
    PROC_TABLE (turns k t (2 * n + 1)) = ready (mkProcTable (table t) 1) ∧
    PROC_TABLE (turns k t (2 * n + 2)) = ready (mkProcTable (table t) 2).
Proof.
  destruct three_processes as (t & k & pt0 & pt1 & pt2 & P0 & P1 & P2 & Hu & Hs & _). exists k, t. split; [exact Hs|].
  apply (giveup_alternates (table t) (λ i, i = 1 ∨ i = 2) (turns k t) 1 2
    (turns_yield k t Hs (pr_state _ _ _ _ _ P1) (pr_state _ _ _ _ _ P2) Hu));
    first [discriminate|reflexivity|by left|by right|intros l Hl Hr; lia].
Defined.
