(* ===== verification/WitnessVm.v ===== *)
(** * Dropped page tables at concrete inputs, on the half-megabyte heap. *)
From S2P Require Import Prelude Ram Addr Order Buddy BuddyInv BuddySpec BuddyRoom MemInit Sync Machine Kernel Heap FixedVec Vm Sv32 PageTable VmSpec PageDrop Console Boot Main Witnesses WitnessBoot WitnessHeap WitnessProc.

(** Two pages of one second-level table, the first mapped twice, and one of another. *)
Definition demo_maps : list (Z * Z * Z) :=
  [(12288, 8192, Z.lor PAGE_R PAGE_W); (16384, 4096, PAGE_R); (12288, 65536, PAGE_R); (2147483648, 0, PAGE_X)].
Lemma demo_maps_ok : Forall mapping_ok demo_maps.
Proof. repeat constructor; vm_compute; try reflexivity; discriminate. Qed.

Lemma PageTable_lifecycle_witness :
  ∃ pt k1 k2 k3, PageTable_new heap_kernel = Ret pt k1 ∧ map_all pt demo_maps k1 = Ret tt k2 ∧
    (∀ va, 0 ≤ va < USIZE_MOD →
       sv32_walk (ram k2) (PageTable_root_pt_addr pt) va = mapped_all demo_maps va None) ∧
    PageTable_drop pt k2 = Ret tt k3 ∧ heap_ready k3 ∧ ram k3 = ram k2 ∧ ∀ b, heap_live k3 b ↔ heap_live heap_kernel b.
Proof.
  apply (PageTable_lifecycle heap_kernel demo_maps 524288 heap_kernel_ready heap_kernel_clean demo_maps_ok heap_kernel_room);
    [vm_compute; discriminate|exact (proj1 heap_kernel_tables)|exact (proj2 heap_kernel_tables)].
Defined.

Lemma PageTable_drop_ok_witness :
  ∃ pt k, PageTable_new heap_kernel = Ret pt k ∧
  ∃ k', PageTable_drop pt k = Ret tt k' ∧ only_memory k k' ∧ heap_ready k' ∧
    ∀ b, heap_live k' b ↔ heap_live k b ∧ ¬ pt_block k pt b.
Proof.
  destruct table_made as (pt & k & Hrun & Hpt & Hk & _). exists pt, k. split; [exact Hrun|].
  exact (PageTable_drop_ok k pt Hk Hpt).
Defined.

(** [drop] leaves the bytes of its block, and [new] does not clear them: a page table
    made after another one was dropped gets its blocks, and translates like it. *)
Definition second_table : M Kernel PageTable :=
  let! pt := PageTable_new in
  map_all pt demo_maps;;!
  PageTable_drop pt;;!
  PageTable_new.

Example reused_table_stale :
  match second_table heap_kernel with
  | Ret pt k => sv32_walk (ram k) (PageTable_root_pt_addr pt) 12300 = Some (65548, Z.lor PAGE_R PAGE_V)
  | _ => False
  end.
Proof. vm_compute. reflexivity. Qed.
